(** * aws-neuron-tensorflow: the runtime client, verified against its sources

    A shallow embedding of
      - [runtime/tensor_util.cc] (module [TensorUtil]),
      - the translation unit of [SharedMemoryManager], [NeuronDevice] and
        [NeuronDeviceManager] (one module each, over the common [Nrt]),
      - the translation unit of [RuntimeGRPC] (module [RuntimeGRPC]),
      - [NeuronExecutableInfo] (module [ExecutableInfo]),
      - [runtime/direct/function.cc] (module [NeuronFunction]).

    Conventions.  A C++ integer is a [Z]; a container index is a [nat]; a
    byte string ([std::string], [StringPiece], a tensor's storage) is a
    [list byte] or a [string]; [std::set<uint32_t>] is a [gset Z].  Every
    call that leaves the process (an RPC to neuron-rtd, a system call) is
    answered by an environment function of the calls made so far, and is
    appended to that log, so that "which calls, in which order" is a
    statement about a list. *)

From Stdlib Require Import ZArith List Lia String Ascii DecimalString.
From stdpp Require Import base numbers list gmap strings sorting.

Local Open Scope Z_scope.

(** ** tensorflow::Status *)

Inductive Code : Type :=
  | INTERNAL | UNAVAILABLE | UNIMPLEMENTED | OUT_OF_RANGE | INVALID_ARGUMENT.

Inductive Status : Type :=
  | OK
  | Error (code : Code) (msg : string).

Definition ok (s : Status) : bool :=
  match s with OK => true | Error _ _ => false end.

Definition status_code (s : Status) : option Code :=
  match s with OK => None | Error c _ => Some c end.

Module TensorUtil.

Abbreviation byte := Byte.byte.

(** *** Memory

    A buffer is an object of the C++ abstract machine: the address of its
    first byte and its contents.  Two buffers are two objects, so a source and
    a destination given as two buffers do not overlap.  An access outside an
    object is undefined behaviour: [load] and [store] answer [None]. *)

Record Buffer : Type := { base : Z; bytes : list byte }.

Definition load (w : nat) (m : list byte) (off : nat) : option (list byte) :=
  if decide (off + w <= length m)%nat then Some (take w (drop off m)) else None.

Definition store (m : list byte) (off : nat) (v : list byte) : option (list byte) :=
  if decide (off + length v <= length m)%nat
  then Some (take off m ++ v ++ drop (off + length v) m)
  else None.

(** [while (size--) *dd++ = *ss++;] over objects of [w] bytes: the object
    representation of a [uintN_t] is its [w] bytes, moved as they are. *)
Fixpoint copy_words (w n : nat) (dst : list byte) (doff : nat)
    (src : list byte) (soff : nat) : option (list byte) :=
  match n with
  | O => Some dst
  | S n' =>
      v ← load w src soff;
      dst' ← store dst doff v;
      copy_words w n' dst' (doff + w)%nat src (soff + w)%nat
  end.

(** A [void* (void*, const void*, size_t)]: destination object and offset,
    source object and offset, size. *)
Definition MemcpyFunc : Type :=
  list byte -> nat -> list byte -> nat -> Z -> option (list byte).

(** [size = size * sizeof(uint8_t) / sizeof(uint64_t)] *)
Definition memcpy_uint64 : MemcpyFunc := fun dst doff src soff size =>
  copy_words 8 (Z.to_nat (size * 1 / 8)) dst doff src soff.

Definition memcpy_uint32 : MemcpyFunc := fun dst doff src soff size =>
  copy_words 4 (Z.to_nat (size * 1 / 4)) dst doff src soff.

(** [std::memcpy] and [std::copy_n] on chars: the plain byte-for-byte copy. *)
Definition std_memcpy : MemcpyFunc := fun dst doff src soff size =>
  copy_words 1 (Z.to_nat size) dst doff src soff.

Definition copy_n (src : list byte) (soff : nat) (count : Z)
    (dst : list byte) (doff : nat) : option (list byte) :=
  copy_words 1 (Z.to_nat count) dst doff src soff.

Definition IS_4BYTE_ALIGNED (ptr : Z) : bool := ptr mod 4 =? 0.
Definition IS_8BYTE_ALIGNED (ptr : Z) : bool := ptr mod 8 =? 0.

(** [thread::ThreadPool::ParallelFor(total, cost_per_unit, fn)] belongs to
    TensorFlow: it calls [fn(begin, end)] on blocks that partition
    [[0, total)].  A pool is the blocks it picks; the shards of [fast_memcpy]
    write disjoint slices, so running the blocks one after the other in the
    order the pool lists them stands for any interleaving. *)
Record ThreadPool : Type := { shard : Z -> Z -> list (Z * Z) }.

Definition block_indices (b : Z * Z) : list Z := seqZ (fst b) (snd b - fst b).

Definition ThreadPool_ok (tp : ThreadPool) : Prop :=
  forall total cost, 0 <= total ->
    Permutation (flat_map block_indices (shard tp total cost)) (seqZ 0 total).

Definition ParallelFor (tp : ThreadPool) (total cost_per_unit : Z)
    (fn : Z -> Z -> list byte -> option (list byte)) (dst : list byte)
    : option (list byte) :=
  foldl (fun acc b => d ← acc; fn (fst b) (snd b) d) (Some dst)
        (shard tp total cost_per_unit).

(** The slices of the parallel branch: [num_parallel] of them, each
    [slice_size] long but the last, slice [idx] at offset [idx * slice_size]. *)
Definition num_parallel : Z := 8.

Definition slice_size (total_size alignment : Z) : Z :=
  let slice_size := total_size ÷ num_parallel in
  slice_size - Z.rem slice_size alignment.

Definition last_slice_size (total_size alignment : Z) : Z :=
  total_size - slice_size total_size alignment * (num_parallel - 1).

Definition vec_slice_size (total_size alignment : Z) : list Z :=
  <[Z.to_nat (num_parallel - 1) := last_slice_size total_size alignment]>
    (replicate (Z.to_nat num_parallel) (slice_size total_size alignment)).

Definition vec_memcpy_func (total_size alignment : Z) (memcpy_func : MemcpyFunc)
    : list MemcpyFunc :=
  if bool_decide (Z.rem (last_slice_size total_size alignment) alignment <> 0)
  then <[Z.to_nat (num_parallel - 1) := std_memcpy]>
         (replicate (Z.to_nat num_parallel) memcpy_func)
  else replicate (Z.to_nat num_parallel) memcpy_func.

(** One index of the [memcpy_shard] lambda. *)
Definition memcpy_slice (total_size alignment : Z) (memcpy_func : MemcpyFunc)
    (src : list byte) (idx : Z) (d : list byte) : option (list byte) :=
  let offset := idx * slice_size total_size alignment in
  f ← vec_memcpy_func total_size alignment memcpy_func !! Z.to_nat idx;
  n ← vec_slice_size total_size alignment !! Z.to_nat idx;
  f d (Z.to_nat offset) src (Z.to_nat offset) n.

(** [for (int64 idx = begin; idx < end; ++idx)] *)
Definition memcpy_shard (total_size alignment : Z) (memcpy_func : MemcpyFunc)
    (src : list byte) (begin end_ : Z) (d0 : list byte) : option (list byte) :=
  foldl (fun acc idx => d ← acc; memcpy_slice total_size alignment memcpy_func src idx d)
        (Some d0) (seqZ begin (end_ - begin)).

Definition fast_memcpy (thread_pool : option ThreadPool) (dst src : Buffer)
    (total_size : Z) : option (list byte) :=
  let char_dst := base dst in
  let char_src := base src in
  if total_size <? 1024 then
    copy_n (bytes src) 0 total_size (bytes dst) 0
  else if (total_size <=? 1024 * 1024 * 4) || negb (bool_decide (is_Some thread_pool)) then
    let '(copy_size, memcpy_func) :=
      if IS_8BYTE_ALIGNED char_src && IS_8BYTE_ALIGNED char_dst
      then (total_size ÷ 8 * 8, memcpy_uint64)
      else if IS_4BYTE_ALIGNED char_src && IS_4BYTE_ALIGNED char_dst
      then (total_size ÷ 4 * 4, memcpy_uint32)
      else (total_size, std_memcpy) in
    d ← memcpy_func (bytes dst) 0%nat (bytes src) 0%nat copy_size;
    if bool_decide (copy_size <> total_size)
    then std_memcpy d (Z.to_nat copy_size) (bytes src) (Z.to_nat copy_size)
                    (total_size - copy_size)
    else Some d
  else
    let '(alignment, memcpy_func) :=
      if IS_8BYTE_ALIGNED char_src && IS_8BYTE_ALIGNED char_dst
      then (8, memcpy_uint64)
      else if IS_4BYTE_ALIGNED char_src && IS_4BYTE_ALIGNED char_dst
      then (4, memcpy_uint32)
      else (1, std_memcpy) in
    match thread_pool with
    | Some tp =>
        ParallelFor tp num_parallel (slice_size total_size alignment)
          (memcpy_shard total_size alignment memcpy_func (bytes src)) (bytes dst)
    | None => None
    end.

(** *** Tensors *)

(** [DataType] and [DataTypeCanUseMemcpy] are TensorFlow's. *)
Record Tensor (DataType : Type) : Type :=
  { dtype : DataType; tensor_data : Buffer }.
Arguments dtype {DataType} _.
Arguments tensor_data {DataType} _.

Section TensorMemcpy.
Context {DataType : Type}.
Variable DataTypeCanUseMemcpy : DataType -> bool.

(** The copy size [tensor_memcpy] settles on once its checks have passed. *)
Definition effective_size (tensor : Tensor DataType) (memcpy_size : Z) : Z :=
  let dst_size := Z.of_nat (length (bytes (tensor_data tensor))) in
  if memcpy_size <? 0 then dst_size else memcpy_size.

(** Returns the status and the tensor's storage afterwards; [None] would be an
    access outside the source or the destination. *)
Definition tensor_memcpy (thread_pool : option ThreadPool)
    (tensor : Tensor DataType) (source : Buffer) (memcpy_size : Z)
    : option (Status * list byte) :=
  if negb (DataTypeCanUseMemcpy (dtype tensor)) then
    Some (Error UNIMPLEMENTED "tensor_memcpy on data type is not allowed",
          bytes (tensor_data tensor))
  else
    let dst_size := Z.of_nat (length (bytes (tensor_data tensor))) in
    let memcpy_size := if memcpy_size <? 0 then dst_size else memcpy_size in
    if (memcpy_size >? Z.of_nat (length (bytes source))) || (memcpy_size >? dst_size) then
      Some (Error OUT_OF_RANGE "unexpected tensor size in tensor_memcpy",
            bytes (tensor_data tensor))
    else
      d ← fast_memcpy thread_pool (tensor_data tensor) source memcpy_size;
      Some (OK, d).

End TensorMemcpy.

(** *** What a copy leaves behind

    [blit dst doff src soff n] is [dst] with the [n] bytes from offset [doff]
    replaced by the [n] bytes of [src] from offset [soff]; every other byte of
    [dst] as it was. *)
Definition blit (dst : list byte) (doff : nat) (src : list byte) (soff n : nat)
    : list byte :=
  take doff dst ++ take n (drop soff src) ++ drop (doff + n) dst.

(** The plain byte-for-byte copy of the first [total_size] bytes. *)
Definition plain_copy (dst src : list byte) (total_size : Z) : option (list byte) :=
  std_memcpy dst 0%nat src 0%nat total_size.

Lemma length_blit dst doff src soff n :
  (doff + n <= length dst)%nat -> (soff + n <= length src)%nat ->
  length (blit dst doff src soff n) = length dst.
Proof.
  intros Hd Hs. unfold blit.
  rewrite !length_app, !length_take, !length_drop. lia.
Qed.

Lemma lookup_blit dst doff src soff n i :
  (doff + n <= length dst)%nat -> (soff + n <= length src)%nat ->
  blit dst doff src soff n !! i =
    if decide (doff <= i < doff + n)%nat then src !! (soff + (i - doff))%nat
    else dst !! i.
Proof.
  intros Hd Hs. unfold blit.
  destruct (decide (i < doff)%nat) as [Hlt|Hge].
  - rewrite lookup_app_l by (rewrite length_take; lia).
    rewrite lookup_take. repeat case_decide; try lia. done.
  - rewrite lookup_app_r by (rewrite length_take; lia).
    rewrite length_take, Nat.min_l by lia.
    destruct (decide (i < doff + n)%nat) as [Hin|Hout].
    + rewrite lookup_app_l by (rewrite length_take, length_drop; lia).
      rewrite lookup_take, lookup_drop. repeat case_decide; try lia. done.
    + rewrite lookup_app_r by (rewrite length_take, length_drop; lia).
      rewrite length_take, length_drop, Nat.min_l by lia.
      rewrite lookup_drop. case_decide; try lia. f_equal. lia.
Qed.

Lemma blit_blit dst doff src soff a b :
  (doff + (a + b) <= length dst)%nat -> (soff + (a + b) <= length src)%nat ->
  blit (blit dst doff src soff a) (doff + a) src (soff + a) b
  = blit dst doff src soff (a + b).
Proof.
  intros Hd Hs. apply list_eq. intros i.
  rewrite lookup_blit by (rewrite ?length_blit; lia).
  rewrite !lookup_blit by lia.
  repeat case_decide; try lia; try done. f_equal. lia.
Qed.

Lemma blit_0 dst src n :
  (n <= length dst)%nat -> (n <= length src)%nat ->
  blit dst 0 src 0 n = take n src ++ drop n dst.
Proof. intros. unfold blit. by rewrite take_0, drop_0. Qed.

Lemma blit_nil dst doff src soff :
  (doff <= length dst)%nat -> blit dst doff src soff 0 = dst.
Proof.
  intros. unfold blit. rewrite take_0, Nat.add_0_r. simpl. apply take_drop.
Qed.

Lemma copy_words_blit w n : forall dst doff src soff,
  (doff + w * n <= length dst)%nat -> (soff + w * n <= length src)%nat ->
  copy_words w n dst doff src soff = Some (blit dst doff src soff (w * n)).
Proof.
  induction n as [|n IH]; intros dst doff src soff Hd Hs.
  - simpl. rewrite Nat.mul_0_r, blit_nil by lia. done.
  - simpl. unfold load. rewrite decide_True by lia. simpl.
    assert (Hv : length (take w (drop soff src)) = w)
      by (rewrite length_take, length_drop; lia).
    unfold store. rewrite Hv, decide_True by lia. simpl.
    change (take doff dst ++ take w (drop soff src) ++ drop (doff + w) dst)
      with (blit dst doff src soff w).
    rewrite IH by (rewrite ?length_blit; lia).
    rewrite blit_blit by lia. do 2 f_equal. lia.
Qed.

(** A copy routine that moves [w]-byte objects copies a size that is a
    multiple of [w] exactly. *)
Definition copies_width (w : Z) (f : MemcpyFunc) : Prop :=
  0 < w /\
  forall d doff src soff n,
    0 <= n -> n mod w = 0 ->
    (doff + Z.to_nat n <= length d)%nat -> (soff + Z.to_nat n <= length src)%nat ->
    f d doff src soff n = Some (blit d doff src soff (Z.to_nat n)).

Lemma std_memcpy_width : copies_width 1 std_memcpy.
Proof.
  split; [lia|]. intros d doff src soff n Hn _ Hd Hs.
  unfold std_memcpy. rewrite copy_words_blit by lia. do 2 f_equal. lia.
Qed.

Lemma memcpy_uint32_width : copies_width 4 memcpy_uint32.
Proof.
  split; [lia|]. intros d doff src soff n Hn Hm Hd Hs.
  unfold memcpy_uint32. rewrite Z.mul_1_r.
  assert (n = 4 * (n / 4)) by (pose proof (Z.div_mod n 4); lia).
  rewrite copy_words_blit by lia. do 2 f_equal. lia.
Qed.

Lemma memcpy_uint64_width : copies_width 8 memcpy_uint64.
Proof.
  split; [lia|]. intros d doff src soff n Hn Hm Hd Hs.
  unfold memcpy_uint64. rewrite Z.mul_1_r.
  assert (n = 8 * (n / 8)) by (pose proof (Z.div_mod n 8); lia).
  rewrite copy_words_blit by lia. do 2 f_equal. lia.
Qed.

(** The word-copy branch: [copy_size] bytes by words, the remainder by bytes. *)
Lemma aligned_branch_blit w f (dst src : list byte) total_size :
  copies_width w f ->
  0 <= total_size ->
  (Z.to_nat total_size <= length dst)%nat ->
  (Z.to_nat total_size <= length src)%nat ->
  (d ← f dst 0%nat src 0%nat (total_size ÷ w * w);
   if bool_decide (total_size ÷ w * w <> total_size)
   then std_memcpy d (Z.to_nat (total_size ÷ w * w)) src (Z.to_nat (total_size ÷ w * w))
                   (total_size - total_size ÷ w * w)
   else Some d)
  = Some (blit dst 0 src 0 (Z.to_nat total_size)).
Proof.
  intros [Hw Hf] Hn Hd Hs.
  rewrite Z.quot_div_nonneg by lia.
  pose proof (Z.div_mod total_size w ltac:(lia)) as Hdm.
  pose proof (Z.mod_pos_bound total_size w Hw) as Hmb.
  assert (Hq : 0 <= total_size / w) by (apply Z.div_pos; lia).
  set (cs := total_size / w * w) in *.
  assert (Hcs : 0 <= cs <= total_size) by (unfold cs; nia).
  rewrite Hf; [| lia | unfold cs; apply Z.mod_mul; lia | lia | lia ].
  simpl. case_bool_decide as Hne.
  - destruct std_memcpy_width as [_ Hb].
    rewrite Hb; [| lia | apply Z.mod_1_r | rewrite length_blit; lia | lia ].
    replace (Z.to_nat cs) with (0 + Z.to_nat cs)%nat at 2 3 by lia.
    rewrite blit_blit by lia. do 2 f_equal. lia.
  - by replace total_size with cs by lia.
Qed.

(** Running slices one after the other: a byte inside one of them ends up as
    the source byte, a byte inside none is as it was. *)
Lemma foldl_slices (g : Z -> list byte -> option (list byte))
    (off len : Z -> nat) (src : list byte) (L : nat) (good : Z -> Prop) :
  (forall idx d, good idx -> length d = L ->
     g idx d = Some (blit d (off idx) src (off idx) (len idx))) ->
  (forall idx, good idx ->
     (off idx + len idx <= L)%nat /\ (off idx + len idx <= length src)%nat) ->
  forall idxs d, Forall good idxs -> length d = L ->
  exists r,
    foldl (fun acc idx => d ← acc; g idx d) (Some d) idxs = Some r /\
    length r = L /\
    (forall i, (forall idx, idx ∈ idxs -> ~ (off idx <= i < off idx + len idx)%nat) ->
       r !! i = d !! i) /\
    (forall i, d !! i = src !! i -> r !! i = src !! i) /\
    (forall i idx, idx ∈ idxs -> (off idx <= i < off idx + len idx)%nat ->
       r !! i = src !! i).
Proof.
  intros Hg Hb idxs. induction idxs as [|idx idxs IH]; intros d Hgood Hlen.
  - exists d. simpl. repeat split; auto. intros i idx Hin. by apply elem_of_nil in Hin.
  - apply Forall_cons in Hgood as [Hidx Hrest].
    destruct (Hb idx Hidx) as [Hb1 Hb2].
    assert (Hl1 : length (blit d (off idx) src (off idx) (len idx)) = L)
      by (rewrite length_blit; lia).
    destruct (IH _ Hrest Hl1) as (r & Hr & Hlr & Hout & Hkeep & Hin).
    exists r. simpl. rewrite (Hg idx d Hidx Hlen). simpl.
    split; [exact Hr|]. split; [exact Hlr|]. repeat split.
    + intros i Hnone. rewrite Hout.
      * rewrite lookup_blit by lia. rewrite decide_False; [done|].
        apply Hnone. by left.
      * intros idx' Hin'. apply Hnone. by right.
    + intros i Hi. apply Hkeep. rewrite lookup_blit by lia.
      case_decide; [f_equal; lia | done].
    + intros i idx' Hin' Hi. apply elem_of_cons in Hin' as [->|Hin'].
      * apply Hkeep. rewrite lookup_blit by lia.
        rewrite decide_True by lia. f_equal. lia.
      * by eapply Hin.
Qed.

Lemma foldl_bind_None (g : Z -> list byte -> option (list byte)) idxs :
  foldl (fun acc idx => d ← acc; g idx d) None idxs = None.
Proof. induction idxs; simpl; auto. Qed.

(** [ParallelFor] over blocks is one loop over the indices of the blocks. *)
Lemma ParallelFor_flat tp total cost (g : Z -> list byte -> option (list byte)) dst :
  ParallelFor tp total cost
    (fun b e d0 => foldl (fun acc idx => d ← acc; g idx d) (Some d0) (seqZ b (e - b))) dst
  = foldl (fun acc idx => d ← acc; g idx d) (Some dst)
          (flat_map block_indices (shard tp total cost)).
Proof.
  unfold ParallelFor. generalize (Some dst) as acc.
  induction (shard tp total cost) as [|b bs IH]; intros acc; [done|].
  simpl. rewrite foldl_app, IH. f_equal.
  destruct acc as [d|]; simpl; [done|]. by rewrite foldl_bind_None.
Qed.

(** Arithmetic of the slices: above the 4 MiB threshold a slice is not empty,
    is a multiple of the alignment, and seven of them leave a last slice that
    is at least as long. *)
Lemma slice_size_facts total_size w :
  0 < w <= 8 -> 1024 * 1024 * 4 < total_size ->
  0 < slice_size total_size w /\
  slice_size total_size w mod w = 0 /\
  slice_size total_size w <= last_slice_size total_size w /\
  slice_size total_size w * 7 + last_slice_size total_size w = total_size.
Proof.
  intros Hw Ht. unfold last_slice_size, slice_size, num_parallel.
  rewrite Z.quot_div_nonneg by lia.
  assert (Hq : 524288 <= total_size / 8) by (apply Z.div_le_lower_bound; lia).
  rewrite Z.rem_mod_nonneg by lia.
  pose proof (Z.mod_pos_bound (total_size / 8) w ltac:(lia)) as Hm.
  pose proof (Z.div_mod (total_size / 8) w ltac:(lia)) as Hdm.
  pose proof (Z.div_mod total_size 8 ltac:(lia)) as Hd8.
  pose proof (Z.mod_pos_bound total_size 8 ltac:(lia)) as Hm8.
  repeat split; try lia.
  replace (total_size / 8 - total_size / 8 mod w) with (total_size / 8 / w * w) by lia.
  apply Z.mod_mul. lia.
Qed.

Lemma good_index idx :
  0 <= idx < 8 ->
  idx = 0 \/ idx = 1 \/ idx = 2 \/ idx = 3 \/ idx = 4 \/ idx = 5 \/ idx = 6 \/ idx = 7.
Proof. lia. Qed.

(** The parallel branch, whatever blocks the pool picks. *)
Lemma parallel_branch_blit w f tp (dst src : list byte) total_size :
  copies_width w f -> 0 < w <= 8 ->
  1024 * 1024 * 4 < total_size ->
  (Z.to_nat total_size <= length dst)%nat ->
  (Z.to_nat total_size <= length src)%nat ->
  ThreadPool_ok tp ->
  ParallelFor tp num_parallel (slice_size total_size w)
    (memcpy_shard total_size w f src) dst
  = Some (blit dst 0 src 0 (Z.to_nat total_size)).
Proof.
  intros [_ Hf] Hw Ht Hd Hs Htp.
  destruct (slice_size_facts total_size w Hw Ht) as (Hpos & Hmod & Hlast & Hsum).
  unfold memcpy_shard.
  rewrite (ParallelFor_flat tp _ _ (memcpy_slice total_size w f src)).
  set (S := slice_size total_size w) in *.
  set (T := last_slice_size total_size w) in *.
  set (off := fun idx : Z => Z.to_nat (idx * S)).
  set (len := fun idx : Z => Z.to_nat (if idx =? 7 then T else S)).
  assert (Hg : forall idx d, 0 <= idx < 8 -> length d = length dst ->
            memcpy_slice total_size w f src idx d
            = Some (blit d (off idx) src (off idx) (len idx))).
  { intros idx d Hidx Hlen. unfold memcpy_slice, vec_memcpy_func, vec_slice_size.
    fold S T. destruct std_memcpy_width as [_ Hb].
    destruct (good_index idx Hidx) as [->|[->|[->|[->|[->|[->|[->| ->]]]]]]];
      case_bool_decide as Hrem; simpl;
      first [ apply Hf; subst off len; simpl; try lia
            | apply Hb; subst off len; simpl; try lia; apply Z.mod_1_r ].
    rewrite Z.rem_mod_nonneg in Hrem by lia. lia. }
  assert (Hb : forall idx, 0 <= idx < 8 ->
            (off idx + len idx <= length dst)%nat /\
            (off idx + len idx <= length src)%nat).
  { intros idx Hidx. subst off len. simpl.
    destruct (Z.eqb_spec idx 7); split; nia. }
  assert (Hgood : Forall (fun idx => 0 <= idx < 8)
            (flat_map block_indices (shard tp num_parallel S))).
  { apply Forall_forall. intros idx Hin.
    rewrite (Htp num_parallel S ltac:(unfold num_parallel; lia)) in Hin.
    apply elem_of_seqZ in Hin. unfold num_parallel in Hin. lia. }
  destruct (foldl_slices _ off len src (length dst) _ Hg Hb _ dst Hgood eq_refl)
    as (r & Hr & Hlr & Hout & _ & Hin).
  rewrite Hr. f_equal. apply list_eq. intros i.
  rewrite lookup_blit by lia.
  case_decide as Hi.
  - set (idx := if Z.of_nat i <? 7 * S then Z.of_nat i / S else 7).
    assert (Hidx : 0 <= idx < 8 /\ (off idx <= i < off idx + len idx)%nat).
    { subst idx off len. simpl. destruct (Z.ltb_spec (Z.of_nat i) (7 * S)) as [Hlt|Hge].
      - pose proof (Z.div_mod (Z.of_nat i) S ltac:(lia)) as Hdm.
        pose proof (Z.mod_pos_bound (Z.of_nat i) S Hpos) as Hmb.
        assert (0 <= Z.of_nat i / S) by (apply Z.div_pos; lia).
        assert (Z.of_nat i / S < 7) by (apply Z.div_lt_upper_bound; lia).
        destruct (Z.eqb_spec (Z.of_nat i / S) 7); [lia|]. split; nia.
      - simpl. split; lia. }
    destruct Hidx as [Hidx Hcov].
    rewrite (Hin i idx); [f_equal; lia | | exact Hcov].
    rewrite (Htp num_parallel S ltac:(unfold num_parallel; lia)).
    apply elem_of_seqZ. unfold num_parallel. lia.
  - apply Hout. intros idx Hidx.
    rewrite (Htp num_parallel S ltac:(unfold num_parallel; lia)) in Hidx.
    apply elem_of_seqZ in Hidx. unfold num_parallel in Hidx.
    destruct (Hb idx ltac:(lia)) as [_ _].
    subst off len. simpl. destruct (Z.eqb_spec idx 7); nia.
Qed.

Lemma plain_copy_blit (dst src : list byte) total_size :
  0 <= total_size ->
  (Z.to_nat total_size <= length dst)%nat ->
  (Z.to_nat total_size <= length src)%nat ->
  plain_copy dst src total_size = Some (blit dst 0 src 0 (Z.to_nat total_size)).
Proof.
  intros Hn Hd Hs. unfold plain_copy. destruct std_memcpy_width as [_ Hb].
  apply Hb; try lia. apply Z.mod_1_r.
Qed.

Lemma fast_memcpy_blit thread_pool dst src total_size :
  0 <= total_size ->
  total_size <= Z.of_nat (length (bytes src)) ->
  total_size <= Z.of_nat (length (bytes dst)) ->
  (forall tp, thread_pool = Some tp -> ThreadPool_ok tp) ->
  fast_memcpy thread_pool dst src total_size
  = Some (blit (bytes dst) 0 (bytes src) 0 (Z.to_nat total_size)).
Proof.
  intros Hn Hs Hd Htp. unfold fast_memcpy.
  destruct (Z.ltb_spec total_size 1024) as [Hsmall|Hbig].
  { unfold copy_n. rewrite copy_words_blit by lia. do 2 f_equal. lia. }
  destruct ((total_size <=? 1024 * 1024 * 4)
            || negb (bool_decide (is_Some thread_pool))) eqn:Hmid.
  { destruct (IS_8BYTE_ALIGNED (base src) && IS_8BYTE_ALIGNED (base dst)).
    { apply (aligned_branch_blit 8 _ _ _ _ memcpy_uint64_width); lia. }
    destruct (IS_4BYTE_ALIGNED (base src) && IS_4BYTE_ALIGNED (base dst)).
    { apply (aligned_branch_blit 4 _ _ _ _ memcpy_uint32_width); lia. }
    pose proof (aligned_branch_blit 1 _ (bytes dst) (bytes src) total_size
                  std_memcpy_width) as H1.
    rewrite Z.quot_1_r, Z.mul_1_r in H1. apply H1; lia. }
  apply orb_false_iff in Hmid as [Hlarge Hpool].
  apply Z.leb_gt in Hlarge.
  destruct thread_pool as [tp|]; [|by rewrite bool_decide_false in Hpool by (intros [? ?]; done)].
  specialize (Htp tp eq_refl).
  destruct (IS_8BYTE_ALIGNED (base src) && IS_8BYTE_ALIGNED (base dst)).
  { apply parallel_branch_blit; auto using memcpy_uint64_width; lia. }
  destruct (IS_4BYTE_ALIGNED (base src) && IS_4BYTE_ALIGNED (base dst)).
  { apply parallel_branch_blit; auto using memcpy_uint32_width; lia. }
  apply parallel_branch_blit; auto using std_memcpy_width; lia.
Qed.

Lemma sum_vec_slice_size total_size alignment :
  foldr Z.add 0 (vec_slice_size total_size alignment) = total_size.
Proof. unfold vec_slice_size, last_slice_size, num_parallel. simpl. lia. Qed.

Lemma offset_vec_slice_size total_size alignment (idx : nat) :
  (idx < 8)%nat ->
  Z.of_nat idx * slice_size total_size alignment
  = foldr Z.add 0 (take idx (vec_slice_size total_size alignment)).
Proof.
  intros Hidx. unfold vec_slice_size, num_parallel.
  do 8 (destruct idx as [|idx]; [simpl; lia|]). lia.
Qed.

(** C9.  For a source and a destination that are two objects (so do not
    overlap) holding at least [total_size >= 0] bytes each, [fast_memcpy]
    runs into no access outside them and leaves the destination with its first
    [total_size] bytes equal to the source's and every other byte as it was,
    which is what the plain byte-for-byte copy leaves.  This holds in the small
    branch, in the word-copy branches with their byte remainder and in the
    parallel branch for every partition into blocks the thread pool may pick.
    The eight slice sizes sum to [total_size], slice [idx] starts where the
    slices before it end, and above the 4 MiB threshold no slice is empty. *)
Theorem fast_memcpy_is_plain_copy thread_pool dst src total_size :
  0 <= total_size ->
  total_size <= Z.of_nat (length (bytes src)) ->
  total_size <= Z.of_nat (length (bytes dst)) ->
  (forall tp, thread_pool = Some tp -> ThreadPool_ok tp) ->
  fast_memcpy thread_pool dst src total_size
    = Some (take (Z.to_nat total_size) (bytes src)
            ++ drop (Z.to_nat total_size) (bytes dst))
  /\ fast_memcpy thread_pool dst src total_size
     = plain_copy (bytes dst) (bytes src) total_size
  /\ (forall alignment, 0 < alignment <= 8 ->
        foldr Z.add 0 (vec_slice_size total_size alignment) = total_size
        /\ (forall idx : nat, (idx < 8)%nat ->
              Z.of_nat idx * slice_size total_size alignment
              = foldr Z.add 0 (take idx (vec_slice_size total_size alignment)))
        /\ (1024 * 1024 * 4 < total_size ->
              Forall (fun n => 0 < n) (vec_slice_size total_size alignment))).
Proof.
  intros Hn Hs Hd Htp. split; [|split].
  - rewrite fast_memcpy_blit by assumption. f_equal.
  - rewrite fast_memcpy_blit, plain_copy_blit by (assumption || lia). done.
  - intros alignment Ha. split; [apply sum_vec_slice_size|].
    split; [intros; by apply offset_vec_slice_size|].
    intros Hbig.
    destruct (slice_size_facts total_size alignment Ha Hbig) as (Hpos & _ & Hlast & _).
    unfold vec_slice_size, num_parallel. simpl. repeat constructor; lia.
Qed.

(** A run of the word-copy branch: 1029 bytes between 8-byte aligned buffers,
    128 words and a remainder of 5 bytes. *)
Example fast_memcpy_1029 :
  fast_memcpy None {| base := 4096; bytes := replicate 1040 Byte.x00 |}
                   {| base := 8192; bytes := replicate 1032 Byte.x2a |} 1029
  = Some (replicate 1029 Byte.x2a ++ replicate 11 Byte.x00).
Proof. vm_compute. reflexivity. Qed.

Lemma fast_memcpy_is_plain_copy_witness :
  let dst := {| base := 4096; bytes := replicate 1040 Byte.x00 |} in
  let src := {| base := 8192; bytes := replicate 1032 Byte.x2a |} in
  fast_memcpy None dst src 1029
    = Some (take (Z.to_nat 1029) (bytes src) ++ drop (Z.to_nat 1029) (bytes dst))
  /\ fast_memcpy None dst src 1029 = plain_copy (bytes dst) (bytes src) 1029
  /\ (forall alignment, 0 < alignment <= 8 ->
        foldr Z.add 0 (vec_slice_size 1029 alignment) = 1029
        /\ (forall idx : nat, (idx < 8)%nat ->
              Z.of_nat idx * slice_size 1029 alignment
              = foldr Z.add 0 (take idx (vec_slice_size 1029 alignment)))
        /\ (1024 * 1024 * 4 < 1029 ->
              Forall (fun n => 0 < n) (vec_slice_size 1029 alignment))).
Proof.
  intros dst src. apply (fast_memcpy_is_plain_copy None dst src 1029).
  - lia.
  - vm_compute. discriminate.
  - vm_compute. discriminate.
  - intros tp Htp. discriminate Htp.
Defined.

(** C10.  [tensor_memcpy] never runs into an access outside the source or
    the destination.  It answers Unimplemented exactly when the tensor's data
    type cannot use memcpy; otherwise, with [n] the requested size or the
    destination's size when the request is negative, it answers OutOfRange
    exactly when [n] exceeds the source's or the destination's length; in every
    other case it answers OK and the destination holds the first [n] source
    bytes followed by its own bytes from [n] on.  On an error the destination
    is as it was.  (Object sizes are below 2^63, so the casts between [size_t]
    and [int64] change nothing.) *)
Theorem tensor_memcpy_spec {DataType : Type} (DataTypeCanUseMemcpy : DataType -> bool)
    thread_pool (tensor : Tensor DataType) (source : Buffer) (memcpy_size : Z) :
  (forall tp, thread_pool = Some tp -> ThreadPool_ok tp) ->
  let dst := bytes (tensor_data tensor) in
  let n := effective_size tensor memcpy_size in
  exists st d,
    tensor_memcpy DataTypeCanUseMemcpy thread_pool tensor source memcpy_size = Some (st, d)
    /\ (status_code st = Some UNIMPLEMENTED <-> DataTypeCanUseMemcpy (dtype tensor) = false)
    /\ (DataTypeCanUseMemcpy (dtype tensor) = true ->
          (status_code st = Some OUT_OF_RANGE
           <-> n > Z.of_nat (length (bytes source)) \/ n > Z.of_nat (length dst)))
    /\ (status_code st <> Some UNIMPLEMENTED -> status_code st <> Some OUT_OF_RANGE ->
          st = OK
          /\ 0 <= n <= Z.of_nat (length (bytes source)) /\ n <= Z.of_nat (length dst)
          /\ d = take (Z.to_nat n) (bytes source) ++ drop (Z.to_nat n) dst)
    /\ (st <> OK -> d = dst).
Proof.
  intros Htp dst n. unfold tensor_memcpy.
  destruct (DataTypeCanUseMemcpy (dtype tensor)) eqn:Hcan; simpl.
  2: { eexists _, _. split; [reflexivity|]. simpl. repeat split; done. }
  fold dst. change (if memcpy_size <? 0 then Z.of_nat (length dst) else memcpy_size) with n.
  assert (Hn0 : 0 <= n).
  { unfold n, effective_size. destruct (Z.ltb_spec memcpy_size 0); lia. }
  destruct ((n >? Z.of_nat (length (bytes source))) || (n >? Z.of_nat (length dst)))
    eqn:Hrange.
  - apply orb_true_iff in Hrange. rewrite !Z.gtb_gt in Hrange.
    eexists _, _. split; [reflexivity|]. simpl. repeat split; done.
  - apply orb_false_iff in Hrange as [H1 H2].
    rewrite Z.gtb_ltb in H1, H2. apply Z.ltb_ge in H1, H2.
    rewrite (fast_memcpy_blit thread_pool (tensor_data tensor) source n Hn0 H1 H2 Htp).
    simpl. eexists _, _. split; [reflexivity|]. simpl.
    repeat split; try done; lia.
Qed.

Lemma tensor_memcpy_spec_witness :
  let tensor := {| dtype := 1%nat;
                   tensor_data := {| base := 64; bytes := replicate 6 Byte.x00 |} |} in
  let source := {| base := 128; bytes := replicate 4 Byte.xff |} in
  let dst := bytes (tensor_data tensor) in
  let n := effective_size tensor 3 in
  exists st d,
    tensor_memcpy (fun _ : nat => true) None tensor source 3 = Some (st, d)
    /\ (status_code st = Some UNIMPLEMENTED <-> true = false)
    /\ (true = true ->
          (status_code st = Some OUT_OF_RANGE
           <-> n > Z.of_nat (length (bytes source)) \/ n > Z.of_nat (length dst)))
    /\ (status_code st <> Some UNIMPLEMENTED -> status_code st <> Some OUT_OF_RANGE ->
          st = OK
          /\ 0 <= n <= Z.of_nat (length (bytes source)) /\ n <= Z.of_nat (length dst)
          /\ d = take (Z.to_nat n) (bytes source) ++ drop (Z.to_nat n) dst)
    /\ (st <> OK -> d = dst).
Proof.
  intros tensor source.
  apply (tensor_memcpy_spec (fun _ : nat => true) None tensor source 3).
  intros tp Htp. discriminate Htp.
Defined.

(** Three runs: a copy of the whole destination, a source that is too short,
    and a data type that may not be copied. *)
Example tensor_memcpy_default_size :
  tensor_memcpy (fun _ : nat => true) None
    {| dtype := 1%nat; tensor_data := {| base := 64; bytes := replicate 3 Byte.x00 |} |}
    {| base := 128; bytes := replicate 4 Byte.xff |} (-1)
  = Some (OK, replicate 3 Byte.xff).
Proof. reflexivity. Qed.

Example tensor_memcpy_short_source :
  (st ← tensor_memcpy (fun _ : nat => true) None
    {| dtype := 1%nat; tensor_data := {| base := 64; bytes := replicate 6 Byte.x00 |} |}
    {| base := 128; bytes := replicate 4 Byte.xff |} (-1);
   Some (status_code st.1, st.2))
  = Some (Some OUT_OF_RANGE, replicate 6 Byte.x00).
Proof. reflexivity. Qed.

Example tensor_memcpy_string_type :
  (st ← tensor_memcpy (fun _ : nat => false) None
    {| dtype := 1%nat; tensor_data := {| base := 64; bytes := replicate 6 Byte.x00 |} |}
    {| base := 128; bytes := replicate 4 Byte.xff |} 2;
   Some (status_code st.1, st.2))
  = Some (Some UNIMPLEMENTED, replicate 6 Byte.x00).
Proof. reflexivity. Qed.

(** *** tensor_shuffle *)

Section TensorShuffle.
Context {DataType : Type}.

(** TensorFlow's: [real_or_bool_size dt] is the size of the C++ type of [dt]
    when [dt] is one of [TF_CALL_REAL_NUMBER_TYPES] or [bool], the cases of
    the [switch]; [NumElements] is [Tensor::NumElements]. *)
Variable real_or_bool_size : DataType -> option nat.
Variable NumElements : Tensor DataType -> Z.

(** [dst_ptr[idx] = src_ptr[shuffle.int64_val(idx)]] on elements of [w]
    bytes: an index outside [shuffle], or an element outside the source or
    the destination, is an access outside an object. *)
Definition shuffle_element (w : nat) (src : list byte) (shuffle : list Z)
    (idx : nat) (dst : list byte) : option (list byte) :=
  k ← shuffle !! idx;
  if k <? 0 then None
  else v ← load w src (Z.to_nat k * w); store dst (idx * w) v.

(** [for (auto idx = 0; idx < src.NumElements(); ++idx)]: [idx] is an [int],
    which cannot count past [INT_MAX]. *)
Definition tensor_shuffle_impl (w : nat) (dst src : Tensor DataType) (shuffle : list Z)
    : option (Status * list byte) :=
  if 2 ^ 31 - 1 <? NumElements src then None
  else
    d ← foldl (fun acc idx =>
                 d ← acc; shuffle_element w (bytes (tensor_data src)) shuffle idx d)
              (Some (bytes (tensor_data dst)))
              (seq 0 (Z.to_nat (NumElements src)));
    Some (OK, d).

(** Returns the status and the storage of [dst] afterwards. *)
Definition tensor_shuffle (dst src : Tensor DataType) (shuffle : list Z)
    : option (Status * list byte) :=
  match real_or_bool_size (dtype src) with
  | Some w => tensor_shuffle_impl w dst src shuffle
  | None => Some (Error INVALID_ARGUMENT "invalid data type", bytes (tensor_data dst))
  end.

(** Element [k] of a storage of elements of [w] bytes, and the elements of
    [src] picked by the indices [ks], one after the other. *)
Definition element (w : nat) (m : list byte) (k : nat) : list byte :=
  take w (drop (k * w) m).

Definition gather (w : nat) (src : list byte) (ks : list Z) : list byte :=
  flat_map (fun k => element w src (Z.to_nat k)) ks.

(** An index that names an element of [src]. *)
Definition in_range (w : nat) (src : list byte) (k : Z) : Prop :=
  0 <= k /\ (Z.to_nat k * w + w <= length src)%nat.

Lemma gather_length w src ks :
  Forall (in_range w src) ks -> length (gather w src ks) = (length ks * w)%nat.
Proof.
  induction 1 as [|k ks [_ Hk] _ IH]; [done|].
  unfold gather in *. cbn [flat_map]. rewrite length_app, IH. unfold element.
  rewrite length_take, length_drop. cbn [length]. lia.
Qed.

Lemma foldl_shuffle_None (g : nat -> list byte -> option (list byte)) idxs :
  foldl (fun acc idx => d ← acc; g idx d) None idxs = None.
Proof. induction idxs; simpl; auto. Qed.

(** One turn, when it is defined. *)
Lemma shuffle_element_Some w src shuffle idx dst d :
  shuffle_element w src shuffle idx dst = Some d <->
  exists k, shuffle !! idx = Some k /\ in_range w src k
            /\ (idx * w + w <= length dst)%nat
            /\ d = take (idx * w) dst ++ element w src (Z.to_nat k)
                   ++ drop (idx * w + w) dst.
Proof.
  unfold shuffle_element, load, store, in_range, element. split.
  - destruct (shuffle !! idx) as [k|]; [|done]. simpl.
    destruct (Z.ltb_spec k 0) as [|Hk]; [done|].
    destruct (decide (Z.to_nat k * w + w <= length src)%nat) as [Hsrc|]; [|done]. simpl.
    assert (Hlen : length (take w (drop (Z.to_nat k * w) src)) = w)
      by (rewrite length_take, length_drop; lia).
    rewrite Hlen.
    destruct (decide (idx * w + w <= length dst)%nat) as [Hdst|]; [|done].
    intros [= <-]. exists k. by repeat split.
  - intros (k & -> & [Hk Hsrc] & Hdst & ->). simpl.
    destruct (Z.ltb_spec k 0) as [|_]; [lia|].
    destruct (decide (Z.to_nat k * w + w <= length src)%nat) as [_|]; [|done]. simpl.
    assert (Hlen : length (take w (drop (Z.to_nat k * w) src)) = w)
      by (rewrite length_take, length_drop; lia).
    rewrite Hlen.
    by destruct (decide (idx * w + w <= length dst)%nat).
Qed.

(** A storage with one element written, cut at the end of that element and
    past it. *)
Lemma written_take_drop (dst e : list byte) (a n : nat) :
  (a + length e <= length dst)%nat ->
  take (a + length e) (take a dst ++ e ++ drop (a + length e) dst) = take a dst ++ e
  /\ drop (a + length e + n) (take a dst ++ e ++ drop (a + length e) dst)
     = drop (a + length e + n) dst.
Proof.
  intros Hlen.
  assert (Hhead : length (take a dst ++ e) = (a + length e)%nat)
    by (rewrite length_app, length_take; lia).
  rewrite !(app_assoc (take a dst)). split.
  - by apply take_app_length'.
  - rewrite drop_app_add' by done. by rewrite drop_drop.
Qed.

(** The loop from [start] on, for [count] turns. *)
Lemma shuffle_loop w src shuffle count : forall start dst d,
  foldl (fun acc idx => d ← acc; shuffle_element w src shuffle idx d)
        (Some dst) (seq start count) = Some d <->
  (start + count <= length shuffle \/ count = 0)%nat
  /\ Forall (in_range w src) (take count (drop start shuffle))
  /\ ((start + count) * w <= length dst \/ count = 0)%nat
  /\ d = take (start * w) dst ++ gather w src (take count (drop start shuffle))
         ++ drop ((start + count) * w) dst.
Proof.
  induction count as [|count IH]; intros start dst d.
  - cbn [seq foldl]. rewrite take_0. unfold gather. cbn [flat_map app].
    rewrite Nat.add_0_r, take_drop. split.
    + intros [= <-]. split; [by right|]. split; [constructor|]. split; [by right | done].
    + by intros (_ & _ & _ & ->).
  - cbn [seq foldl]. change (Some dst ≫= _) with (shuffle_element w src shuffle start dst).
    split.
    + destruct (shuffle_element w src shuffle start dst) as [dst1|] eqn:Hturn;
        [|by rewrite foldl_shuffle_None].
      apply shuffle_element_Some in Hturn as (k & Hk & Hrange & Hdst & ->).
      intros (Hlen & Hall & Hsize & ->)%IH.
      pose proof (lookup_lt_Some _ _ _ Hk) as Hstart.
      assert (Helt : length (element w src (Z.to_nat k)) = w).
      { destruct Hrange. unfold element. rewrite length_take, length_drop. lia. }
      assert (Hlen1 : length (take (start * w) dst ++ element w src (Z.to_nat k)
                                ++ drop (start * w + w) dst) = length dst).
      { rewrite !length_app, length_take, length_drop, Helt. lia. }
      rewrite Hlen1 in Hsize.
      rewrite (drop_S _ _ _ Hk). unfold gather. cbn [firstn flat_map]. fold (gather w src).
      split; [left; destruct Hlen; lia|]. split; [by constructor|].
      split; [left; destruct Hsize; lia|].
      destruct (written_take_drop dst (element w src (Z.to_nat k)) (start * w) (count * w))
        as [Htake Hdrop]; [lia|].
      rewrite Helt in Htake, Hdrop.
      replace (S start * w)%nat with (start * w + w)%nat by lia.
      replace ((S start + count) * w)%nat with (start * w + w + count * w)%nat by lia.
      replace ((start + S count) * w)%nat with (start * w + w + count * w)%nat by lia.
      by rewrite Htake, Hdrop, <- !app_assoc.
    + intros (Hlen & Hall & Hsize & ->).
      destruct Hlen as [Hlen|]; [|done]. destruct Hsize as [Hsize|]; [|done].
      destruct (lookup_lt_is_Some_2 shuffle start ltac:(lia)) as [k Hk].
      rewrite (drop_S _ _ _ Hk) in *. unfold gather in *. cbn [firstn flat_map] in *.
      fold (gather w src) in *.
      apply Forall_cons in Hall as [Hrange Hall].
      assert (Helt : length (element w src (Z.to_nat k)) = w).
      { destruct Hrange. unfold element. rewrite length_take, length_drop. lia. }
      assert (Hturn : shuffle_element w src shuffle start dst
                      = Some (take (start * w) dst ++ element w src (Z.to_nat k)
                                ++ drop (start * w + w) dst)).
      { apply shuffle_element_Some. exists k. repeat split; try done; try apply Hrange. lia. }
      rewrite Hturn. apply IH.
      assert (Hlen1 : length (take (start * w) dst ++ element w src (Z.to_nat k)
                                ++ drop (start * w + w) dst) = length dst).
      { rewrite !length_app, length_take, length_drop, Helt. lia. }
      rewrite Hlen1.
      split; [left; lia|]. split; [done|]. split; [left; lia|].
      destruct (written_take_drop dst (element w src (Z.to_nat k)) (start * w) (count * w))
        as [Htake Hdrop]; [lia|].
      rewrite Helt in Htake, Hdrop.
      replace (S start * w)%nat with (start * w + w)%nat by lia.
      replace ((S start + count) * w)%nat with (start * w + w + count * w)%nat by lia.
      replace ((start + S count) * w)%nat with (start * w + w + count * w)%nat by lia.
      by rewrite Htake, Hdrop, <- !app_assoc.
Qed.

Lemma element_gather w src ks rest : forall idx k,
  Forall (in_range w src) ks -> ks !! idx = Some k ->
  element w (gather w src ks ++ rest) idx = element w src (Z.to_nat k).
Proof.
  induction ks as [|k0 ks IH]; intros idx k Hall Hk; [done|].
  apply Forall_cons in Hall as [[_ Hk0] Hall].
  assert (Helt : length (element w src (Z.to_nat k0)) = w)
    by (unfold element; rewrite length_take, length_drop; lia).
  unfold gather. cbn [flat_map]. fold (gather w src ks). rewrite <- app_assoc.
  destruct idx as [|idx]; simpl in Hk.
  - injection Hk as <-. unfold element at 1. simpl. by apply take_app_length'.
  - unfold element at 1.
    replace (S idx * w)%nat with (w + idx * w)%nat by lia.
    rewrite drop_app_add' by done. by apply IH.
Qed.

(** X17.  For a source whose data type is a real number type or bool, with
    elements of [w] bytes, [tensor_shuffle] is defined exactly when the source
    has no more than [INT_MAX] elements, [shuffle] has an index for each of
    them, each of these indices names an element that lies within the source,
    and the destination has room for as many elements: there is no check, and
    anything else is an access outside an object.  The result is then OK, and
    the destination holds, element after element, the elements of the source
    that the indices name, followed by the bytes it held past them: element
    [idx] of the destination is element [shuffle[idx]] of the source, and its
    size is what it was. *)
Theorem tensor_shuffle_gathers dst src shuffle w :
  real_or_bool_size (dtype src) = Some w ->
  let n := Z.to_nat (NumElements src) in
  let from := bytes (tensor_data src) in
  let to := bytes (tensor_data dst) in
  (forall r,
     tensor_shuffle dst src shuffle = Some r <->
     NumElements src <= 2 ^ 31 - 1
     /\ (n <= length shuffle)%nat
     /\ Forall (in_range w from) (take n shuffle)
     /\ (n * w <= length to)%nat
     /\ r = (OK, gather w from (take n shuffle) ++ drop (n * w) to))
  /\ (forall s d,
        tensor_shuffle dst src shuffle = Some (s, d) ->
        length d = length to
        /\ drop (n * w) d = drop (n * w) to
        /\ forall idx k, (idx < n)%nat -> shuffle !! idx = Some k ->
             element w d idx = element w from (Z.to_nat k)).
Proof.
  intros Hw n from to.
  assert (Hiff : forall r,
     tensor_shuffle dst src shuffle = Some r <->
     NumElements src <= 2 ^ 31 - 1
     /\ (n <= length shuffle)%nat
     /\ Forall (in_range w from) (take n shuffle)
     /\ (n * w <= length to)%nat
     /\ r = (OK, gather w from (take n shuffle) ++ drop (n * w) to)).
  { intros r. unfold tensor_shuffle, tensor_shuffle_impl. rewrite Hw.
    fold n from to.
    destruct (Z.ltb_spec (2 ^ 31 - 1) (NumElements src)) as [Hbig|Hfits].
    { split; [done|]. intros [? _]. lia. }
    pose proof (shuffle_loop w from shuffle n 0 to) as Hloop.
    destruct (foldl _ (Some to) (seq 0 n)) as [d|] eqn:Hrun; simpl.
    - destruct (proj1 (Hloop d) eq_refl) as (Hlen & Hall & Hsize & Hd).
      simpl in Hlen, Hall, Hsize, Hd. rewrite drop_0 in *.
      split.
      + intros [= <-]. split; [done|]. split; [lia|]. split; [done|].
        split; [lia|]. by rewrite Hd.
      + intros (_ & _ & _ & _ & ->). by rewrite Hd.
    - split; [done|]. intros (_ & Hlen & Hall & Hsize & _). exfalso.
      assert (Hnone : @None (list byte)
                      = Some (gather w from (take n shuffle) ++ drop (n * w) to));
        [|done].
      apply (Hloop _). simpl. rewrite drop_0.
      split; [by left|]. split; [done|]. split; [by left | done]. }
  split; [exact Hiff|].
  intros s d (_ & Hlen & Hall & Hsize & [= -> ->])%Hiff.
  pose proof (gather_length w from (take n shuffle) Hall) as Hgather.
  rewrite length_take in Hgather.
  replace (n `min` length shuffle)%nat with n in Hgather by lia.
  split; [rewrite length_app, length_drop, Hgather; lia|].
  split; [by rewrite drop_app_length'|].
  intros idx k Hidx Hk. apply element_gather; [done|].
  by rewrite lookup_take_lt.
Qed.

End TensorShuffle.

(** Three elements of two bytes, shuffled with the indices 2, 0, 1; data
    type 1 stands for a type of two bytes, every other for a type that is
    neither a real number type nor bool. *)
Definition two_byte_type (dt : nat) : option nat :=
  if (dt =? 1)%nat then Some 2%nat else None.

Definition count_two_byte (t : Tensor nat) : Z :=
  Z.of_nat (length (bytes (tensor_data t))) / 2.

Definition three_elements : Tensor nat :=
  {| dtype := 1%nat;
     tensor_data := {| base := 128;
                       bytes := [Byte.x0a; Byte.x0b; Byte.x1a; Byte.x1b; Byte.x2a; Byte.x2b] |} |}.

Definition blank_elements : Tensor nat :=
  {| dtype := 1%nat; tensor_data := {| base := 64; bytes := replicate 6 Byte.x00 |} |}.

Example tensor_shuffle_2_0_1 :
  tensor_shuffle two_byte_type count_two_byte blank_elements three_elements [2; 0; 1]
  = Some (OK, [Byte.x2a; Byte.x2b; Byte.x0a; Byte.x0b; Byte.x1a; Byte.x1b]).
Proof. reflexivity. Qed.

(** An index past the last element is read outside the source. *)
Example tensor_shuffle_index_3 :
  tensor_shuffle two_byte_type count_two_byte blank_elements three_elements [2; 0; 3] = None.
Proof. reflexivity. Qed.

Lemma tensor_shuffle_gathers_witness :
  tensor_shuffle two_byte_type count_two_byte blank_elements three_elements [2; 0; 1]
  = Some (OK, gather 2 (bytes (tensor_data three_elements)) [2; 0; 1]).
Proof.
  destruct (tensor_shuffle_gathers two_byte_type count_two_byte blank_elements
              three_elements [2; 0; 1] 2 eq_refl) as [Hiff _].
  apply Hiff. split; [by vm_compute|]. split; [vm_compute; lia|].
  split; [|split; [vm_compute; lia | reflexivity]].
  change (Forall (in_range 2 (bytes (tensor_data three_elements))) [2; 0; 1]).
  repeat (apply Forall_cons; split; [split; [lia | simpl; lia]|]). by apply Forall_nil.
Defined.

End TensorUtil.

Module Nrt.

Abbreviation byte := Byte.byte.

(** *** Messages ([nmgr.proto])

    Modelled from the spec: the message declarations of [nmgr.proto] are not
    part of the sources.  A load request carries one of: the execution-group
    handle, the executable's byte count, the model parameters, a chunk of the
    executable; an [infer_io] names a tensor and carries its bytes inline or
    the path of a shared-memory object. *)

Inductive load_request : Type :=
  | h_eg (id : Z)
  | neff_size (n : Z)
  | model_params (timeout ninfer : Z)
  | neff_chunk (chunk : list byte).

Inductive infer_io_data : Type :=
  | buf (data : list byte)
  | buf_shm (path : string).

Record infer_io : Type := { name : string; data : infer_io_data }.

(** [infer_io::buf()]: the inline bytes, empty when the entry carries a path. *)
Definition buf_of (io : infer_io) : list byte :=
  match data io with buf d => d | buf_shm _ => [] end.

Record infer_request : Type :=
  { h_nn : Z; ifmap : list infer_io; shm_ofmap : list infer_io }.

(** *** The world outside the process

    Every call that leaves the process, in the order it is made. *)
Inductive call : Type :=
  (* grpc channel and stub *)
  | CreateCustomChannel (address : string)
  | NewStub
  (* unary calls of nmgr_v1 *)
  | create_eg (nc_count : option Z)
  | start (nn_id : Z)
  | stop (nn_id : Z)
  | unload (nn_id : Z)
  | destroy_eg (eg_id : Z)
  | infer (request : infer_request)
  | infer_post (request : infer_request)
  | infer_wait (cookie : Z)
  | shm_map (path : string) (mmap_prot : Z)
  | shm_unmap (path : string) (mmap_prot : Z)
  (* the client-streamed load *)
  | load_stream
  | Write (request : load_request)
  | WritesDone
  | Finish
  (* the operating system and tensorflow::Env *)
  | CreateUniqueFileName (prefix : string)
  | SleepForMicroseconds (micros : Z)
  | shm_open (name : string)
  | ftruncate (fd size : Z)
  | mmap (size fd : Z)
  | munmap (ptr size : Z)
  | shm_unlink (name : string)
  (* the bytes of a mapped shared-memory object, which the daemon shares *)
  | shm_write (ptr : Z) (bytes : list byte)
  | shm_read (ptr size : Z)
  (* the profiler and the timestamps of the caller, objects of classes that
     are not part of the sources: the flag [profile->enabled_], which is read
     and never called, and the methods *)
  | profile_enabled
  | start_session (nrtd_address : string) (nn_id : Z)
  | stop_session
  | mark_above_nrtd_infer
  | mark_below_nrtd_infer.

(** What comes back: the fields a call does not set keep their defaults, as
    in a protobuf response. *)
Record reply : Type := {
  r_ok : bool;             (* a bool result: Write, WritesDone, a non-null pointer *)
  r_int : Z;               (* an int or pointer result of a system call *)
  r_str : string;          (* the file name CreateUniqueFileName leaves *)
  r_bytes : list byte;     (* the bytes read from shared memory *)
  grpc_code : Z;           (* grpc::Status::error_code() *)
  status_code_ : Z;        (* response.status().code() *)
  r_h_eg : Z;              (* response.h_eg().id() *)
  r_nc_count : Z;          (* response.nc_count() *)
  r_h_nn : Z;              (* response.h_nn().id() *)
  r_cookie : Z;            (* response.cookie() *)
  r_ofmap : list infer_io  (* response.ofmap() *)
}.

Definition grpc_OK : Z := 0.
Definition grpc_UNAVAILABLE : Z := 14.

Definition grpc_ok (r : reply) : bool := grpc_code r =? grpc_OK.

Record World : Type := {
  oracle : list call -> call -> reply;  (* the daemon and the system *)
  calls : list call;                    (* the calls made so far, oldest first *)
  logged : list string;                 (* LOG(WARNING) and LOG(ERROR) lines *)
  environ : gmap string string          (* the process environment *)
}.

(** *** Statements

    A statement runs on the fields of its object and on the world; it yields a
    value, or leaves the function with [return s], or leaves the behaviour the
    language defines or the function handles (an index outside a container, a
    null stub, null timestamps or a null profiler that are dereferenced, a
    [memcpy] past the end of a mapping, an exception nobody catches). *)
Inductive Res (A : Type) : Type :=
  | Val (a : A)
  | Return (s : Status)
  | Undefined.
Arguments Val {A} _.
Arguments Return {A} _.
Arguments Undefined {A}.

Definition M (St A : Type) : Type := St -> World -> Res A * St * World.

Definition ret {St A} (a : A) : M St A := fun st w => (Val a, st, w).

Definition bind {St A B} (m : M St A) (k : A -> M St B) : M St B := fun st w =>
  match m st w with
  | (Val a, st', w') => k a st' w'
  | (Return s, st', w') => (Return s, st', w')
  | (Undefined, st', w') => (Undefined, st', w')
  end.

#[global] Instance M_ret {St} : MRet (M St) := fun A => ret.
#[global] Instance M_bind {St} : MBind (M St) := fun A B k m => bind m k.

Definition return_ {St A} (s : Status) : M St A := fun st w => (Return s, st, w).
Definition undefined {St A} : M St A := fun st w => (Undefined, st, w).
Definition get {St} : M St St := fun st w => (Val st, st, w).
Definition put {St} (st : St) : M St unit := fun _ w => (Val tt, st, w).
Definition modify {St} (f : St -> St) : M St unit := fun st w => (Val tt, f st, w).

(** A function that returns [Status]: [return s] anywhere in the body is its
    result. *)
Definition fn {St} (body : M St Status) : M St Status := fun st w =>
  match body st w with
  | (Return s, st', w') => (Val s, st', w')
  | r => r
  end.

(** A function that returns [Status] and writes an output parameter as its
    last step: the parameter is written when the body runs to its end. *)
Definition fn_out {St A} (body : M St A) : M St (Status * option A) := fun st w =>
  match body st w with
  | (Val a, st', w') => (Val (OK, Some a), st', w')
  | (Return s, st', w') => (Val (s, None), st', w')
  | (Undefined, st', w') => (Undefined, st', w')
  end.

Definition TF_RETURN_IF_ERROR {St} (m : M St Status) : M St unit :=
  s ← m; if ok s then ret tt else return_ s.

(** [for (x : l) body] *)
Fixpoint for_each {St A} (l : list A) (body : A -> M St unit) : M St unit :=
  match l with
  | [] => ret tt
  | x :: l' => body x;; for_each l' body
  end.

(** One call out of the process. *)
Definition perform {St} (c : call) : M St reply := fun st w =>
  (Val (oracle w (calls w) c), st,
   {| oracle := oracle w; calls := calls w ++ [c];
      logged := logged w; environ := environ w |}).

Definition LOG {St} (line : string) : M St unit := fun st w =>
  (Val tt, st,
   {| oracle := oracle w; calls := calls w;
      logged := logged w ++ [line]; environ := environ w |}).

(** A read of a field of an object outside the sources: it is answered as a
    call would be after the calls made so far, and is not a call. *)
Definition observe {St} (c : call) : M St reply := fun st w =>
  (Val (oracle w (calls w) c), st, w).

(** [env_get(env_var, default_env_var)] and [setenv(name, value, 1)]. *)
Definition env_get {St} (env_var default_env_var : string) : M St string := fun st w =>
  (Val (default default_env_var (environ w !! env_var)), st, w).

Definition setenv {St} (var value : string) : M St unit := fun st w =>
  (Val tt, st,
   {| oracle := oracle w; calls := calls w;
      logged := logged w; environ := <[var := value]> (environ w) |}).

Definition to_string (z : Z) : string := NilZero.string_of_int (Z.to_int z).

(** A stub is the address its channel was built for; a call through a stub
    that was never made is a null dereference. *)
Definition Stub : Type := string.

Definition NRT_GRPC {St} (stub_ : option Stub) (c : call) : M St reply :=
  match stub_ with
  | Some _ => perform c
  | None => undefined
  end.

(** [timestamps->mark_above_nrtd_infer()] and
    [timestamps->mark_below_nrtd_infer()]; [timestamps_given] says that the
    pointer is not null. *)
Definition mark {St} (timestamps_given : bool) (c : call) : M St unit :=
  if timestamps_given then perform c;; ret tt else undefined.

(** [profile->enabled_]; [profile_given] says that the pointer is not null. *)
Definition profile_enabled_ {St} (profile_given : bool) : M St bool :=
  if profile_given then enabled ← observe profile_enabled; ret (r_ok enabled)
  else undefined.

(** What [mmap] returns when it fails.  An address that is recorded with a
    size names a mapping of that size, unless it is null or [MAP_FAILED],
    which name no object. *)
Definition MAP_FAILED : Z := -1.

Definition names_object (ptr : Z) : bool :=
  negb (ptr =? 0) && negb (ptr =? MAP_FAILED).

(** [std::memcpy(ptr, data.data(), data.size())] into the mapping at [ptr],
    which has [mapped_size] bytes: there is no check, and a write past its
    end is a write outside the object. *)
Definition memcpy_to_shm {St} (ptr mapped_size : Z) (data : list byte) : M St unit :=
  if names_object ptr && (Z.of_nat (length data) <=? mapped_size)
  then perform (shm_write ptr data);; ret tt
  else undefined.

(** Modelled from the spec: the macros [NRT_CHECK_RETURN], [NRT_CHECK_LOG],
    [SYS_FAIL_RETURN] and [SYS_FAIL_LOG] of [neuron_clib.h] are not part of the
    sources, nor is the constant [NERR_OK] of [nerr.pb.h].  A call has failed
    when its transport status is not OK or the daemon's status code is not
    [NERR_OK]; the RETURN forms leave the function with a uniform internal
    error that carries both codes, the LOG forms write the same line to the log
    and go on. *)
Definition nrt_failed (NERR_OK : Z) (response : reply) : bool :=
  negb (grpc_ok response && (status_code_ response =? NERR_OK)).

Definition nrt_error_message (fn_name : string) (response : reply) : string :=
  "nrt::" +:+ fn_name +:+ " failed with grpc status code "
    +:+ to_string (grpc_code response) +:+ ", nrt status code "
    +:+ to_string (status_code_ response).

Definition NRT_CHECK_RETURN {St} (NERR_OK : Z) (fn_name : string) (response : reply)
    : M St unit :=
  if nrt_failed NERR_OK response
  then return_ (Error INTERNAL (nrt_error_message fn_name response))
  else ret tt.

Definition NRT_CHECK_LOG {St} (NERR_OK : Z) (fn_name : string) (response : reply)
    : M St unit :=
  if nrt_failed NERR_OK response
  then LOG (nrt_error_message fn_name response)
  else ret tt.

Definition SYS_FAIL_RETURN {St} (failure_expr : bool) (fn_name : string) : M St unit :=
  if failure_expr then return_ (Error INTERNAL (fn_name +:+ " failed")) else ret tt.

Definition SYS_FAIL_LOG {St} (failure_expr : bool) (fn_name : string) : M St unit :=
  if failure_expr then LOG (fn_name +:+ " failed") else ret tt.

(** [init_stub(&stub_, nrtd_address)]: [set_stub] writes the caller's
    [stub_]; it is written, null or not, before it is tested. *)
Definition init_stub {St} (set_stub : option Stub -> St -> St) (nrtd_address : string)
    : M St Status :=
  fn (
    channel ← perform (CreateCustomChannel nrtd_address);
    (if negb (r_ok channel)
     then return_ (Error UNAVAILABLE "cannot establish grpc channel to neuron-rtd server")
     else ret tt);;
    stub ← perform NewStub;
    modify (set_stub (if r_ok stub then Some nrtd_address else None));;
    (if negb (r_ok stub)
     then return_ (Error UNAVAILABLE "cannot create stub")
     else ret tt);;
    ret OK).

(** A statement on a part of the state: a member object, a container slot.
    A slot that does not exist is an access outside the container. *)
Definition zoom {S T A} (view : S -> option T) (update : T -> S -> S) (m : M T A)
    : M S A := fun st w =>
  match view st with
  | Some t =>
      match m t w with
      | (r, t', w') => (r, update t' st, w')
      end
  | None => (Undefined, st, w)
  end.

(** [for (idx = 0; idx < n; ++idx) body] *)
Definition for_range {St} (n : nat) (body : nat -> M St unit) : M St unit :=
  for_each (seq 0 n) body.

(** [v[idx]] on a vector that is read only. *)
Definition at_index {St A} (v : list A) (idx : nat) : M St A :=
  match v !! idx with
  | Some x => ret x
  | None => undefined
  end.

(** *** The streamed load

    [NeuronDevice::load] and [RuntimeGRPC::load] have the same text from the
    creation of the writer to the check of the response; they differ in where
    the execution-group handle comes from and in what follows. *)
Section Load.
Context {St : Type}.
Variable NERR_OK : Z.
Variable EXEC_MAX_CHUNK_SIZE : Z.

Definition WRITE_LOAD_REQUEST (request : load_request) : M St unit :=
  written ← perform (Write request);
  if negb (r_ok written)
  then return_ (Error INTERNAL "neuron-rtd load failure - broken stream")
  else ret tt.

(** [for (size_t pos = 0; pos < exec_total_size; pos += EXEC_MAX_CHUNK_SIZE)].
    With a chunk size of zero the source never leaves the loop; [fuel] is the
    number of turns allowed, and one more than the executable's length is
    enough for every positive chunk size. *)
Fixpoint write_chunks (fuel : nat) (executable : list byte) (pos : Z) : M St unit :=
  let exec_total_size := Z.of_nat (length executable) in
  if pos <? exec_total_size then
    match fuel with
    | O => undefined
    | S fuel' =>
        let remaining := exec_total_size - pos in
        let chunk_size := Z.min remaining EXEC_MAX_CHUNK_SIZE in
        let file_chunk := take (Z.to_nat chunk_size) (drop (Z.to_nat pos) executable) in
        WRITE_LOAD_REQUEST (neff_chunk file_chunk);;
        write_chunks fuel' executable (pos + EXEC_MAX_CHUNK_SIZE)
    end
  else ret tt.

(** Yields the response of [Finish] once it has passed the check. *)
Definition load_stream_body (stub_ : option Stub) (eg_id : Z)
    (executable : list byte) (timeout ninfer : Z) : M St reply :=
  NRT_GRPC stub_ load_stream;;
  (* eg_id *)
  WRITE_LOAD_REQUEST (h_eg eg_id);;
  (* neff_size *)
  let exec_total_size := Z.of_nat (length executable) in
  WRITE_LOAD_REQUEST (neff_size exec_total_size);;
  (* model_params *)
  WRITE_LOAD_REQUEST (model_params timeout ninfer);;
  (* neff file content *)
  write_chunks (S (length executable)) executable 0;;
  done ← perform WritesDone;
  (if negb (r_ok done)
   then return_ (Error INTERNAL "neuron-rtd load failure - broken stream")
   else ret tt);;
  response ← perform Finish;
  NRT_CHECK_RETURN NERR_OK "load" response;;
  ret response.

End Load.

(** *** Inference requests and responses

    [Tensor] is TensorFlow's.  The two-argument [tensor_memcpy] that
    [copy_output_tensors] calls is declared in a header that is not part of the
    sources: it is a parameter here. *)
Section Infer.
Context {Tensor : Type}.
Variable tensor_data : Tensor -> list byte.
Variable tensor_memcpy : Tensor -> list byte -> Status * Tensor.
Variable NERR_OK : Z.
Variable NERR_INFER_COMPLETED_WITH_NUM_ERR : Z.

(** The loop over [input_names] that fills [request.ifmap]; with shared
    memory the tensor's bytes go to the mapped buffer and the entry carries
    the buffer's path.  [shm_input_sizes] are the sizes of the mappings that
    [shm_input_ptrs] point to, which the loop does not read. *)
Definition add_ifmap {St} (shm_enabled : bool) (shm_input_paths : list string)
    (shm_input_ptrs shm_input_sizes : list Z) (input_names : list string)
    (input_tensors : list Tensor) : M St (list infer_io) :=
  foldl (fun acc idx =>
           ifmap ← acc;
           input_name ← at_index input_names idx;
           tensor ← at_index input_tensors idx;
           let tensor_data := tensor_data tensor in
           if shm_enabled then
             path ← at_index shm_input_paths idx;
             ptr ← at_index shm_input_ptrs idx;
             mapped_size ← at_index shm_input_sizes idx;
             memcpy_to_shm ptr mapped_size tensor_data;;
             ret (ifmap ++ [{| name := input_name; data := buf_shm path |}])
           else
             ret (ifmap ++ [{| name := input_name; data := buf tensor_data |}]))
        (ret []) (seq 0 (length input_names)).

(** The request of [infer_post]: always inline. *)
Definition add_ifmap_inline {St} (input_names : list string)
    (input_tensors : list Tensor) : M St (list infer_io) :=
  foldl (fun acc idx =>
           ifmap ← acc;
           input_name ← at_index input_names idx;
           tensor ← at_index input_tensors idx;
           ret (ifmap ++ [{| name := input_name; data := buf (tensor_data tensor) |}]))
        (ret []) (seq 0 (length input_names)).

Definition add_shm_ofmap {St} (shm_output_paths : list string)
    (output_names : list string) : M St (list infer_io) :=
  foldl (fun acc idx =>
           ofmap ← acc;
           output_name ← at_index output_names idx;
           path ← at_index shm_output_paths idx;
           ret (ofmap ++ [{| name := output_name; data := buf_shm path |}]))
        (ret []) (seq 0 (length output_names)).

Definition set_code (code : Z) (response : reply) : reply :=
  {| r_ok := r_ok response; r_int := r_int response; r_str := r_str response;
     r_bytes := r_bytes response; grpc_code := grpc_code response;
     status_code_ := code;
     r_h_eg := r_h_eg response; r_nc_count := r_nc_count response;
     r_h_nn := r_h_nn response; r_cookie := r_cookie response;
     r_ofmap := r_ofmap response |}.

Definition set_ofmap (ofmap : list infer_io) (response : reply) : reply :=
  {| r_ok := r_ok response; r_int := r_int response; r_str := r_str response;
     r_bytes := r_bytes response; grpc_code := grpc_code response;
     status_code_ := status_code_ response;
     r_h_eg := r_h_eg response; r_nc_count := r_nc_count response;
     r_h_nn := r_h_nn response; r_cookie := r_cookie response;
     r_ofmap := ofmap |}.

(** [if (status.ok()) { // ignore inf/nan errors ... }] *)
Definition ignore_num_err (response : reply) : reply :=
  if grpc_ok response then
    if NERR_INFER_COMPLETED_WITH_NUM_ERR =? status_code_ response
    then set_code NERR_OK response
    else response
  else response.

(** [infer_io->set_buf(ptr, size)]: the bytes of the mapping at [ptr], which
    has [size] bytes. *)
Definition read_from_shm {St} (ptr size : Z) : M St (list byte) :=
  if names_object ptr
  then mapped ← perform (shm_read ptr size); ret (r_bytes mapped)
  else undefined.

(** The loop after the check that appends the mapped output buffers to
    [response.ofmap]. *)
Definition add_response_ofmap {St} (shm_output_ptrs shm_output_sizes : list Z)
    (output_names : list string) (response : reply) : M St reply :=
  foldl (fun acc idx =>
           response ← acc;
           output_name ← at_index output_names idx;
           ptr ← at_index shm_output_ptrs idx;
           size ← at_index shm_output_sizes idx;
           mapped ← read_from_shm ptr size;
           ret (set_ofmap (r_ofmap response
                             ++ [{| name := output_name; data := buf mapped |}])
                          response))
        (ret response) (seq 0 (length output_names)).

(** [std::unordered_map::emplace] keeps the first entry of a name. *)
Definition map_name_raw (ofmap : list infer_io) : gmap string (list byte) :=
  foldl (fun m infer_io =>
           match m !! name infer_io with
           | Some _ => m
           | None => <[name infer_io := buf_of infer_io]> m
           end) ∅ ofmap.

(** [copy_output_tensors]: the member of [NeuronDevice] and the free function
    beside [RuntimeGRPC] have the same text.  The state is [*output_tensors]. *)
Definition copy_output_tensors (response : reply) (output_names : list string)
    : M (list Tensor) Status :=
  fn (
    let map_name_raw := map_name_raw (r_ofmap response) in
    raw_output_tensors ←
      foldl (fun acc idx =>
               raw_output_tensors ← acc;
               output_name ← at_index output_names idx;
               match map_name_raw !! output_name with
               | None =>
                   return_ (Error INTERNAL ("tensor name" +:+ output_name
                              +:+ " not found in infer_response.ofmap()"))
               | Some raw => ret (raw_output_tensors ++ [raw])
               end)
            (ret []) (seq 0 (length output_names));
    for_range (length output_names) (fun idx =>
      out_tensor_raw ← at_index raw_output_tensors idx;
      output_name ← at_index output_names idx;
      status ← zoom (fun output_tensors => output_tensors !! idx)
                    (fun out_tensor output_tensors => <[idx := out_tensor]> output_tensors)
                    (fun out_tensor w =>
                       let '(status, out_tensor') := tensor_memcpy out_tensor out_tensor_raw in
                       (Val status, out_tensor', w));
      match status with
      | OK => ret tt
      | Error code msg =>
          return_ (Error code ("tensor_memcpy failure on tensor name: "
                                 +:+ output_name +:+ ": " +:+ msg))
      end);;
    ret OK).

End Infer.

(** *** Worlds and the calls made *)

(** The world after the calls [made]. *)
Definition extend (w : World) (made : list call) : World :=
  {| oracle := oracle w; calls := calls w ++ made;
     logged := logged w; environ := environ w |}.

(** What the world answers to [c] once the calls [made] have been made. *)
Definition answer (w : World) (made : list call) (c : call) : reply :=
  oracle w (calls w ++ made) c.

(** How many of the calls [made] satisfy [p]. *)
Definition count (p : call -> bool) (made : list call) : nat :=
  length (List.filter p made).

Definition is_start (c : call) : bool :=
  match c with start _ => true | _ => false end.
Definition is_stop (c : call) : bool :=
  match c with stop _ => true | _ => false end.

Lemma extend_nil w : extend w [] = w.
Proof. destruct w. unfold extend. simpl. by rewrite app_nil_r. Qed.

Lemma extend_extend w a b : extend (extend w a) b = extend w (a ++ b).
Proof. unfold extend. simpl. by rewrite app_assoc. Qed.

Lemma answer_nil w c : answer w [] c = oracle w (calls w) c.
Proof. unfold answer. by rewrite app_nil_r. Qed.

Lemma answer_extend w a b c : answer (extend w a) b c = answer w (a ++ b) c.
Proof. unfold answer, extend. simpl. by rewrite app_assoc. Qed.

Lemma perform_extend {St} (c : call) (st : St) w :
  perform c st w = (Val (answer w [] c), st, extend w [c]).
Proof. unfold perform. by rewrite answer_nil. Qed.

Lemma count_app p a b : count p (a ++ b) = (count p a + count p b)%nat.
Proof. unfold count. by rewrite List.filter_app, length_app. Qed.

(** A reply with the given transport and daemon status codes and nothing
    else, and a world in which no call has been made yet. *)
Definition plain_reply (grpc_code status_code : Z) : reply :=
  {| r_ok := true; r_int := 0; r_str := ""; r_bytes := [];
     grpc_code := grpc_code; status_code_ := status_code;
     r_h_eg := 0; r_nc_count := 0; r_h_nn := 0; r_cookie := 0; r_ofmap := [] |}.

(** A reply that reports failure in every way a call can. *)
Definition failed_reply : reply :=
  {| r_ok := false; r_int := -1; r_str := ""; r_bytes := [];
     grpc_code := 2; status_code_ := 1;
     r_h_eg := 0; r_nc_count := 0; r_h_nn := 0; r_cookie := 0; r_ofmap := [] |}.

Definition fresh_world (oracle : list call -> call -> reply) : World :=
  {| oracle := oracle; calls := []; logged := []; environ := ∅ |}.

(** The world after the calls [made] and the log lines [lines]. *)
Definition advance (w : World) (made : list call) (lines : list string) : World :=
  {| oracle := oracle w; calls := calls w ++ made;
     logged := logged w ++ lines; environ := environ w |}.

Lemma advance_nil w : advance w [] [] = w.
Proof. destruct w. unfold advance. simpl. by rewrite !app_nil_r. Qed.

Lemma advance_advance w a la b lb :
  advance (advance w a la) b lb = advance w (a ++ b) (la ++ lb).
Proof. unfold advance. simpl. by rewrite !app_assoc. Qed.

(** Two worlds with the same calls and the same lines, put together in
    different ways. *)
Ltac same_world :=
  simpl; rewrite ?advance_nil, ?extend_nil; try reflexivity;
  unfold advance, extend, answer; simpl;
  rewrite ?app_nil_r, <- ?app_assoc; simpl; try reflexivity.

(** [m ≫= k] when [m] runs to its end. *)
Lemma bind_val {St A B} (m : M St A) (k : A -> M St B) st w a st' w' :
  m st w = (Val a, st', w') -> (m ≫= k) st w = k a st' w'.
Proof. intros H. unfold mbind, M_bind, bind. by rewrite H. Qed.

Lemma bind_assoc {St A B C} (m : M St A) (k1 : A -> M St B) (k2 : B -> M St C) st w :
  ((m ≫= k1) ≫= k2) st w = (m ≫= (fun a => k1 a ≫= k2)) st w.
Proof. unfold mbind, M_bind, bind. by destruct (m st w) as [[[a | s |] st'] w']. Qed.

(** [fn (m; k)] when [m] runs to its end. *)
Lemma fn_bind_val {St A} (m : M St A) (k : A -> M St Status) st w a st' w' :
  m st w = (Val a, st', w') -> fn (m ≫= k) st w = fn (k a) st' w'.
Proof. intros Hm. unfold fn, mbind, M_bind, bind. by rewrite Hm. Qed.

Lemma bind_assoc_fn {St A B} (m : M St A) (k1 : A -> M St B) (k2 : B -> M St Status) st w :
  fn ((m ≫= k1) ≫= k2) st w = fn (m ≫= (fun a => k1 a ≫= k2)) st w.
Proof. unfold fn. by rewrite bind_assoc. Qed.

(** [fn (m; k)] by the way [m] ends. *)
Lemma fn_bind_cases {St A} (m : M St A) (k : A -> M St Status) st w :
  fn (m ≫= k) st w
  = match m st w with
    | (Val a, st', w') => fn (k a) st' w'
    | (Return s, st', w') => (Val s, st', w')
    | (Undefined, st', w') => (Undefined, st', w')
    end.
Proof. unfold fn, mbind, M_bind, bind. by destruct (m st w) as [[[a | s |] st'] w']. Qed.

(** [fn (TF_RETURN_IF_ERROR(m); rest)] *)
Lemma fn_first {St} (m rest : M St Status) st w :
  fn (TF_RETURN_IF_ERROR m;; rest) st w =
    match m st w with
    | (Val s, st', w') => if ok s then fn rest st' w' else (Val s, st', w')
    | (Return s, st', w') => (Val s, st', w')
    | (Undefined, st', w') => (Undefined, st', w')
    end.
Proof.
  unfold fn, TF_RETURN_IF_ERROR, mbind, M_bind, bind.
  destruct (m st w) as [[[s | s |] st'] w']; try reflexivity.
  destruct (ok s); reflexivity.
Qed.

(** *** The calls a statement can make

    [emits P m]: whatever the state and the world, [m] leaves the oracle
    alone and adds to the log only calls that satisfy [P]. *)
Definition emits {St A} (P : call -> Prop) (m : M St A) : Prop :=
  forall st w, exists made,
    calls (m st w).2 = calls w ++ made /\ oracle (m st w).2 = oracle w /\ Forall P made.

Lemma emits_silent {St A} P (m : M St A) :
  (forall st w, calls (m st w).2 = calls w /\ oracle (m st w).2 = oracle w) ->
  emits P m.
Proof.
  intros H st w. exists []. destruct (H st w) as [-> ->].
  by rewrite app_nil_r.
Qed.

Lemma emits_ret {St A} P (a : A) : emits (St := St) P (ret a).
Proof. by apply emits_silent. Qed.

Lemma emits_mret {St A} P (a : A) : emits (St := St) P (mret a).
Proof. by apply emits_silent. Qed.

Lemma emits_return {St A} P s : emits (St := St) (A := A) P (return_ s).
Proof. by apply emits_silent. Qed.

Lemma emits_undefined {St A} P : emits (St := St) (A := A) P undefined.
Proof. by apply emits_silent. Qed.

Lemma emits_get {St} P : emits (St := St) P get.
Proof. by apply emits_silent. Qed.

Lemma emits_modify {St} P (f : St -> St) : emits P (modify f).
Proof. by apply emits_silent. Qed.

Lemma emits_LOG {St} P line : emits (St := St) P (LOG line).
Proof. by apply emits_silent. Qed.

Lemma emits_observe {St} P c : emits (St := St) P (observe c).
Proof. by apply emits_silent. Qed.

Lemma emits_perform {St} (P : call -> Prop) c : P c -> emits (St := St) P (perform c).
Proof. intros Hc st w. exists [c]. simpl. repeat split; auto. Qed.

Lemma emits_NRT_GRPC {St} (P : call -> Prop) stub c :
  P c -> emits (St := St) P (NRT_GRPC stub c).
Proof.
  intros Hc. destruct stub; simpl; [by apply emits_perform | apply emits_undefined].
Qed.

Lemma emits_bind {St A B} P (m : M St A) (k : A -> M St B) :
  emits P m -> (forall a, emits P (k a)) -> emits P (m ≫= k).
Proof.
  intros Hm Hk st w. unfold mbind, M_bind, bind.
  destruct (Hm st w) as (made & Hcalls & Horacle & HP).
  destruct (m st w) as [[[a | s |] st'] w']; simpl in *.
  - destruct (Hk a st' w') as (made' & Hcalls' & Horacle' & HP').
    exists (made ++ made'). rewrite Hcalls', Horacle', Hcalls, Horacle, app_assoc.
    repeat split; auto. by apply Forall_app.
  - by exists made.
  - by exists made.
Qed.

Lemma emits_fn {St} P (body : M St Status) : emits P body -> emits P (fn body).
Proof.
  intros Hm st w. unfold fn. destruct (Hm st w) as (made & H).
  exists made. by destruct (body st w) as [[[a | s |] st'] w'].
Qed.

Lemma emits_fn_out {St A} P (body : M St A) : emits P body -> emits P (fn_out body).
Proof.
  intros Hm st w. unfold fn_out. destruct (Hm st w) as (made & H).
  exists made. by destruct (body st w) as [[[a | s |] st'] w'].
Qed.

Lemma emits_zoom {S T A} P (view : S -> option T) update (m : M T A) :
  emits P m -> emits P (zoom view update m).
Proof.
  intros Hm st w. unfold zoom. destruct (view st) as [t|].
  - destruct (Hm t w) as (made & H). exists made.
    by destruct (m t w) as [[r t'] w'].
  - exists []. simpl. by rewrite app_nil_r.
Qed.

Lemma emits_TF_RETURN_IF_ERROR {St} P (m : M St Status) :
  emits P m -> emits P (TF_RETURN_IF_ERROR m).
Proof.
  intros Hm. unfold TF_RETURN_IF_ERROR. apply emits_bind; [done|].
  intros s. destruct (ok s); [apply emits_ret | apply emits_return].
Qed.

Lemma emits_NRT_CHECK_RETURN {St} P NERR_OK fn_name response :
  emits (St := St) P (NRT_CHECK_RETURN NERR_OK fn_name response).
Proof.
  unfold NRT_CHECK_RETURN.
  destruct (nrt_failed _ _); [apply emits_return | apply emits_ret].
Qed.

Lemma emits_NRT_CHECK_LOG {St} P NERR_OK fn_name response :
  emits (St := St) P (NRT_CHECK_LOG NERR_OK fn_name response).
Proof.
  unfold NRT_CHECK_LOG.
  destruct (nrt_failed _ _); [apply emits_LOG | apply emits_ret].
Qed.

Lemma emits_at_index {St A} P (v : list A) idx : emits (St := St) P (at_index v idx).
Proof.
  unfold at_index. destruct (v !! idx); [apply emits_ret | apply emits_undefined].
Qed.

Lemma emits_foldl {St A B} P (f : M St A -> B -> M St A) (l : list B) :
  (forall acc x, emits P acc -> emits P (f acc x)) ->
  forall init, emits P init -> emits P (foldl f init l).
Proof. intros Hf. induction l as [|x l IH]; intros init Hinit; simpl; auto. Qed.

Lemma emits_for_each {St A} P (l : list A) (body : A -> M St unit) :
  (forall x, emits P (body x)) -> emits P (for_each l body).
Proof.
  intros Hb. induction l as [|x l IH]; simpl; [apply emits_ret|].
  apply emits_bind; auto.
Qed.

Lemma emits_weaken {St A} (P Q : call -> Prop) (m : M St A) :
  (forall c, P c -> Q c) -> emits P m -> emits Q m.
Proof.
  intros HPQ Hm st w. destruct (Hm st w) as (made & H1 & H2 & H3).
  exists made. repeat split; auto. eapply Forall_impl; eauto.
Qed.

(** Applies the rules above along the text of a statement. *)
Ltac emits_step :=
  lazymatch goal with
  | |- emits _ (_ ≫= _) => apply emits_bind; [|intros ?]
  | |- emits _ (ret _) => apply emits_ret
  | |- emits _ (mret _) => apply emits_mret
  | |- emits _ (return_ _) => apply emits_return
  | |- emits _ undefined => apply emits_undefined
  | |- emits _ get => apply emits_get
  | |- emits _ (modify _) => apply emits_modify
  | |- emits _ (LOG _) => apply emits_LOG
  | |- emits _ (observe _) => apply emits_observe
  | |- emits _ (at_index _ _) => apply emits_at_index
  | |- emits _ (NRT_CHECK_RETURN _ _ _) => apply emits_NRT_CHECK_RETURN
  | |- emits _ (NRT_CHECK_LOG _ _ _) => apply emits_NRT_CHECK_LOG
  | |- emits _ (TF_RETURN_IF_ERROR _) => apply emits_TF_RETURN_IF_ERROR
  | |- emits _ (fn _) => apply emits_fn
  | |- emits _ (fn_out _) => apply emits_fn_out
  | |- emits _ (zoom _ _ _) => apply emits_zoom
  | |- emits _ (for_each _ _) => apply emits_for_each; intros ?
  | |- emits _ (for_range _ _) => apply emits_for_each; intros ?
  | |- emits _ (foldl _ _ _) => apply emits_foldl; [intros ? ? ?|]
  | |- emits _ (perform _) => apply emits_perform
  | |- emits _ (NRT_GRPC _ _) => apply emits_NRT_GRPC
  | |- emits _ (if ?b then _ else _) => destruct b
  | |- emits _ (match ?x with _ => _ end) => destruct x
  | |- emits _ (let _ := _ in _) => cbv zeta
  end.

Ltac emits_auto := repeat emits_step; try done.

(** *** The state a statement leaves alone

    [keeps f m]: whatever the state and the world, [m] does not change the
    part [f] of the state. *)
Definition keeps {St A T} (f : St -> T) (m : M St A) : Prop :=
  forall st w, f (m st w).1.2 = f st.

Lemma keeps_ret {St A T} (f : St -> T) (a : A) : keeps f (ret a).
Proof. done. Qed.

Lemma keeps_mret {St A T} (f : St -> T) (a : A) : keeps f (mret a).
Proof. done. Qed.

Lemma keeps_return {St A T} (f : St -> T) s : keeps (A := A) f (return_ s).
Proof. done. Qed.

Lemma keeps_undefined {St A T} (f : St -> T) : keeps (A := A) f undefined.
Proof. done. Qed.

Lemma keeps_get {St T} (f : St -> T) : keeps f get.
Proof. done. Qed.

Lemma keeps_LOG {St T} (f : St -> T) line : keeps f (LOG line).
Proof. done. Qed.

Lemma keeps_observe {St T} (f : St -> T) c : keeps f (observe c).
Proof. done. Qed.

Lemma keeps_perform {St T} (f : St -> T) c : keeps f (perform c).
Proof. done. Qed.

Lemma keeps_NRT_GRPC {St T} (f : St -> T) stub c : keeps f (NRT_GRPC stub c).
Proof. by destruct stub. Qed.

Lemma keeps_modify {St T} (f : St -> T) (g : St -> St) :
  (forall st, f (g st) = f st) -> keeps f (modify g).
Proof. intros H st w. apply H. Qed.

Lemma keeps_bind {St A B T} (f : St -> T) (m : M St A) (k : A -> M St B) :
  keeps f m -> (forall a, keeps f (k a)) -> keeps f (m ≫= k).
Proof.
  intros Hm Hk st w. unfold mbind, M_bind, bind.
  specialize (Hm st w). destruct (m st w) as [[[a | s |] st'] w']; simpl in *; auto.
  by rewrite Hk.
Qed.

Lemma keeps_fn {St T} (f : St -> T) (body : M St Status) : keeps f body -> keeps f (fn body).
Proof.
  intros Hm st w. unfold fn. specialize (Hm st w).
  by destruct (body st w) as [[[a | s |] st'] w'].
Qed.

Lemma keeps_fn_out {St A T} (f : St -> T) (body : M St A) :
  keeps f body -> keeps f (fn_out body).
Proof.
  intros Hm st w. unfold fn_out. specialize (Hm st w).
  by destruct (body st w) as [[[a | s |] st'] w'].
Qed.

(** A statement on a part of the state keeps what an update of that part
    keeps. *)
Lemma keeps_zoom {S T A U} (f : S -> U) (view : S -> option T) update (m : M T A) :
  (forall t st, f (update t st) = f st) -> keeps f (zoom view update m).
Proof.
  intros Hu st w. unfold zoom. destruct (view st) as [t|]; [|done].
  destruct (m t w) as [[r t'] w']. simpl. apply Hu.
Qed.

Lemma keeps_TF_RETURN_IF_ERROR {St T} (f : St -> T) (m : M St Status) :
  keeps f m -> keeps f (TF_RETURN_IF_ERROR m).
Proof.
  intros Hm. unfold TF_RETURN_IF_ERROR. apply keeps_bind; [done|].
  intros s. by destruct (ok s).
Qed.

Lemma keeps_NRT_CHECK_RETURN {St T} (f : St -> T) NERR_OK fn_name response :
  keeps f (NRT_CHECK_RETURN NERR_OK fn_name response).
Proof. unfold NRT_CHECK_RETURN. by destruct (nrt_failed _ _). Qed.

Lemma keeps_NRT_CHECK_LOG {St T} (f : St -> T) NERR_OK fn_name response :
  keeps f (NRT_CHECK_LOG NERR_OK fn_name response).
Proof. unfold NRT_CHECK_LOG. by destruct (nrt_failed _ _). Qed.

Lemma keeps_at_index {St A T} (f : St -> T) (v : list A) idx : keeps f (at_index v idx).
Proof. unfold at_index. by destruct (v !! idx). Qed.

Lemma keeps_foldl {St A B T} (f : St -> T) (g : M St A -> B -> M St A) (l : list B) :
  (forall acc x, keeps f acc -> keeps f (g acc x)) ->
  forall init, keeps f init -> keeps f (foldl g init l).
Proof. intros Hg. induction l as [|x l IH]; intros init Hinit; simpl; auto. Qed.

Lemma keeps_for_each {St A T} (f : St -> T) (l : list A) (body : A -> M St unit) :
  (forall x, keeps f (body x)) -> keeps f (for_each l body).
Proof.
  intros Hb. induction l as [|x l IH]; simpl; [done|].
  apply keeps_bind; auto.
Qed.

Ltac keeps_step :=
  lazymatch goal with
  | |- keeps _ (_ ≫= _) => apply keeps_bind; [|intros ?]
  | |- keeps _ (ret _) => apply keeps_ret
  | |- keeps _ (mret _) => apply keeps_mret
  | |- keeps _ (return_ _) => apply keeps_return
  | |- keeps _ undefined => apply keeps_undefined
  | |- keeps _ get => apply keeps_get
  | |- keeps _ (modify _) => apply keeps_modify; intros ?
  | |- keeps _ (LOG _) => apply keeps_LOG
  | |- keeps _ (observe _) => apply keeps_observe
  | |- keeps _ (at_index _ _) => apply keeps_at_index
  | |- keeps _ (NRT_CHECK_RETURN _ _ _) => apply keeps_NRT_CHECK_RETURN
  | |- keeps _ (NRT_CHECK_LOG _ _ _) => apply keeps_NRT_CHECK_LOG
  | |- keeps _ (TF_RETURN_IF_ERROR _) => apply keeps_TF_RETURN_IF_ERROR
  | |- keeps _ (fn _) => apply keeps_fn
  | |- keeps _ (fn_out _) => apply keeps_fn_out
  | |- keeps _ (zoom _ _ _) => apply keeps_zoom; intros ? ?
  | |- keeps _ (for_each _ _) => apply keeps_for_each; intros ?
  | |- keeps _ (for_range _ _) => apply keeps_for_each; intros ?
  | |- keeps _ (foldl _ _ _) => apply keeps_foldl; [intros ? ? ?|]
  | |- keeps _ (perform _) => apply keeps_perform
  | |- keeps _ (NRT_GRPC _ _) => apply keeps_NRT_GRPC
  | |- keeps _ (if ?b then _ else _) => destruct b
  | |- keeps _ (match ?x with _ => _ end) => destruct x
  | |- keeps _ (let _ := _ in _) => cbv zeta
  end.

Ltac keeps_auto := repeat keeps_step; try done.

(** *** Two statements that run alike

    [alike R m1 m2]: from states related by [R] and the same world, [m1] and
    [m2] end the same way, in the same world and in states related by [R]. *)
Definition alike {St1 St2 A} (R : St1 -> St2 -> Prop) (m1 : M St1 A) (m2 : M St2 A)
    : Prop :=
  forall st1 st2 w, R st1 st2 ->
    (m1 st1 w).1.1 = (m2 st2 w).1.1 /\ (m1 st1 w).2 = (m2 st2 w).2
    /\ R (m1 st1 w).1.2 (m2 st2 w).1.2.

Lemma alike_ret {St1 St2 A} (R : St1 -> St2 -> Prop) (a : A) : alike R (ret a) (ret a).
Proof. by intros st1 st2 w HR. Qed.

Lemma alike_return {St1 St2 A} (R : St1 -> St2 -> Prop) s :
  alike (A := A) R (return_ s) (return_ s).
Proof. by intros st1 st2 w HR. Qed.

Lemma alike_perform {St1 St2} (R : St1 -> St2 -> Prop) c : alike R (perform c) (perform c).
Proof. by intros st1 st2 w HR. Qed.

Lemma alike_observe {St1 St2} (R : St1 -> St2 -> Prop) c : alike R (observe c) (observe c).
Proof. by intros st1 st2 w HR. Qed.

Lemma alike_undefined {St1 St2 A} (R : St1 -> St2 -> Prop) :
  alike (A := A) R undefined undefined.
Proof. by intros st1 st2 w HR. Qed.

Lemma alike_at_index {St1 St2 A} (R : St1 -> St2 -> Prop) (v : list A) idx :
  alike R (at_index v idx) (at_index v idx).
Proof. intros st1 st2 w HR. unfold at_index. by destruct (v !! idx). Qed.

Lemma alike_NRT_CHECK_RETURN {St1 St2} (R : St1 -> St2 -> Prop) NERR_OK fn_name response :
  alike R (NRT_CHECK_RETURN NERR_OK fn_name response)
          (NRT_CHECK_RETURN NERR_OK fn_name response).
Proof. intros st1 st2 w HR. unfold NRT_CHECK_RETURN. by destruct (nrt_failed _ _). Qed.

Lemma alike_bind {St1 St2 A B} (R : St1 -> St2 -> Prop)
    (m1 : M St1 A) (m2 : M St2 A) (k1 : A -> M St1 B) (k2 : A -> M St2 B) :
  alike R m1 m2 -> (forall a, alike R (k1 a) (k2 a)) -> alike R (m1 ≫= k1) (m2 ≫= k2).
Proof.
  intros Hm Hk st1 st2 w HR. unfold mbind, M_bind, bind.
  destruct (Hm st1 st2 w HR) as (Hres & Hw & HR').
  destruct (m1 st1 w) as [[r1 st1'] w1], (m2 st2 w) as [[r2 st2'] w2].
  simpl in *. subst r2 w2. destruct r1 as [a | s |]; [by apply Hk | done | done].
Qed.

Lemma alike_fn {St1 St2} (R : St1 -> St2 -> Prop) (m1 : M St1 Status) (m2 : M St2 Status) :
  alike R m1 m2 -> alike R (fn m1) (fn m2).
Proof.
  intros Hm st1 st2 w HR. unfold fn.
  destruct (Hm st1 st2 w HR) as (Hres & Hw & HR').
  destruct (m1 st1 w) as [[r1 st1'] w1], (m2 st2 w) as [[r2 st2'] w2].
  simpl in *. subst r2 w2. by destruct r1.
Qed.

Lemma alike_fn_out {St1 St2 A} (R : St1 -> St2 -> Prop) (m1 : M St1 A) (m2 : M St2 A) :
  alike R m1 m2 -> alike R (fn_out m1) (fn_out m2).
Proof.
  intros Hm st1 st2 w HR. unfold fn_out.
  destruct (Hm st1 st2 w HR) as (Hres & Hw & HR').
  destruct (m1 st1 w) as [[r1 st1'] w1], (m2 st2 w) as [[r2 st2'] w2].
  simpl in *. subst r2 w2. by destruct r1.
Qed.

Lemma alike_TF_RETURN_IF_ERROR {St1 St2} (R : St1 -> St2 -> Prop)
    (m1 : M St1 Status) (m2 : M St2 Status) :
  alike R m1 m2 -> alike R (TF_RETURN_IF_ERROR m1) (TF_RETURN_IF_ERROR m2).
Proof.
  intros Hm. unfold TF_RETURN_IF_ERROR. apply alike_bind; [done|].
  intros s. destruct (ok s); [apply alike_ret | apply alike_return].
Qed.

Lemma alike_foldl {St1 St2 A B} (R : St1 -> St2 -> Prop)
    (g1 : M St1 A -> B -> M St1 A) (g2 : M St2 A -> B -> M St2 A) (l : list B) :
  (forall acc1 acc2 x, alike R acc1 acc2 -> alike R (g1 acc1 x) (g2 acc2 x)) ->
  forall init1 init2, alike R init1 init2 -> alike R (foldl g1 init1 l) (foldl g2 init2 l).
Proof. intros Hg. induction l as [|x l IH]; intros init1 init2 Hinit; simpl; auto. Qed.

(** A statement on a part of the state, when the parts are the same and the
    rest stays related. *)
Lemma alike_zoom {St1 St2 T A} (R : St1 -> St2 -> Prop)
    (view1 : St1 -> option T) (view2 : St2 -> option T) update1 update2 (m : M T A) :
  (forall st1 st2, R st1 st2 -> view1 st1 = view2 st2) ->
  (forall st1 st2 t, R st1 st2 -> R (update1 t st1) (update2 t st2)) ->
  alike R (zoom view1 update1 m) (zoom view2 update2 m).
Proof.
  intros Hview Hupdate st1 st2 w HR. unfold zoom. rewrite (Hview st1 st2 HR).
  destruct (view2 st2) as [t|]; [|done].
  destruct (m t w) as [[r t'] w']. simpl. repeat split. by apply Hupdate.
Qed.

Ltac alike_step :=
  lazymatch goal with
  | |- alike _ (_ ≫= _) (_ ≫= _) => apply alike_bind; [|intros ?]
  | |- alike _ (ret _) (ret _) => apply alike_ret
  | |- alike _ (mret _) (mret _) => apply alike_ret
  | |- alike _ (return_ _) (return_ _) => apply alike_return
  | |- alike _ (perform _) (perform _) => apply alike_perform
  | |- alike _ (observe _) (observe _) => apply alike_observe
  | |- alike _ undefined undefined => apply alike_undefined
  | |- alike _ (at_index _ _) (at_index _ _) => apply alike_at_index
  | |- alike _ (NRT_CHECK_RETURN _ _ _) (NRT_CHECK_RETURN _ _ _) =>
      apply alike_NRT_CHECK_RETURN
  | |- alike _ (TF_RETURN_IF_ERROR _) (TF_RETURN_IF_ERROR _) =>
      apply alike_TF_RETURN_IF_ERROR
  | |- alike _ (fn _) (fn _) => apply alike_fn
  | |- alike _ (fn_out _) (fn_out _) => apply alike_fn_out
  | |- alike _ (foldl _ _ _) (foldl _ _ _) => apply alike_foldl; [intros ? ? ? ?|]
  | |- alike _ (if ?b then _ else _) (if ?b then _ else _) => destruct b
  | |- alike _ (let _ := _ in _) _ => cbv zeta
  end.

Ltac alike_auto := repeat alike_step; try done.
Section InferFacts.
Context {Tensor : Type}.
Variable tensor_data : Tensor -> list byte.
Variable tensor_memcpy : Tensor -> list byte -> Status * Tensor.

(** The calls that move tensor bytes through shared memory. *)
Definition is_shm_access (c : call) : Prop :=
  match c with shm_write _ _ | shm_read _ _ => True | _ => False end.

Variable NERR_OK : Z.
Variable NERR_INFER_COMPLETED_WITH_NUM_ERR : Z.

(** A response that [infer] and [infer_wait] take for a success: the
    transport went through and the daemon's code is OK or "completed with
    numeric error". *)
Definition completed (response : reply) : Prop :=
  grpc_ok response = true
  /\ (status_code_ response = NERR_INFER_COMPLETED_WITH_NUM_ERR
      \/ status_code_ response = NERR_OK).

Lemma set_code_same response : set_code (status_code_ response) response = response.
Proof. by destruct response. Qed.

(** For a completed response the rewriting leaves the response with the OK
    code, which passes the check. *)
Lemma ignore_num_err_completed response :
  completed response ->
  ignore_num_err NERR_OK NERR_INFER_COMPLETED_WITH_NUM_ERR response
    = set_code NERR_OK response
  /\ nrt_failed NERR_OK (set_code NERR_OK response) = false.
Proof.
  intros [Hok Hcode]. split.
  - unfold ignore_num_err. rewrite Hok.
    destruct (Z.eqb_spec NERR_INFER_COMPLETED_WITH_NUM_ERR (status_code_ response))
      as [Heq|Hne]; [done|].
    destruct Hcode as [Hcode|Hcode]; [congruence|].
    by rewrite <- Hcode, set_code_same.
  - unfold nrt_failed, grpc_ok in *. simpl. by rewrite Hok, Z.eqb_refl.
Qed.

Lemma emits_add_ifmap {St} enabled paths ptrs sizes input_names input_tensors :
  emits (St := St) is_shm_access
    (add_ifmap tensor_data enabled paths ptrs sizes input_names input_tensors).
Proof. unfold add_ifmap, memcpy_to_shm. emits_auto. Qed.

Lemma emits_add_shm_ofmap {St} paths output_names :
  emits (St := St) is_shm_access (add_shm_ofmap paths output_names).
Proof. unfold add_shm_ofmap. emits_auto. Qed.

Lemma emits_add_response_ofmap {St} ptrs sizes output_names response :
  emits (St := St) is_shm_access (add_response_ofmap ptrs sizes output_names response).
Proof. unfold add_response_ofmap, read_from_shm. emits_auto. Qed.

Lemma keeps_add_ifmap {St T} (f : St -> T) enabled paths ptrs sizes input_names
    input_tensors :
  keeps f (add_ifmap tensor_data enabled paths ptrs sizes input_names input_tensors).
Proof. unfold add_ifmap, memcpy_to_shm. keeps_auto. Qed.

Lemma keeps_add_shm_ofmap {St T} (f : St -> T) paths output_names :
  keeps f (add_shm_ofmap paths output_names).
Proof. unfold add_shm_ofmap. keeps_auto. Qed.

Lemma keeps_add_response_ofmap {St T} (f : St -> T) ptrs sizes output_names response :
  keeps f (add_response_ofmap ptrs sizes output_names response).
Proof. unfold add_response_ofmap, read_from_shm. keeps_auto. Qed.

Lemma emits_copy_output_tensors P response output_names :
  emits P (copy_output_tensors tensor_memcpy response output_names).
Proof.
  unfold copy_output_tensors. emits_auto.
  intros st w. exists []. simpl. destruct (tensor_memcpy _ _). simpl.
  by rewrite app_nil_r.
Qed.

End InferFacts.

(** *** The streamed load *)
Section LoadFacts.
Context {St : Type}.
Variable NERR_OK : Z.
Variable EXEC_MAX_CHUNK_SIZE : Z.
Hypothesis chunk_size_positive : 0 < EXEC_MAX_CHUNK_SIZE.

Definition broken_stream : Status :=
  Error INTERNAL "neuron-rtd load failure - broken stream".

(** The chunks the loop of [load] cuts the executable in, from [pos] on. *)
Fixpoint chunks (fuel : nat) (executable : list byte) (pos : Z) : list (list byte) :=
  let exec_total_size := Z.of_nat (length executable) in
  if pos <? exec_total_size then
    match fuel with
    | O => []
    | S fuel' =>
        let remaining := exec_total_size - pos in
        let chunk_size := Z.min remaining EXEC_MAX_CHUNK_SIZE in
        take (Z.to_nat chunk_size) (drop (Z.to_nat pos) executable)
          :: chunks fuel' executable (pos + EXEC_MAX_CHUNK_SIZE)
    end
  else [].

(** The messages of a load, in the order of the stream. *)
Definition load_messages (eg_id : Z) (executable : list byte) (timeout ninfer : Z)
    : list load_request :=
  [h_eg eg_id; neff_size (Z.of_nat (length executable)); model_params timeout ninfer]
  ++ map neff_chunk (chunks (S (length executable)) executable 0).

(** The messages that are handed to the stream, each write answered after
    the writes before it: the messages up to the first write that fails, that
    one included, and whether every write succeeded. *)
Fixpoint written (oracle : list call -> call -> reply) (history : list call)
    (messages : list load_request) : list load_request * bool :=
  match messages with
  | [] => ([], true)
  | message :: messages' =>
      if r_ok (oracle history (Write message)) then
        let '(l, all) := written oracle (history ++ [Write message]) messages' in
        (message :: l, all)
      else ([message], false)
  end.

Lemma written_prefix oracle messages : forall history,
  (written oracle history messages).1
    = take (length (written oracle history messages).1) messages
  /\ ((written oracle history messages).2 = true ->
      (written oracle history messages).1 = messages)
  /\ ((written oracle history messages).2 = false ->
      (written oracle history messages).1 <> []).
Proof.
  induction messages as [|message messages IH]; intros history; simpl; [done|].
  destruct (r_ok (oracle history (Write message))); [|done].
  specialize (IH (history ++ [Write message])).
  destruct (written oracle (history ++ [Write message]) messages) as [l all].
  simpl in *. destruct IH as (IH1 & IH2 & IH3).
  repeat split; try done.
  - by rewrite <- IH1.
  - intros Hall. by rewrite IH2.
Qed.

Lemma chunks_concat fuel executable : forall pos,
  0 <= pos -> Z.of_nat (length executable) - pos < Z.of_nat fuel ->
  concat (chunks fuel executable pos) = drop (Z.to_nat pos) executable.
Proof.
  induction fuel as [|fuel IH]; intros pos Hpos Hfuel; simpl.
  - destruct (Z.ltb_spec pos (Z.of_nat (length executable))); [lia|].
    by rewrite drop_ge by lia.
  - destruct (Z.ltb_spec pos (Z.of_nat (length executable))) as [Hlt|Hge].
    + simpl. rewrite IH by lia.
      destruct (Z.min_spec (Z.of_nat (length executable) - pos) EXEC_MAX_CHUNK_SIZE)
        as [[Hm ->]|[Hm ->]].
      * rewrite take_ge by (rewrite length_drop; lia).
        rewrite (drop_ge _ (Z.to_nat (pos + EXEC_MAX_CHUNK_SIZE))) by lia.
        by rewrite app_nil_r.
      * replace (Z.to_nat (pos + EXEC_MAX_CHUNK_SIZE))
          with (Z.to_nat pos + Z.to_nat EXEC_MAX_CHUNK_SIZE)%nat by lia.
        rewrite <- drop_drop. apply take_drop.
    + by rewrite drop_ge by lia.
Qed.

Lemma chunks_size fuel executable : forall pos,
  0 <= pos ->
  Forall (fun chunk => 0 < Z.of_nat (length chunk) <= EXEC_MAX_CHUNK_SIZE)
         (chunks fuel executable pos).
Proof.
  induction fuel as [|fuel IH]; intros pos Hpos; simpl.
  - by destruct (pos <? Z.of_nat (length executable)).
  - destruct (Z.ltb_spec pos (Z.of_nat (length executable))) as [Hlt|Hge]; [|done].
    constructor; [|apply IH; lia].
    rewrite length_take, length_drop. lia.
Qed.

(** One write, and what follows it. *)
Lemma write_then {A} message (k : M St A) st w :
  (WRITE_LOAD_REQUEST message;; k) st w
  = if r_ok (oracle w (calls w) (Write message))
    then k st (extend w [Write message])
    else (Return broken_stream, st, extend w [Write message]).
Proof.
  unfold WRITE_LOAD_REQUEST, mbind, M_bind, bind, perform. simpl.
  by destruct (r_ok (oracle w (calls w) (Write message))).
Qed.

(** The loop over the chunks, and what follows it. *)
Lemma write_chunks_then {A} fuel executable (k : M St A) : forall pos st w,
  0 <= pos -> Z.of_nat (length executable) - pos < Z.of_nat fuel ->
  (write_chunks EXEC_MAX_CHUNK_SIZE fuel executable pos;; k) st w
  = let '(l, all) :=
      written (oracle w) (calls w) (map neff_chunk (chunks fuel executable pos)) in
    if all then k st (extend w (map Write l))
    else (Return broken_stream, st, extend w (map Write l)).
Proof.
  induction fuel as [|fuel IH]; intros pos st w Hpos Hfuel.
  - simpl. destruct (Z.ltb_spec pos (Z.of_nat (length executable))); [lia|].
    simpl. by rewrite extend_nil.
  - simpl. destruct (Z.ltb_spec pos (Z.of_nat (length executable))) as [Hlt|Hge].
    + simpl.
      match goal with |- context [WRITE_LOAD_REQUEST ?msg] => set (message := msg) end.
      transitivity
        ((WRITE_LOAD_REQUEST message;;
          (write_chunks EXEC_MAX_CHUNK_SIZE fuel executable (pos + EXEC_MAX_CHUNK_SIZE);; k))
           st w).
      { unfold mbind, M_bind, bind.
        by destruct (WRITE_LOAD_REQUEST message st w) as [[[[] | ? |] ?] ?]. }
      rewrite write_then.
      destruct (r_ok (oracle w (calls w) (Write message))); [|done].
      rewrite IH by lia. simpl.
      destruct (written (oracle w) (calls w ++ [Write message])
                  (map neff_chunk
                     (chunks fuel executable (pos + EXEC_MAX_CHUNK_SIZE)))) as [l all].
      rewrite extend_extend. done.
    + simpl. by rewrite extend_nil.
Qed.

(** The whole stream: the writes in order up to the first that fails, then
    the close, then the response. *)
Lemma load_stream_body_run stub eg_id executable timeout ninfer (st : St) w :
  let messages := load_messages eg_id executable timeout ninfer in
  let '(l, all) := written (oracle w) (calls w ++ [load_stream]) messages in
  let stream := [load_stream] ++ map Write l in
  load_stream_body NERR_OK EXEC_MAX_CHUNK_SIZE (Some stub) eg_id executable timeout ninfer
    st w
  = if all then
      if r_ok (answer w stream WritesDone) then
        let response := answer w (stream ++ [WritesDone]) Finish in
        if nrt_failed NERR_OK response
        then (Return (Error INTERNAL (nrt_error_message "load" response)), st,
              extend w (stream ++ [WritesDone; Finish]))
        else (Val response, st, extend w (stream ++ [WritesDone; Finish]))
      else (Return broken_stream, st, extend w (stream ++ [WritesDone]))
    else (Return broken_stream, st, extend w stream).
Proof.
  unfold load_stream_body, load_messages.
  erewrite bind_val; [|apply (perform_extend load_stream)].
  change (calls w ++ [load_stream]) with (calls (extend w [load_stream])).
  change (oracle w) with (oracle (extend w [load_stream])).
  remember (extend w [load_stream]) as w0 eqn:Hw0. cbn [app written].
  rewrite write_then.
  destruct (r_ok (oracle w0 (calls w0) (Write (h_eg eg_id))));
    [|subst w0; cbn [map app]; rewrite ?extend_extend; reflexivity].
  rewrite write_then.
  change (calls (extend w0 [Write (h_eg eg_id)]))
    with (calls w0 ++ [Write (h_eg eg_id)]).
  change (oracle (extend w0 [Write (h_eg eg_id)])) with (oracle w0).
  destruct (r_ok (oracle w0 (calls w0 ++ [Write (h_eg eg_id)])
                    (Write (neff_size (Z.of_nat (length executable))))));
    [|subst w0; cbn [map app]; rewrite ?extend_extend; reflexivity].
  rewrite write_then, !extend_extend.
  change (calls (extend w0 ?l)) with (calls w0 ++ l).
  change (oracle (extend w0 ?l)) with (oracle w0).
  rewrite <- !app_assoc. cbn [app].
  destruct (r_ok (oracle w0 _ (Write (model_params timeout ninfer))));
    [|subst w0; cbn [map app]; rewrite ?extend_extend; reflexivity].
  rewrite write_chunks_then by lia.
  change (calls (extend w0 ?l)) with (calls w0 ++ l).
  change (oracle (extend w0 ?l)) with (oracle w0).
  destruct (written _ _ _) as [l all].
  subst w0. rewrite !extend_extend. cbn [app map].
  destruct all; [|done].
  unfold mbind, M_bind, bind, perform, answer, extend. simpl.
  rewrite <- ?app_assoc. simpl.
  destruct (r_ok _); simpl; [|by rewrite <- ?app_assoc].
  unfold NRT_CHECK_RETURN, return_, ret. rewrite <- ?app_assoc. simpl.
  destruct (nrt_failed NERR_OK _); simpl; by rewrite <- ?app_assoc.
Qed.

End LoadFacts.

(** *** Loops that build a list *)
Section Loops.
Context {St A B : Type}.
Variable body : A -> B -> M St A.

(** The loops over an index are written as folds whose accumulator is a
    statement; [loop] is the same loop with the value passed along. *)
Fixpoint loop (a : A) (l : list B) : M St A :=
  match l with
  | [] => ret a
  | x :: l' => a' ← body a x; loop a' l'
  end.

Lemma foldl_loop l : forall (init : M St A) st w,
  foldl (fun acc x => a ← acc; body a x) init l st w = (a ← init; loop a l) st w.
Proof.
  induction l as [|x l IH]; intros init st w; simpl.
  - unfold mbind, M_bind, bind, ret. by destruct (init st w) as [[[a | s |] st'] w'].
  - rewrite IH. unfold mbind, M_bind, bind.
    by destruct (init st w) as [[[a | s |] st'] w'].
Qed.

Lemma foldl_ret_loop l (a : A) st w :
  foldl (fun acc x => a ← acc; body a x) (ret a) l st w = loop a l st w.
Proof. by rewrite foldl_loop. Qed.

End Loops.

(** *** The request of an inference *)
Section RequestFacts.
Context {Tensor St : Type}.
Variable tensor_data : Tensor -> list byte.

(** An entry that carries the bytes of a tensor, and one that carries the
    path of a shared-memory object. *)
Definition inline_entry (tensor_name : string) (tensor : Tensor) : infer_io :=
  {| name := tensor_name; data := buf (tensor_data tensor) |}.

Definition shm_entry (tensor_name path : string) : infer_io :=
  {| name := tensor_name; data := buf_shm path |}.

Lemma at_index_Some {T} (v : list T) idx x (st : St) w :
  v !! idx = Some x -> at_index v idx st w = (Val x, st, w).
Proof. intros H. unfold at_index. by rewrite H. Qed.

Lemma at_index_None {T} (v : list T) idx (st : St) w :
  v !! idx = None -> at_index (St := St) v idx st w = (Undefined, st, w).
Proof. intros H. unfold at_index. by rewrite H. Qed.

Lemma inline_loop input_names input_tensors (st : St) w len : forall start acc,
  (start + len = length input_names)%nat -> (start <= length input_tensors)%nat ->
  loop (fun ifmap idx =>
          input_name ← at_index input_names idx;
          tensor ← at_index input_tensors idx;
          ret (ifmap ++ [{| name := input_name; data := buf (tensor_data tensor) |}]))
       acc (seq start len) st w
  = if (length input_names <=? length input_tensors)%nat
    then (Val (acc ++ zip_with inline_entry (drop start input_names)
                        (drop start input_tensors)), st, w)
    else (Undefined, st, w).
Proof.
  induction len as [|len IH]; intros start acc Hlen Hstart; simpl.
  - rewrite Nat.add_0_r in Hlen. subst start.
    rewrite (proj2 (Nat.leb_le _ _) Hstart), drop_all. simpl. by rewrite app_nil_r.
  - destruct (lookup_lt_is_Some_2 input_names start ltac:(lia)) as [input_name Hname].
    rewrite bind_assoc. erewrite bind_val; [|by apply at_index_Some]. cbv beta.
    rewrite bind_assoc.
    destruct (input_tensors !! start) as [tensor|] eqn:Htensor.
    + erewrite bind_val; [|by apply at_index_Some]. cbv beta.
      erewrite bind_val; [|reflexivity].
      apply lookup_lt_Some in Htensor as Hlt.
      rewrite IH by lia.
      rewrite (drop_S input_names _ _ Hname), (drop_S input_tensors _ _ Htensor).
      simpl. by rewrite <- app_assoc.
    + apply lookup_ge_None in Htensor as Hge.
      destruct (Nat.leb_spec (length input_names) (length input_tensors)); [lia|].
      unfold mbind, M_bind, bind. by rewrite (at_index_None _ _ _ _ Htensor).
Qed.

(** The loop of [infer_post] over the input names: an entry for each name,
    with the bytes of the tensor at the same index; a missing tensor is an
    access outside [input_tensors]. *)
Lemma add_ifmap_inline_run input_names input_tensors (st : St) w :
  add_ifmap_inline tensor_data input_names input_tensors st w
  = if (length input_names <=? length input_tensors)%nat
    then (Val (zip_with inline_entry input_names input_tensors), st, w)
    else (Undefined, st, w).
Proof.
  unfold add_ifmap_inline. rewrite foldl_ret_loop.
  rewrite (inline_loop input_names input_tensors st w (length input_names) 0 [])
    by (simpl; lia).
  done.
Qed.

(** The loop of [infer] without shared memory is the same loop. *)
Lemma add_ifmap_plain_run paths ptrs sizes input_names input_tensors (st : St) w :
  add_ifmap tensor_data false paths ptrs sizes input_names input_tensors st w
  = if (length input_names <=? length input_tensors)%nat
    then (Val (zip_with inline_entry input_names input_tensors), st, w)
    else (Undefined, st, w).
Proof.
  unfold add_ifmap. rewrite foldl_ret_loop.
  rewrite (inline_loop input_names input_tensors st w (length input_names) 0 [])
    by (simpl; lia).
  done.
Qed.

(** The tensor at [idx] fits the mapping recorded at the same index. *)
Definition fits_at (ptrs sizes : list Z) (input_tensors : list Tensor) (idx : nat) : bool :=
  match ptrs !! idx, sizes !! idx, input_tensors !! idx with
  | Some ptr, Some size, Some tensor =>
      names_object ptr && (Z.of_nat (length (tensor_data tensor)) <=? size)
  | _, _, _ => false
  end.

(** One turn of the loop with shared memory. *)
Definition shm_turn (paths : list string) (ptrs sizes : list Z) (input_names : list string)
    (input_tensors : list Tensor) (ifmap : list infer_io) (idx : nat)
    : M St (list infer_io) :=
  input_name ← at_index input_names idx;
  tensor ← at_index input_tensors idx;
  let tensor_data := tensor_data tensor in
  path ← at_index paths idx;
  ptr ← at_index ptrs idx;
  mapped_size ← at_index sizes idx;
  memcpy_to_shm ptr mapped_size tensor_data;;
  ret (ifmap ++ [{| name := input_name; data := buf_shm path |}]).

Lemma shm_turn_fits paths ptrs sizes input_names input_tensors ifmap idx input_name
    tensor path ptr (st : St) w :
  input_names !! idx = Some input_name -> input_tensors !! idx = Some tensor ->
  paths !! idx = Some path -> ptrs !! idx = Some ptr ->
  fits_at ptrs sizes input_tensors idx = true ->
  shm_turn paths ptrs sizes input_names input_tensors ifmap idx st w
  = (Val (ifmap ++ [shm_entry input_name path]), st,
     extend w [shm_write ptr (tensor_data tensor)]).
Proof.
  intros Hname Htensor Hpath Hptr Hfits. unfold fits_at in Hfits.
  rewrite Hptr, Htensor in Hfits. destruct (sizes !! idx) as [size|] eqn:Hsize; [|done].
  unfold shm_turn.
  erewrite bind_val; [|by apply at_index_Some]. cbv beta.
  erewrite bind_val; [|by apply at_index_Some]. cbv beta zeta.
  erewrite bind_val; [|by apply at_index_Some]. cbv beta.
  erewrite bind_val; [|by apply at_index_Some]. cbv beta.
  erewrite bind_val; [|by apply at_index_Some]. cbv beta.
  unfold memcpy_to_shm. rewrite Hfits.
  rewrite bind_assoc. erewrite bind_val; [|apply perform_extend]. cbv beta.
  erewrite bind_val; [|reflexivity]. reflexivity.
Qed.

Lemma shm_turn_overflow paths ptrs sizes input_names input_tensors ifmap idx (st : St) w :
  (idx < length paths)%nat ->
  fits_at ptrs sizes input_tensors idx = false ->
  shm_turn paths ptrs sizes input_names input_tensors ifmap idx st w = (Undefined, st, w).
Proof.
  intros Hpath Hfits. unfold fits_at in Hfits. unfold shm_turn, at_index.
  destruct (lookup_lt_is_Some_2 paths idx Hpath) as [path ->].
  destruct (input_names !! idx); [|done].
  destruct (input_tensors !! idx); [|done].
  destruct (ptrs !! idx); [|done].
  destruct (sizes !! idx); [|done].
  unfold memcpy_to_shm, mbind, M_bind, bind, ret, undefined. cbn. by rewrite Hfits.
Qed.

Lemma shm_loop paths ptrs sizes input_names input_tensors (st : St) len :
  forall start acc w,
  (start + len <= length input_names)%nat ->
  (length input_names <= length paths)%nat ->
  (forall idx, (start <= idx < start + len)%nat ->
     fits_at ptrs sizes input_tensors idx = true) ->
  loop (shm_turn paths ptrs sizes input_names input_tensors) acc (seq start len) st w
  = (Val (acc ++ take len (zip_with shm_entry (drop start input_names) (drop start paths))),
     st,
     extend w (take len (zip_with shm_write (drop start ptrs)
                           (tensor_data <$> drop start input_tensors)))).
Proof.
  induction len as [|len IH]; intros start acc w Hlen Hpaths Hfits; simpl.
  - by rewrite app_nil_r, extend_nil.
  - pose proof (Hfits start ltac:(lia)) as Hstart.
    destruct (lookup_lt_is_Some_2 input_names start ltac:(lia)) as [input_name Hname].
    destruct (lookup_lt_is_Some_2 paths start ltac:(lia)) as [path Hpath].
    assert (Hhave : exists ptr tensor,
              ptrs !! start = Some ptr /\ input_tensors !! start = Some tensor).
    { unfold fits_at in Hstart. destruct (ptrs !! start) as [ptr|]; [|done].
      destruct (sizes !! start); [|done].
      destruct (input_tensors !! start) as [tensor|]; [|done]. by exists ptr, tensor. }
    destruct Hhave as (ptr & tensor & Hptr & Htensor).
    erewrite bind_val;
      [|by apply (shm_turn_fits _ _ _ _ _ _ _ _ _ _ _ _ _ Hname Htensor Hpath Hptr)].
    rewrite IH by (try lia; intros; apply Hfits; lia).
    rewrite (drop_S input_names _ _ Hname), (drop_S input_tensors _ _ Htensor),
      (drop_S paths _ _ Hpath), (drop_S ptrs _ _ Hptr).
    simpl. by rewrite <- app_assoc, extend_extend.
Qed.

(** The loop of [infer] with shared memory: the bytes of each tensor are
    written to the mapped buffer at the same index, in the order of the
    names, and the entry carries the path of that buffer. *)
Lemma add_ifmap_shm_run paths ptrs sizes input_names input_tensors (st : St) w :
  (length input_names <= length paths)%nat ->
  (forall idx, (idx < length input_names)%nat ->
     fits_at ptrs sizes input_tensors idx = true) ->
  add_ifmap tensor_data true paths ptrs sizes input_names input_tensors st w
  = (Val (zip_with shm_entry input_names paths), st,
     extend w (take (length input_names)
                 (zip_with shm_write ptrs (tensor_data <$> input_tensors)))).
Proof.
  intros Hpaths Hfits. unfold add_ifmap.
  change (foldl _ (ret []) (seq 0 (length input_names)))
    with (foldl (fun acc idx =>
                   ifmap ← acc;
                   shm_turn paths ptrs sizes input_names input_tensors ifmap idx)
                (ret ([] : list infer_io)) (seq 0 (length input_names))).
  rewrite foldl_ret_loop.
  etransitivity;
    [apply (shm_loop paths ptrs sizes input_names input_tensors st
              (length input_names) 0 [] w);
     [simpl; lia | done | intros; apply Hfits; lia]|].
  simpl. rewrite !drop_0. rewrite (take_ge (zip_with shm_entry _ _)); [done|].
  rewrite length_zip_with. lia.
Qed.

(** A tensor that does not fit its mapping, or has none: the tensors before
    it have been written, and the write of this one is outside an object. *)
Lemma add_ifmap_shm_overflow paths ptrs sizes input_names input_tensors first (st : St) w :
  (length input_names <= length paths)%nat ->
  (first < length input_names)%nat ->
  (forall idx, (idx < first)%nat -> fits_at ptrs sizes input_tensors idx = true) ->
  fits_at ptrs sizes input_tensors first = false ->
  add_ifmap tensor_data true paths ptrs sizes input_names input_tensors st w
  = (Undefined, st,
     extend w (take first (zip_with shm_write ptrs (tensor_data <$> input_tensors)))).
Proof.
  intros Hpaths Hfirst Hfits Hover. unfold add_ifmap.
  change (foldl _ (ret []) (seq 0 (length input_names)))
    with (foldl (fun acc idx =>
                   ifmap ← acc;
                   shm_turn paths ptrs sizes input_names input_tensors ifmap idx)
                (ret ([] : list infer_io)) (seq 0 (length input_names))).
  rewrite foldl_ret_loop.
  replace (length input_names) with (first + S (length input_names - S first))%nat by lia.
  rewrite seq_app. cbn [seq Nat.add].
  assert (Hsplit : forall (a : list infer_io) l1 l2 st0 w0,
            loop (shm_turn paths ptrs sizes input_names input_tensors) a (l1 ++ l2) st0 w0
            = (a' ← loop (shm_turn paths ptrs sizes input_names input_tensors) a l1;
               loop (shm_turn paths ptrs sizes input_names input_tensors) a' l2) st0 w0).
  { intros a l1. revert a. induction l1 as [|x l1 IH]; intros a l2 st0 w0; [done|].
    cbn [app loop]. rewrite bind_assoc. unfold mbind, M_bind, bind.
    destruct (shm_turn _ _ _ _ _ a x st0 w0) as [[[a'| |] st1] w1]; [|done..].
    apply IH. }
  rewrite Hsplit.
  erewrite bind_val;
    [|apply (shm_loop paths ptrs sizes input_names input_tensors st first 0 [] w);
      [simpl; lia | done | intros; apply Hfits; lia]].
  cbn [loop]. rewrite !drop_0.
  set (w1 := extend w _).
  unfold mbind at 1, M_bind at 1, bind at 1.
  rewrite shm_turn_overflow by (done || lia). reflexivity.
Qed.

Lemma shm_ofmap_loop paths output_names (st : St) w len : forall start acc,
  (start + len = length output_names)%nat ->
  (length output_names <= length paths)%nat ->
  loop (fun ofmap idx =>
          output_name ← at_index output_names idx;
          path ← at_index paths idx;
          ret (ofmap ++ [{| name := output_name; data := buf_shm path |}]))
       acc (seq start len) st w
  = (Val (acc ++ take len (zip_with shm_entry (drop start output_names) (drop start paths))),
     st, w).
Proof.
  induction len as [|len IH]; intros start acc Hlen Hpaths; simpl.
  - by rewrite app_nil_r.
  - destruct (lookup_lt_is_Some_2 output_names start ltac:(lia)) as [output_name Hname].
    destruct (lookup_lt_is_Some_2 paths start ltac:(lia)) as [path Hpath].
    rewrite bind_assoc. erewrite bind_val; [|by apply at_index_Some]. cbv beta.
    rewrite bind_assoc. erewrite bind_val; [|by apply at_index_Some]. cbv beta.
    erewrite bind_val; [|reflexivity].
    rewrite IH by lia.
    rewrite (drop_S output_names _ _ Hname), (drop_S paths _ _ Hpath).
    simpl. by rewrite <- app_assoc.
Qed.

Lemma add_shm_ofmap_run paths output_names (st : St) w :
  (length output_names <= length paths)%nat ->
  add_shm_ofmap paths output_names st w
  = (Val (zip_with shm_entry output_names paths), st, w).
Proof.
  intros Hpaths. unfold add_shm_ofmap. rewrite foldl_ret_loop.
  rewrite (shm_ofmap_loop paths output_names st w (length output_names) 0 [])
    by (simpl; lia).
  simpl. rewrite !drop_0. rewrite take_ge; [done|]. rewrite length_zip_with. lia.
Qed.

(** The mapping at [idx] can be read: it has an address that names an
    object, and a size. *)
Definition reads_at (ptrs sizes : list Z) (idx : nat) : bool :=
  match ptrs !! idx, sizes !! idx with
  | Some ptr, Some _ => names_object ptr
  | _, _ => false
  end.

(** The entries that the mapped output buffers give for the names, each
    buffer read after the calls [made] and the reads before it. *)
Fixpoint mapped_ofmap (w : World) (made : list call) (names : list string)
    (ptrs sizes : list Z) : list infer_io :=
  match names, ptrs, sizes with
  | output_name :: names', ptr :: ptrs', size :: sizes' =>
      {| name := output_name; data := buf (r_bytes (answer w made (shm_read ptr size))) |}
        :: mapped_ofmap w (made ++ [shm_read ptr size]) names' ptrs' sizes'
  | _, _, _ => []
  end.

Definition shm_reads (names : list string) (ptrs sizes : list Z) : list call :=
  take (length names) (zip_with shm_read ptrs sizes).

Lemma mapped_ofmap_extend w a made names : forall ptrs sizes,
  mapped_ofmap (extend w a) made names ptrs sizes = mapped_ofmap w (a ++ made) names ptrs sizes.
Proof.
  revert made. induction names as [|n names IH]; intros made [|p ptrs] [|z sizes]; try done.
  cbn [mapped_ofmap]. by rewrite answer_extend, IH, app_assoc.
Qed.

Lemma set_ofmap_set_ofmap a b response : set_ofmap a (set_ofmap b response) = set_ofmap a response.
Proof. done. Qed.

Definition response_turn (ptrs sizes : list Z) (output_names : list string)
    (response : reply) (idx : nat) : M St reply :=
  output_name ← at_index output_names idx;
  ptr ← at_index ptrs idx;
  size ← at_index sizes idx;
  mapped ← read_from_shm ptr size;
  ret (set_ofmap (r_ofmap response ++ [{| name := output_name; data := buf mapped |}])
         response).

Lemma response_loop ptrs sizes output_names (st : St) len : forall start response w,
  (start + len <= length output_names)%nat ->
  (forall idx, (start <= idx < start + len)%nat -> reads_at ptrs sizes idx = true) ->
  loop (response_turn ptrs sizes output_names) response (seq start len) st w
  = (Val (set_ofmap (r_ofmap response
                       ++ mapped_ofmap w [] (take len (drop start output_names))
                            (drop start ptrs) (drop start sizes))
            response),
     st,
     extend w (take len (zip_with shm_read (drop start ptrs) (drop start sizes)))).
Proof.
  induction len as [|len IH]; intros start response w Hlen Hreads.
  - cbn. rewrite app_nil_r, extend_nil. by destruct response.
  - pose proof (Hreads start ltac:(lia)) as Hstart. unfold reads_at in Hstart.
    destruct (lookup_lt_is_Some_2 output_names start ltac:(lia)) as [output_name Hname].
    destruct (ptrs !! start) as [ptr|] eqn:Hptr; [|done].
    destruct (sizes !! start) as [size|] eqn:Hsize; [|done].
    cbn [seq loop].
    assert (Hturn : response_turn ptrs sizes output_names response start st w
              = (Val (set_ofmap (r_ofmap response
                                   ++ [{| name := output_name;
                                          data := buf (r_bytes (answer w []
                                                                  (shm_read ptr size))) |}])
                        response),
                 st, extend w [shm_read ptr size])).
    { unfold response_turn.
      erewrite bind_val; [|by apply at_index_Some]. cbv beta.
      erewrite bind_val; [|by apply at_index_Some]. cbv beta.
      erewrite bind_val; [|by apply at_index_Some]. cbv beta.
      unfold read_from_shm. rewrite Hstart.
      rewrite bind_assoc. erewrite bind_val; [|apply perform_extend]. cbv beta.
      erewrite bind_val; [|reflexivity]. reflexivity. }
    erewrite bind_val; [|exact Hturn].
    rewrite IH by (try lia; intros; apply Hreads; lia).
    rewrite (drop_S output_names _ _ Hname), (drop_S ptrs _ _ Hptr),
      (drop_S sizes _ _ Hsize).
    cbn [firstn zip_with mapped_ofmap app].
    rewrite set_ofmap_set_ofmap, extend_extend, mapped_ofmap_extend.
    cbn [r_ofmap set_ofmap app]. by rewrite <- app_assoc.
Qed.

(** The loop of [infer] over the output names after the check: the mapped
    buffers are read in the order of the names, and an entry with the bytes
    of each is appended to the response. *)
Lemma add_response_ofmap_run ptrs sizes output_names response (st : St) w :
  (forall idx, (idx < length output_names)%nat -> reads_at ptrs sizes idx = true) ->
  add_response_ofmap ptrs sizes output_names response st w
  = (Val (set_ofmap (r_ofmap response ++ mapped_ofmap w [] output_names ptrs sizes)
            response),
     st, extend w (shm_reads output_names ptrs sizes)).
Proof.
  intros Hreads. unfold add_response_ofmap.
  change (foldl _ (ret response) (seq 0 (length output_names)))
    with (foldl (fun acc idx =>
                   response ← acc; response_turn ptrs sizes output_names response idx)
                (ret response) (seq 0 (length output_names))).
  rewrite foldl_ret_loop.
  rewrite (response_loop ptrs sizes output_names st (length output_names) 0 response w)
    by (try (simpl; lia); intros; apply Hreads; lia).
  by rewrite !drop_0, firstn_all.
Qed.

End RequestFacts.

(** *** copy_output_tensors *)
Section CopyFacts.
Context {Tensor : Type}.
Variable tensor_memcpy : Tensor -> list byte -> Status * Tensor.

(** The first entry of [response.ofmap()] with a given name. *)
Definition first_entry (ofmap : list infer_io) (tensor_name : string) : option infer_io :=
  List.find (fun infer_io => bool_decide (name infer_io = tensor_name)) ofmap.

(** The first of the names that has no entry in the map. *)
Definition first_missing (m : gmap string (list byte)) (names : list string)
    : option string :=
  List.find (fun tensor_name => bool_decide (m !! tensor_name = None)) names.

Definition name_not_found (tensor_name : string) : Status :=
  Error INTERNAL ("tensor name" +:+ tensor_name +:+ " not found in infer_response.ofmap()").

Lemma emplace_first (tensor_name : string) ofmap : forall m0 : gmap string (list byte),
  foldl (fun m infer_io =>
           match m !! name infer_io with
           | Some _ => m
           | None => <[name infer_io := buf_of infer_io]> m
           end) m0 ofmap !! tensor_name
  = match m0 !! tensor_name with
    | Some raw => Some raw
    | None => buf_of <$> first_entry ofmap tensor_name
    end.
Proof.
  induction ofmap as [|infer_io ofmap IH]; intros m0; simpl.
  - by destruct (m0 !! tensor_name).
  - rewrite IH. destruct (m0 !! name infer_io) as [raw0|] eqn:Hm0.
    + destruct (m0 !! tensor_name) eqn:Hn; [done|].
      rewrite bool_decide_eq_false_2; [done|]. intros Heq. congruence.
    + destruct (decide (name infer_io = tensor_name)) as [Heq|Hne].
      * rewrite bool_decide_eq_true_2 by done.
        rewrite Heq, lookup_insert_eq. rewrite Heq in Hm0. by rewrite Hm0.
      * rewrite bool_decide_eq_false_2 by done.
        by rewrite lookup_insert_ne.
Qed.

(** A name is looked up in the first entry that carries it: [emplace] does
    not replace an entry. *)
Lemma map_name_raw_first ofmap tensor_name :
  map_name_raw ofmap !! tensor_name = buf_of <$> first_entry ofmap tensor_name.
Proof. unfold map_name_raw. by rewrite emplace_first, lookup_empty. Qed.

(** The first loop: the bytes for each name, or the error for the first name
    that is missing. *)
Lemma lookup_loop (m : gmap string (list byte)) output_names (outs : list Tensor) w len :
  forall start acc,
  (start + len = length output_names)%nat ->
  loop (fun raw_output_tensors idx =>
          output_name ← at_index output_names idx;
          match m !! output_name with
          | None =>
              return_ (Error INTERNAL ("tensor name" +:+ output_name
                         +:+ " not found in infer_response.ofmap()"))
          | Some raw => ret (raw_output_tensors ++ [raw])
          end)
       acc (seq start len) outs w
  = match first_missing m (drop start output_names) with
    | Some output_name => (Return (name_not_found output_name), outs, w)
    | None =>
        (Val (acc ++ map (fun output_name => default [] (m !! output_name))
                       (drop start output_names)), outs, w)
    end.
Proof.
  induction len as [|len IH]; intros start acc Hlen; simpl.
  - rewrite drop_ge by lia. simpl. by rewrite app_nil_r.
  - destruct (lookup_lt_is_Some_2 output_names start ltac:(lia)) as [output_name Hname].
    rewrite bind_assoc. erewrite bind_val; [|by apply at_index_Some]. cbv beta.
    rewrite (drop_S _ _ _ Hname). unfold first_missing. simpl.
    destruct (m !! output_name) as [raw|] eqn:Hraw.
    + rewrite bool_decide_eq_false_2 by done.
      erewrite bind_val; [|reflexivity].
      rewrite IH by lia. unfold first_missing.
      destruct (List.find _ _); [done|]. by rewrite <- app_assoc.
    + rewrite bool_decide_eq_true_2 by done. reflexivity.
Qed.

(** One turn of the second loop. *)
Definition copy_turn (raw_output_tensors : list (list byte)) (output_names : list string)
    (idx : nat) : M (list Tensor) unit :=
  out_tensor_raw ← at_index raw_output_tensors idx;
  output_name ← at_index output_names idx;
  status ← zoom (fun output_tensors => output_tensors !! idx)
                (fun out_tensor output_tensors => <[idx := out_tensor]> output_tensors)
                (fun out_tensor w =>
                   let '(status, out_tensor') := tensor_memcpy out_tensor out_tensor_raw in
                   (Val status, out_tensor', w));
  match status with
  | OK => ret tt
  | Error code msg =>
      return_ (Error code ("tensor_memcpy failure on tensor name: "
                             +:+ output_name +:+ ": " +:+ msg))
  end.

Lemma copy_turn_run raws output_names idx raw output_name outs w :
  raws !! idx = Some raw -> output_names !! idx = Some output_name ->
  copy_turn raws output_names idx outs w
  = match outs !! idx with
    | None => (Undefined, outs, w)
    | Some t =>
        (match (tensor_memcpy t raw).1 with
         | OK => Val tt
         | Error code msg =>
             Return (Error code ("tensor_memcpy failure on tensor name: "
                                   +:+ output_name +:+ ": " +:+ msg))
         end, <[idx := (tensor_memcpy t raw).2]> outs, w)
    end.
Proof.
  intros Hraw Hname. unfold copy_turn.
  erewrite bind_val; [|by apply at_index_Some].
  erewrite bind_val; [|by apply at_index_Some].
  unfold mbind, M_bind, bind, zoom.
  destruct (outs !! idx) as [t|]; [|done].
  destruct (tensor_memcpy t raw) as [status t']. simpl. by destruct status.
Qed.

(** The second loop, from the index [start] on: it changes no tensor outside
    the indices it goes through; it runs to its end when each of them has a
    tensor and a copy that succeeds, and then each tensor is what its copy
    leaves; it stops at the first copy that fails, with a status of the same
    code, and leaves the tensors after that one as they were. *)
Lemma copy_loop raws output_names w len : forall start outs,
  (start + len = length output_names)%nat -> length raws = length output_names ->
  let r := for_each (seq start len) (copy_turn raws output_names) outs w in
  r.2 = w /\ length r.1.2 = length outs
  /\ (forall i, (i < start \/ start + len <= i)%nat -> r.1.2 !! i = outs !! i)
  /\ (r.1.1 = Val tt <->
        forall i, (start <= i < start + len)%nat ->
          exists t raw, outs !! i = Some t /\ raws !! i = Some raw
                        /\ (tensor_memcpy t raw).1 = OK)
  /\ (r.1.1 = Val tt ->
        forall i t raw, (start <= i < start + len)%nat ->
          outs !! i = Some t -> raws !! i = Some raw ->
          r.1.2 !! i = Some (tensor_memcpy t raw).2)
  /\ (forall s, r.1.1 = Return s ->
        exists i t raw,
          (start <= i < start + len)%nat /\ outs !! i = Some t /\ raws !! i = Some raw
          /\ (tensor_memcpy t raw).1 <> OK
          /\ status_code s = status_code (tensor_memcpy t raw).1
          /\ (forall j, (start <= j < i)%nat ->
                exists tj rawj,
                  outs !! j = Some tj /\ raws !! j = Some rawj
                  /\ (tensor_memcpy tj rawj).1 = OK
                  /\ r.1.2 !! j = Some (tensor_memcpy tj rawj).2)
          /\ (forall j, (i < j)%nat -> r.1.2 !! j = outs !! j)).
Proof.
  induction len as [|len IH]; intros start outs Hlen Hraws r.
  - subst r. simpl. split; [done|]. split; [done|]. split; [done|].
    split; [split; [intros _ i Hi; lia | done]|].
    split; [intros _ i t raw Hi; lia | done].
  - destruct (lookup_lt_is_Some_2 raws start ltac:(lia)) as [raw Hraw].
    destruct (lookup_lt_is_Some_2 output_names start ltac:(lia)) as [output_name Hname].
    assert (Hstep : r = match copy_turn raws output_names start outs w with
                        | (Val _, outs1, w1) =>
                            for_each (seq (S start) len) (copy_turn raws output_names) outs1 w1
                        | (Return s, outs1, w1) => (Return s, outs1, w1)
                        | (Undefined, outs1, w1) => (Undefined, outs1, w1)
                        end).
    { subst r. simpl. unfold mbind, M_bind, bind.
      by destruct (copy_turn raws output_names start outs w) as [[[[] | s |] outs1] w1]. }
    rewrite (copy_turn_run _ _ _ _ _ _ _ Hraw Hname) in Hstep.
    destruct (outs !! start) as [t|] eqn:Ht.
    2: { rewrite Hstep. simpl. split; [done|]. split; [done|]. split; [done|].
         split; [|split; [done|done]].
         split; [done|]. intros Hall.
         destruct (Hall start ltac:(lia)) as (t & raw' & Ht' & _). congruence. }
    destruct (tensor_memcpy t raw) as [status t'] eqn:Hcopy. simpl in Hstep.
    destruct status as [|code msg].
    + set (outs1 := <[start := t']> outs) in *.
      destruct (IH (S start) outs1 ltac:(lia) Hraws)
        as (Hw & Hlength & Hout & Hok & Hcopied & Hfail).
      rewrite <- Hstep in *. clear Hstep.
      assert (Hother : forall i, i <> start -> outs1 !! i = outs !! i).
      { intros i Hi. unfold outs1. by rewrite list_lookup_insert_ne. }
      assert (Hstart : r.1.2 !! start = Some t').
      { rewrite Hout by lia. unfold outs1.
        apply list_lookup_insert_eq. by eapply lookup_lt_Some. }
      split; [done|]. split; [by rewrite Hlength; unfold outs1; rewrite length_insert|].
      split; [intros i Hi; rewrite Hout by lia; apply Hother; lia|].
      split; [|split].
      * rewrite Hok. split; intros Hall i Hi.
        -- destruct (decide (i = start)) as [->|Hne].
           ++ exists t, raw. by rewrite Hcopy.
           ++ destruct (Hall i ltac:(lia)) as (ti & rawi & Hti & Hrawi & Hoki).
              exists ti, rawi. by rewrite <- Hother.
        -- destruct (Hall i ltac:(lia)) as (ti & rawi & Hti & Hrawi & Hoki).
           exists ti, rawi. by rewrite Hother by lia.
      * intros Hval i ti rawi Hi Hti Hrawi.
        destruct (decide (i = start)) as [->|Hne].
        -- rewrite Hstart. rewrite Ht in Hti. rewrite Hraw in Hrawi.
           injection Hti as <-. injection Hrawi as <-. by rewrite Hcopy.
        -- apply Hcopied; [done | lia | by rewrite Hother | done].
      * intros s Hs.
        destruct (Hfail s Hs)
          as (i & ti & rawi & Hi & Hti & Hrawi & Hne & Hcode & Hbefore & Hafter).
        exists i, ti, rawi. split; [lia|]. split; [by rewrite <- Hother by lia|].
        split; [done|]. split; [done|]. split; [done|]. split.
        -- intros j Hj. destruct (decide (j = start)) as [->|Hjne].
           ++ exists t, raw. rewrite Hcopy. simpl. by rewrite Hstart.
           ++ destruct (Hbefore j ltac:(lia)) as (tj & rawj & Htj & Hrawj & Hokj & Hrj).
              exists tj, rawj. by rewrite <- Hother.
        -- intros j Hj. rewrite Hafter by done. apply Hother. lia.
    + rewrite Hstep. simpl.
      split; [done|]. split; [by rewrite length_insert|].
      split; [intros i Hi; rewrite list_lookup_insert_ne by lia; done|].
      split; [|split].
      * split; [done|]. intros Hall.
        destruct (Hall start ltac:(lia)) as (t0 & raw0 & Ht0 & Hraw0 & Hok0).
        rewrite Ht in Ht0. rewrite Hraw in Hraw0.
        injection Ht0 as <-. injection Hraw0 as <-. by rewrite Hcopy in Hok0.
      * done.
      * intros s [= <-]. exists start, t, raw.
        split; [lia|]. split; [done|]. split; [done|]. rewrite Hcopy. simpl.
        split; [done|]. split; [done|]. split; [intros j Hj; lia|].
        intros j Hj. by rewrite list_lookup_insert_ne by lia.
Qed.

Lemma first_missing_None (m : gmap string (list byte)) names :
  first_missing m names = None <->
  forall idx tensor_name, names !! idx = Some tensor_name -> is_Some (m !! tensor_name).
Proof.
  unfold first_missing. split.
  - intros Hnone idx tensor_name Hidx.
    pose proof (find_none _ _ Hnone tensor_name) as Hf.
    apply list_elem_of_lookup_2, list_elem_of_In in Hidx.
    specialize (Hf Hidx). apply bool_decide_eq_false in Hf.
    by destruct (m !! tensor_name).
  - intros Hall. destruct (List.find _ names) as [tensor_name|] eqn:Hfind; [|done].
    apply find_some in Hfind as [Hin Hf]. apply bool_decide_eq_true in Hf.
    apply list_elem_of_In, list_elem_of_lookup_1 in Hin as [idx Hidx].
    destruct (Hall idx tensor_name Hidx) as [raw Hraw]. congruence.
Qed.

Lemma first_missing_first (m : gmap string (list byte)) names tensor_name :
  first_missing m names = Some tensor_name ->
  exists idx,
    names !! idx = Some tensor_name /\ m !! tensor_name = None
    /\ forall j found, (j < idx)%nat -> names !! j = Some found -> is_Some (m !! found).
Proof.
  unfold first_missing. induction names as [|n names IH]; [done|]. cbn [List.find].
  destruct (bool_decide (m !! n = None)) eqn:Hn.
  - intros [= <-]. apply bool_decide_eq_true in Hn. exists 0%nat.
    split; [done|]. split; [done|]. intros j found Hj. lia.
  - intros Hfind. destruct (IH Hfind) as (idx & Hidx & Hnone & Hbefore).
    exists (S idx). split; [done|]. split; [done|].
    intros [|j] found Hj Hfound.
    + injection Hfound as <-. apply bool_decide_eq_false in Hn. by destruct (m !! n).
    + apply (Hbefore j); [lia | done].
Qed.

Lemma first_missing_Some (m : gmap string (list byte)) names tensor_name :
  first_missing m names = Some tensor_name ->
  exists idx, names !! idx = Some tensor_name /\ m !! tensor_name = None.
Proof.
  unfold first_missing. intros [Hin Hf]%find_some. apply bool_decide_eq_true in Hf.
  apply list_elem_of_In, list_elem_of_lookup_1 in Hin as [idx Hidx]. by exists idx.
Qed.

(** [copy_output_tensors], in its two loops. *)
Lemma copy_output_tensors_unfold response output_names outs w :
  let m := map_name_raw (r_ofmap response) in
  copy_output_tensors tensor_memcpy response output_names outs w
  = match first_missing m output_names with
    | Some output_name => (Val (name_not_found output_name), outs, w)
    | None =>
        let raws := map (fun output_name => default [] (m !! output_name)) output_names in
        match for_each (seq 0 (length output_names)) (copy_turn raws output_names) outs w with
        | (Val _, outs', w') => (Val OK, outs', w')
        | (Return s, outs', w') => (Val s, outs', w')
        | (Undefined, outs', w') => (Undefined, outs', w')
        end
    end.
Proof.
  intros m. unfold copy_output_tensors. cbv zeta. fold m.
  unfold fn, mbind at 1, M_bind at 1, bind at 1.
  rewrite foldl_ret_loop.
  rewrite (lookup_loop m output_names outs w (length output_names) 0 []) by (simpl; lia).
  rewrite drop_0. destruct (first_missing m output_names); [done|]. simpl.
  unfold for_range, mbind, M_bind, bind.
  change (for_each (seq 0 (length output_names)) _)
    with (for_each (seq 0 (length output_names))
            (copy_turn (map (fun output_name => default [] (m !! output_name)) output_names)
               output_names)).
  by destruct (for_each _ _ outs w) as [[[[] | s |] outs'] w'].
Qed.

(** What the copy does for the output at the index [idx]: the tensor at that
    index gets the bytes of the first entry of the response that carries the
    name at that index. *)
Definition copy_of (response : reply) (output_names : list string) (outs : list Tensor)
    (idx : nat) : option (Status * Tensor) :=
  output_name ← output_names !! idx;
  infer_io ← first_entry (r_ofmap response) output_name;
  out_tensor ← outs !! idx;
  Some (tensor_memcpy out_tensor (buf_of infer_io)).

Lemma copy_of_Some response output_names outs idx output_name t :
  first_missing (map_name_raw (r_ofmap response)) output_names = None ->
  output_names !! idx = Some output_name -> outs !! idx = Some t ->
  exists raw,
    map (fun output_name => default [] (map_name_raw (r_ofmap response) !! output_name))
        output_names !! idx = Some raw
    /\ copy_of response output_names outs idx = Some (tensor_memcpy t raw).
Proof.
  intros Hfound Hname Ht. unfold copy_of. rewrite Hname, Ht. simpl.
  destruct (proj1 (first_missing_None _ _) Hfound idx output_name Hname) as [raw Hraw].
  exists raw. rewrite list_lookup_fmap, Hname. simpl. rewrite Hraw. simpl.
  split; [done|].
  rewrite map_name_raw_first in Hraw.
  destruct (first_entry (r_ofmap response) output_name) as [infer_io|]; [|done].
  simpl in *. by injection Hraw as <-.
Qed.

(** [copy_output_tensors] is a function: it returns. *)
Lemma copy_output_tensors_returns response output_names outs w s :
  (copy_output_tensors tensor_memcpy response output_names outs w).1.1 <> Return s.
Proof.
  unfold copy_output_tensors, fn.
  by match goal with |- context [match ?run with _ => _ end] =>
       destruct run as [[[?|?|] ?] ?]
     end.
Qed.

(** When every copy succeeds the result is OK and each tensor is its copy. *)
Lemma copy_output_tensors_all response output_names outs w :
  (forall idx, (idx < length output_names)%nat ->
     exists t', copy_of response output_names outs idx = Some (OK, t')) ->
  let result := copy_output_tensors tensor_memcpy response output_names outs w in
  result.1.1 = Val OK /\ result.2 = w
  /\ forall idx, (idx < length output_names)%nat ->
       result.1.2 !! idx = snd <$> copy_of response output_names outs idx.
Proof.
  intros Hall result. subst result. rewrite copy_output_tensors_unfold. cbv zeta.
  set (m := map_name_raw (r_ofmap response)).
  destruct (first_missing m output_names) as [missing|] eqn:Hmissing.
  { exfalso. destruct (first_missing_Some _ _ _ Hmissing) as (idx & Hidx & Hnone).
    destruct (Hall idx (lookup_lt_Some _ _ _ Hidx)) as [t' Hcopy].
    unfold copy_of in Hcopy. rewrite Hidx in Hcopy. simpl in Hcopy.
    unfold m in Hnone. rewrite map_name_raw_first in Hnone.
    by destruct (first_entry (r_ofmap response) missing). }
  set (raws := map (fun output_name => default [] (m !! output_name)) output_names).
  destruct (copy_loop raws output_names w (length output_names) 0 outs
              ltac:(simpl; lia) ltac:(unfold raws; by rewrite length_map))
    as (Hw & _ & _ & Hok & Hcopied & _).
  assert (Hturn : forall idx, (idx < length output_names)%nat ->
            exists t raw, outs !! idx = Some t /\ raws !! idx = Some raw
                          /\ (tensor_memcpy t raw).1 = OK
                          /\ copy_of response output_names outs idx
                             = Some (tensor_memcpy t raw)).
  { intros idx Hidx.
    destruct (lookup_lt_is_Some_2 output_names idx Hidx) as [output_name Hname].
    destruct (Hall idx Hidx) as [t' Hcopy].
    destruct (outs !! idx) as [t|] eqn:Ht.
    - destruct (copy_of_Some response output_names outs idx output_name t
                  Hmissing Hname Ht) as (raw & Hraw & Hcopy').
      exists t, raw. rewrite Hcopy' in Hcopy. injection Hcopy as Hcopy.
      split; [done|]. split; [done|]. split; [by rewrite Hcopy | done].
    - unfold copy_of in Hcopy. rewrite Hname, Ht in Hcopy. simpl in Hcopy.
      by destruct (first_entry _ _). }
  assert (Hdone : (for_each (seq 0 (length output_names)) (copy_turn raws output_names)
                     outs w).1.1 = Val tt).
  { apply Hok. intros i Hi. destruct (Hturn i ltac:(lia)) as (t & raw & ? & ? & ? & _).
    by exists t, raw. }
  specialize (Hcopied Hdone).
  destruct (for_each (seq 0 (length output_names)) (copy_turn raws output_names) outs w)
    as [[r outs'] w'].
  cbn [fst snd] in *. subst r w'. cbn [fst snd].
  split; [done|]. split; [done|]. intros idx Hidx.
  destruct (Hturn idx Hidx) as (t & raw & Ht & Hraw & _ & ->).
  by rewrite (Hcopied idx t raw ltac:(lia) Ht Hraw).
Qed.

(** X5.  [copy_output_tensors] makes no call and keeps the number of output
    tensors.  It returns OK exactly when every output name has an entry in
    the response, there is an output tensor for every name, and every copy
    succeeds; the tensor at each index then holds what [tensor_memcpy] makes
    of it with the bytes of the first entry of the response that carries the
    name at that index (a later entry of the same name is not used), and the
    tensors past the names are as they were. *)
Theorem copy_output_tensors_copies response output_names outs w :
  let result := copy_output_tensors tensor_memcpy response output_names outs w in
  result.2 = w
  /\ length result.1.2 = length outs
  /\ (result.1.1 = Val OK <->
        forall idx, (idx < length output_names)%nat ->
          exists t', copy_of response output_names outs idx = Some (OK, t'))
  /\ (result.1.1 = Val OK ->
        forall idx, (idx < length output_names)%nat ->
          result.1.2 !! idx = snd <$> copy_of response output_names outs idx)
  /\ (forall idx, (length output_names <= idx)%nat -> result.1.2 !! idx = outs !! idx).
Proof.
  intros result. subst result. rewrite copy_output_tensors_unfold. cbv zeta.
  set (m := map_name_raw (r_ofmap response)).
  destruct (first_missing m output_names) as [missing|] eqn:Hmissing.
  { simpl. split; [done|]. split; [done|]. split; [|split; [done|done]].
    split; [done|]. intros Hall.
    destruct (first_missing_Some _ _ _ Hmissing) as (idx & Hidx & Hnone).
    destruct (Hall idx (lookup_lt_Some _ _ _ Hidx)) as [t' Hcopy].
    unfold copy_of in Hcopy. rewrite Hidx in Hcopy. simpl in Hcopy.
    fold m in Hnone. unfold m in Hnone. rewrite map_name_raw_first in Hnone.
    by destruct (first_entry (r_ofmap response) missing). }
  set (raws := map (fun output_name => default [] (m !! output_name)) output_names).
  destruct (copy_loop raws output_names w (length output_names) 0 outs
              ltac:(simpl; lia) ltac:(unfold raws; by rewrite length_map))
    as (Hw & Hlength & Hout & Hok & Hcopied & Hfail).
  assert (Hval : forall r : Res unit * list Tensor * World,
            (match r with
             | (Val _, outs', w') => (Val OK, outs', w')
             | (Return s, outs', w') => (Val s, outs', w')
             | (Undefined, outs', w') => (Undefined, outs', w')
             end).1.2 = r.1.2
            /\ (match r with
                | (Val _, outs', w') => (Val OK, outs', w')
                | (Return s, outs', w') => (Val s, outs', w')
                | (Undefined, outs', w') => (Undefined, outs', w')
                end).2 = r.2).
  { by intros [[[[] | s |] outs'] w']. }
  destruct (Hval (for_each (seq 0 (length output_names)) (copy_turn raws output_names) outs w))
    as [Houts' Hw'].
  rewrite Houts', Hw'. clear Hval Houts' Hw'.
  assert (Hturn : forall idx, (idx < length output_names)%nat ->
            (exists t', copy_of response output_names outs idx = Some (OK, t'))
            <-> exists t raw, outs !! idx = Some t /\ raws !! idx = Some raw
                              /\ (tensor_memcpy t raw).1 = OK).
  { intros idx Hidx.
    destruct (lookup_lt_is_Some_2 output_names idx Hidx) as [output_name Hname].
    split.
    - intros [t' Hcopy]. destruct (outs !! idx) as [t|] eqn:Ht.
      + destruct (copy_of_Some response output_names outs idx output_name t
                    Hmissing Hname Ht) as (raw & Hraw & Hcopy').
        exists t, raw. rewrite Hcopy' in Hcopy. injection Hcopy as Hcopy.
        by rewrite Hcopy.
      + unfold copy_of in Hcopy. rewrite Hname, Ht in Hcopy. simpl in Hcopy.
        by destruct (first_entry _ _).
    - intros (t & raw & Ht & Hraw & Hok').
      destruct (copy_of_Some response output_names outs idx output_name t
                  Hmissing Hname Ht) as (raw' & Hraw' & Hcopy').
      fold m in Hraw'. fold raws in Hraw'. rewrite Hraw in Hraw'. injection Hraw' as <-.
      rewrite Hcopy'. destruct (tensor_memcpy t raw) as [status t']. simpl in Hok'.
      subst status. by exists t'. }
  split; [exact Hw|]. split; [exact Hlength|].
  assert (Hstatus : forall r : Res unit * list Tensor * World,
            (match r with
             | (Val _, outs', w') => (Val OK, outs', w')
             | (Return s, outs', w') => (Val s, outs', w')
             | (Undefined, outs', w') => (Undefined, outs', w')
             end).1.1 = Val OK
            <-> r.1.1 = Val tt \/ r.1.1 = Return OK).
  { intros [[[[] | s |] outs'] w']; simpl; split; try (by left); try done.
    - intros [= ->]. by right.
    - intros [H|H]; [done | by injection H as ->].
    - by intros [H|H]. }
  rewrite Hstatus. clear Hstatus.
  assert (Hnot : (for_each (seq 0 (length output_names)) (copy_turn raws output_names)
                    outs w).1.1 <> Return OK).
  { intros Hret. destruct (Hfail OK Hret) as (i & t & raw & _ & _ & _ & Hne & Hcode & _ & _).
    simpl in Hcode. destruct (tensor_memcpy t raw).1; [done | discriminate Hcode]. }
  split; [|split].
  - split.
    + intros [Hdone|Hret]; [|done]. intros idx Hidx. apply Hturn; [done|].
      apply (proj1 Hok Hdone). lia.
    + intros Hall. left. apply Hok. intros i Hi. apply Hturn; [lia|]. apply Hall. lia.
  - intros [Hdone|Hret] idx Hidx; [|done].
    destruct (proj1 Hok Hdone idx ltac:(lia)) as (t & raw & Ht & Hraw & Hok').
    rewrite (Hcopied Hdone idx t raw ltac:(lia) Ht Hraw).
    destruct (lookup_lt_is_Some_2 output_names idx Hidx) as [output_name Hname].
    destruct (copy_of_Some response output_names outs idx output_name t
                Hmissing Hname Ht) as (raw' & Hraw' & Hcopy').
    fold m in Hraw'. fold raws in Hraw'. rewrite Hraw in Hraw'. injection Hraw' as <-.
    by rewrite Hcopy'.
  - intros idx Hidx. apply Hout. right. simpl. lia.
Qed.

(** X6.  When an output name has no entry in the response,
    [copy_output_tensors] returns the internal error that names the first
    such name, the one every name before which has an entry, and copies
    nothing: the names are all looked up before the first tensor is written,
    so the tensors of the names that were found are untouched too. *)
Theorem missing_name_copies_nothing response output_names outs w :
  (exists output_name,
     output_name ∈ output_names /\ first_entry (r_ofmap response) output_name = None) ->
  exists idx missing,
    output_names !! idx = Some missing
    /\ first_entry (r_ofmap response) missing = None
    /\ (forall j found,
          (j < idx)%nat -> output_names !! j = Some found ->
          is_Some (first_entry (r_ofmap response) found))
    /\ copy_output_tensors tensor_memcpy response output_names outs w
       = (Val (name_not_found missing), outs, w).
Proof.
  intros (output_name & Hin & Hnone). rewrite copy_output_tensors_unfold. cbv zeta.
  destruct (first_missing _ output_names) as [missing|] eqn:Hmissing.
  - destruct (first_missing_first _ _ _ Hmissing) as (idx & Hidx & Hm & Hbefore).
    exists idx, missing. split; [done|].
    rewrite map_name_raw_first in Hm.
    split; [by destruct (first_entry (r_ofmap response) missing)|].
    split; [|done]. intros j found Hj Hfound.
    destruct (Hbefore j found Hj Hfound) as [raw Hraw].
    rewrite map_name_raw_first in Hraw.
    by destruct (first_entry (r_ofmap response) found).
  - apply list_elem_of_lookup_1 in Hin as [idx Hidx].
    destruct (proj1 (first_missing_None _ _) Hmissing idx output_name Hidx) as [raw Hraw].
    rewrite map_name_raw_first, Hnone in Hraw. done.
Qed.

(** X7.  When every name is found and a copy fails, [copy_output_tensors]
    stops at the first copy that fails and returns a status with the code of
    that failure: the tensors before it have been overwritten by their
    copies, and the tensors after it are as they were. *)
Theorem copy_failure_is_partial response output_names outs w s :
  (forall output_name,
     output_name ∈ output_names -> is_Some (first_entry (r_ofmap response) output_name)) ->
  let result := copy_output_tensors tensor_memcpy response output_names outs w in
  result.1.1 = Val s -> s <> OK ->
  exists idx failure t',
    (idx < length output_names)%nat
    /\ copy_of response output_names outs idx = Some (failure, t')
    /\ failure <> OK /\ status_code s = status_code failure
    /\ (forall j, (j < idx)%nat ->
          exists tj, copy_of response output_names outs j = Some (OK, tj)
                     /\ result.1.2 !! j = Some tj)
    /\ (forall j, (idx < j)%nat -> result.1.2 !! j = outs !! j).
Proof.
  intros Hfound result Hs Hne. subst result.
  rewrite copy_output_tensors_unfold in *. cbv zeta in *.
  set (m := map_name_raw (r_ofmap response)) in *.
  destruct (first_missing m output_names) as [missing|] eqn:Hmissing.
  { destruct (first_missing_Some _ _ _ Hmissing) as (idx & Hidx & Hm).
    unfold m in Hm. rewrite map_name_raw_first in Hm.
    destruct (Hfound missing (list_elem_of_lookup_2 _ _ _ Hidx)) as [infer_io Hio].
    by rewrite Hio in Hm. }
  set (raws := map (fun output_name => default [] (m !! output_name)) output_names) in *.
  destruct (copy_loop raws output_names w (length output_names) 0 outs
              ltac:(simpl; lia) ltac:(unfold raws; by rewrite length_map))
    as (Hw & Hlength & Hout & Hok & Hcopied & Hfail).
  destruct (for_each (seq 0 (length output_names)) (copy_turn raws output_names) outs w)
    as [[[[] | s' |] outs'] w'] eqn:Hloop; simpl in *; [congruence| |done].
  injection Hs as ->.
  destruct (Hfail s eq_refl)
    as (i & t & raw & Hi & Ht & Hraw & Hfailed & Hcode & Hbefore & Hafter).
  destruct (lookup_lt_is_Some_2 output_names i ltac:(lia)) as [output_name Hname].
  destruct (copy_of_Some response output_names outs i output_name t Hmissing Hname Ht)
    as (raw' & Hraw' & Hcopy').
  fold m in Hraw'. fold raws in Hraw'. rewrite Hraw in Hraw'. injection Hraw' as <-.
  exists i, (tensor_memcpy t raw).1, (tensor_memcpy t raw).2.
  split; [lia|]. split; [by rewrite Hcopy'; destruct (tensor_memcpy t raw)|].
  split; [done|]. split; [done|]. split; [|done].
  intros j Hj.
  destruct (Hbefore j ltac:(lia)) as (tj & rawj & Htj & Hrawj & Hokj & Hrj).
  destruct (lookup_lt_is_Some_2 output_names j ltac:(lia)) as [name_j Hname_j].
  destruct (copy_of_Some response output_names outs j name_j tj Hmissing Hname_j Htj)
    as (raw' & Hraw' & Hcopy_j).
  fold m in Hraw'. fold raws in Hraw'. rewrite Hrawj in Hraw'. injection Hraw' as <-.
  rewrite Hcopy_j, Hrj. destruct (tensor_memcpy tj rawj) as [status tj']. simpl in Hokj.
  subst status. by exists tj'.
Qed.

End CopyFacts.

(** A copy that replaces the first bytes of a tensor and refuses more bytes
    than the tensor has, and a response with the given entries. *)
Definition overwrite (tensor raw : list byte) : Status * list byte :=
  if (length raw <=? length tensor)%nat
  then (OK, raw ++ drop (length raw) tensor)
  else (Error OUT_OF_RANGE "unexpected tensor size", tensor).

Definition with_ofmap (ofmap : list infer_io) : reply :=
  set_ofmap ofmap (plain_reply 0 0).

(** Two entries of the same name: the first one is copied. *)
Example copy_first_of_two_entries :
  copy_output_tensors overwrite
    (with_ofmap [ {| name := "a"; data := buf [Byte.x01] |};
                  {| name := "a"; data := buf [Byte.x02] |} ])
    ["a"] [[Byte.x00]] (fresh_world (fun _ _ => plain_reply 0 0))
  = (Val OK, [[Byte.x01]], fresh_world (fun _ _ => plain_reply 0 0)).
Proof. reflexivity. Qed.

(** The name "b" is missing: nothing is copied, not even for "a". *)
Example copy_missing_name :
  copy_output_tensors overwrite
    (with_ofmap [ {| name := "a"; data := buf [Byte.x01] |} ])
    ["a"; "b"] [[Byte.x00]; [Byte.x00]] (fresh_world (fun _ _ => plain_reply 0 0))
  = (Val (name_not_found "b"), [[Byte.x00]; [Byte.x00]],
     fresh_world (fun _ _ => plain_reply 0 0)).
Proof. reflexivity. Qed.

Lemma missing_name_copies_nothing_witness :
  exists idx missing,
    ["a"; "c"; "b"] !! idx = Some missing
    /\ first_entry (r_ofmap (with_ofmap [ {| name := "a"; data := buf [Byte.x01] |} ]))
         missing = None
    /\ (forall j found,
          (j < idx)%nat -> ["a"; "c"; "b"] !! j = Some found ->
          is_Some (first_entry
                     (r_ofmap (with_ofmap [ {| name := "a"; data := buf [Byte.x01] |} ]))
                     found))
    /\ copy_output_tensors overwrite
         (with_ofmap [ {| name := "a"; data := buf [Byte.x01] |} ])
         ["a"; "c"; "b"] [[Byte.x00]; [Byte.x00]; [Byte.x00]]
         (fresh_world (fun _ _ => plain_reply 0 0))
       = (Val (name_not_found missing), [[Byte.x00]; [Byte.x00]; [Byte.x00]],
          fresh_world (fun _ _ => plain_reply 0 0)).
Proof.
  apply (missing_name_copies_nothing overwrite
           (with_ofmap [ {| name := "a"; data := buf [Byte.x01] |} ])
           ["a"; "c"; "b"] [[Byte.x00]; [Byte.x00]; [Byte.x00]]
           (fresh_world (fun _ _ => plain_reply 0 0))).
  exists "b". split; [|reflexivity]. apply list_elem_of_In. simpl. auto.
Defined.

(** Of the two names that are missing, "c" and "b", the error names "c". *)
Example copy_two_missing_names :
  (copy_output_tensors overwrite
     (with_ofmap [ {| name := "a"; data := buf [Byte.x01] |} ])
     ["a"; "c"; "b"] [[Byte.x00]; [Byte.x00]; [Byte.x00]]
     (fresh_world (fun _ _ => plain_reply 0 0))).1.1
  = Val (name_not_found "c").
Proof. reflexivity. Qed.

(** The copy for "b" fails (two bytes for a tensor of one): the tensor of "a"
    has been overwritten and the tensor of "c" has not. *)
Definition three_entries : reply :=
  with_ofmap [ {| name := "a"; data := buf [Byte.x01] |};
               {| name := "b"; data := buf [Byte.x02; Byte.x02] |};
               {| name := "c"; data := buf [Byte.x03] |} ].

Definition three_zeros : list (list byte) := [[Byte.x00]; [Byte.x00]; [Byte.x00]].

(** The status a function has returned. *)
Definition returned (r : Res Status) : Status :=
  match r with Val s => s | _ => OK end.

Example copy_stops_at_failure :
  let result :=
    copy_output_tensors overwrite three_entries ["a"; "b"; "c"] three_zeros
      (fresh_world (fun _ _ => plain_reply 0 0)) in
  status_code (returned result.1.1) = Some OUT_OF_RANGE
  /\ result.1.2 = [[Byte.x01]; [Byte.x00]; [Byte.x00]].
Proof. by split. Qed.

Lemma copy_failure_is_partial_witness :
  exists idx failure t',
    (idx < 3)%nat
    /\ copy_of overwrite three_entries ["a"; "b"; "c"] three_zeros idx = Some (failure, t')
    /\ failure <> OK.
Proof.
  destruct (copy_failure_is_partial overwrite three_entries ["a"; "b"; "c"] three_zeros
              (fresh_world (fun _ _ => plain_reply 0 0))
              (returned
                 (copy_output_tensors overwrite three_entries ["a"; "b"; "c"] three_zeros
                    (fresh_world (fun _ _ => plain_reply 0 0))).1.1))
    as (idx & failure & t' & Hidx & Hcopy & Hne & _).
  - intros output_name Hin. apply list_elem_of_In in Hin. simpl in Hin.
    destruct Hin as [<-|[<-|[<-|[]]]]; by eexists.
  - reflexivity.
  - discriminate.
  - exists idx, failure, t'. auto.
Defined.

End Nrt.

(** ** SharedMemoryManager *)
Module SharedMemoryManager.
Import Nrt.

Record SharedMemoryManager : Type := {
  enabled_ : bool;
  stub_ : option Stub;
  input_names_ : list string;
  input_ptrs_ : list Z;
  input_sizes_ : list Z;
  input_grpc_names_ : list string;
  output_names_ : list string;
  output_ptrs_ : list Z;
  output_sizes_ : list Z;
  output_grpc_names_ : list string
}.

(** The four vectors [init_vectors] is given pointers to. *)
Record Vectors : Type := {
  names : list string;
  ptrs : list Z;
  sizes : list Z;
  grpc_names : list string
}.

Definition inputs (m : SharedMemoryManager) : Vectors :=
  {| names := input_names_ m; ptrs := input_ptrs_ m;
     sizes := input_sizes_ m; grpc_names := input_grpc_names_ m |}.

Definition outputs (m : SharedMemoryManager) : Vectors :=
  {| names := output_names_ m; ptrs := output_ptrs_ m;
     sizes := output_sizes_ m; grpc_names := output_grpc_names_ m |}.

Definition set_inputs (v : Vectors) (m : SharedMemoryManager) : SharedMemoryManager :=
  {| enabled_ := enabled_ m; stub_ := stub_ m;
     input_names_ := names v; input_ptrs_ := ptrs v;
     input_sizes_ := sizes v; input_grpc_names_ := grpc_names v;
     output_names_ := output_names_ m; output_ptrs_ := output_ptrs_ m;
     output_sizes_ := output_sizes_ m; output_grpc_names_ := output_grpc_names_ m |}.

Definition set_outputs (v : Vectors) (m : SharedMemoryManager) : SharedMemoryManager :=
  {| enabled_ := enabled_ m; stub_ := stub_ m;
     input_names_ := input_names_ m; input_ptrs_ := input_ptrs_ m;
     input_sizes_ := input_sizes_ m; input_grpc_names_ := input_grpc_names_ m;
     output_names_ := names v; output_ptrs_ := ptrs v;
     output_sizes_ := sizes v; output_grpc_names_ := grpc_names v |}.

Definition set_stub_ (stub : option Stub) (m : SharedMemoryManager) : SharedMemoryManager :=
  {| enabled_ := enabled_ m; stub_ := stub;
     input_names_ := input_names_ m; input_ptrs_ := input_ptrs_ m;
     input_sizes_ := input_sizes_ m; input_grpc_names_ := input_grpc_names_ m;
     output_names_ := output_names_ m; output_ptrs_ := output_ptrs_ m;
     output_sizes_ := output_sizes_ m; output_grpc_names_ := output_grpc_names_ m |}.

Definition set_enabled_ (b : bool) (m : SharedMemoryManager) : SharedMemoryManager :=
  {| enabled_ := b; stub_ := stub_ m;
     input_names_ := input_names_ m; input_ptrs_ := input_ptrs_ m;
     input_sizes_ := input_sizes_ m; input_grpc_names_ := input_grpc_names_ m;
     output_names_ := output_names_ m; output_ptrs_ := output_ptrs_ m;
     output_sizes_ := output_sizes_ m; output_grpc_names_ := output_grpc_names_ m |}.

Definition push_name (x : string) (v : Vectors) : Vectors :=
  {| names := names v ++ [x]; ptrs := ptrs v; sizes := sizes v;
     grpc_names := grpc_names v |}.
Definition push_ptr (x : Z) (v : Vectors) : Vectors :=
  {| names := names v; ptrs := ptrs v ++ [x]; sizes := sizes v;
     grpc_names := grpc_names v |}.
Definition push_size (x : Z) (v : Vectors) : Vectors :=
  {| names := names v; ptrs := ptrs v; sizes := sizes v ++ [x];
     grpc_names := grpc_names v |}.
Definition push_grpc_name (x : string) (v : Vectors) : Vectors :=
  {| names := names v; ptrs := ptrs v; sizes := sizes v;
     grpc_names := grpc_names v ++ [x] |}.

(** [PROT_READ | PROT_WRITE] *)
Definition PROT_READ_WRITE : Z := Z.lor 1 2.

Section Methods.
Variable NERR_OK : Z.

(** The [for (size_t i = 0; i < 64; ++i)] of [gen_shm_name]:
    [CreateUniqueFileName] rewrites [filename] whether it succeeds or not. *)
Fixpoint gen_shm_name_loop {St} (turns : nat) (filename : string) : M St string :=
  match turns with
  | O => ret ""
  | S turns' =>
      unique ← perform (CreateUniqueFileName filename);
      if r_ok unique then ret (r_str unique)
      else perform (SleepForMicroseconds 1);;
           gen_shm_name_loop turns' (r_str unique)
  end.

Definition gen_shm_name {St} (nn_id : Z) : M St string :=
  gen_shm_name_loop 64 ("/neuron_clib_" +:+ to_string nn_id).

Definition init_vectors (stub_ : option Stub) (tensor_sizes : list Z) (nn_id : Z)
    : M Vectors Status :=
  fn (
    for_each tensor_sizes (fun size =>
      name ← gen_shm_name nn_id;
      (if bool_decide (name = "")
       then return_ (Error INTERNAL "cannot generate unique file name for shared memory")
       else ret tt);;
      shm_fd ← perform (shm_open name);
      SYS_FAIL_RETURN (r_int shm_fd <? 0) "shm_open";;
      modify (push_name name);;
      truncated ← perform (ftruncate (r_int shm_fd) size);
      SYS_FAIL_RETURN (r_int truncated <? 0) "ftruncate";;
      ptr ← perform (mmap size (r_int shm_fd));
      SYS_FAIL_RETURN (0 =? r_int ptr) "mmap";;
      modify (push_ptr (r_int ptr));;
      modify (push_size size);;
      response ← NRT_GRPC stub_ (shm_map name PROT_READ_WRITE);
      NRT_CHECK_RETURN NERR_OK "shm_map" response;;
      modify (push_grpc_name name));;
    ret OK).

Definition initialize (nrtd_address : string) (nn_id : Z)
    (input_tensor_sizes output_tensor_sizes : list Z) : M SharedMemoryManager Status :=
  fn (
    TF_RETURN_IF_ERROR (init_stub set_stub_ nrtd_address);;
    m ← get;
    TF_RETURN_IF_ERROR
      (zoom (fun m => Some (inputs m)) set_inputs
            (init_vectors (stub_ m) input_tensor_sizes nn_id));;
    TF_RETURN_IF_ERROR
      (zoom (fun m => Some (outputs m)) set_outputs
            (init_vectors (stub_ m) output_tensor_sizes nn_id));;
    modify (set_enabled_ true);;
    ret OK).

Definition nrt_shm_unmap (name : string) : M SharedMemoryManager unit :=
  m ← get;
  response ← NRT_GRPC (stub_ m) (shm_unmap name PROT_READ_WRITE);
  NRT_CHECK_LOG NERR_OK "shm_unmap" response.

Definition clear_grpc_names (v : Vectors) : Vectors :=
  {| names := names v; ptrs := ptrs v; sizes := sizes v; grpc_names := [] |}.
Definition clear_ptrs (v : Vectors) : Vectors :=
  {| names := names v; ptrs := []; sizes := sizes v; grpc_names := grpc_names v |}.
Definition clear_names (v : Vectors) : Vectors :=
  {| names := []; ptrs := ptrs v; sizes := sizes v; grpc_names := grpc_names v |}.

(** [~SharedMemoryManager()] *)
Definition destructor : M SharedMemoryManager unit :=
  m ← get;
  for_each (input_grpc_names_ m) nrt_shm_unmap;;
  modify (fun m => set_inputs (clear_grpc_names (inputs m)) m);;
  m ← get;
  for_range (length (input_ptrs_ m)) (fun idx =>
    ptr ← at_index (input_ptrs_ m) idx;
    size ← at_index (input_sizes_ m) idx;
    unmapped ← perform (munmap ptr size);
    SYS_FAIL_LOG (r_int unmapped <? 0) "munmap");;
  modify (fun m => set_inputs (clear_ptrs (inputs m)) m);;
  m ← get;
  for_each (input_names_ m) (fun name =>
    unlinked ← perform (shm_unlink name);
    SYS_FAIL_LOG (r_int unlinked <? 0) "shm_unlink");;
  modify (fun m => set_inputs (clear_names (inputs m)) m);;
  m ← get;
  for_each (output_grpc_names_ m) nrt_shm_unmap;;
  modify (fun m => set_outputs (clear_grpc_names (outputs m)) m);;
  m ← get;
  for_range (length (output_ptrs_ m)) (fun idx =>
    ptr ← at_index (output_ptrs_ m) idx;
    size ← at_index (output_sizes_ m) idx;
    unmapped ← perform (munmap ptr size);
    SYS_FAIL_LOG (r_int unmapped <? 0) "munmap");;
  modify (fun m => set_outputs (clear_ptrs (outputs m)) m);;
  m ← get;
  for_each (output_names_ m) (fun name =>
    unlinked ← perform (shm_unlink name);
    SYS_FAIL_LOG (r_int unlinked <? 0) "shm_unlink");;
  modify (fun m => set_outputs (clear_names (outputs m)) m).

(** *** Teardown *)

(** The steps of the teardown of one direction, in the order they are taken:
    every registration is withdrawn, then every region is unmapped, then every
    backing object is removed. *)
Definition direction_steps (v : Vectors) : list call :=
  map (fun name => shm_unmap name PROT_READ_WRITE) (grpc_names v)
  ++ zip_with munmap (ptrs v) (sizes v)
  ++ map shm_unlink (names v).

Definition teardown_steps (m : SharedMemoryManager) : list call :=
  direction_steps (inputs m) ++ direction_steps (outputs m).

(** C2 as the specification words it: three phases over both directions,
    outputs before inputs in each. *)
Definition teardown_steps_as_specified (m : SharedMemoryManager) : list call :=
  (map (fun name => shm_unmap name PROT_READ_WRITE) (output_grpc_names_ m)
   ++ map (fun name => shm_unmap name PROT_READ_WRITE) (input_grpc_names_ m))
  ++ (zip_with munmap (output_ptrs_ m) (output_sizes_ m)
      ++ zip_with munmap (input_ptrs_ m) (input_sizes_ m))
  ++ (map shm_unlink (output_names_ m) ++ map shm_unlink (input_names_ m)).

(** The line a step of the teardown writes to the log when it fails. *)
Definition teardown_line (c : call) (r : reply) : list string :=
  match c with
  | shm_unmap _ _ =>
      if nrt_failed NERR_OK r then [nrt_error_message "shm_unmap" r] else []
  | munmap _ _ => if r_int r <? 0 then ["munmap" +:+ " failed"] else []
  | shm_unlink _ => if r_int r <? 0 then ["shm_unlink" +:+ " failed"] else []
  | _ => []
  end.

(** The lines of the steps that fail, each step answered after the steps
    before it. *)
Fixpoint failure_lines (oracle : list call -> call -> reply) (history steps : list call)
    : list string :=
  match steps with
  | [] => []
  | c :: steps' =>
      teardown_line c (oracle history c) ++ failure_lines oracle (history ++ [c]) steps'
  end.

(** After the teardown the vectors are empty, but for the sizes, which it
    does not clear. *)
Definition torn_down (m : SharedMemoryManager) : SharedMemoryManager :=
  {| enabled_ := enabled_ m; stub_ := stub_ m;
     input_names_ := []; input_ptrs_ := [];
     input_sizes_ := input_sizes_ m; input_grpc_names_ := [];
     output_names_ := []; output_ptrs_ := [];
     output_sizes_ := output_sizes_ m; output_grpc_names_ := [] |}.

Lemma failure_lines_app oracle history a b :
  failure_lines oracle history (a ++ b)
  = failure_lines oracle history a ++ failure_lines oracle (history ++ a) b.
Proof.
  revert history. induction a as [|c a IH]; intros history; simpl.
  - by rewrite app_nil_r.
  - rewrite IH, <- !app_assoc. done.
Qed.

(** A loop whose every turn makes one call, logs its failure and goes on. *)
Lemma for_each_steps {A} (l : list A) (body : A -> M SharedMemoryManager unit)
    (c : A -> call) st :
  (forall x w, x ∈ l ->
     body x st w
     = (Val tt, st, advance w [c x] (teardown_line (c x) (oracle w (calls w) (c x))))) ->
  forall w,
    for_each l body st w
    = (Val tt, st,
       advance w (map c l) (failure_lines (oracle w) (calls w) (map c l))).
Proof.
  induction l as [|x l IH]; intros Hbody w; simpl.
  - by rewrite advance_nil.
  - erewrite bind_val; [|apply Hbody; by left].
    rewrite IH by (intros; apply Hbody; by right).
    by rewrite advance_advance.
Qed.

Lemma nrt_shm_unmap_step name st w :
  is_Some (stub_ st) ->
  nrt_shm_unmap name st w
  = (Val tt, st,
     advance w [shm_unmap name PROT_READ_WRITE]
       (teardown_line (shm_unmap name PROT_READ_WRITE)
          (oracle w (calls w) (shm_unmap name PROT_READ_WRITE)))).
Proof.
  intros [stub Hs]. unfold nrt_shm_unmap, mbind, M_bind, bind, get, NRT_GRPC.
  rewrite Hs. simpl. unfold NRT_CHECK_LOG, LOG, ret, advance. simpl.
  destruct (nrt_failed NERR_OK _); simpl; by rewrite ?app_nil_r.
Qed.

Lemma munmap_step (ptrs sizes : list Z) idx (st : SharedMemoryManager) w :
  (idx < length ptrs)%nat -> (length ptrs <= length sizes)%nat ->
  let c := munmap (ptrs !!! idx) (sizes !!! idx) in
  (ptr ← at_index ptrs idx;
   size ← at_index sizes idx;
   unmapped ← perform (munmap ptr size);
   SYS_FAIL_LOG (St := SharedMemoryManager) (r_int unmapped <? 0) "munmap") st w
  = (Val tt, st, advance w [c] (teardown_line c (oracle w (calls w) c))).
Proof.
  intros Hp Hs c. unfold at_index.
  destruct (lookup_lt_is_Some_2 ptrs idx Hp) as [ptr Hptr].
  destruct (lookup_lt_is_Some_2 sizes idx ltac:(lia)) as [size Hsize].
  unfold c. rewrite (list_lookup_total_correct _ _ _ Hptr),
    (list_lookup_total_correct _ _ _ Hsize), Hptr, Hsize.
  unfold mbind, M_bind, bind, ret, perform, SYS_FAIL_LOG, LOG, advance. simpl.
  destruct (r_int _ <? 0); simpl; by rewrite ?app_nil_r.
Qed.

Lemma shm_unlink_step name (st : SharedMemoryManager) w :
  (unlinked ← perform (shm_unlink name);
   SYS_FAIL_LOG (St := SharedMemoryManager) (r_int unlinked <? 0) "shm_unlink") st w
  = (Val tt, st,
     advance w [shm_unlink name]
       (teardown_line (shm_unlink name) (oracle w (calls w) (shm_unlink name)))).
Proof.
  unfold mbind, M_bind, bind, ret, perform, SYS_FAIL_LOG, LOG, advance. simpl.
  destruct (r_int _ <? 0); simpl; by rewrite ?app_nil_r.
Qed.

Lemma munmap_calls (ptrs sizes : list Z) :
  (length ptrs <= length sizes)%nat ->
  map (fun idx => munmap (ptrs !!! idx) (sizes !!! idx)) (seq 0 (length ptrs))
  = zip_with munmap ptrs sizes.
Proof.
  intros Hlen. apply list_eq. intros i.
  rewrite list_lookup_fmap, lookup_zip_with.
  destruct (decide (i < length ptrs)%nat) as [Hi|Hi].
  - destruct (lookup_lt_is_Some_2 ptrs i Hi) as [ptr Hptr].
    destruct (lookup_lt_is_Some_2 sizes i ltac:(lia)) as [size Hsize].
    rewrite lookup_seq_lt by done. simpl.
    by rewrite (list_lookup_total_correct _ _ _ Hptr),
      (list_lookup_total_correct _ _ _ Hsize), Hptr, Hsize.
  - rewrite lookup_seq_ge by lia. simpl.
    by rewrite (lookup_ge_None_2 ptrs i) by lia.
Qed.

Ltac loop_unmap :=
  erewrite bind_val;
    [|apply (for_each_steps _ _ (fun name => shm_unmap name PROT_READ_WRITE));
      intros; by apply nrt_shm_unmap_step].

Ltac loop_munmap ptrs sizes :=
  erewrite bind_val;
    [|unfold for_range;
      apply (for_each_steps _ _ (fun idx => munmap (ptrs !!! idx) (sizes !!! idx)));
      let Hidx := fresh in
      intros ? ? Hidx%elem_of_seq; apply munmap_step; simpl; lia].

Ltac loop_unlink :=
  erewrite bind_val;
    [|apply (for_each_steps _ _ shm_unlink); intros; apply shm_unlink_step].

Ltac plain_step := erewrite bind_val; [|reflexivity]; simpl.

(** The destructor runs to its end whatever the steps answer: it takes the
    steps of the inputs, then those of the outputs, and logs the failures. *)
Lemma destructor_steps m w :
  is_Some (stub_ m) ->
  (length (input_ptrs_ m) <= length (input_sizes_ m))%nat ->
  (length (output_ptrs_ m) <= length (output_sizes_ m))%nat ->
  destructor m w
  = (Val tt, torn_down m,
     advance w (teardown_steps m)
       (failure_lines (oracle w) (calls w) (teardown_steps m))).
Proof.
  intros Hstub Hin Hout. unfold destructor.
  plain_step. loop_unmap. plain_step. plain_step.
  loop_munmap (input_ptrs_ m) (input_sizes_ m). plain_step. plain_step.
  loop_unlink. plain_step. plain_step.
  loop_unmap. plain_step. plain_step.
  loop_munmap (output_ptrs_ m) (output_sizes_ m). plain_step. plain_step.
  loop_unlink.
  unfold modify, torn_down. simpl. f_equal.
  rewrite !advance_advance. unfold teardown_steps, direction_steps. simpl.
  rewrite !munmap_calls by done.
  rewrite !failure_lines_app, <- !app_assoc. done.
Qed.

(** Within one direction the steps of buffer [i] come in the order
    unregister, unmap, unlink. *)
Lemma direction_steps_order (v : Vectors) i gname ptr size name :
  grpc_names v !! i = Some gname -> ptrs v !! i = Some ptr ->
  sizes v !! i = Some size -> names v !! i = Some name ->
  exists i1 i2 i3,
    (i1 < i2 < i3)%nat
    /\ direction_steps v !! i1 = Some (shm_unmap gname PROT_READ_WRITE)
    /\ direction_steps v !! i2 = Some (munmap ptr size)
    /\ direction_steps v !! i3 = Some (shm_unlink name).
Proof.
  intros Hg Hp Hs Hn.
  pose proof (lookup_lt_Some _ _ _ Hg) as Hgl.
  pose proof (lookup_lt_Some _ _ _ Hp) as Hpl.
  pose proof (lookup_lt_Some _ _ _ Hs) as Hsl.
  set (a := map (fun name => shm_unmap name PROT_READ_WRITE) (grpc_names v)).
  set (b := zip_with munmap (ptrs v) (sizes v)).
  assert (Ha : length a = length (grpc_names v)) by apply length_map.
  assert (Hb : (i < length b)%nat) by (subst b; rewrite length_zip_with; lia).
  exists i, (length a + i)%nat, (length a + length b + i)%nat.
  unfold direction_steps. fold a b. split; [lia|]. split; [|split].
  - rewrite lookup_app_l by lia. subst a. by rewrite list_lookup_fmap, Hg.
  - rewrite lookup_app_r by lia. rewrite lookup_app_l by lia.
    replace (length a + i - length a)%nat with i by lia.
    subst b. by rewrite lookup_zip_with, Hp, Hs.
  - rewrite lookup_app_r by lia. rewrite lookup_app_r by lia.
    replace (length a + length b + i - length a - length b)%nat with i by lia.
    by rewrite list_lookup_fmap, Hn.
Qed.

(** C2, amended.  The destructor always runs to its end.  It tears down the
    inputs and then the outputs, and each direction in three loops: it
    withdraws every registration (shm_unmap), then unmaps every region
    (munmap), then removes every backing object (shm_unlink).  A step that
    fails writes its line to the log and the next step is taken all the same.
    For each buffer, of either direction, its registration is withdrawn
    before its region is unmapped, which is before its backing object is
    removed. *)
Theorem teardown_order m w :
  is_Some (stub_ m) ->
  (length (input_ptrs_ m) <= length (input_sizes_ m))%nat ->
  (length (output_ptrs_ m) <= length (output_sizes_ m))%nat ->
  destructor m w
  = (Val tt, torn_down m,
     advance w (teardown_steps m)
       (failure_lines (oracle w) (calls w) (teardown_steps m)))
  /\ teardown_steps m = direction_steps (inputs m) ++ direction_steps (outputs m)
  /\ (forall v, v = inputs m \/ v = outputs m ->
      forall i gname ptr size name,
        grpc_names v !! i = Some gname -> ptrs v !! i = Some ptr ->
        sizes v !! i = Some size -> names v !! i = Some name ->
        exists i1 i2 i3,
          (i1 < i2 < i3)%nat
          /\ teardown_steps m !! i1 = Some (shm_unmap gname PROT_READ_WRITE)
          /\ teardown_steps m !! i2 = Some (munmap ptr size)
          /\ teardown_steps m !! i3 = Some (shm_unlink name)).
Proof.
  intros Hstub Hin Hout. split; [by apply destructor_steps|]. split; [done|].
  intros v Hv i gname ptr size name Hg Hp Hs Hn.
  destruct (direction_steps_order v i gname ptr size name Hg Hp Hs Hn)
    as (i1 & i2 & i3 & Hlt & H1 & H2 & H3).
  unfold teardown_steps. destruct Hv as [-> | ->].
  - exists i1, i2, i3. split; [done|].
    rewrite !lookup_app_l by (eapply lookup_lt_Some; eauto). auto.
  - set (n := length (direction_steps (inputs m))).
    exists (n + i1)%nat, (n + i2)%nat, (n + i3)%nat. split; [lia|].
    rewrite !lookup_app_r by lia. fold n.
    replace (n + i1 - n)%nat with i1 by lia.
    replace (n + i2 - n)%nat with i2 by lia.
    replace (n + i3 - n)%nat with i3 by lia. auto.
Qed.

(** *** gen_shm_name *)

Definition is_unique_name (c : call) : bool :=
  match c with CreateUniqueFileName _ => true | _ => false end.

Definition is_sleep (c : call) : bool :=
  match c with SleepForMicroseconds _ => true | _ => false end.

(** The calls of [gen_shm_name]. *)
Definition is_naming (c : call) : Prop :=
  match c with CreateUniqueFileName _ | SleepForMicroseconds _ => True | _ => False end.

Lemma gen_shm_name_loop_run {St} turns : forall filename (st : St) w,
  exists attempts file_name made,
    gen_shm_name_loop turns filename st w = (Val file_name, st, extend w made)
    /\ (attempts <= turns)%nat
    /\ count is_unique_name made = attempts
    /\ length made = (attempts + count is_sleep made)%nat
    /\ Forall is_naming made
    /\ (turns <> 0%nat -> head made = Some (CreateUniqueFileName filename))
    /\ ((exists before last_prefix,
           made = before ++ [CreateUniqueFileName last_prefix]
           /\ count is_sleep made = (attempts - 1)%nat
           /\ r_ok (answer w before (CreateUniqueFileName last_prefix)) = true
           /\ file_name = r_str (answer w before (CreateUniqueFileName last_prefix)))
        \/ (attempts = turns /\ count is_sleep made = turns /\ file_name = EmptyString)).
Proof.
  induction turns as [|turns IH]; intros filename st w.
  - exists 0%nat, EmptyString, []. simpl. rewrite extend_nil.
    split; [done|]. split; [lia|]. split; [done|]. split; [done|].
    split; [constructor|]. split; [done|]. right. by repeat split.
  - simpl. erewrite bind_val; [|apply perform_extend].
    destruct (r_ok (answer w [] (CreateUniqueFileName filename))) eqn:Hok.
    + exists 1%nat, (r_str (answer w [] (CreateUniqueFileName filename))),
        [CreateUniqueFileName filename].
      split; [done|]. split; [lia|]. split; [done|]. split; [done|].
      split; [by repeat constructor|]. split; [done|].
      left. exists [], filename. by repeat split.
    + erewrite bind_val; [|apply perform_extend].
      rewrite extend_extend. simpl.
      destruct (IH (r_str (answer w [] (CreateUniqueFileName filename))) st
                  (extend w [CreateUniqueFileName filename; SleepForMicroseconds 1]))
        as (attempts & file_name & made & Hrun & Hle & Hcount & Hlen & Hnaming & _ & Hend).
      exists (S attempts), file_name,
        ([CreateUniqueFileName filename; SleepForMicroseconds 1] ++ made).
      split; [by rewrite Hrun, extend_extend|].
      split; [lia|].
      split; [unfold count in *; simpl; by rewrite Hcount|].
      split; [unfold count in *; simpl in *; lia|].
      split; [by repeat constructor|].
      split; [done|].
      destruct Hend as [(before & last_prefix & -> & Hsleeps & Hlast & Hname)
                       |(-> & Hsleeps & ->)].
      * left. exists ([CreateUniqueFileName filename; SleepForMicroseconds 1] ++ before),
          last_prefix.
        rewrite answer_extend in Hlast, Hname.
        split; [done|]. split; [|by split].
        assert (0 < attempts)%nat.
        { rewrite <- Hcount. unfold count. rewrite List.filter_app, length_app. simpl. lia. }
        unfold count in *. simpl in *. lia.
      * right. unfold count in *. simpl. by rewrite Hsleeps.
Qed.

(** The calls of the attempts that fail, for the prefixes they are made
    with: each is followed by a sleep of one microsecond. *)
Definition failed_attempts (prefixes : list string) : list call :=
  flat_map (fun prefix => [CreateUniqueFileName prefix; SleepForMicroseconds 1]) prefixes.

Lemma gen_shm_name_loop_trace {St} turns : forall filename (st : St) w,
  exists failed file_name made,
    gen_shm_name_loop turns filename st w = (Val file_name, st, extend w made)
    /\ (length failed <= turns)%nat
    /\ (forall i prefix, failed !! i = Some prefix ->
          r_ok (answer w (failed_attempts (take i failed)) (CreateUniqueFileName prefix))
          = false)
    /\ ((exists prefix,
           (length failed < turns)%nat
           /\ made = failed_attempts failed ++ [CreateUniqueFileName prefix]
           /\ head (failed ++ [prefix]) = Some filename
           /\ r_ok (answer w (failed_attempts failed) (CreateUniqueFileName prefix)) = true
           /\ file_name
              = r_str (answer w (failed_attempts failed) (CreateUniqueFileName prefix)))
        \/ (length failed = turns /\ made = failed_attempts failed
            /\ (turns <> 0%nat -> head failed = Some filename)
            /\ file_name = EmptyString)).
Proof.
  induction turns as [|turns IH]; intros filename st w.
  - exists [], EmptyString, []. cbn. rewrite extend_nil.
    split; [done|]. split; [done|]. split; [done|]. right. by repeat split.
  - cbn [gen_shm_name_loop]. erewrite bind_val; [|apply perform_extend].
    destruct (r_ok (answer w [] (CreateUniqueFileName filename))) eqn:Hok.
    + exists [], (r_str (answer w [] (CreateUniqueFileName filename))),
        [CreateUniqueFileName filename].
      split; [done|]. split; [cbn; lia|]. split; [done|].
      left. exists filename. cbn. split; [lia|]. by repeat split.
    + erewrite bind_val; [|apply perform_extend].
      rewrite extend_extend. cbn [app].
      set (turn := [CreateUniqueFileName filename; SleepForMicroseconds 1]).
      destruct (IH (r_str (answer w [] (CreateUniqueFileName filename))) st (extend w turn))
        as (failed & file_name & made & Hrun & Hle & Hfailed & Hend).
      exists (filename :: failed), file_name, (turn ++ made).
      split; [by rewrite Hrun, extend_extend|].
      split; [cbn; lia|].
      split.
      { intros [|i] prefix Hi.
        - injection Hi as <-. exact Hok.
        - cbn in Hi. specialize (Hfailed i prefix Hi). by rewrite answer_extend in Hfailed. }
      destruct Hend as [(prefix & Hlt & -> & _ & Hlast & ->)|(Hlen & -> & _ & ->)].
      * left. exists prefix. rewrite answer_extend in Hlast. rewrite answer_extend.
        split; [cbn; lia|]. split; [by rewrite app_assoc|]. by repeat split.
      * right. split; [cbn; lia|]. by repeat split.
Qed.

(** X9.  [gen_shm_name] always returns, and changes nothing of its object.
    Its calls are attempts to make a unique file name, the first one for
    "/neuron_clib_" followed by the model id, each attempt that fails
    followed by a sleep of one microsecond, and nothing else.  Every attempt
    before the last one has failed.  There are at most 64 attempts: when the
    last one succeeds, no sleep follows and the result is the name it left;
    when all of the 64 attempts fail the result is the empty string. *)
Theorem gen_shm_name_attempts {St} nn_id (st : St) w :
  exists failed file_name made,
    gen_shm_name nn_id st w = (Val file_name, st, extend w made)
    /\ (length failed <= 64)%nat
    /\ (forall i prefix, failed !! i = Some prefix ->
          r_ok (answer w (failed_attempts (take i failed)) (CreateUniqueFileName prefix))
          = false)
    /\ ((exists prefix,
           (length failed < 64)%nat
           /\ made = failed_attempts failed ++ [CreateUniqueFileName prefix]
           /\ head (failed ++ [prefix]) = Some ("/neuron_clib_" +:+ to_string nn_id)
           /\ r_ok (answer w (failed_attempts failed) (CreateUniqueFileName prefix)) = true
           /\ file_name
              = r_str (answer w (failed_attempts failed) (CreateUniqueFileName prefix)))
        \/ (length failed = 64%nat /\ made = failed_attempts failed
            /\ head failed = Some ("/neuron_clib_" +:+ to_string nn_id)
            /\ file_name = EmptyString)).
Proof.
  unfold gen_shm_name.
  destruct (gen_shm_name_loop_trace 64 ("/neuron_clib_" +:+ to_string nn_id) st w)
    as (failed & file_name & made & Hrun & Hle & Hfailed & Hend).
  exists failed, file_name, made.
  split; [done|]. split; [done|]. split; [done|].
  destruct Hend as [Hlast|(Hlen & Hmade & Hhead & Hname)]; [by left|].
  right. split; [done|]. split; [done|]. split; [by apply Hhead | done].
Qed.

(** *** init_vectors *)

(** What the calls [made] leave behind, each call answered after the calls
    before it: [keep] says what a call with a given answer leaves. *)
Fixpoint recorded {A} (keep : call -> reply -> option A)
    (oracle : list call -> call -> reply) (history made : list call) : list A :=
  match made with
  | [] => []
  | c :: made' =>
      match keep c (oracle history c) with Some a => [a] | None => [] end
      ++ recorded keep oracle (history ++ [c]) made'
  end.

(** The shared-memory objects that [shm_open] created or opened. *)
Definition opened (w : World) (made : list call) : list string :=
  recorded (fun c r => match c with
                       | shm_open name => if r_int r <? 0 then None else Some name
                       | _ => None
                       end) (oracle w) (calls w) made.

(** The addresses [mmap] returned, but for null: the code takes every other
    address, the [MAP_FAILED] of a failed [mmap] too, for a mapped region. *)
Definition mapped (w : World) (made : list call) : list Z :=
  recorded (fun c r => match c with
                       | mmap _ _ => if 0 =? r_int r then None else Some (r_int r)
                       | _ => None
                       end) (oracle w) (calls w) made.

(** The sizes of those regions. *)
Definition mapped_sizes (w : World) (made : list call) : list Z :=
  recorded (fun c r => match c with
                       | mmap size _ => if 0 =? r_int r then None else Some size
                       | _ => None
                       end) (oracle w) (calls w) made.

(** The paths the daemon accepted to map. *)
Definition registered (w : World) (made : list call) : list string :=
  recorded (fun c r => match c with
                       | shm_map path _ => if nrt_failed NERR_OK r then None else Some path
                       | _ => None
                       end) (oracle w) (calls w) made.

(** The calls of [init_vectors]. *)
Definition is_acquiring (c : call) : Prop :=
  match c with
  | CreateUniqueFileName _ | SleepForMicroseconds _
  | shm_open _ | ftruncate _ _ | mmap _ _ | shm_map _ _ => True
  | _ => False
  end.

Lemma recorded_app {A} (keep : call -> reply -> option A) oracle history a b :
  recorded keep oracle history (a ++ b)
  = recorded keep oracle history a ++ recorded keep oracle (history ++ a) b.
Proof.
  revert history. induction a as [|c a IH]; intros history; simpl.
  - by rewrite app_nil_r.
  - by rewrite IH, <- !app_assoc.
Qed.

Lemma recorded_none {A} (keep : call -> reply -> option A) oracle made :
  Forall (fun c => forall r, keep c r = None) made ->
  forall history, recorded keep oracle history made = [].
Proof.
  induction 1 as [|c made Hc _ IH]; intros history; simpl; [done|].
  by rewrite Hc, IH.
Qed.

Lemma naming_records_nothing {A} (keep : call -> reply -> option A) oracle history made :
  (forall prefix r, keep (CreateUniqueFileName prefix) r = None) ->
  (forall micros r, keep (SleepForMicroseconds micros) r = None) ->
  Forall is_naming made ->
  recorded keep oracle history made = [].
Proof.
  intros Hunique Hsleep Hmade. apply recorded_none.
  eapply Forall_impl; [exact Hmade|].
  intros c Hc r. by destruct c.
Qed.

Lemma naming_acquiring made : Forall is_naming made -> Forall is_acquiring made.
Proof. intros H. eapply Forall_impl; [exact H|]. by intros []. Qed.

(** One turn of the loop of [init_vectors]. *)
Definition init_vectors_turn (stub_ : option Stub) (nn_id size : Z) : M Vectors unit :=
  name ← gen_shm_name nn_id;
  (if bool_decide (name = "")
   then return_ (Error INTERNAL "cannot generate unique file name for shared memory")
   else ret tt);;
  shm_fd ← perform (shm_open name);
  SYS_FAIL_RETURN (r_int shm_fd <? 0) "shm_open";;
  modify (push_name name);;
  truncated ← perform (ftruncate (r_int shm_fd) size);
  SYS_FAIL_RETURN (r_int truncated <? 0) "ftruncate";;
  ptr ← perform (mmap size (r_int shm_fd));
  SYS_FAIL_RETURN (0 =? r_int ptr) "mmap";;
  modify (push_ptr (r_int ptr));;
  modify (push_size size);;
  response ← NRT_GRPC stub_ (shm_map name PROT_READ_WRITE);
  NRT_CHECK_RETURN NERR_OK "shm_map" response;;
  modify (push_grpc_name name).

(** What the vectors hold after some turns is what they held before and what
    the calls of the turns left. *)
Definition grown (v v' : Vectors) (w : World) (made : list call) : Prop :=
  names v' = names v ++ opened w made
  /\ ptrs v' = ptrs v ++ mapped w made
  /\ sizes v' = sizes v ++ mapped_sizes w made
  /\ grpc_names v' = grpc_names v ++ registered w made.

Ltac records_of Hnaming :=
  unfold opened, mapped, mapped_sizes, registered;
  rewrite !recorded_app;
  rewrite !(naming_records_nothing _ _ _ _ (fun _ _ => eq_refl) (fun _ _ => eq_refl) Hnaming);
  cbn [recorded app]; rewrite <- ?app_assoc; cbn [app].

Lemma init_vectors_turn_run stub nn_id size v w :
  exists r v' made,
    init_vectors_turn (Some stub) nn_id size v w = (r, v', extend w made)
    /\ grown v v' w made
    /\ Forall is_acquiring made
    /\ match r with
       | Val _ =>
           exists name ptr, opened w made = [name] /\ registered w made = [name]
             /\ mapped w made = [ptr] /\ mapped_sizes w made = [size]
       | Return s =>
           ok s = false /\ registered w made = []
           /\ (length (mapped w made) <= length (opened w made) <= 1)%nat
           /\ mapped_sizes w made = take (length (mapped w made)) [size]
       | Undefined => False
       end.
Proof.
  unfold init_vectors_turn, gen_shm_name.
  destruct (gen_shm_name_loop_run 64 ("/neuron_clib_" +:+ to_string nn_id) v w)
    as (attempts & name & made0 & Hrun & _ & _ & _ & Hnaming & _).
  pose proof (naming_acquiring _ Hnaming) as Hacq.
  erewrite bind_val; [|exact Hrun].
  destruct (bool_decide (name = "")) eqn:Hname.
  { exists (Return (Error INTERNAL "cannot generate unique file name for shared memory")),
      v, made0.
    split; [done|].
    unfold grown, opened, mapped, mapped_sizes, registered.
    rewrite !(naming_records_nothing _ _ _ _ (fun _ _ => eq_refl) (fun _ _ => eq_refl) Hnaming).
    rewrite !app_nil_r. simpl. repeat split; auto. }
  erewrite bind_val; [|reflexivity].
  erewrite bind_val; [|apply perform_extend].
  rewrite extend_extend, answer_extend, app_nil_r, <- ?app_assoc; cbn [app].
  set (shm_fd := answer w made0 (shm_open name)).
  assert (Hfd : oracle w (calls w ++ made0) (shm_open name) = shm_fd) by done.
  destruct (r_int shm_fd <? 0) eqn:Hopen.
  { unfold SYS_FAIL_RETURN.
    exists (Return (Error INTERNAL ("shm_open" +:+ " failed"))), v, (made0 ++ [shm_open name]).
    split; [done|].
    split; [unfold grown; records_of Hnaming; rewrite ?Hfd, ?Hopen; simpl; by rewrite ?app_nil_r|].
    split; [apply Forall_app; by repeat constructor|].
    records_of Hnaming. rewrite ?Hfd, ?Hopen. simpl. repeat split; auto. }
  unfold SYS_FAIL_RETURN at 1.
  erewrite bind_val; [|reflexivity].
  erewrite bind_val; [|reflexivity].
  erewrite bind_val; [|apply perform_extend].
  rewrite extend_extend, answer_extend, app_nil_r, <- ?app_assoc; cbn [app].
  set (truncated := answer w (made0 ++ [shm_open name]) (ftruncate (r_int shm_fd) size)).
  destruct (r_int truncated <? 0) eqn:Htrunc.
  { unfold SYS_FAIL_RETURN.
    exists (Return (Error INTERNAL ("ftruncate" +:+ " failed"))), (push_name name v),
      (made0 ++ [shm_open name; ftruncate (r_int shm_fd) size]).
    split; [done|].
    split; [unfold grown; records_of Hnaming; rewrite ?Hfd, ?Hopen; simpl; by rewrite ?app_nil_r|].
    split; [apply Forall_app; by repeat constructor|].
    records_of Hnaming. rewrite ?Hfd, ?Hopen. simpl. repeat split; auto. }
  unfold SYS_FAIL_RETURN at 1.
  erewrite bind_val; [|reflexivity].
  erewrite bind_val; [|apply perform_extend].
  rewrite extend_extend, answer_extend, app_nil_r, <- ?app_assoc; cbn [app].
  set (ptr := answer w (made0 ++ [shm_open name; ftruncate (r_int shm_fd) size])
                (mmap size (r_int shm_fd))).
  assert (Hptr : oracle w (calls w ++ made0 ++ [shm_open name; ftruncate (r_int shm_fd) size])
                   (mmap size (r_int shm_fd)) = ptr) by done.
  destruct (0 =? r_int ptr) eqn:Hmap.
  { unfold SYS_FAIL_RETURN.
    exists (Return (Error INTERNAL ("mmap" +:+ " failed"))), (push_name name v),
      (made0 ++ [shm_open name; ftruncate (r_int shm_fd) size; mmap size (r_int shm_fd)]).
    split; [done|].
    split; [unfold grown; records_of Hnaming; rewrite ?Hfd, ?Hopen, ?Hptr, ?Hmap; simpl; by rewrite ?app_nil_r|].
    split; [apply Forall_app; by repeat constructor|].
    records_of Hnaming. rewrite ?Hfd, ?Hopen, ?Hptr, ?Hmap. simpl. repeat split; auto. }
  unfold SYS_FAIL_RETURN.
  erewrite bind_val; [|reflexivity].
  erewrite bind_val; [|reflexivity].
  erewrite bind_val; [|reflexivity].
  unfold NRT_GRPC.
  erewrite bind_val; [|apply perform_extend].
  rewrite extend_extend, answer_extend, app_nil_r, <- ?app_assoc; cbn [app].
  set (response := answer w (made0 ++ [shm_open name; ftruncate (r_int shm_fd) size;
                                        mmap size (r_int shm_fd)])
                     (shm_map name PROT_READ_WRITE)).
  assert (Hresp : oracle w (calls w ++ made0 ++ [shm_open name; ftruncate (r_int shm_fd) size;
                                                  mmap size (r_int shm_fd)])
                    (shm_map name PROT_READ_WRITE) = response) by done.
  unfold NRT_CHECK_RETURN.
  destruct (nrt_failed NERR_OK response) eqn:Hfailed.
  { exists (Return (Error INTERNAL (nrt_error_message "shm_map" response))),
      (push_size size (push_ptr (r_int ptr) (push_name name v))),
      (made0 ++ [shm_open name; ftruncate (r_int shm_fd) size; mmap size (r_int shm_fd);
                 shm_map name PROT_READ_WRITE]).
    split; [done|].
    split; [unfold grown; records_of Hnaming; rewrite ?Hfd, ?Hopen, ?Hptr, ?Hmap, ?Hresp, ?Hfailed; simpl; by rewrite ?app_nil_r|].
    split; [apply Forall_app; by repeat constructor|].
    records_of Hnaming. rewrite ?Hfd, ?Hopen, ?Hptr, ?Hmap, ?Hresp, ?Hfailed. simpl.
    repeat split; auto. }
  erewrite bind_val; [|reflexivity].
  exists (Val tt),
    (push_grpc_name name (push_size size (push_ptr (r_int ptr) (push_name name v)))),
    (made0 ++ [shm_open name; ftruncate (r_int shm_fd) size; mmap size (r_int shm_fd);
               shm_map name PROT_READ_WRITE]).
  split; [done|].
  split; [unfold grown; records_of Hnaming; rewrite ?Hfd, ?Hopen, ?Hptr, ?Hmap, ?Hresp, ?Hfailed; simpl; by rewrite ?app_nil_r|].
  split; [apply Forall_app; by repeat constructor|].
  exists name, (r_int ptr).
  records_of Hnaming. by rewrite ?Hfd, ?Hopen, ?Hptr, ?Hmap, ?Hresp, ?Hfailed.
Qed.

Lemma opened_app w a b : opened w (a ++ b) = opened w a ++ opened (extend w a) b.
Proof. unfold opened. by rewrite recorded_app. Qed.

Lemma mapped_app w a b : mapped w (a ++ b) = mapped w a ++ mapped (extend w a) b.
Proof. unfold mapped. by rewrite recorded_app. Qed.

Lemma mapped_sizes_app w a b :
  mapped_sizes w (a ++ b) = mapped_sizes w a ++ mapped_sizes (extend w a) b.
Proof. unfold mapped_sizes. by rewrite recorded_app. Qed.

Lemma registered_app w a b :
  registered w (a ++ b) = registered w a ++ registered (extend w a) b.
Proof. unfold registered. by rewrite recorded_app. Qed.

Lemma grown_app v v1 v2 w a b :
  grown v v1 w a -> grown v1 v2 (extend w a) b -> grown v v2 w (a ++ b).
Proof.
  intros (Hn & Hp & Hs & Hg) (Hn' & Hp' & Hs' & Hg'). unfold grown.
  rewrite opened_app, mapped_app, mapped_sizes_app, registered_app, !app_assoc.
  by rewrite Hn', Hp', Hs', Hg', Hn, Hp, Hs, Hg.
Qed.

(** As many sizes as addresses are recorded. *)
Lemma mapped_sizes_length w made : length (mapped_sizes w made) = length (mapped w made).
Proof.
  unfold mapped_sizes, mapped. generalize (calls w) as history.
  induction made as [|c made IH]; intros history; [done|].
  cbn [recorded]. rewrite !length_app, IH. f_equal.
  destruct c; try done. by destruct (0 =? r_int _).
Qed.

(** The loop of [init_vectors]: it goes on while the turns come to their end. *)
Lemma init_vectors_loop stub nn_id tensor_sizes : forall v w,
  exists r v' made,
    for_each tensor_sizes (init_vectors_turn (Some stub) nn_id) v w = (r, v', extend w made)
    /\ grown v v' w made
    /\ Forall is_acquiring made
    /\ registered w made `prefix_of` opened w made
    /\ (length (registered w made) <= length (mapped w made) <= length (opened w made))%nat
    /\ (length (opened w made) <= length (registered w made) + 1)%nat
    /\ (length (opened w made) <= length tensor_sizes)%nat
    /\ mapped_sizes w made = take (length (mapped w made)) tensor_sizes
    /\ match r with
       | Val _ => length (registered w made) = length tensor_sizes
       | Return s => ok s = false /\ (length (registered w made) < length tensor_sizes)%nat
       | Undefined => False
       end.
Proof.
  induction tensor_sizes as [|size tensor_sizes IH]; intros v w.
  - exists (Val tt), v, []. rewrite extend_nil.
    split; [done|]. unfold grown, opened, mapped, mapped_sizes, registered. simpl.
    rewrite !app_nil_r. repeat split; auto.
  - destruct (init_vectors_turn_run stub nn_id size v w)
      as (r & v1 & a & Hrun & Hgrown & Hacq & Hr).
    cbn [for_each]. unfold mbind at 1, M_bind at 1, bind at 1. rewrite Hrun.
    destruct r as [[] | s |]; [| |done].
    + destruct Hr as (name & ptr & Ho & Hg & Hp & Hs).
      destruct (IH v1 (extend w a))
        as (r & v2 & b & Hrun' & Hgrown' & Hacq' & Hprefix & Hlen & Hlen' & Hmost & Hsizes & Hr').
      exists r, v2, (a ++ b).
      split; [by rewrite Hrun', extend_extend|].
      split; [by eapply grown_app|].
      split; [by apply Forall_app|].
      rewrite opened_app, mapped_app, mapped_sizes_app, registered_app.
      rewrite Ho, Hg, Hp, Hs, Hsizes. cbn [app length take].
      split; [by apply prefix_cons|].
      split; [lia|]. split; [lia|]. split; [lia|]. split; [done|].
      destruct r as [[] | s |]; [lia | split; [tauto | lia] | done].
    + destruct Hr as (Hs & Hg & Hlen & Hsizes).
      exists (Return s), v1, a.
      split; [done|]. split; [done|]. split; [done|].
      rewrite Hg, Hsizes. cbn [length].
      split; [apply prefix_nil|]. split; [lia|]. split; [lia|]. split; [lia|].
      split; [|split; [done | lia]].
      destruct (length (mapped w a)) as [|[|n]]; [done | done | lia].
Qed.

(** [init_vectors] is its loop, and the result of its loop. *)
Lemma init_vectors_run stub tensor_sizes nn_id v w :
  exists s v' made,
    init_vectors (Some stub) tensor_sizes nn_id v w = (Val s, v', extend w made)
    /\ grown v v' w made
    /\ Forall is_acquiring made
    /\ registered w made `prefix_of` opened w made
    /\ (length (registered w made) <= length (mapped w made) <= length (opened w made))%nat
    /\ (length (opened w made) <= length (registered w made) + 1)%nat
    /\ (length (opened w made) <= length tensor_sizes)%nat
    /\ mapped_sizes w made = take (length (mapped w made)) tensor_sizes
    /\ (s = OK <-> length (registered w made) = length tensor_sizes).
Proof.
  destruct (init_vectors_loop stub nn_id tensor_sizes v w)
    as (r & v' & made & Hrun & Hgrown & Hacq & Hprefix & Hlen & Hlen' & Hmost & Hsizes & Hr).
  unfold init_vectors, fn.
  change (for_each tensor_sizes _) with
    (for_each tensor_sizes (init_vectors_turn (Some stub) nn_id)).
  unfold mbind at 1, M_bind at 1, bind at 1. rewrite Hrun.
  destruct r as [[] | s |]; [| |done].
  - exists OK, v', made. do 8 (split; [done|]). by split.
  - destruct Hr as [Hs' Hlt].
    exists s, v', made. do 8 (split; [done|]).
    split; [by intros -> | lia].
Qed.

(** X10.  [init_vectors], called with a stub, always returns, and makes no
    call but those that name, open, size, map and register an object.  After
    it, successful or not, the four vectors hold what they held before and,
    in the order of the calls: the names of all the objects [shm_open] opened;
    all the addresses [mmap] returned but for null, and for each the size
    that was asked for; the paths of all the registrations the daemon
    accepted.  The registered paths are the first opened names, at most one
    object is opened and not registered, an object that is mapped is opened
    and one that is registered is mapped, and no more objects are opened
    than there are tensor sizes.  The result is OK exactly when an object is
    registered for every one of the tensor sizes. *)
Theorem init_vectors_records stub tensor_sizes nn_id v w :
  exists s v' made,
    init_vectors (Some stub) tensor_sizes nn_id v w = (Val s, v', extend w made)
    /\ Forall is_acquiring made
    /\ names v' = names v ++ opened w made
    /\ ptrs v' = ptrs v ++ mapped w made
    /\ sizes v' = sizes v ++ take (length (mapped w made)) tensor_sizes
    /\ grpc_names v' = grpc_names v ++ registered w made
    /\ registered w made `prefix_of` opened w made
    /\ (length (registered w made) <= length (mapped w made) <= length (opened w made))%nat
    /\ (length (opened w made) <= length (registered w made) + 1)%nat
    /\ (length (opened w made) <= length tensor_sizes)%nat
    /\ (s = OK <-> length (registered w made) = length tensor_sizes).
Proof.
  destruct (init_vectors_run stub tensor_sizes nn_id v w)
    as (s & v' & made & Hrun & (Hn & Hp & Hs & Hg) & Hacq & Hprefix & Hlen & Hlen' & Hmost
        & Hsizes & Hok).
  exists s, v', made. rewrite <- Hsizes. by do 10 (split; [done|]).
Qed.

(** *** initialize *)

Definition no_vectors : Vectors :=
  {| names := []; ptrs := []; sizes := []; grpc_names := [] |}.

(** The calls of [init_stub]. *)
Definition is_connecting (c : call) : Prop :=
  match c with CreateCustomChannel _ | NewStub => True | _ => False end.

(** [init_stub] stops at the first of its two calls that fails; the stub is
    written once the second call is made. *)
Lemma init_stub_run {St} (set_stub : option Stub -> St -> St) addr (st : St) w :
  exists s st' made,
    init_stub set_stub addr st w = (Val s, st', extend w made)
    /\ Forall is_connecting made
    /\ ((s = OK /\ st' = set_stub (Some addr) st)
        \/ (ok s = false /\ (st' = st \/ st' = set_stub None st))).
Proof.
  unfold init_stub.
  erewrite fn_bind_val; [|apply perform_extend].
  destruct (r_ok (answer w [] (CreateCustomChannel addr))) eqn:Hchannel.
  - erewrite fn_bind_val; [|reflexivity].
    erewrite fn_bind_val; [|apply perform_extend].
    rewrite extend_extend, answer_extend. cbn [app].
    erewrite fn_bind_val; [|reflexivity].
    destruct (r_ok (answer w [CreateCustomChannel addr] NewStub)) eqn:Hstub.
    + exists OK, (set_stub (Some addr) st), [CreateCustomChannel addr; NewStub].
      split; [done|]. split; [by repeat constructor|]. by left.
    + exists (Error UNAVAILABLE "cannot create stub"), (set_stub None st),
        [CreateCustomChannel addr; NewStub].
      split; [done|]. split; [by repeat constructor|]. right. split; [done|]. by right.
  - exists (Error UNAVAILABLE "cannot establish grpc channel to neuron-rtd server"), st,
      [CreateCustomChannel addr].
    split; [done|]. split; [by repeat constructor|]. right. split; [done|]. by left.
Qed.

Lemma connecting_records_nothing {A} (keep : call -> reply -> option A) oracle history made :
  (forall address r, keep (CreateCustomChannel address) r = None) ->
  (forall r, keep NewStub r = None) ->
  Forall is_connecting made ->
  recorded keep oracle history made = [].
Proof.
  intros Hchannel Hstub Hmade. apply recorded_none.
  eapply Forall_impl; [exact Hmade|].
  intros c Hc r. by destruct c.
Qed.

(** The vectors of both directions hold what the calls [made] left, those of
    the inputs first, and every address has its size. *)
Definition holds (m : SharedMemoryManager) (w : World) (made : list call) : Prop :=
  input_names_ m ++ output_names_ m = opened w made
  /\ input_ptrs_ m ++ output_ptrs_ m = mapped w made
  /\ input_sizes_ m ++ output_sizes_ m = mapped_sizes w made
  /\ input_grpc_names_ m ++ output_grpc_names_ m = registered w made
  /\ length (input_ptrs_ m) = length (input_sizes_ m)
  /\ length (output_ptrs_ m) = length (output_sizes_ m).

Lemma grown_from_nothing v w made :
  grown no_vectors v w made ->
  names v = opened w made /\ ptrs v = mapped w made
  /\ sizes v = mapped_sizes w made /\ grpc_names v = registered w made.
Proof. intros (Hn & Hp & Hs & Hg). by repeat split. Qed.

Lemma initialize_run nrtd_address nn_id input_tensor_sizes output_tensor_sizes m w :
  inputs m = no_vectors -> outputs m = no_vectors ->
  exists s m' made,
    initialize nrtd_address nn_id input_tensor_sizes output_tensor_sizes m w
    = (Val s, m', extend w made)
    /\ holds m' w made
    /\ (is_Some (stub_ m') \/ (inputs m' = no_vectors /\ outputs m' = no_vectors))
    /\ enabled_ m' = (if ok s then true else enabled_ m)
    /\ (s = OK ->
          stub_ m' = Some nrtd_address
          /\ input_sizes_ m' = input_tensor_sizes
          /\ output_sizes_ m' = output_tensor_sizes
          /\ input_grpc_names_ m' = input_names_ m'
          /\ output_grpc_names_ m' = output_names_ m'
          /\ length (input_names_ m') = length input_tensor_sizes
          /\ length (output_names_ m') = length output_tensor_sizes
          /\ length (input_ptrs_ m') = length input_tensor_sizes
          /\ length (output_ptrs_ m') = length output_tensor_sizes).
Proof.
  intros Hin Hout. unfold initialize. rewrite fn_first.
  destruct (init_stub_run set_stub_ nrtd_address m w)
    as (s0 & m0 & made0 & Hrun0 & Hconn & Hs0).
  rewrite Hrun0.
  assert (Hnone : opened w made0 = [] /\ mapped w made0 = []
                  /\ mapped_sizes w made0 = [] /\ registered w made0 = []).
  { unfold opened, mapped, mapped_sizes, registered.
    by rewrite !(connecting_records_nothing _ _ _ _ (fun _ _ => eq_refl) (fun _ => eq_refl) Hconn). }
  destruct Hnone as (Ho0 & Hp0 & Hz0 & Hg0).
  destruct Hs0 as [[-> ->] | [Hs0 Hm0]].
  2:{ rewrite Hs0. exists s0, m0, made0. split; [done|].
      assert (Hin0 : inputs m0 = no_vectors) by (by destruct Hm0 as [-> | ->]).
      assert (Hout0 : outputs m0 = no_vectors) by (by destruct Hm0 as [-> | ->]).
      split.
      { unfold holds. rewrite Ho0, Hp0, Hz0, Hg0.
        injection Hin0 as -> -> -> ->. injection Hout0 as -> -> -> ->. by repeat split. }
      split; [by right|].
      split; [rewrite Hs0; by destruct Hm0 as [-> | ->]|].
      intros ->. done. }
  cbn [ok]. erewrite fn_bind_val; [|reflexivity]. rewrite fn_first.
  unfold zoom at 1. cbn [stub_ set_stub_].
  change (inputs (set_stub_ (Some nrtd_address) m)) with (inputs m). rewrite Hin.
  destruct (init_vectors_run nrtd_address input_tensor_sizes nn_id no_vectors (extend w made0))
    as (s1 & v1 & made1 & Hrun1 & Hgrown1 & _ & Hprefix1 & Hlen1 & Hlen1' & Hmost1 & Hsizes1
        & Hok1).
  unfold Stub in Hrun1. rewrite Hrun1, extend_extend.
  apply grown_from_nothing in Hgrown1. destruct Hgrown1 as (Hn1 & Hp1 & Hz1 & Hg1).
  pose proof (mapped_sizes_length (extend w made0) made1) as Hml1.
  destruct (ok s1) eqn:Hs1.
  2:{ exists s1, (set_inputs v1 (set_stub_ (Some nrtd_address) m)), (made0 ++ made1).
      split; [done|]. split.
      { unfold holds. rewrite opened_app, mapped_app, mapped_sizes_app, registered_app.
        rewrite Ho0, Hp0, Hz0, Hg0. cbn [app].
        injection Hout as Hon Hop Hoz Hog. simpl. rewrite Hon, Hop, Hoz, Hog, !app_nil_r.
        repeat split; auto. by rewrite Hp1, Hz1, Hml1. }
      split; [left; by eexists|]. split; [by rewrite Hs1|].
      intros ->. done. }
  rewrite fn_first. unfold zoom at 1.
  change (outputs (set_inputs v1 (set_stub_ (Some nrtd_address) m))) with (outputs m).
  rewrite Hout.
  destruct (init_vectors_run nrtd_address output_tensor_sizes nn_id no_vectors
              (extend w (made0 ++ made1)))
    as (s2 & v2 & made2 & Hrun2 & Hgrown2 & _ & Hprefix2 & Hlen2 & Hlen2' & Hmost2 & Hsizes2
        & Hok2).
  unfold Stub in Hrun2. rewrite Hrun2, extend_extend.
  apply grown_from_nothing in Hgrown2. destruct Hgrown2 as (Hn2 & Hp2 & Hz2 & Hg2).
  pose proof (mapped_sizes_length (extend w (made0 ++ made1)) made2) as Hml2.
  assert (Hholds : forall b, holds (set_enabled_ b (set_outputs v2
                     (set_inputs v1 (set_stub_ (Some nrtd_address) m))))
                     w ((made0 ++ made1) ++ made2)).
  { intros b. unfold holds.
    rewrite !opened_app, !mapped_app, !mapped_sizes_app, !registered_app.
    rewrite Ho0, Hp0, Hz0, Hg0. cbn [app]. simpl.
    rewrite Hn1, Hp1, Hz1, Hg1, Hn2, Hp2, Hz2, Hg2. repeat split; auto. }
  destruct (ok s2) eqn:Hs2.
  2:{ exists s2, (set_outputs v2 (set_inputs v1 (set_stub_ (Some nrtd_address) m))),
        ((made0 ++ made1) ++ made2).
      split; [done|]. split; [exact (Hholds (enabled_ m))|].
      split; [left; by eexists|]. split; [by rewrite Hs2|].
      intros ->. done. }
  exists OK, (set_enabled_ true (set_outputs v2
               (set_inputs v1 (set_stub_ (Some nrtd_address) m)))),
    ((made0 ++ made1) ++ made2).
  split; [done|]. split; [exact (Hholds true)|].
  split; [left; by eexists|]. split; [done|].
  intros _.
  assert (s1 = OK) as Hs1' by (by destruct s1).
  assert (s2 = OK) as Hs2' by (by destruct s2).
  apply Hok1 in Hs1'. apply Hok2 in Hs2'.
  assert (Hfull : forall (a b : list string), a `prefix_of` b ->
            (length b <= length a)%nat -> a = b).
  { intros a b [k ->] Hle. rewrite length_app in Hle.
    destruct k; [by rewrite app_nil_r | simpl in Hle; lia]. }
  assert (Hall1 : length (mapped (extend w made0) made1) = length input_tensor_sizes) by lia.
  assert (Hall2 : length (mapped (extend w (made0 ++ made1)) made2)
                  = length output_tensor_sizes) by lia.
  simpl. rewrite Hn1, Hp1, Hz1, Hg1, Hn2, Hp2, Hz2, Hg2.
  split; [done|].
  split; [by rewrite Hsizes1, Hall1, firstn_all|].
  split; [by rewrite Hsizes2, Hall2, firstn_all|].
  split; [apply Hfull; [done | rewrite Hs1' in *];
          pose proof (prefix_length _ _ Hprefix1); lia|].
  split; [apply Hfull; [done | rewrite Hs2' in *];
          pose proof (prefix_length _ _ Hprefix2); lia|].
  pose proof (prefix_length _ _ Hprefix1). pose proof (prefix_length _ _ Hprefix2).
  repeat split; lia.
Qed.

(** X11.  [initialize] on a manager whose vectors are empty always returns.
    After it, successful or not, the vectors of the inputs followed by those
    of the outputs hold what its calls left: the names of the objects opened,
    the addresses mapped, the paths registered; and every address is recorded
    with a size.  [enabled_] is set when the result is OK and is left as it
    was otherwise.  When the result is OK the stub is the one of the given
    address, each direction has one object for each of its tensor sizes, of
    that size, and every object is registered under its name. *)
Theorem initialize_records nrtd_address nn_id input_tensor_sizes output_tensor_sizes m w :
  inputs m = no_vectors -> outputs m = no_vectors ->
  exists s m' made,
    initialize nrtd_address nn_id input_tensor_sizes output_tensor_sizes m w
    = (Val s, m', extend w made)
    /\ input_names_ m' ++ output_names_ m' = opened w made
    /\ input_ptrs_ m' ++ output_ptrs_ m' = mapped w made
    /\ input_grpc_names_ m' ++ output_grpc_names_ m' = registered w made
    /\ length (input_ptrs_ m') = length (input_sizes_ m')
    /\ length (output_ptrs_ m') = length (output_sizes_ m')
    /\ enabled_ m' = (if ok s then true else enabled_ m)
    /\ (s = OK ->
          stub_ m' = Some nrtd_address
          /\ input_sizes_ m' = input_tensor_sizes
          /\ output_sizes_ m' = output_tensor_sizes
          /\ input_grpc_names_ m' = input_names_ m'
          /\ output_grpc_names_ m' = output_names_ m'
          /\ length (input_names_ m') = length input_tensor_sizes
          /\ length (output_names_ m') = length output_tensor_sizes
          /\ length (input_ptrs_ m') = length input_tensor_sizes
          /\ length (output_ptrs_ m') = length output_tensor_sizes).
Proof.
  intros Hin Hout.
  destruct (initialize_run nrtd_address nn_id input_tensor_sizes output_tensor_sizes m w
              Hin Hout)
    as (s & m' & made & Hrun & (Hn & Hp & _ & Hg & Hli & Hlo) & _ & Henabled & Hok).
  exists s, m', made. by do 7 (split; [done|]).
Qed.

(** *** initialize, then the destructor *)

(** What the steps of a teardown release: the paths whose registration is
    withdrawn, the regions unmapped, the names removed. *)
Definition withdrawn (steps : list call) : list string :=
  omap (fun c => match c with shm_unmap path _ => Some path | _ => None end) steps.

Definition unmapped (steps : list call) : list (Z * Z) :=
  omap (fun c => match c with munmap ptr size => Some (ptr, size) | _ => None end) steps.

Definition removed (steps : list call) : list string :=
  omap (fun c => match c with shm_unlink name => Some name | _ => None end) steps.

(** The calls of the destructor. *)
Definition is_releasing (c : call) : Prop :=
  match c with shm_unmap _ _ | munmap _ _ | shm_unlink _ => True | _ => False end.

Lemma omap_map_all {A B C} (f : B -> option C) (g : A -> B) (h : A -> C) l :
  (forall x, f (g x) = Some (h x)) -> omap f (map g l) = map h l.
Proof.
  intros H. induction l as [|x l IH]; simpl; [done|].
  rewrite H. simpl. f_equal. exact IH.
Qed.

Lemma omap_map_none {A B C} (f : B -> option C) (g : A -> B) l :
  (forall x, f (g x) = None) -> omap f (map g l) = [].
Proof. intros H. induction l as [|x l IH]; simpl; [done|]. rewrite H. exact IH. Qed.

Lemma omap_munmap_none {C} (f : call -> option C) ptrs sizes :
  (forall ptr size, f (munmap ptr size) = None) -> omap f (zip_with munmap ptrs sizes) = [].
Proof.
  intros H. revert sizes. induction ptrs as [|p ptrs IH]; intros [|z sizes]; simpl; try done.
  rewrite H. apply IH.
Qed.

Lemma unmapped_munmap ptrs sizes : unmapped (zip_with munmap ptrs sizes) = zip ptrs sizes.
Proof.
  unfold unmapped. revert sizes.
  induction ptrs as [|p ptrs IH]; intros [|z sizes]; simpl; try done.
  f_equal. apply IH.
Qed.

Lemma direction_released v :
  withdrawn (direction_steps v) = grpc_names v
  /\ unmapped (direction_steps v) = zip (ptrs v) (sizes v)
  /\ removed (direction_steps v) = names v
  /\ Forall is_releasing (direction_steps v).
Proof.
  unfold direction_steps, withdrawn, removed.
  split; [|split; [|split]].
  - rewrite !omap_app, (omap_map_all _ _ id), map_id by done.
    rewrite omap_munmap_none, omap_map_none by done. by rewrite !app_nil_r.
  - unfold unmapped. rewrite !omap_app, !omap_map_none by done.
    fold (unmapped (zip_with munmap (ptrs v) (sizes v))).
    by rewrite unmapped_munmap, app_nil_r.
  - rewrite !omap_app, (omap_map_all _ shm_unlink id), map_id by done.
    rewrite omap_munmap_none, omap_map_none by done. done.
  - rewrite !Forall_app. split; [|split].
    + apply Forall_forall. intros c Hc. apply list_elem_of_fmap in Hc as (x & -> & _). done.
    + generalize (sizes v). induction (ptrs v) as [|p l IH]; intros [|z l']; simpl;
        try constructor; auto. done.
    + apply Forall_forall. intros c Hc. apply list_elem_of_fmap in Hc as (x & -> & _). done.
Qed.

(** The destructor of a manager without buffers does nothing, with or
    without a stub. *)
Lemma destructor_nothing m w :
  inputs m = no_vectors -> outputs m = no_vectors ->
  destructor m w = (Val tt, torn_down m, w).
Proof.
  destruct m. unfold inputs, outputs, no_vectors. simpl.
  intros Hin Hout. injection Hin as -> -> -> ->. injection Hout as -> -> -> ->.
  reflexivity.
Qed.

(** X12.  After [initialize] on a manager whose vectors are empty, successful
    or not, the destructor runs to its end, whatever its calls answer, and
    releases what [initialize] acquired, each thing once and in the order it
    was acquired: it withdraws the registrations the daemon accepted, unmaps
    the addresses that were mapped, each with the size it was mapped with,
    and removes the names that were opened.  It makes no other call, and it
    leaves no name, address or registered path in the manager. *)
Theorem destructor_releases_acquired
    nrtd_address nn_id input_tensor_sizes output_tensor_sizes m w :
  inputs m = no_vectors -> outputs m = no_vectors ->
  exists s m' acquired m'' released lines,
    initialize nrtd_address nn_id input_tensor_sizes output_tensor_sizes m w
    = (Val s, m', extend w acquired)
    /\ destructor m' (extend w acquired)
       = (Val tt, m'', advance (extend w acquired) released lines)
    /\ Forall is_releasing released
    /\ withdrawn released = registered w acquired
    /\ unmapped released = zip (mapped w acquired) (mapped_sizes w acquired)
    /\ removed released = opened w acquired
    /\ (input_names_ m'', input_ptrs_ m'', input_grpc_names_ m'') = ([], [], [])
    /\ (output_names_ m'', output_ptrs_ m'', output_grpc_names_ m'') = ([], [], []).
Proof.
  intros Hin Hout.
  destruct (initialize_run nrtd_address nn_id input_tensor_sizes output_tensor_sizes m w
              Hin Hout)
    as (s & m' & acquired & Hrun & (Hn & Hp & Hz & Hg & Hli & Hlo) & Hstub & _).
  destruct (direction_released (inputs m')) as (Hwi & Hui & Hri & Hfi).
  destruct (direction_released (outputs m')) as (Hwo & Huo & Hro & Hfo).
  destruct Hstub as [Hstub | [Hin' Hout']].
  - exists s, m', acquired, (torn_down m'), (teardown_steps m'),
      (failure_lines (oracle (extend w acquired)) (calls (extend w acquired))
         (teardown_steps m')).
    split; [done|].
    split; [apply destructor_steps; [done | lia | lia]|].
    unfold teardown_steps, withdrawn, unmapped, removed. rewrite !omap_app.
    fold (withdrawn (direction_steps (inputs m'))) (withdrawn (direction_steps (outputs m')))
      (unmapped (direction_steps (inputs m'))) (unmapped (direction_steps (outputs m')))
      (removed (direction_steps (inputs m'))) (removed (direction_steps (outputs m'))).
    rewrite Hwi, Hwo, Hui, Huo, Hri, Hro. simpl.
    split; [by apply Forall_app|].
    split; [done|].
    split; [by rewrite <- Hp, <- Hz, zip_with_app|].
    by repeat split.
  - exists s, m', acquired, (torn_down m'), [], [].
    split; [done|].
    split; [by rewrite advance_nil, destructor_nothing|].
    rewrite <- Hn, <- Hp, <- Hz, <- Hg.
    injection Hin' as -> -> -> ->. injection Hout' as -> -> -> ->.
    by repeat split.
Qed.

End Methods.

(** A manager with one input buffer and one output buffer, and a world in
    which every call succeeds. *)
Definition one_in_one_out : SharedMemoryManager :=
  {| enabled_ := true; stub_ := Some "unix:/run/neuron.sock";
     input_names_ := ["/in"]; input_ptrs_ := [4096];
     input_sizes_ := [8]; input_grpc_names_ := ["/in"];
     output_names_ := ["/out"]; output_ptrs_ := [8192];
     output_sizes_ := [16]; output_grpc_names_ := ["/out"] |}.

Definition all_succeed : World := fresh_world (fun _ _ => plain_reply 0 0).

(** The run on it: the three steps of the input, then the three steps of the
    output. *)
Example destructor_one_in_one_out :
  calls (destructor 0 one_in_one_out all_succeed).2
  = [shm_unmap "/in" 3; munmap 4096 8; shm_unlink "/in";
     shm_unmap "/out" 3; munmap 8192 16; shm_unlink "/out"].
Proof. reflexivity. Qed.

(** The calls of the teardown are not the three phases over both directions
    with the outputs first. *)
Lemma teardown_not_as_specified :
  calls (destructor 0 one_in_one_out all_succeed).2
  <> calls all_succeed ++ teardown_steps_as_specified one_in_one_out.
Proof. vm_compute. discriminate. Qed.

Lemma teardown_order_witness :
  destructor 0 one_in_one_out all_succeed
  = (Val tt, torn_down one_in_one_out,
     advance all_succeed (teardown_steps one_in_one_out)
       (failure_lines 0 (oracle all_succeed) (calls all_succeed)
          (teardown_steps one_in_one_out))).
Proof.
  apply (teardown_order 0 one_in_one_out all_succeed).
  - by eexists.
  - simpl. lia.
  - simpl. lia.
Defined.

(** A manager just constructed, and worlds in which the channel and the stub
    are made, every attempt at a unique name succeeds with a name that tells
    how many calls were made before it, [shm_open] returns descriptor 3 and
    [ftruncate] succeeds: in [serves] every [mmap] returns a page of its own
    and the daemon accepts every registration; in [refuses_outputs] the
    daemon accepts the first registration only; in [maps_nothing] every
    [mmap] fails with [MAP_FAILED]. *)
Definition blank : SharedMemoryManager :=
  {| enabled_ := false; stub_ := None;
     input_names_ := []; input_ptrs_ := []; input_sizes_ := []; input_grpc_names_ := [];
     output_names_ := []; output_ptrs_ := []; output_sizes_ := [];
     output_grpc_names_ := [] |}.

Definition int_reply (z : Z) : reply :=
  {| r_ok := true; r_int := z; r_str := ""; r_bytes := [];
     grpc_code := 0; status_code_ := 0;
     r_h_eg := 0; r_nc_count := 0; r_h_nn := 0; r_cookie := 0; r_ofmap := [] |}.

Definition name_reply (name : string) : reply :=
  {| r_ok := true; r_int := 0; r_str := name; r_bytes := [];
     grpc_code := 0; status_code_ := 0;
     r_h_eg := 0; r_nc_count := 0; r_h_nn := 0; r_cookie := 0; r_ofmap := [] |}.

(** Whether a run returned, and returned OK. *)
Definition ok_status (r : Res Status) : bool :=
  match r with Val s => ok s | _ => false end.

Definition system (map_result : nat -> Z) (accepted : nat -> bool) : World :=
  fresh_world (fun history c =>
    match c with
    | CreateUniqueFileName prefix =>
        name_reply (prefix +:+ "-" +:+ to_string (Z.of_nat (length history)))
    | shm_open _ => int_reply 3
    | mmap _ _ => int_reply (map_result (length history))
    | shm_map _ _ => if accepted (length history) then plain_reply 0 0 else plain_reply 2 0
    | _ => plain_reply 0 0
    end).

Definition serves : World :=
  system (fun made => 4096 * Z.of_nat made) (fun _ => true).

Definition refuses_outputs : World :=
  system (fun made => 4096 * Z.of_nat made) (fun made => (made <? 7)%nat).

Definition maps_nothing : World := system (fun _ => MAP_FAILED) (fun _ => true).

(** [initialize] for one input of 8 bytes and one output of 16 bytes. *)
Example initialize_8_16 :
  (initialize 0 "unix:/run/neuron.sock" 7 [8] [16] blank serves).1
  = (Val OK,
     {| enabled_ := true; stub_ := Some "unix:/run/neuron.sock";
        input_names_ := ["/neuron_clib_7-2"]; input_ptrs_ := [20480];
        input_sizes_ := [8]; input_grpc_names_ := ["/neuron_clib_7-2"];
        output_names_ := ["/neuron_clib_7-7"]; output_ptrs_ := [40960];
        output_sizes_ := [16]; output_grpc_names_ := ["/neuron_clib_7-7"] |})
  /\ calls (initialize 0 "unix:/run/neuron.sock" 7 [8] [16] blank serves).2
     = [CreateCustomChannel "unix:/run/neuron.sock"; NewStub;
        CreateUniqueFileName "/neuron_clib_7"; shm_open "/neuron_clib_7-2";
        ftruncate 3 8; mmap 8 3; shm_map "/neuron_clib_7-2" 3;
        CreateUniqueFileName "/neuron_clib_7"; shm_open "/neuron_clib_7-7";
        ftruncate 3 16; mmap 16 3; shm_map "/neuron_clib_7-7" 3].
Proof. vm_compute. by split. Qed.

(** An [mmap] that fails returns [MAP_FAILED], which is not null: the
    failure is not noticed, and the address is taken for a buffer. *)
Example initialize_takes_MAP_FAILED :
  (initialize 0 "unix:/run/neuron.sock" 7 [8] [16] blank maps_nothing).1.1 = Val OK
  /\ input_ptrs_ (initialize 0 "unix:/run/neuron.sock" 7 [8] [16] blank maps_nothing).1.2
     = [MAP_FAILED]
  /\ output_ptrs_ (initialize 0 "unix:/run/neuron.sock" 7 [8] [16] blank maps_nothing).1.2
     = [MAP_FAILED].
Proof. vm_compute. by repeat split. Qed.

(** When the daemon refuses the registration of the output, [initialize]
    fails with the output opened and mapped, and the destructor releases
    both objects. *)
Example destructor_after_failure :
  let r := initialize 0 "unix:/run/neuron.sock" 7 [8] [16] blank refuses_outputs in
  (exists msg, r.1.1 = Val (Error INTERNAL msg))
  /\ enabled_ r.1.2 = false
  /\ drop (length (calls r.2)) (calls (destructor 0 r.1.2 r.2).2)
     = [shm_unmap "/neuron_clib_7-2" 3; munmap 20480 8; shm_unlink "/neuron_clib_7-2";
        munmap 40960 16; shm_unlink "/neuron_clib_7-7"].
Proof. vm_compute. split; [by eexists | by split]. Qed.

Lemma initialize_records_witness :
  exists m',
    (initialize 0 "unix:/run/neuron.sock" 7 [8] [16] blank serves).1 = (Val OK, m')
    /\ enabled_ m' = true
    /\ input_grpc_names_ m' = input_names_ m'
    /\ output_grpc_names_ m' = output_names_ m'
    /\ input_sizes_ m' = [8] /\ output_sizes_ m' = [16].
Proof.
  destruct (initialize_records 0 "unix:/run/neuron.sock" 7 [8] [16] blank serves)
    as (s & m' & made & Hrun & _ & _ & _ & _ & _ & Henabled & Hok);
    [reflexivity | reflexivity |].
  assert (Hs : s = OK).
  { assert (Hc : (initialize 0 "unix:/run/neuron.sock" 7 [8] [16] blank serves).1.1 = Val OK)
      by (vm_compute; reflexivity).
    rewrite Hrun in Hc. simpl in Hc. by injection Hc. }
  subst s. destruct (Hok eq_refl) as (_ & Hi & Ho & Hgi & Hgo & _).
  exists m'. rewrite Hrun. by repeat split.
Defined.

Lemma destructor_releases_acquired_witness :
  exists s m' w' m'' released lines,
    initialize 0 "unix:/run/neuron.sock" 7 [8] [16] blank refuses_outputs = (Val s, m', w')
    /\ ok s = false
    /\ destructor 0 m' w' = (Val tt, m'', advance w' released lines)
    /\ removed released = ["/neuron_clib_7-2"; "/neuron_clib_7-7"]
    /\ unmapped released = [(20480, 8); (40960, 16)]
    /\ withdrawn released = ["/neuron_clib_7-2"].
Proof.
  destruct (destructor_releases_acquired 0 "unix:/run/neuron.sock" 7 [8] [16] blank
              refuses_outputs)
    as (s & m' & acquired & m'' & released & lines & Hrun & Hdestroy & _ & Hw & Hu & Hr & _);
    [reflexivity | reflexivity |].
  assert (Hok : ok_status (initialize 0 "unix:/run/neuron.sock" 7 [8] [16] blank
                             refuses_outputs).1.1 = false)
    by (vm_compute; reflexivity).
  assert (Hacq : calls (initialize 0 "unix:/run/neuron.sock" 7 [8] [16] blank
                          refuses_outputs).2
                 = [CreateCustomChannel "unix:/run/neuron.sock"; NewStub;
                    CreateUniqueFileName "/neuron_clib_7"; shm_open "/neuron_clib_7-2";
                    ftruncate 3 8; mmap 8 3; shm_map "/neuron_clib_7-2" 3;
                    CreateUniqueFileName "/neuron_clib_7"; shm_open "/neuron_clib_7-7";
                    ftruncate 3 16; mmap 16 3; shm_map "/neuron_clib_7-7" 3])
    by (vm_compute; reflexivity).
  rewrite Hrun in Hok, Hacq. simpl in Hok, Hacq. subst acquired.
  exists s, m', (extend refuses_outputs
                   [CreateCustomChannel "unix:/run/neuron.sock"; NewStub;
                    CreateUniqueFileName "/neuron_clib_7"; shm_open "/neuron_clib_7-2";
                    ftruncate 3 8; mmap 8 3; shm_map "/neuron_clib_7-2" 3;
                    CreateUniqueFileName "/neuron_clib_7"; shm_open "/neuron_clib_7-7";
                    ftruncate 3 16; mmap 16 3; shm_map "/neuron_clib_7-7" 3]),
    m'', released, lines.
  split; [done|]. split; [done|]. split; [done|].
  rewrite Hr, Hu, Hw. vm_compute. by repeat split.
Defined.

End SharedMemoryManager.

(** ** RuntimeGRPC *)
Module RuntimeGRPC.
Import Nrt.

Record RuntimeGRPC : Type := {
  nrtd_address_ : string;
  stub_ : option Stub
}.

Definition set_nrtd_address_ (a : string) (r : RuntimeGRPC) : RuntimeGRPC :=
  {| nrtd_address_ := a; stub_ := stub_ r |}.
Definition set_stub_ (stub : option Stub) (r : RuntimeGRPC) : RuntimeGRPC :=
  {| nrtd_address_ := nrtd_address_ r; stub_ := stub |}.

(** The fields of the class [SharedMemory] that [infer] reads, and the sizes
    of the mappings that [input_ptrs_] point to; the class is declared in a
    header that is not part of the sources. *)
Record SharedMemory : Type := {
  enabled_ : bool;
  input_paths_ : list string;
  input_ptrs_ : list Z;
  input_sizes_ : list Z;
  output_paths_ : list string;
  output_ptrs_ : list Z;
  output_sizes_ : list Z
}.

Section Methods.
(** Constants of [runtime_grpc.h] and [nerr.pb.h], which are not part of the
    sources; what follows holds whatever their values. *)
Variable NERR_OK : Z.
Variable NERR_INFER_COMPLETED_WITH_NUM_ERR : Z.
Variable EXEC_MAX_CHUNK_SIZE : Z.
Context {Tensor : Type}.
Variable tensor_data : Tensor -> list byte.
Variable tensor_memcpy : Tensor -> list byte -> Status * Tensor.

Definition initialize (nrtd_address : string) : M RuntimeGRPC Status :=
  fn (
    modify (set_nrtd_address_ nrtd_address);;
    channel ← perform (CreateCustomChannel nrtd_address);
    (if negb (r_ok channel)
     then return_ (Error UNAVAILABLE "cannot establish grpc channel to neuron-rtd server")
     else ret tt);;
    stub ← perform NewStub;
    modify (set_stub_ (if r_ok stub then Some nrtd_address else None));;
    (if negb (r_ok stub)
     then return_ (Error UNAVAILABLE "cannot create stub")
     else ret tt);;
    ret OK).

Definition unavailable_message (nrtd_address_ : string) : string :=
  let message := " is unavailable. Is neuron-rtd running?" in
  let unix_prefix := "unix:" in
  let start := String.index 0 unix_prefix nrtd_address_ in
  let message :=
    if bool_decide (start = Some 0%nat)
    then message +:+ " Is socket "
           +:+ String.substring (String.length unix_prefix)
                 (String.length nrtd_address_ - String.length unix_prefix) nrtd_address_
           +:+ " writable?"
    else message in
  "grpc server " +:+ nrtd_address_ +:+ message.

(** The output parameters are [*eg_id] and [*num_cores]. *)
Definition create_eg (num_cores_req : Z) : M RuntimeGRPC (Status * option (Z * Z)) :=
  fn_out (
    let request := if 0 <=? num_cores_req then Some num_cores_req else None in
    r ← get;
    response ← NRT_GRPC (stub_ r) (Nrt.create_eg request);
    (if negb (grpc_ok response) && (grpc_UNAVAILABLE =? grpc_code response)
     then return_ (Error UNAVAILABLE (unavailable_message (nrtd_address_ r)))
     else ret tt);;
    NRT_CHECK_RETURN NERR_OK "create_eg" response;;
    ret (r_h_eg response, r_nc_count response)).

Definition load (eg_id : Z) (executable : list byte) (timeout ninfer : Z)
    : M RuntimeGRPC (Status * option Z) :=
  fn_out (
    r ← get;
    response ← load_stream_body NERR_OK EXEC_MAX_CHUNK_SIZE (stub_ r) eg_id
                 executable timeout ninfer;
    ret (r_h_nn response)).

Definition start (nn_id : Z) : M RuntimeGRPC Status :=
  fn (
    r ← get;
    response ← NRT_GRPC (stub_ r) (Nrt.start nn_id);
    NRT_CHECK_RETURN NERR_OK "start" response;;
    ret OK).

Definition stop (nn_id : Z) : M RuntimeGRPC Status :=
  fn (
    r ← get;
    response ← NRT_GRPC (stub_ r) (Nrt.stop nn_id);
    NRT_CHECK_RETURN NERR_OK "stop" response;;
    ret OK).

Definition unload (nn_id : Z) : M RuntimeGRPC Status :=
  fn (
    r ← get;
    response ← NRT_GRPC (stub_ r) (Nrt.unload nn_id);
    NRT_CHECK_RETURN NERR_OK "unload" response;;
    ret OK).

Definition destroy_eg (eg_id : Z) : M RuntimeGRPC Status :=
  fn (
    r ← get;
    response ← NRT_GRPC (stub_ r) (Nrt.destroy_eg eg_id);
    NRT_CHECK_RETURN NERR_OK "destroy_eg" response;;
    ret OK).

Definition shm_map (path : string) (mmap_prot : Z) : M RuntimeGRPC Status :=
  fn (
    r ← get;
    response ← NRT_GRPC (stub_ r) (Nrt.shm_map path mmap_prot);
    NRT_CHECK_RETURN NERR_OK "shm_map" response;;
    ret OK).

Definition shm_unmap (path : string) (mmap_prot : Z) : M RuntimeGRPC Status :=
  fn (
    r ← get;
    response ← NRT_GRPC (stub_ r) (Nrt.shm_unmap path mmap_prot);
    NRT_CHECK_RETURN NERR_OK "shm_unmap" response;;
    ret OK).

(** The state of [infer] and [infer_wait] is the client and the tensors that
    [output_tensors] points to; [output_tensors_given] and [timestamps_given]
    say that the pointers are not null. *)
Definition on_outputs {A} (m : M (list Tensor) A) : M (RuntimeGRPC * list Tensor) A :=
  zoom (fun st => Some (snd st)) (fun ts st => (fst st, ts)) m.

Definition infer_build_request (nn_id : Z) (input_names output_names : list string)
    (input_tensors : list Tensor) (shm : SharedMemory)
    : M (RuntimeGRPC * list Tensor) infer_request :=
  ifmap ← add_ifmap tensor_data (enabled_ shm) (input_paths_ shm) (input_ptrs_ shm)
            (input_sizes_ shm) input_names input_tensors;
  shm_ofmap ←
    (if enabled_ shm
     then add_shm_ofmap (output_paths_ shm) output_names
     else ret []);
  ret {| h_nn := nn_id; ifmap := ifmap; shm_ofmap := shm_ofmap |}.

Definition infer_deliver (output_tensors_given : bool) (output_names : list string)
    (shm : SharedMemory) (response : reply) : M (RuntimeGRPC * list Tensor) Status :=
  response ←
    (if enabled_ shm
     then add_response_ofmap (output_ptrs_ shm) (output_sizes_ shm) output_names response
     else ret response);
  (if output_tensors_given
   then TF_RETURN_IF_ERROR
          (on_outputs (copy_output_tensors tensor_memcpy response output_names))
   else ret tt);;
  ret OK.

Definition infer_response (output_tensors_given : bool) (output_names : list string)
    (shm : SharedMemory) (response : reply) : M (RuntimeGRPC * list Tensor) Status :=
  (* ignore inf/nan errors *)
  let response := ignore_num_err NERR_OK NERR_INFER_COMPLETED_WITH_NUM_ERR response in
  NRT_CHECK_RETURN NERR_OK "infer" response;;
  infer_deliver output_tensors_given output_names shm response.

Definition infer_call (output_tensors_given timestamps_given : bool)
    (request : infer_request) (output_names : list string) (shm : SharedMemory)
    : M (RuntimeGRPC * list Tensor) Status :=
  (* infer *)
  (if timestamps_given then mark timestamps_given mark_above_nrtd_infer else ret tt);;
  st ← get;
  response ← NRT_GRPC (stub_ (fst st)) (Nrt.infer request);
  (if timestamps_given then mark timestamps_given mark_below_nrtd_infer else ret tt);;
  infer_response output_tensors_given output_names shm response.

Definition infer (output_tensors_given timestamps_given : bool) (nn_id : Z)
    (input_names output_names : list string) (input_tensors : list Tensor)
    (shm : SharedMemory) : M (RuntimeGRPC * list Tensor) Status :=
  fn (
    request ← infer_build_request nn_id input_names output_names input_tensors shm;
    infer_call output_tensors_given timestamps_given request output_names shm).

(** The output parameter is [nmgr_outputs->cookie]. *)
Definition infer_post (timestamps_given : bool) (nn_id : Z) (input_names : list string)
    (input_tensors : list Tensor) : M RuntimeGRPC (Status * option Z) :=
  fn_out (
    ifmap ← add_ifmap_inline tensor_data input_names input_tensors;
    let request := {| h_nn := nn_id; ifmap := ifmap; shm_ofmap := [] |} in
    (* infer *)
    (if timestamps_given then mark timestamps_given mark_above_nrtd_infer else ret tt);;
    r ← get;
    response ← NRT_GRPC (stub_ r) (Nrt.infer_post request);
    NRT_CHECK_RETURN NERR_OK "infer_post" response;;
    ret (r_cookie response)).

Definition infer_wait_deliver (output_names : list string) (response : reply)
    : M (RuntimeGRPC * list Tensor) Status :=
  TF_RETURN_IF_ERROR
    (on_outputs (copy_output_tensors tensor_memcpy response output_names));;
  ret OK.

Definition infer_wait_response (output_names : list string) (response : reply)
    : M (RuntimeGRPC * list Tensor) Status :=
  (* ignore inf/nan errors *)
  let response := ignore_num_err NERR_OK NERR_INFER_COMPLETED_WITH_NUM_ERR response in
  NRT_CHECK_RETURN NERR_OK "infer_wait" response;;
  infer_wait_deliver output_names response.

Definition infer_wait (timestamps_given : bool) (cookie : Z) (output_names : list string)
    : M (RuntimeGRPC * list Tensor) Status :=
  fn (
    (* infer_wait *)
    st ← get;
    response ← NRT_GRPC (stub_ (fst st)) (Nrt.infer_wait cookie);
    (if timestamps_given then mark timestamps_given mark_below_nrtd_infer else ret tt);;
    infer_wait_response output_names response).

End Methods.

End RuntimeGRPC.

(** ** NeuronExecutableInfo *)
Module ExecutableInfo.
Import Nrt.

(** The protobuf messages, with the fields the code reads or writes.  A
    [TensorProto] has a data type, the sizes of its dimensions, its
    [int64_val] and what else it carries; an [AttrValue] holds one of its
    alternatives, and the accessor of another alternative yields that
    alternative's default. *)
Record TensorProto (DataType : Type) : Type := {
  tp_dtype : DataType;
  tp_dim : list Z;
  int64_val : list Z;
  tp_content : list byte
}.
Arguments tp_dtype {DataType} _.
Arguments tp_dim {DataType} _.
Arguments int64_val {DataType} _.
Arguments tp_content {DataType} _.

Record ListValue (DataType Shape : Type) : Type := {
  lv_s : list string;
  lv_i : list Z;
  lv_type : list DataType;
  lv_shape : list Shape;
  lv_tensor : list (TensorProto DataType)
}.
Arguments lv_s {DataType Shape} _.
Arguments lv_i {DataType Shape} _.
Arguments lv_type {DataType Shape} _.
Arguments lv_shape {DataType Shape} _.
Arguments lv_tensor {DataType Shape} _.

Inductive AttrValue (DataType Shape : Type) : Type :=
  | Attr_s (v : string)
  | Attr_i (v : Z)
  | Attr_list (v : ListValue DataType Shape)
  | Attr_other.
Arguments Attr_s {DataType Shape} _.
Arguments Attr_i {DataType Shape} _.
Arguments Attr_list {DataType Shape} _.
Arguments Attr_other {DataType Shape}.

Record NodeDef (DataType Shape : Type) : Type := {
  nd_name : string;
  nd_attr : gmap string (AttrValue DataType Shape)
}.
Arguments nd_name {DataType Shape} _.
Arguments nd_attr {DataType Shape} _.

Record NeuronExecutableInfo (DataType Shape : Type) : Type := {
  name : string;
  executable : string;
  serialized_graph_def : string;
  input_names : ListValue DataType Shape;
  input_dtypes : ListValue DataType Shape;
  input_shapes : ListValue DataType Shape;
  input_batch_axis : ListValue DataType Shape;
  output_names : ListValue DataType Shape;
  output_dtypes : ListValue DataType Shape;
  output_shapes : ListValue DataType Shape;
  output_batch_axis : ListValue DataType Shape;
  input_shuffles : ListValue DataType Shape;
  auto_multicore_enabled : bool;
  requested_num_cores : Z;
  real_input_names : option (ListValue DataType Shape);
  real_input_locations : option (ListValue DataType Shape);
  optimal_num_cores : Z;
  max_num_duplicates : Z
}.
Arguments name {DataType Shape} _.
Arguments executable {DataType Shape} _.
Arguments serialized_graph_def {DataType Shape} _.
Arguments input_names {DataType Shape} _.
Arguments input_dtypes {DataType Shape} _.
Arguments input_shapes {DataType Shape} _.
Arguments input_batch_axis {DataType Shape} _.
Arguments output_names {DataType Shape} _.
Arguments output_dtypes {DataType Shape} _.
Arguments output_shapes {DataType Shape} _.
Arguments output_batch_axis {DataType Shape} _.
Arguments input_shuffles {DataType Shape} _.
Arguments auto_multicore_enabled {DataType Shape} _.
Arguments requested_num_cores {DataType Shape} _.
Arguments real_input_names {DataType Shape} _.
Arguments real_input_locations {DataType Shape} _.
Arguments optimal_num_cores {DataType Shape} _.
Arguments max_num_duplicates {DataType Shape} _.

(** The double quote character. *)
Definition quote : string :=
  String (Ascii.Ascii false true false false false true false false) EmptyString.

(** [(int32_t)x] for an [int64] [x]: the low 32 bits, as a signed number. *)
Definition to_int32 (x : Z) : Z := (x + 2 ^ 31) mod 2 ^ 32 - 2 ^ 31.

Definition MAX_NUM_CORES : Z := 1024.

(** [enum ModelConfigKey] *)
Definition kGlobalOptNumCores : nat := 0.
Definition kOptNumCores : nat := 1.
Definition kMaxNumDuplicates : nat := 2.
Definition kModelConfigKeyBound : nat := 3.

Section Methods.
Context {DataType Shape Tensor : Type}.

Abbreviation Info := (NeuronExecutableInfo DataType Shape).
Abbreviation Attr := (AttrValue DataType Shape).
Abbreviation Values := (ListValue DataType Shape).
Abbreviation Proto := (TensorProto DataType).

(** TensorFlow's: [DT_INT64], [Tensor::FromProto] ([None] when it answers
    false) and [Tensor::AsProtoField]. *)
Variable DT_INT64 : DataType.
Variable FromProto : Proto -> option Tensor.
Variable AsProtoField : Tensor -> Proto.

(** The keys of [node_def_keys.h], which is not part of the sources. *)
Variable kExecutable kGraphDef kModelConfig : string.
Variable kInputNames kInputDtypes kInputShapes kInputBatchAxis : string.
Variable kOutputNames kOutputDtypes kOutputShapes kOutputBatchAxis : string.
Variable kInputShuffles kAutoMulticore kRealInputNames kRealInputLocations : string.

Definition empty_list : Values :=
  {| lv_s := []; lv_i := []; lv_type := []; lv_shape := []; lv_tensor := [] |}.

(** [.s()], [.i()] and [.list()] of an [AttrValue]. *)
Definition s_of (a : Attr) : string := match a with Attr_s v => v | _ => EmptyString end.
Definition i_of (a : Attr) : Z := match a with Attr_i v => v | _ => 0 end.
Definition list_of (a : Attr) : Values := match a with Attr_list v => v | _ => empty_list end.

Definition set_tensors (tensors : list Proto) (l : Values) : Values :=
  {| lv_s := lv_s l; lv_i := lv_i l; lv_type := lv_type l; lv_shape := lv_shape l;
     lv_tensor := tensors |}.

(** [attr.at(key)]: a key that is not in the map ends the process. *)
Definition at_key {St} (node_def : NodeDef DataType Shape) (key : string) : M St Attr :=
  match nd_attr node_def !! key with
  | Some a => ret a
  | None => undefined
  end.

(** [attr.count(key)], as a truth value. *)
Definition has_key (node_def : NodeDef DataType Shape) (key : string) : bool :=
  bool_decide (is_Some (nd_attr node_def !! key)).

Definition key_not_found (node_def : NodeDef DataType Shape) (key : string) : Status :=
  Error INVALID_ARGUMENT
    ("Key " +:+ quote +:+ key +:+ quote +:+ " not found in attributes"
       +:+ " of NodeDef " +:+ quote +:+ nd_name node_def +:+ quote +:+ ".").

Definition NODE_DEF_CHECK_KEY {St} (node_def : NodeDef DataType Shape) (key : string)
    : M St unit :=
  if negb (has_key node_def key) then return_ (key_not_found node_def key) else ret tt.

Definition invalid_size (node_def : NodeDef DataType Shape) (attr_name : string) : Status :=
  Error INVALID_ARGUMENT
    ("Invalid size found in attributes " +:+ quote +:+ attr_name
       +:+ " of NodeDef " +:+ quote +:+ nd_name node_def +:+ quote +:+ ".").

Definition SIZE_CHECK {St} (node_def : NodeDef DataType Shape) (cond : bool)
    (attr_name : string) : M St unit :=
  if negb cond then return_ (invalid_size node_def attr_name) else ret tt.

Definition invalid_model_config (node_def : NodeDef DataType Shape) (cond : string)
    : Status :=
  Error INVALID_ARGUMENT
    ("Invalid model_config found on NodeDef " +:+ quote +:+ nd_name node_def
       +:+ quote +:+ ": `" +:+ cond +:+ "` is not true").

Definition MODEL_CONFIG_CHECK {St} (node_def : NodeDef DataType Shape) (cond : bool)
    (text : string) : M St unit :=
  if negb cond then return_ (invalid_model_config node_def text) else ret tt.

Definition set_optimal_num_cores (v : Z) (info : Info) : Info :=
  {| name := name info; executable := executable info;
     serialized_graph_def := serialized_graph_def info;
     input_names := input_names info; input_dtypes := input_dtypes info;
     input_shapes := input_shapes info; input_batch_axis := input_batch_axis info;
     output_names := output_names info; output_dtypes := output_dtypes info;
     output_shapes := output_shapes info; output_batch_axis := output_batch_axis info;
     input_shuffles := input_shuffles info;
     auto_multicore_enabled := auto_multicore_enabled info;
     requested_num_cores := requested_num_cores info;
     real_input_names := real_input_names info;
     real_input_locations := real_input_locations info;
     optimal_num_cores := v; max_num_duplicates := max_num_duplicates info |}.

Definition set_max_num_duplicates (v : Z) (info : Info) : Info :=
  {| name := name info; executable := executable info;
     serialized_graph_def := serialized_graph_def info;
     input_names := input_names info; input_dtypes := input_dtypes info;
     input_shapes := input_shapes info; input_batch_axis := input_batch_axis info;
     output_names := output_names info; output_dtypes := output_dtypes info;
     output_shapes := output_shapes info; output_batch_axis := output_batch_axis info;
     input_shuffles := input_shuffles info;
     auto_multicore_enabled := auto_multicore_enabled info;
     requested_num_cores := requested_num_cores info;
     real_input_names := real_input_names info;
     real_input_locations := real_input_locations info;
     optimal_num_cores := optimal_num_cores info; max_num_duplicates := v |}.

Definition ParseModelConfig (node_def : NodeDef DataType Shape) : M Info Status :=
  fn (
    model_config ← at_key node_def kModelConfig;
    let model_config_list := list_of model_config in
    MODEL_CONFIG_CHECK node_def
      (kModelConfigKeyBound <=? length (lv_i model_config_list))%nat
      "model_config_list.i_size() >= kModelConfigKeyBound";;
    opt ← at_index (lv_i model_config_list) kOptNumCores;
    modify (set_optimal_num_cores (to_int32 opt));;
    info ← get;
    MODEL_CONFIG_CHECK node_def (0 <=? optimal_num_cores info) "0 <= optimal_num_cores";;
    MODEL_CONFIG_CHECK node_def (optimal_num_cores info <? MAX_NUM_CORES)
      "optimal_num_cores < MAX_NUM_CORES";;
    dup ← at_index (lv_i model_config_list) kMaxNumDuplicates;
    modify (set_max_num_duplicates (to_int32 dup));;
    info ← get;
    MODEL_CONFIG_CHECK node_def (0 <? max_num_duplicates info) "0 < max_num_duplicates";;
    MODEL_CONFIG_CHECK node_def (max_num_duplicates info <? MAX_NUM_CORES)
      "max_num_duplicates < MAX_NUM_CORES";;
    ret OK).

(** The assignments of [ParseFromNodeDef], each of one field. *)
Definition parsed_required (node_def : NodeDef DataType Shape)
    (a_executable a_graph_def a_input_names a_input_dtypes a_input_shapes
     a_input_batch_axis a_output_names a_output_dtypes a_output_shapes
     a_output_batch_axis : Attr) (info : Info) : Info :=
  {| name := name info;
     executable := s_of a_executable;
     serialized_graph_def := s_of a_graph_def;
     input_names := list_of a_input_names; input_dtypes := list_of a_input_dtypes;
     input_shapes := list_of a_input_shapes;
     input_batch_axis := list_of a_input_batch_axis;
     output_names := list_of a_output_names; output_dtypes := list_of a_output_dtypes;
     output_shapes := list_of a_output_shapes;
     output_batch_axis := list_of a_output_batch_axis;
     input_shuffles := input_shuffles info;
     auto_multicore_enabled := auto_multicore_enabled info;
     requested_num_cores := requested_num_cores info;
     real_input_names := real_input_names info;
     real_input_locations := real_input_locations info;
     optimal_num_cores := optimal_num_cores info;
     max_num_duplicates := max_num_duplicates info |}.

Definition set_name (v : string) (info : Info) : Info :=
  {| name := v; executable := executable info;
     serialized_graph_def := serialized_graph_def info;
     input_names := input_names info; input_dtypes := input_dtypes info;
     input_shapes := input_shapes info; input_batch_axis := input_batch_axis info;
     output_names := output_names info; output_dtypes := output_dtypes info;
     output_shapes := output_shapes info; output_batch_axis := output_batch_axis info;
     input_shuffles := input_shuffles info;
     auto_multicore_enabled := auto_multicore_enabled info;
     requested_num_cores := requested_num_cores info;
     real_input_names := real_input_names info;
     real_input_locations := real_input_locations info;
     optimal_num_cores := optimal_num_cores info;
     max_num_duplicates := max_num_duplicates info |}.

Definition set_input_shuffles (v : Values) (info : Info) : Info :=
  {| name := name info; executable := executable info;
     serialized_graph_def := serialized_graph_def info;
     input_names := input_names info; input_dtypes := input_dtypes info;
     input_shapes := input_shapes info; input_batch_axis := input_batch_axis info;
     output_names := output_names info; output_dtypes := output_dtypes info;
     output_shapes := output_shapes info; output_batch_axis := output_batch_axis info;
     input_shuffles := v;
     auto_multicore_enabled := auto_multicore_enabled info;
     requested_num_cores := requested_num_cores info;
     real_input_names := real_input_names info;
     real_input_locations := real_input_locations info;
     optimal_num_cores := optimal_num_cores info;
     max_num_duplicates := max_num_duplicates info |}.

Definition set_auto_multicore (enabled : bool) (requested : Z) (info : Info) : Info :=
  {| name := name info; executable := executable info;
     serialized_graph_def := serialized_graph_def info;
     input_names := input_names info; input_dtypes := input_dtypes info;
     input_shapes := input_shapes info; input_batch_axis := input_batch_axis info;
     output_names := output_names info; output_dtypes := output_dtypes info;
     output_shapes := output_shapes info; output_batch_axis := output_batch_axis info;
     input_shuffles := input_shuffles info;
     auto_multicore_enabled := enabled;
     requested_num_cores := requested;
     real_input_names := real_input_names info;
     real_input_locations := real_input_locations info;
     optimal_num_cores := optimal_num_cores info;
     max_num_duplicates := max_num_duplicates info |}.

Definition set_real_input_names (v : option Values) (info : Info) : Info :=
  {| name := name info; executable := executable info;
     serialized_graph_def := serialized_graph_def info;
     input_names := input_names info; input_dtypes := input_dtypes info;
     input_shapes := input_shapes info; input_batch_axis := input_batch_axis info;
     output_names := output_names info; output_dtypes := output_dtypes info;
     output_shapes := output_shapes info; output_batch_axis := output_batch_axis info;
     input_shuffles := input_shuffles info;
     auto_multicore_enabled := auto_multicore_enabled info;
     requested_num_cores := requested_num_cores info;
     real_input_names := v;
     real_input_locations := real_input_locations info;
     optimal_num_cores := optimal_num_cores info;
     max_num_duplicates := max_num_duplicates info |}.

Definition set_real_input_locations (v : option Values) (info : Info) : Info :=
  {| name := name info; executable := executable info;
     serialized_graph_def := serialized_graph_def info;
     input_names := input_names info; input_dtypes := input_dtypes info;
     input_shapes := input_shapes info; input_batch_axis := input_batch_axis info;
     output_names := output_names info; output_dtypes := output_dtypes info;
     output_shapes := output_shapes info; output_batch_axis := output_batch_axis info;
     input_shuffles := input_shuffles info;
     auto_multicore_enabled := auto_multicore_enabled info;
     requested_num_cores := requested_num_cores info;
     real_input_names := real_input_names info;
     real_input_locations := v;
     optimal_num_cores := optimal_num_cores info;
     max_num_duplicates := max_num_duplicates info |}.

(** The shuffle proto with its [int64_val], when it has some, declared as a
    vector of [DT_INT64]. *)
Definition as_int64_vector (shuffle_proto : Proto) : Proto :=
  if bool_decide (int64_val shuffle_proto = []) then shuffle_proto
  else {| tp_dtype := DT_INT64;
          tp_dim := [Z.of_nat (length (int64_val shuffle_proto))];
          int64_val := int64_val shuffle_proto;
          tp_content := tp_content shuffle_proto |}.

Definition invalid_shuffle (node_def : NodeDef DataType Shape) : Status :=
  Error INVALID_ARGUMENT
    ("Invalid shuffle proto found in NodeDef " +:+ quote +:+ nd_name node_def
       +:+ quote +:+ ".").

(** One turn of [for (TensorProto& shuffle_proto : *input_shuffles.mutable_tensor())]:
    the proto at [idx] is rewritten in place. *)
Definition rewrite_shuffle (node_def : NodeDef DataType Shape) (idx : nat) : M Info unit :=
  info ← get;
  shuffle_proto ← at_index (lv_tensor (input_shuffles info)) idx;
  let shuffle_proto := as_int64_vector shuffle_proto in
  let store proto :=
    modify (fun info =>
      set_input_shuffles
        (set_tensors (<[idx := proto]> (lv_tensor (input_shuffles info)))
           (input_shuffles info)) info) in
  store shuffle_proto;;
  match FromProto shuffle_proto with
  | None => return_ (invalid_shuffle node_def)
  | Some shuffle => store (AsProtoField shuffle)
  end.

Definition ParseFromNodeDef (node_def : NodeDef DataType Shape) : M Info Status :=
  fn (
    modify (set_name (nd_name node_def));;
    NODE_DEF_CHECK_KEY node_def kExecutable;;
    NODE_DEF_CHECK_KEY node_def kGraphDef;;
    NODE_DEF_CHECK_KEY node_def kModelConfig;;
    NODE_DEF_CHECK_KEY node_def kInputNames;;
    NODE_DEF_CHECK_KEY node_def kInputDtypes;;
    NODE_DEF_CHECK_KEY node_def kInputShapes;;
    NODE_DEF_CHECK_KEY node_def kInputBatchAxis;;
    NODE_DEF_CHECK_KEY node_def kOutputNames;;
    NODE_DEF_CHECK_KEY node_def kOutputDtypes;;
    NODE_DEF_CHECK_KEY node_def kOutputShapes;;
    NODE_DEF_CHECK_KEY node_def kOutputBatchAxis;;
    a_executable ← at_key node_def kExecutable;
    a_graph_def ← at_key node_def kGraphDef;
    a_input_names ← at_key node_def kInputNames;
    a_input_dtypes ← at_key node_def kInputDtypes;
    a_input_shapes ← at_key node_def kInputShapes;
    a_input_batch_axis ← at_key node_def kInputBatchAxis;
    a_output_names ← at_key node_def kOutputNames;
    a_output_dtypes ← at_key node_def kOutputDtypes;
    a_output_shapes ← at_key node_def kOutputShapes;
    a_output_batch_axis ← at_key node_def kOutputBatchAxis;
    modify (parsed_required node_def a_executable a_graph_def a_input_names
              a_input_dtypes a_input_shapes a_input_batch_axis a_output_names
              a_output_dtypes a_output_shapes a_output_batch_axis);;
    info ← get;
    let num_inputs := length (lv_type (input_dtypes info)) in
    SIZE_CHECK node_def (num_inputs =? length (lv_s (input_names info)))%nat kInputNames;;
    SIZE_CHECK node_def (num_inputs =? length (lv_shape (input_shapes info)))%nat
      kInputShapes;;
    SIZE_CHECK node_def (num_inputs =? length (lv_i (input_batch_axis info)))%nat
      kInputBatchAxis;;
    let num_outputs := length (lv_type (output_dtypes info)) in
    SIZE_CHECK node_def (num_outputs =? length (lv_s (output_names info)))%nat
      kOutputNames;;
    SIZE_CHECK node_def (num_outputs =? length (lv_shape (output_shapes info)))%nat
      kOutputShapes;;
    SIZE_CHECK node_def (num_outputs =? length (lv_i (output_batch_axis info)))%nat
      kOutputBatchAxis;;
    (if has_key node_def kInputShuffles then
       a_input_shuffles ← at_key node_def kInputShuffles;
       modify (set_input_shuffles (list_of a_input_shuffles));;
       info ← get;
       SIZE_CHECK node_def
         (num_inputs =? length (lv_tensor (input_shuffles info)))%nat kInputShuffles;;
       for_range (length (lv_tensor (input_shuffles info))) (rewrite_shuffle node_def)
     else ret tt);;
    (if has_key node_def kAutoMulticore then
       a_auto_multicore ← at_key node_def kAutoMulticore;
       modify (set_auto_multicore true (i_of a_auto_multicore))
     else ret tt);;
    (if has_key node_def kRealInputNames then
       a_real_input_names ← at_key node_def kRealInputNames;
       modify (set_real_input_names (Some (list_of a_real_input_names)))
     else ret tt);;
    (if has_key node_def kRealInputLocations then
       a_real_input_locations ← at_key node_def kRealInputLocations;
       modify (set_real_input_locations (Some (list_of a_real_input_locations)))
     else ret tt);;
    TF_RETURN_IF_ERROR (ParseModelConfig node_def);;
    ret OK).

(** *** ParseModelConfig *)

(** The fields [ParseModelConfig] does not write. *)
Definition but_model_config (info : Info) : Info :=
  set_max_num_duplicates 0 (set_optimal_num_cores 0 info).

Lemma at_index_lookup {St A} (v : list A) idx x (st : St) w :
  v !! idx = Some x -> at_index v idx st w = (Val x, st, w).
Proof. intros H. unfold at_index. by rewrite H. Qed.

(** [ParseModelConfig] as the chain of its checks. *)
Lemma ParseModelConfig_run nd b info w :
  nd_attr nd !! kModelConfig = Some b ->
  ParseModelConfig nd info w
  = if (3 <=? length (lv_i (list_of b)))%nat then
      let o := to_int32 (lv_i (list_of b) !!! 1%nat) in
      let d := to_int32 (lv_i (list_of b) !!! 2%nat) in
      if negb (0 <=? o) then
        (Val (invalid_model_config nd "0 <= optimal_num_cores"),
         set_optimal_num_cores o info, w)
      else if negb (o <? MAX_NUM_CORES) then
        (Val (invalid_model_config nd "optimal_num_cores < MAX_NUM_CORES"),
         set_optimal_num_cores o info, w)
      else if negb (0 <? d) then
        (Val (invalid_model_config nd "0 < max_num_duplicates"),
         set_max_num_duplicates d (set_optimal_num_cores o info), w)
      else if negb (d <? MAX_NUM_CORES) then
        (Val (invalid_model_config nd "max_num_duplicates < MAX_NUM_CORES"),
         set_max_num_duplicates d (set_optimal_num_cores o info), w)
      else (Val OK, set_max_num_duplicates d (set_optimal_num_cores o info), w)
    else
      (Val (invalid_model_config nd
              "model_config_list.i_size() >= kModelConfigKeyBound"), info, w).
Proof.
  intros Hb. unfold ParseModelConfig, at_key. rewrite Hb.
  erewrite fn_bind_val; [|reflexivity]. cbv zeta. unfold MODEL_CONFIG_CHECK.
  unfold kModelConfigKeyBound, kOptNumCores, kMaxNumDuplicates.
  destruct (Nat.leb_spec 3 (length (lv_i (list_of b)))) as [Hlen|Hlen]; [|reflexivity].
  cbn [negb]. erewrite fn_bind_val; [|reflexivity].
  destruct (lookup_lt_is_Some_2 (lv_i (list_of b)) 1 ltac:(lia)) as [x1 H1].
  destruct (lookup_lt_is_Some_2 (lv_i (list_of b)) 2 ltac:(lia)) as [x2 H2].
  rewrite (list_lookup_total_correct _ _ _ H1), (list_lookup_total_correct _ _ _ H2).
  erewrite fn_bind_val; [|by apply at_index_lookup].
  erewrite fn_bind_val; [|reflexivity].
  erewrite fn_bind_val; [|reflexivity].
  cbn [optimal_num_cores set_optimal_num_cores].
  destruct (negb (0 <=? to_int32 x1)); [reflexivity|].
  erewrite fn_bind_val; [|reflexivity].
  destruct (negb (to_int32 x1 <? MAX_NUM_CORES)); [reflexivity|].
  erewrite fn_bind_val; [|reflexivity].
  erewrite fn_bind_val; [|by apply at_index_lookup].
  erewrite fn_bind_val; [|reflexivity].
  erewrite fn_bind_val; [|reflexivity].
  cbn [max_num_duplicates set_max_num_duplicates].
  destruct (negb (0 <? to_int32 x2)); [reflexivity|].
  erewrite fn_bind_val; [|reflexivity].
  destruct (negb (to_int32 x2 <? MAX_NUM_CORES)); reflexivity.
Qed.

(** X18.  [ParseModelConfig], on a node that has the model-config key,
    always returns and makes no call.  It returns OK exactly when the list of
    integers under that key has at least three entries, entry 1 taken as a
    32-bit integer lies in [0, 1024) and entry 2 taken as a 32-bit integer
    lies in (0, 1024); [optimal_num_cores] and [max_num_duplicates] are then
    these two values, and no other field changes in any case.  The result
    depends on the node through its name, on whether the list has three
    entries, and on the low 32 bits of the entries 1 and 2 alone: entry 0 and
    the entries past entry 2 are not read. *)
Theorem ParseModelConfig_accepts node_def info w a :
  nd_attr node_def !! kModelConfig = Some a ->
  let l := lv_i (list_of a) in
  let opt := to_int32 (l !!! 1%nat) in
  let dup := to_int32 (l !!! 2%nat) in
  (exists s info',
     ParseModelConfig node_def info w = (Val s, info', w)
     /\ (s = OK <-> (3 <= length l)%nat /\ 0 <= opt < 1024 /\ 0 < dup < 1024)
     /\ (s = OK -> optimal_num_cores info' = opt /\ max_num_duplicates info' = dup)
     /\ but_model_config info' = but_model_config info)
  /\ (forall node_def' a',
        nd_attr node_def' !! kModelConfig = Some a' ->
        nd_name node_def' = nd_name node_def ->
        let l' := lv_i (list_of a') in
        ((3 <= length l')%nat <-> (3 <= length l)%nat) ->
        to_int32 (l' !!! 1%nat) = opt -> to_int32 (l' !!! 2%nat) = dup ->
        ParseModelConfig node_def' info w = ParseModelConfig node_def info w).
Proof.
  intros Ha l opt dup.
  split.
  - rewrite (ParseModelConfig_run node_def a info w Ha). fold l. cbv zeta. fold opt dup. unfold MAX_NUM_CORES.
    destruct (Nat.leb_spec 3 (length l)) as [Hlen|Hlen].
    2:{ eexists _, _. split; [reflexivity|]. split; [split; [done | lia]|].
        split; [done | reflexivity]. }
    destruct (Z.leb_spec 0 opt) as [Ho|Ho]; cbn [negb].
    2:{ eexists _, _. split; [reflexivity|]. split; [split; [done | lia]|].
        split; [done | reflexivity]. }
    destruct (Z.ltb_spec opt 1024) as [Ho'|Ho']; cbn [negb].
    2:{ eexists _, _. split; [reflexivity|]. split; [split; [done | lia]|].
        split; [done | reflexivity]. }
    destruct (Z.ltb_spec 0 dup) as [Hd|Hd]; cbn [negb].
    2:{ eexists _, _. split; [reflexivity|]. split; [split; [done | lia]|].
        split; [done | reflexivity]. }
    destruct (Z.ltb_spec dup 1024) as [Hd'|Hd']; cbn [negb].
    2:{ eexists _, _. split; [reflexivity|]. split; [split; [done | lia]|].
        split; [done | reflexivity]. }
    eexists _, _. split; [reflexivity|]. split; [split; [lia | done]|].
    split; [done | reflexivity].
  - intros node_def' a' Ha' Hname l' Hlen H1 H2.
    rewrite (ParseModelConfig_run node_def a info w Ha),
      (ParseModelConfig_run node_def' a' info w Ha'). fold l l'. cbv zeta.
    rewrite H1, H2. fold opt dup. unfold invalid_model_config. rewrite Hname.
    destruct (Nat.leb_spec 3 (length l)) as [Hl|Hl];
      destruct (Nat.leb_spec 3 (length l')) as [Hl'|Hl']; try reflexivity; lia.
Qed.

(** *** ParseFromNodeDef *)

(** The keys [ParseFromNodeDef] asks for, in the order of its checks. *)
Definition required_keys : list string :=
  [kExecutable; kGraphDef; kModelConfig; kInputNames; kInputDtypes; kInputShapes;
   kInputBatchAxis; kOutputNames; kOutputDtypes; kOutputShapes; kOutputBatchAxis].

(** The checks of the keys [keys], one after the other, before [rest]. *)
Definition check_keys {St} (node_def : NodeDef DataType Shape) (keys : list string)
    (rest : M St Status) : M St Status :=
  foldr (fun key m => NODE_DEF_CHECK_KEY node_def key;; m) rest keys.

Lemma check_keys_missing {St} node_def before key after (rest : M St Status) st w :
  Forall (fun k => has_key node_def k = true) before ->
  has_key node_def key = false ->
  fn (check_keys node_def (before ++ key :: after) rest) st w
  = (Val (key_not_found node_def key), st, w).
Proof.
  intros Hbefore Hkey. induction Hbefore as [|k before Hk _ IH]; simpl.
  - unfold NODE_DEF_CHECK_KEY. by rewrite Hkey.
  - unfold NODE_DEF_CHECK_KEY at 1. rewrite Hk. cbn [negb].
    erewrite fn_bind_val; [|reflexivity]. exact IH.
Qed.

Lemma check_keys_present {St} node_def keys (rest : M St Status) st w :
  Forall (fun k => has_key node_def k = true) keys ->
  fn (check_keys node_def keys rest) st w = fn rest st w.
Proof.
  induction 1 as [|k keys Hk _ IH]; simpl; [done|].
  unfold NODE_DEF_CHECK_KEY at 1. rewrite Hk. cbn [negb].
  erewrite fn_bind_val; [|reflexivity]. exact IH.
Qed.

(** The keys are all there, or there is a first one that is not. *)
Lemma first_missing_key node_def keys :
  Forall (fun k => has_key node_def k = true) keys
  \/ exists before key after,
       keys = before ++ key :: after
       /\ Forall (fun k => has_key node_def k = true) before
       /\ has_key node_def key = false.
Proof.
  induction keys as [|k keys IH]; [by left|].
  destruct (has_key node_def k) eqn:Hk.
  - destruct IH as [Hall | (before & key & after & -> & Hbefore & Hkey)].
    + left. by constructor.
    + right. exists (k :: before), key, after. split; [done|]. split; [by constructor | done].
  - right. exists [], k, keys. by repeat split.
Qed.

(** X19.  When one of the eleven keys that [ParseFromNodeDef] asks for is not
    among the attributes of the node, the result is the invalid-argument
    error that names the first such key, in the order executable, graph
    definition, model configuration, the four input keys, the four output
    keys.  Nothing is read from the attributes then: the name of the node is
    the only field written, and no call is made. *)
Theorem ParseFromNodeDef_missing_key node_def info w :
  ~ Forall (fun k => has_key node_def k = true) required_keys ->
  exists before key after,
    required_keys = before ++ key :: after
    /\ Forall (fun k => has_key node_def k = true) before
    /\ has_key node_def key = false
    /\ ParseFromNodeDef node_def info w
       = (Val (key_not_found node_def key), set_name (nd_name node_def) info, w).
Proof.
  intros Hmissing.
  destruct (first_missing_key node_def required_keys)
    as [Hall | (before & key & after & Heq & Hbefore & Hkey)]; [done|].
  exists before, key, after. split; [done|]. split; [done|]. split; [done|].
  unfold ParseFromNodeDef. erewrite fn_bind_val; [|reflexivity].
  match goal with |- fn ?body ?st ?w0 = _ =>
    match body with
    | context [at_key node_def kExecutable ≫= ?rest] =>
        change body with (check_keys node_def required_keys
                            (at_key node_def kExecutable ≫= rest))
    end
  end.
  rewrite Heq. by apply check_keys_missing.
Qed.

(** The attribute under [key], when there is one. *)
Definition attr_at (node_def : NodeDef DataType Shape) (key : string) : Attr :=
  default Attr_other (nd_attr node_def !! key).

Lemma has_key_at {St} node_def key (st : St) w :
  has_key node_def key = true ->
  at_key node_def key st w = (Val (attr_at node_def key), st, w).
Proof.
  unfold has_key, at_key, attr_at. intros H%bool_decide_eq_true.
  by destruct H as [a ->].
Qed.

Lemma fn_return_first {St A} (s : Status) (k : A -> M St Status) st w :
  fn (return_ s ≫= k) st w = (Val s, st, w).
Proof. reflexivity. Qed.

(** The fields the loop over the shuffle protos does not write. *)
Definition but_shuffles (info : Info) : Info := set_input_shuffles empty_list info.

(** The loop over the shuffle protos rewrites protos in place: it adds and
    removes none, touches no other field, and leaves with the
    invalid-shuffle error or not at all. *)
Lemma rewrite_shuffles_run node_def idxs : forall st w,
  match for_each idxs (rewrite_shuffle node_def) st w with
  | (r, st', w') =>
      w' = w /\ but_shuffles st' = but_shuffles st
      /\ length (lv_tensor (input_shuffles st')) = length (lv_tensor (input_shuffles st))
      /\ match r with Return s => s = invalid_shuffle node_def | _ => True end
  end.
Proof.
  induction idxs as [|idx idxs IH]; intros st w; [done|].
  cbn [for_each]. unfold mbind at 1, M_bind at 1, bind at 1.
  assert (Hturn : match rewrite_shuffle node_def idx st w with
                  | (r, st', w') =>
                      w' = w /\ but_shuffles st' = but_shuffles st
                      /\ length (lv_tensor (input_shuffles st'))
                         = length (lv_tensor (input_shuffles st))
                      /\ match r with Return s => s = invalid_shuffle node_def | _ => True end
                  end).
  { unfold rewrite_shuffle. erewrite bind_val; [|reflexivity].
    unfold at_index. destruct (lv_tensor (input_shuffles st) !! idx) as [proto|]; [|done].
    erewrite bind_val; [|reflexivity]. cbv zeta.
    erewrite bind_val; [|reflexivity].
    destruct (FromProto (as_int64_vector proto)); cbn;
      rewrite ?length_insert; by repeat split. }
  destruct (rewrite_shuffle node_def idx st w) as [[[[]|s|] st1] w1]; [|done|done].
  destruct Hturn as (-> & Hbut & Hlen & _).
  specialize (IH st1 w). destruct (for_each idxs _ st1 w) as [[r st'] w'].
  destruct IH as (-> & Hbut' & Hlen' & Hr). repeat split; congruence.
Qed.

Ltac step_in H := erewrite fn_bind_val in H; [|reflexivity].

Lemma fn_SIZE_CHECK_true {St} node_def attr_name (k : unit -> M St Status) st w :
  fn (SIZE_CHECK node_def true attr_name ≫= k) st w = fn (k tt) st w.
Proof. reflexivity. Qed.

Lemma fn_SIZE_CHECK_false {St} node_def attr_name (k : unit -> M St Status) st w :
  fn (SIZE_CHECK node_def false attr_name ≫= k) st w
  = (Val (invalid_size node_def attr_name), st, w).
Proof. reflexivity. Qed.

Ltac size_check_in H :=
  match type of H with
  | fn (SIZE_CHECK _ ?c _ ≫= _) _ _ = _ =>
      let Hc := fresh "Hsize" in
      destruct c eqn:Hc; rewrite ?Hc in H;
      [rewrite fn_SIZE_CHECK_true in H | by rewrite fn_SIZE_CHECK_false in H]
  end.

(** X20.  When [ParseFromNodeDef] returns OK it has made no call, the eleven
    keys are all among the attributes, and the fields are what the
    attributes hold: the name of the node, the executable and the graph
    definition as the strings, the names, data types, shapes and batch axes
    of the inputs and of the outputs as the lists under their keys.  These
    lists agree in size: there are as many input names, input shapes and
    input batch axes as input data types, and likewise for the outputs; and
    when the node has input shuffles there is one shuffle for each input.
    [optimal_num_cores] lies in [0, 1024) and [max_num_duplicates] in
    (0, 1024). *)
Theorem ParseFromNodeDef_ok node_def info w info' w' :
  ParseFromNodeDef node_def info w = (Val OK, info', w') ->
  let num_inputs := length (lv_type (input_dtypes info')) in
  let num_outputs := length (lv_type (output_dtypes info')) in
  w' = w
  /\ Forall (fun k => has_key node_def k = true) required_keys
  /\ name info' = nd_name node_def
  /\ executable info' = s_of (attr_at node_def kExecutable)
  /\ serialized_graph_def info' = s_of (attr_at node_def kGraphDef)
  /\ (input_names info', input_dtypes info', input_shapes info', input_batch_axis info')
     = (list_of (attr_at node_def kInputNames), list_of (attr_at node_def kInputDtypes),
        list_of (attr_at node_def kInputShapes),
        list_of (attr_at node_def kInputBatchAxis))
  /\ (output_names info', output_dtypes info', output_shapes info',
      output_batch_axis info')
     = (list_of (attr_at node_def kOutputNames), list_of (attr_at node_def kOutputDtypes),
        list_of (attr_at node_def kOutputShapes),
        list_of (attr_at node_def kOutputBatchAxis))
  /\ length (lv_s (input_names info')) = num_inputs
  /\ length (lv_shape (input_shapes info')) = num_inputs
  /\ length (lv_i (input_batch_axis info')) = num_inputs
  /\ length (lv_s (output_names info')) = num_outputs
  /\ length (lv_shape (output_shapes info')) = num_outputs
  /\ length (lv_i (output_batch_axis info')) = num_outputs
  /\ (has_key node_def kInputShuffles = true ->
        length (lv_tensor (input_shuffles info')) = num_inputs)
  /\ 0 <= optimal_num_cores info' < MAX_NUM_CORES
  /\ 0 < max_num_duplicates info' < MAX_NUM_CORES.
Proof.
  intros H.
  unfold ParseFromNodeDef in H. step_in H.
  match type of H with fn ?body ?st ?w0 = _ =>
    match body with
    | context [at_key node_def kExecutable ≫= ?rest] =>
        change body with (check_keys node_def required_keys
                            (at_key node_def kExecutable ≫= rest)) in H
    end
  end.
  destruct (first_missing_key node_def required_keys)
    as [Hall | (before & key & after & Heq & Hbefore & Hkey)].
  2:{ rewrite Heq, check_keys_missing in H by done. done. }
  rewrite check_keys_present in H by done.
  pose proof Hall as Hkeys. unfold required_keys in Hkeys.
  repeat (apply Forall_cons in Hkeys as [? Hkeys]).
  do 10 (erewrite fn_bind_val in H; [|by apply has_key_at]).
  step_in H. step_in H. cbv zeta in H.
  cbn [input_dtypes input_names input_shapes input_batch_axis output_dtypes output_names
       output_shapes output_batch_axis parsed_required] in H.
  do 6 size_check_in H.
  (* the shuffles *)
  match type of H with fn (?m ≫= ?k) ?st ?w0 = _ =>
    assert (Hshuffles : match m st w0 with
              | (r, st', w1) =>
                  w1 = w0 /\ but_shuffles st' = but_shuffles st
                  /\ (has_key node_def kInputShuffles = true ->
                        r = Val tt ->
                        length (lv_tensor (input_shuffles st'))
                        = length (lv_type (list_of (attr_at node_def kInputDtypes))))
                  /\ match r with Return s => ok s = false | _ => True end
              end)
  end.
  { destruct (has_key node_def kInputShuffles) eqn:Hsh; [|by repeat split].
    erewrite bind_val; [|by apply has_key_at].
    erewrite bind_val; [|reflexivity].
    erewrite bind_val; [|reflexivity].
    cbn [input_shuffles set_input_shuffles]. unfold SIZE_CHECK.
    destruct (Nat.eqb_spec (length (lv_type (list_of (attr_at node_def kInputDtypes))))
                (length (lv_tensor (list_of (attr_at node_def kInputShuffles)))))
      as [Hlen|Hlen]; cbn [negb]; [|by repeat split].
    erewrite bind_val; [|reflexivity]. unfold for_range.
    match goal with |- context [for_each ?idxs _ ?st ?w0] =>
      pose proof (rewrite_shuffles_run node_def idxs st w0) as Hloop;
      destruct (for_each idxs (rewrite_shuffle node_def) st w0) as [[r st'] w1]
    end.
    destruct Hloop as (-> & Hbut & Hlength & Hr).
    split; [done|]. split; [done|]. split; [intros _ _; by rewrite Hlength, Hlen|].
    destruct r; try done. by rewrite Hr. }
  rewrite fn_bind_cases in H.
  match type of H with context [match ?m ?st ?w0 with _ => _ end] =>
    destruct (m st w0) as [[[[]|s|] st1] w1] eqn:Hm
  end.
  2:{ destruct Hshuffles as (_ & _ & _ & Hs). injection H as -> _ _. done. }
  2:{ done. }
  clear Hm. destruct Hshuffles as (-> & Hbut & Hshuffled & _).
  assert (Hfields : forall st0 : Info, but_shuffles st1 = but_shuffles st0 ->
            (name st1, executable st1, serialized_graph_def st1)
            = (name st0, executable st0, serialized_graph_def st0)
            /\ (input_names st1, input_dtypes st1, input_shapes st1, input_batch_axis st1)
               = (input_names st0, input_dtypes st0, input_shapes st0, input_batch_axis st0)
            /\ (output_names st1, output_dtypes st1, output_shapes st1,
                output_batch_axis st1)
               = (output_names st0, output_dtypes st0, output_shapes st0,
                  output_batch_axis st0)).
  { intros st0 Hst0. unfold but_shuffles, set_input_shuffles in Hst0.
    injection Hst0 as -> -> -> -> -> -> -> -> -> -> -> _ _ _ _ _ _. done. }
  destruct (Hfields _ Hbut) as (Hnames & Hinputs & Houtputs). clear Hfields Hbut.
  cbn in Hnames, Hinputs, Houtputs.
  (* the optional keys *)
  assert (Hrest : exists st2,
            fn (TF_RETURN_IF_ERROR (ParseModelConfig node_def);; ret OK) st2 w
            = (Val OK, info', w')
            /\ (name st2, executable st2, serialized_graph_def st2)
               = (name st1, executable st1, serialized_graph_def st1)
            /\ (input_names st2, input_dtypes st2, input_shapes st2, input_batch_axis st2)
               = (input_names st1, input_dtypes st1, input_shapes st1, input_batch_axis st1)
            /\ (output_names st2, output_dtypes st2, output_shapes st2,
                output_batch_axis st2)
               = (output_names st1, output_dtypes st1, output_shapes st1,
                  output_batch_axis st1)
            /\ input_shuffles st2 = input_shuffles st1).
  { revert H. generalize st1. intros st H.
    destruct (has_key node_def kAutoMulticore) eqn:Hauto;
      destruct (has_key node_def kRealInputNames) eqn:Hreal;
      destruct (has_key node_def kRealInputLocations) eqn:Hlocations;
      repeat (first [ rewrite bind_assoc_fn in H
                    | erewrite fn_bind_val in H; [|by apply has_key_at]
                    | erewrite fn_bind_val in H; [|reflexivity] ]);
      eexists; (split; [exact H | done]). }
  destruct Hrest as (st2 & Hrun & Hnames2 & Hinputs2 & Houtputs2 & Hshuffles2).
  rewrite fn_first in Hrun.
  assert (Hconfig : has_key node_def kModelConfig = true) by done.
  apply bool_decide_eq_true in Hconfig as [a Ha].
  rewrite (ParseModelConfig_run node_def a st2 w Ha) in Hrun. cbv zeta in Hrun.
  unfold MAX_NUM_CORES in *.
  destruct (3 <=? length (lv_i (list_of a)))%nat; [|done].
  destruct (Z.leb_spec 0 (to_int32 (lv_i (list_of a) !!! 1%nat))); [|done].
  destruct (Z.ltb_spec (to_int32 (lv_i (list_of a) !!! 1%nat)) 1024); [|done].
  destruct (Z.ltb_spec 0 (to_int32 (lv_i (list_of a) !!! 2%nat))); [|done].
  destruct (Z.ltb_spec (to_int32 (lv_i (list_of a) !!! 2%nat)) 1024); [|done].
  cbn in Hrun. injection Hrun as <- <-.
  cbn [name executable serialized_graph_def input_names input_dtypes input_shapes
       input_batch_axis output_names output_dtypes output_shapes output_batch_axis
       input_shuffles optimal_num_cores max_num_duplicates
       set_max_num_duplicates set_optimal_num_cores].
  injection Hnames2 as -> -> ->. injection Hnames as -> -> ->.
  injection Hinputs2 as -> -> -> ->. injection Hinputs as -> -> -> ->.
  injection Houtputs2 as -> -> -> ->. injection Houtputs as -> -> -> ->.
  rewrite Hshuffles2.
  apply Nat.eqb_eq in Hsize, Hsize0, Hsize1, Hsize2, Hsize3, Hsize4.
  split; [done|]. split; [done|]. split; [done|]. split; [done|]. split; [done|].
  split; [done|]. split; [done|].
  split; [done|]. split; [done|]. split; [done|].
  split; [done|]. split; [done|]. split; [done|].
  split; [intros Hsh; by apply Hshuffled|]. split; lia.
Qed.

End Methods.

(** A node with two inputs and one output, whose model configuration is
    [config]; data types are numbers, shapes are lists of sizes, and a tensor
    made from a proto is its [int64_val]. *)
Definition strings (l : list string) : AttrValue nat (list Z) :=
  Attr_list {| lv_s := l; lv_i := []; lv_type := []; lv_shape := []; lv_tensor := [] |}.
Definition ints (l : list Z) : AttrValue nat (list Z) :=
  Attr_list {| lv_s := []; lv_i := l; lv_type := []; lv_shape := []; lv_tensor := [] |}.
Definition types (l : list nat) : AttrValue nat (list Z) :=
  Attr_list {| lv_s := []; lv_i := []; lv_type := l; lv_shape := []; lv_tensor := [] |}.
Definition shapes (l : list (list Z)) : AttrValue nat (list Z) :=
  Attr_list {| lv_s := []; lv_i := []; lv_type := []; lv_shape := l; lv_tensor := [] |}.

Definition node (config : list Z) : NodeDef nat (list Z) :=
  {| nd_name := "neuron_op";
     nd_attr := list_to_map
       [("executable", Attr_s "neff"); ("graph_def", Attr_s "graph");
        ("model_config", ints config);
        ("input_names", strings ["x"; "y"]); ("input_dtypes", types [1; 1]%nat);
        ("input_shapes", shapes [[1; 4]; [1; 4]]); ("input_batch_axis", ints [0; 0]);
        ("output_names", strings ["z"]); ("output_dtypes", types [1%nat]);
        ("output_shapes", shapes [[1; 4]]); ("output_batch_axis", ints [0])] |}.

Definition without (key : string) (node_def : NodeDef nat (list Z)) : NodeDef nat (list Z) :=
  {| nd_name := nd_name node_def; nd_attr := delete key (nd_attr node_def) |}.

Definition no_values : ListValue nat (list Z) :=
  {| lv_s := []; lv_i := []; lv_type := []; lv_shape := []; lv_tensor := [] |}.

Definition blank_info : NeuronExecutableInfo nat (list Z) :=
  {| name := ""; executable := ""; serialized_graph_def := "";
     input_names := no_values; input_dtypes := no_values; input_shapes := no_values;
     input_batch_axis := no_values;
     output_names := no_values; output_dtypes := no_values; output_shapes := no_values;
     output_batch_axis := no_values;
     input_shuffles := no_values; auto_multicore_enabled := false;
     requested_num_cores := 0; real_input_names := None; real_input_locations := None;
     optimal_num_cores := 0; max_num_duplicates := 0 |}.

Definition parse : NodeDef nat (list Z) -> M (NeuronExecutableInfo nat (list Z)) Status :=
  ParseFromNodeDef 9%nat
    (fun proto => Some (int64_val proto))
    (fun tensor : list Z =>
       {| tp_dtype := 9%nat; tp_dim := [Z.of_nat (length tensor)]; int64_val := tensor;
          tp_content := [] |})
    "executable" "graph_def" "model_config"
    "input_names" "input_dtypes" "input_shapes" "input_batch_axis"
    "output_names" "output_dtypes" "output_shapes" "output_batch_axis"
    "input_shuffles" "auto_multicore" "real_input_names" "real_input_locations".

Definition quiet : World := fresh_world (fun _ _ => plain_reply 0 0).

(** Four cores and one duplicate; entry 0 is not read. *)
Example parse_4_1 :
  let r := parse (node [77; 4; 1]) blank_info quiet in
  r.1.1 = Val OK /\ optimal_num_cores r.1.2 = 4 /\ max_num_duplicates r.1.2 = 1
  /\ lv_s (input_names r.1.2) = ["x"; "y"] /\ lv_s (output_names r.1.2) = ["z"].
Proof. vm_compute. by repeat split. Qed.

(** An entry that does not fit 32 bits is cut down to them: 2^32 + 4 cores
    are 4 cores. *)
Example parse_wide_entry :
  let r := parse (node [0; 2 ^ 32 + 4; 1]) blank_info quiet in
  r.1.1 = Val OK /\ optimal_num_cores r.1.2 = 4.
Proof. vm_compute. by split. Qed.

(** No duplicate is refused, after [optimal_num_cores] has been written. *)
Example parse_no_duplicate :
  let r := parse (node [0; 4; 0]) blank_info quiet in
  r.1.1 = Val (invalid_model_config (node [0; 4; 0]) "0 < max_num_duplicates")
  /\ optimal_num_cores r.1.2 = 4 /\ max_num_duplicates r.1.2 = 0.
Proof. vm_compute. by repeat split. Qed.

(** Without the input shapes and the output names, the error names the input
    shapes. *)
Example parse_without_input_shapes :
  (parse (without "output_names" (without "input_shapes" (node [0; 4; 1])))
     blank_info quiet).1.1
  = Val (key_not_found (node [0; 4; 1]) "input_shapes").
Proof. vm_compute. reflexivity. Qed.

Lemma ParseModelConfig_accepts_witness :
  exists info',
    ParseModelConfig "model_config" (node [0; 2 ^ 32 + 4; 1]) blank_info quiet
    = (Val OK, info', quiet)
    /\ optimal_num_cores info' = 4 /\ max_num_duplicates info' = 1.
Proof.
  destruct (ParseModelConfig_accepts "model_config" (node [0; 2 ^ 32 + 4; 1]) blank_info
              quiet (ints [0; 2 ^ 32 + 4; 1]) eq_refl)
    as [(s & info' & Hrun & Hok & Hfields & _) _].
  assert (Hs : s = OK) by (apply Hok; vm_compute; repeat split; (lia || discriminate)).
  subst s. destruct (Hfields eq_refl) as [Hopt Hdup].
  exists info'. split; [done|]. rewrite Hopt, Hdup. by vm_compute.
Defined.

Lemma ParseFromNodeDef_missing_key_witness :
  exists before key after,
    ["executable"; "graph_def"; "model_config"; "input_names"; "input_dtypes";
     "input_shapes"; "input_batch_axis"; "output_names"; "output_dtypes";
     "output_shapes"; "output_batch_axis"] = before ++ key :: after
    /\ has_key (without "input_shapes" (node [0; 4; 1])) key = false
    /\ parse (without "input_shapes" (node [0; 4; 1])) blank_info quiet
       = (Val (key_not_found (without "input_shapes" (node [0; 4; 1])) key),
          set_name "neuron_op" blank_info, quiet).
Proof.
  destruct (ParseFromNodeDef_missing_key 9%nat
              (fun proto => Some (int64_val proto))
              (fun tensor : list Z =>
                 {| tp_dtype := 9%nat; tp_dim := [Z.of_nat (length tensor)];
                    int64_val := tensor; tp_content := [] |})
              "executable" "graph_def" "model_config"
              "input_names" "input_dtypes" "input_shapes" "input_batch_axis"
              "output_names" "output_dtypes" "output_shapes" "output_batch_axis"
              "input_shuffles" "auto_multicore" "real_input_names" "real_input_locations"
              (without "input_shapes" (node [0; 4; 1])) blank_info quiet)
    as (before & key & after & Heq & _ & Hkey & Hrun).
  { intros Hall. unfold required_keys in Hall.
    do 5 (apply Forall_cons in Hall as [_ Hall]).
    apply Forall_cons in Hall as [Hshapes _]. vm_compute in Hshapes. discriminate. }
  exists before, key, after. by repeat split.
Defined.

Lemma ParseFromNodeDef_ok_witness :
  let info' := (parse (node [0; 4; 1]) blank_info quiet).1.2 in
  length (lv_s (input_names info')) = length (lv_type (input_dtypes info'))
  /\ length (lv_shape (input_shapes info')) = length (lv_type (input_dtypes info'))
  /\ 0 <= optimal_num_cores info' < 1024.
Proof.
  intros info'.
  destruct (ParseFromNodeDef_ok 9%nat
              (fun proto => Some (int64_val proto))
              (fun tensor : list Z =>
                 {| tp_dtype := 9%nat; tp_dim := [Z.of_nat (length tensor)];
                    int64_val := tensor; tp_content := [] |})
              "executable" "graph_def" "model_config"
              "input_names" "input_dtypes" "input_shapes" "input_batch_axis"
              "output_names" "output_dtypes" "output_shapes" "output_batch_axis"
              "input_shuffles" "auto_multicore" "real_input_names" "real_input_locations"
              (node [0; 4; 1]) blank_info quiet info' quiet)
    as (_ & _ & _ & _ & _ & _ & _ & Hnames & Hshapes & _ & _ & _ & _ & _ & Hopt & _).
  { vm_compute. reflexivity. }
  by repeat split.
Defined.

End ExecutableInfo.

(** ** NeuronFunction

    [runtime/direct/function.cc]: two of the steps of [Run] on the input
    tensors, [SetupInputs] and [MaybeShuffle], which call [tensor_shuffle]
    and read what [ParseFromNodeDef] has written.  [OpKernelContext] and
    [TensorShape] are TensorFlow's and stand as parameters. *)
Module NeuronFunction.
Import Nrt.

Section Methods.
Context {DataType Shape TensorShape : Type} `{EqDecision TensorShape}.

Abbreviation Tensor := (TensorUtil.Tensor DataType).
Abbreviation Proto := (ExecutableInfo.TensorProto DataType).
Abbreviation Info := (ExecutableInfo.NeuronExecutableInfo DataType Shape).
Abbreviation NodeDef := (ExecutableInfo.NodeDef DataType Shape).

(** TensorFlow's: [DataTypeCanUseMemcpy]; the size of the C++ type of a real
    number type or [bool]; [Tensor::NumElements], [Tensor::shape] and
    [Tensor::DeviceSafeDebugString]; the constructor of a [TensorShape] from
    a [TensorShapeProto], which stops the process on a message that is no
    shape; and [OpKernelContext::allocate_temp], given the data type, the
    shape and the tensor its last argument points to, with the status it
    returns and the tensor it leaves there. *)
Variable DataTypeCanUseMemcpy : DataType -> bool.
Variable real_or_bool_size : DataType -> option nat.
Variable NumElements : Tensor -> Z.
Variable shape : Tensor -> TensorShape.
Variable DeviceSafeDebugString : Tensor -> string.
Variable TensorShape_of : Shape -> option TensorShape.
Variable allocate_temp : DataType -> TensorShape -> Tensor -> Status * Tensor.

Definition invalid_number_of_inputs (num_inputs : nat) (node_def : NodeDef)
    (expected_num_inputs : nat) : Status :=
  Error INVALID_ARGUMENT
    ("Invalid number of inputs " +:+ to_string (Z.of_nat num_inputs)
       +:+ " on NodeDef " +:+ ExecutableInfo.quote +:+ ExecutableInfo.nd_name node_def
       +:+ ExecutableInfo.quote +:+ " (expect "
       +:+ to_string (Z.of_nat expected_num_inputs) +:+ ").").

Definition dynamic_batch_size : Status :=
  Error UNIMPLEMENTED "Dynamic batch size unimplemented".

Definition unsupported_input (tensor : Tensor) : Status :=
  Error INVALID_ARGUMENT
    ("Input tensor " +:+ DeviceSafeDebugString tensor +:+ " has unsupported data type").

(** [TensorShape expected_shape(proto)] *)
Definition make_shape {St} (proto : Shape) : M St TensorShape :=
  match TensorShape_of proto with
  | Some expected_shape => ret expected_shape
  | None => undefined
  end.

(** [SetupInputs(ctx, node_def, inputs)]: the state is the vector [inputs]
    points to, [ctx_inputs] are the inputs of [ctx], so that
    [ctx->num_inputs()] is their number and [ctx->input(idx)] the one at
    [idx]. *)
Definition SetupInputs (info_ : Info) (ctx_inputs : list Tensor) (node_def : NodeDef)
    : M (list Tensor) Status :=
  fn (
    let expected_num_inputs :=
      length (ExecutableInfo.lv_type (ExecutableInfo.input_dtypes info_)) in
    let num_inputs := length ctx_inputs in
    (if negb (num_inputs =? expected_num_inputs)%nat
     then return_ (invalid_number_of_inputs num_inputs node_def expected_num_inputs)
     else ret tt);;
    (* TODO: remove once dynamic batch size is implemented *)
    for_range num_inputs (fun idx =>
      proto ← at_index (ExecutableInfo.lv_shape (ExecutableInfo.input_shapes info_)) idx;
      expected_shape ← make_shape proto;
      input ← at_index ctx_inputs idx;
      if negb (bool_decide (shape input = expected_shape))
      then return_ dynamic_batch_size
      else ret tt);;
    (* Set inputs *)
    for_range num_inputs (fun idx =>
      input ← at_index ctx_inputs idx;
      modify (fun inputs => inputs ++ [input]));;
    inputs ← get;
    for_each inputs (fun tensor =>
      if negb (DataTypeCanUseMemcpy (TensorUtil.dtype tensor))
      then return_ (unsupported_input tensor)
      else ret tt);;
    ret OK).

(** A tensor with the storage a write to it has left. *)
Definition with_storage (storage : list TensorUtil.byte) (t : Tensor) : Tensor :=
  {| TensorUtil.dtype := TensorUtil.dtype t;
     TensorUtil.tensor_data :=
       {| TensorUtil.base := TensorUtil.base (TensorUtil.tensor_data t);
          TensorUtil.bytes := storage |} |}.

(** One turn of the loop of [MaybeShuffle]; [src] is a [Tensor] of its own
    that shares the storage of the input, [dst] points into the vector.
    [allocate_temp] puts a tensor with a storage of its own there, which is
    the one [tensor_shuffle] writes. *)
Definition shuffle_input (shuffle : Proto) (idx : nat) : M (list Tensor) unit :=
  if (length (ExecutableInfo.int64_val shuffle) =? 0)%nat then ret tt
  else
    inputs ← get;
    src ← at_index inputs idx;
    let allocated := allocate_temp (TensorUtil.dtype src) (shape src) src in
    put (<[idx := allocated.2]> inputs);;
    TF_RETURN_IF_ERROR (ret allocated.1);;
    match TensorUtil.tensor_shuffle real_or_bool_size NumElements allocated.2 src
            (ExecutableInfo.int64_val shuffle) with
    | Some shuffled =>
        put (<[idx := with_storage shuffled.2 allocated.2]> inputs);;
        TF_RETURN_IF_ERROR (ret shuffled.1)
    | None => undefined
    end.

(** [MaybeShuffle(ctx, inputs)]: [input_shuffles] is [info_.input_shuffles]
    as this function reads it, a pointer that is null or points to the list
    of the shuffles. *)
Definition MaybeShuffle (input_shuffles : option (list Proto)) : M (list Tensor) Status :=
  fn (
    match input_shuffles with
    | None => return_ OK
    | Some shuffles =>
        for_range (length shuffles) (fun idx =>
          shuffle ← at_index shuffles idx;
          shuffle_input shuffle idx);;
        ret OK
    end).


(** *** Facts *)

Abbreviation shuffle_of shuffle := (ExecutableInfo.int64_val shuffle).

(** An input after a turn that went well: the tensor [allocate_temp] gave,
    with the storage [tensor_shuffle] left. *)
Definition shuffled (shuffle : Proto) (src dst : Tensor) : Prop :=
  exists temp storage,
    allocate_temp (TensorUtil.dtype src) (shape src) src = (OK, temp)
    /\ TensorUtil.tensor_shuffle real_or_bool_size NumElements temp src (shuffle_of shuffle)
       = Some (OK, storage)
    /\ dst = with_storage storage temp.

(** A turn that returns the error [s]: the allocation fails, or the shuffle
    does. *)
Definition fails_with (s : Status) (shuffle : Proto) (src : Tensor) : Prop :=
  s <> OK
  /\ ((allocate_temp (TensorUtil.dtype src) (shape src) src).1 = s
      \/ exists temp storage,
           allocate_temp (TensorUtil.dtype src) (shape src) src = (OK, temp)
           /\ TensorUtil.tensor_shuffle real_or_bool_size NumElements temp src
                (shuffle_of shuffle) = Some (s, storage)).

(** A turn that leaves what the language defines: there is no input at the
    index, or the shuffle reads or writes outside a storage. *)
Definition stuck (shuffle : Proto) (input : option Tensor) : Prop :=
  match input with
  | None => True
  | Some src =>
      exists temp,
        allocate_temp (TensorUtil.dtype src) (shape src) src = (OK, temp)
        /\ TensorUtil.tensor_shuffle real_or_bool_size NumElements temp src
             (shuffle_of shuffle) = None
  end.

Definition turn_outcome (shuffle : Proto) (idx : nat) (inputs : list Tensor)
    : Res unit * list Tensor :=
  if (length (shuffle_of shuffle) =? 0)%nat then (Val tt, inputs)
  else
    match inputs !! idx with
    | None => (Undefined, inputs)
    | Some src =>
        let allocated := allocate_temp (TensorUtil.dtype src) (shape src) src in
        if ok allocated.1 then
          match TensorUtil.tensor_shuffle real_or_bool_size NumElements allocated.2 src
                  (shuffle_of shuffle) with
          | Some shuffled =>
              (if ok shuffled.1 then Val tt else Return shuffled.1,
               <[idx := with_storage shuffled.2 allocated.2]> inputs)
          | None => (Undefined, <[idx := allocated.2]> inputs)
          end
        else (Return allocated.1, <[idx := allocated.2]> inputs)
    end.

Lemma shuffle_input_run shuffle idx inputs w :
  shuffle_input shuffle idx inputs w
  = ((turn_outcome shuffle idx inputs).1, (turn_outcome shuffle idx inputs).2, w).
Proof.
  unfold shuffle_input, turn_outcome.
  destruct (length (shuffle_of shuffle) =? 0)%nat; [done|].
  unfold TF_RETURN_IF_ERROR, at_index.
  unfold mbind, M_bind, bind, get, put, ret, return_, undefined.
  destruct (inputs !! idx) as [src|]; [|done]. cbn.
  destruct (allocate_temp (TensorUtil.dtype src) (shape src) src) as [s temp]. cbn.
  destruct (ok s); [|done].
  destruct (TensorUtil.tensor_shuffle _ _ temp src _) as [[s' storage]|]; [|done]. cbn.
  by destruct (ok s').
Qed.

Lemma ok_true s : ok s = true <-> s = OK.
Proof. by destruct s. Qed.

Lemma nonempty_shuffle (shuffle : Proto) :
  (length (shuffle_of shuffle) =? 0)%nat = false <-> shuffle_of shuffle <> [].
Proof.
  rewrite Nat.eqb_neq. by destruct (shuffle_of shuffle).
Qed.

Section Loop.
Variable shuffles : list Proto.

Definition turn (idx : nat) : M (list Tensor) unit :=
  shuffle ← at_index shuffles idx;
  shuffle_input shuffle idx.

Definition has_shuffle (idx : nat) : Prop :=
  exists shuffle, shuffles !! idx = Some shuffle /\ shuffle_of shuffle <> [].

Lemma turn_run idx shuffle inputs w :
  shuffles !! idx = Some shuffle ->
  turn idx inputs w
  = ((turn_outcome shuffle idx inputs).1, (turn_outcome shuffle idx inputs).2, w).
Proof.
  intros Hidx. unfold turn, at_index. rewrite Hidx.
  change ((ret shuffle ≫= (fun shuffle => shuffle_input shuffle idx)) inputs w)
    with (shuffle_input shuffle idx inputs w).
  apply shuffle_input_run.
Qed.

(** The input at [idx] has been shuffled, if it has a shuffle with
    indices. *)
Definition shuffled_at (before after : list Tensor) (idx : nat) : Prop :=
  forall shuffle,
    shuffles !! idx = Some shuffle -> shuffle_of shuffle <> [] ->
    exists src dst,
      before !! idx = Some src /\ after !! idx = Some dst /\ shuffled shuffle src dst.

Lemma turns_run : forall n start inputs w,
  (start + n <= length shuffles)%nat ->
  let run := for_each (seq start n) turn inputs w in
  run.2 = w /\ length run.1.2 = length inputs
  /\ (forall idx, ~ ((start <= idx < start + n)%nat /\ has_shuffle idx) ->
        run.1.2 !! idx = inputs !! idx)
  /\ (run.1.1 = Val tt ->
        forall idx, (start <= idx < start + n)%nat -> shuffled_at inputs run.1.2 idx)
  /\ (forall s, run.1.1 = Return s ->
        exists idx shuffle src,
          (start <= idx < start + n)%nat /\ shuffles !! idx = Some shuffle
          /\ shuffle_of shuffle <> [] /\ inputs !! idx = Some src
          /\ fails_with s shuffle src
          /\ (forall j, (start <= j < idx)%nat -> shuffled_at inputs run.1.2 j)
          /\ forall j, (idx < j)%nat -> run.1.2 !! j = inputs !! j)
  /\ (run.1.1 = Undefined ->
        exists idx shuffle,
          (start <= idx < start + n)%nat /\ shuffles !! idx = Some shuffle
          /\ shuffle_of shuffle <> [] /\ stuck shuffle (inputs !! idx)
          /\ (forall j, (start <= j < idx)%nat -> shuffled_at inputs run.1.2 j)
          /\ forall j, (idx < j)%nat -> run.1.2 !! j = inputs !! j).
Proof.
  induction n as [|n IH]; intros start inputs w Hlen run.
  { subst run. cbn. repeat split; try done. intros idx ?. lia. }
  destruct (lookup_lt_is_Some_2 shuffles start ltac:(lia)) as [shuffle Hshuffle].
  assert (Hrun : run = match turn_outcome shuffle start inputs with
                       | (Val _, st) => for_each (seq (S start) n) turn st w
                       | (Return s, st) => (Return s, st, w)
                       | (Undefined, st) => (Undefined, st, w)
                       end).
  { subst run. cbn [seq for_each].
    unfold mbind at 1, M_bind at 1, bind at 1. rewrite (turn_run _ _ _ _ Hshuffle).
    by destruct (turn_outcome shuffle start inputs) as [[[]| |] st]. }
  clearbody run. subst run. unfold turn_outcome.
  destruct (length (shuffle_of shuffle) =? 0)%nat eqn:Hempty.
  { (* continue *)
    apply Nat.eqb_eq in Hempty.
    assert (Hnil : shuffle_of shuffle = []) by by destruct (shuffle_of shuffle).
    assert (Hhere : forall after, shuffled_at inputs after start).
    { intros after p Hp Hne. congruence. }
    destruct (IH (S start) inputs w ltac:(lia)) as (Hw & Hl & Hrest & Hok & Herr & Hund).
    split; [done|]. split; [done|]. split; [|split; [|split]].
    - intros idx Hidx. apply Hrest. intros [? ?]. apply Hidx. split; [lia | done].
    - intros Hval idx Hin.
      destruct (decide (idx = start)) as [->|]; [apply Hhere|].
      apply (Hok Hval idx). lia.
    - intros s Hs.
      destruct (Herr s Hs) as (idx & p & src & ? & ? & ? & ? & ? & Hbefore & ?).
      exists idx, p, src. split; [lia|]. do 4 (split; [done|]). split; [|done].
      intros j Hj. destruct (decide (j = start)) as [->|]; [apply Hhere|].
      apply Hbefore. lia.
    - intros Hu. destruct (Hund Hu) as (idx & p & ? & ? & ? & ? & Hbefore & ?).
      exists idx, p. split; [lia|]. do 3 (split; [done|]). split; [|done].
      intros j Hj. destruct (decide (j = start)) as [->|]; [apply Hhere|].
      apply Hbefore. lia. }
  apply nonempty_shuffle in Hempty.
  destruct (inputs !! start) as [src|] eqn:Hsrc.
  2: { (* no input at the index *)
    cbn. split; [done|]. split; [done|]. split; [done|]. split; [done|]. split; [done|].
    intros _. exists start, shuffle. split; [lia|]. do 2 (split; [done|]).
    split; [by rewrite Hsrc|]. split; [|done]. intros j Hj. lia. }
  pose proof (lookup_lt_Some _ _ _ Hsrc) as Hstart.
  destruct (allocate_temp (TensorUtil.dtype src) (shape src) src) as [s temp] eqn:Halloc.
  cbn [fst snd].
  destruct (ok s) eqn:Hs.
  2: { (* the allocation fails *)
    cbn. split; [done|]. split; [by rewrite length_insert|]. split; [|split; [|split]].
    - intros idx Hidx. apply list_lookup_insert_ne. intros ->. apply Hidx.
      split; [lia|]. by exists shuffle.
    - done.
    - intros s' [= <-]. exists start, shuffle, src. split; [lia|].
      do 3 (split; [done|]). split.
      + split; [by intros ->|]. left. by rewrite Halloc.
      + split; [intros j Hj; lia|]. intros j Hj. apply list_lookup_insert_ne. lia.
    - done. }
  apply ok_true in Hs. subst s.
  destruct (TensorUtil.tensor_shuffle real_or_bool_size NumElements temp src
              (shuffle_of shuffle)) as [[s storage]|] eqn:Hshuffled.
  2: { (* the shuffle leaves a storage *)
    cbn. split; [done|]. split; [by rewrite length_insert|]. split; [|split; [|split]].
    - intros idx Hidx. apply list_lookup_insert_ne. intros ->. apply Hidx.
      split; [lia|]. by exists shuffle.
    - done.
    - done.
    - intros _. exists start, shuffle. rewrite Hsrc. split; [lia|].
      do 2 (split; [done|]). split; [by exists temp|].
      split; [intros j Hj; lia|]. intros j Hj. apply list_lookup_insert_ne. lia. }
  cbn [fst snd]. destruct (ok s) eqn:Hs.
  2: { (* the shuffle fails *)
    cbn. split; [done|]. split; [by rewrite length_insert|]. split; [|split; [|split]].
    - intros idx Hidx. apply list_lookup_insert_ne. intros ->. apply Hidx.
      split; [lia|]. by exists shuffle.
    - done.
    - intros s' [= <-]. exists start, shuffle, src. split; [lia|].
      do 3 (split; [done|]). split.
      + split; [by intros ->|]. right. by exists temp, storage.
      + split; [intros j Hj; lia|]. intros j Hj. apply list_lookup_insert_ne. lia.
    - done. }
  apply ok_true in Hs. subst s.
  set (inputs1 := <[start := with_storage storage temp]> inputs).
  assert (Hother : forall j, j <> start -> inputs1 !! j = inputs !! j).
  { intros j Hj. apply list_lookup_insert_ne. congruence. }
  destruct (IH (S start) inputs1 w ltac:(lia)) as (Hw & Hl & Hrest & Hok & Herr & Hund).
  assert (Hhere : shuffled_at inputs (for_each (seq (S start) n) turn inputs1 w).1.2 start).
  { intros p Hp Hne. assert (p = shuffle) by congruence. subst p.
    exists src, (with_storage storage temp). split; [done|]. split.
    - rewrite Hrest; [by apply list_lookup_insert_eq|]. intros [? ?]. lia.
    - by exists temp, storage. }
  assert (Hlater : forall j, j <> start ->
            shuffled_at inputs1 (for_each (seq (S start) n) turn inputs1 w).1.2 j ->
            shuffled_at inputs (for_each (seq (S start) n) turn inputs1 w).1.2 j).
  { intros j Hj Hat p Hp Hne. destruct (Hat p Hp Hne) as (src' & dst & ? & ? & ?).
    exists src', dst. by rewrite <- Hother. }
  split; [done|]. split; [by rewrite Hl; unfold inputs1; rewrite length_insert|].
  split; [|split; [|split]].
  - intros idx Hidx.
    assert (Hne : idx <> start).
    { intros ->. apply Hidx. split; [lia|]. by exists shuffle. }
    rewrite Hrest, Hother; [done | done |]. intros [? ?]. apply Hidx. split; [lia | done].
  - intros Hval idx Hin.
    destruct (decide (idx = start)) as [->|Hidx]; [done|].
    apply Hlater; [done|]. apply (Hok Hval idx). lia.
  - intros s Hs.
    destruct (Herr s Hs) as (idx & p & src' & ? & ? & ? & Hsrc' & ? & Hbefore & Hafter).
    exists idx, p, src'. split; [lia|]. do 2 (split; [done|]).
    split; [by rewrite <- Hother by lia|]. split; [done|]. split.
    + intros j Hj. destruct (decide (j = start)) as [->|]; [done|].
      apply Hlater; [done|]. apply Hbefore. lia.
    + intros j Hj. rewrite Hafter by done. apply Hother. lia.
  - intros Hu. destruct (Hund Hu) as (idx & p & ? & ? & ? & Hstuck & Hbefore & Hafter).
    exists idx, p. split; [lia|]. do 2 (split; [done|]).
    split; [by rewrite <- Hother by lia|]. split.
    + intros j Hj. destruct (decide (j = start)) as [->|]; [done|].
      apply Hlater; [done|]. apply Hbefore. lia.
    + intros j Hj. rewrite Hafter by done. apply Hother. lia.
Qed.

End Loop.


(** X23.  [MaybeShuffle] makes no call and keeps the number of inputs; a
    null [input_shuffles] is as a list of no shuffles.  An input that has no
    shuffle, or one with no index, is never touched, whatever comes of the
    others, and a shuffle with no index needs no input: the list may be
    longer than the inputs.  When the result is OK every input that has a
    shuffle with indices has been replaced by the tensor [allocate_temp] gave
    for its data type and shape, with the storage [tensor_shuffle] left
    there from the former input.  An error is the one of the first
    allocation or shuffle that fails: the inputs before that one have been
    shuffled, and the inputs after it are as they were.  The function leaves
    what the language defines only at the first shuffle with indices that
    has no input or whose [tensor_shuffle] does, with the inputs before it
    shuffled and none of them failing. *)
Theorem MaybeShuffle_effects input_shuffles inputs w :
  let run := MaybeShuffle input_shuffles inputs w in
  let shuffles := default [] input_shuffles in
  run.2 = w /\ length run.1.2 = length inputs
  /\ (forall idx, ~ has_shuffle shuffles idx -> run.1.2 !! idx = inputs !! idx)
  /\ (run.1.1 = Val OK -> forall idx, shuffled_at shuffles inputs run.1.2 idx)
  /\ (forall s, run.1.1 = Val s -> s <> OK ->
        exists idx shuffle src,
          shuffles !! idx = Some shuffle /\ shuffle_of shuffle <> []
          /\ inputs !! idx = Some src /\ fails_with s shuffle src
          /\ (forall j, (j < idx)%nat -> shuffled_at shuffles inputs run.1.2 j)
          /\ forall j, (idx < j)%nat -> run.1.2 !! j = inputs !! j)
  /\ (run.1.1 = Undefined ->
        exists idx shuffle,
          shuffles !! idx = Some shuffle /\ shuffle_of shuffle <> []
          /\ stuck shuffle (inputs !! idx)
          /\ (forall j, (j < idx)%nat -> shuffled_at shuffles inputs run.1.2 j)
          /\ forall j, (idx < j)%nat -> run.1.2 !! j = inputs !! j)
  /\ (forall s, run.1.1 <> Return s).
Proof.
  intros run shuffles.
  destruct input_shuffles as [l|]; subst run shuffles; cbn [default].
  2: { cbn. split; [done|]. split; [done|]. split; [done|].
       split; [by intros _ idx p Hp|]. split; [by intros s [= <-] Hs|]. done. }
  destruct (turns_run l (length l) 0 inputs w ltac:(lia))
    as (Hw & Hl & Hrest & Hok & Herr & Hund).
  assert (Hrun : MaybeShuffle (Some l) inputs w
                 = match for_each (seq 0 (length l)) (turn l) inputs w with
                   | (Val _, st, w') => (Val OK, st, w')
                   | (Return s, st, w') => (Val s, st, w')
                   | (Undefined, st, w') => (Undefined, st, w')
                   end).
  { unfold MaybeShuffle, fn, for_range.
    unfold mbind at 1, M_bind at 1, bind at 1. fold (turn l).
    by destruct (for_each (seq 0 (length l)) (turn l) inputs w) as [[[[]| |] st] w']. }
  rewrite Hrun. clear Hrun.
  destruct (for_each (seq 0 (length l)) (turn l) inputs w) as [[r st] w'].
  cbn [fst snd] in *.
  destruct r as [[]|s|]; cbn [fst snd].
  - split; [done|]. split; [done|]. split.
    { intros idx Hidx. apply Hrest. by intros [_ ?]. }
    split.
    { intros _ idx p Hp Hne. apply (Hok eq_refl idx); [|done..].
      apply lookup_lt_Some in Hp. unfold id in Hp. lia. }
    split; [by intros s [= <-]|]. done.
  - split; [done|]. split; [done|]. split.
    { intros idx Hidx. apply Hrest. by intros [_ ?]. }
    destruct (Herr s eq_refl)
      as (idx & p & src & _ & Hp & Hne & Hsrc & Hfail & Hbefore & Hafter).
    split.
    { intros [= ->]. by destruct Hfail. }
    split; [|done].
    intros s' [= <-] _. exists idx, p, src. do 4 (split; [done|]). split; [|done].
    intros j Hj. apply Hbefore. lia.
  - split; [done|]. split; [done|]. split.
    { intros idx Hidx. apply Hrest. by intros [_ ?]. }
    split; [done|]. split; [done|]. split; [|done].
    intros _. destruct (Hund eq_refl) as (idx & p & _ & ? & ? & ? & Hbefore & ?).
    exists idx, p. do 3 (split; [done|]). split; [|done].
    intros j Hj. apply Hbefore. lia.
Qed.

(** *** SetupInputs *)

Section Inputs.
Variable info_ : Info.
Variable ctx_inputs : list Tensor.

Definition expected_shapes : list Shape :=
  ExecutableInfo.lv_shape (ExecutableInfo.input_shapes info_).

(** The input at [idx] has the shape [info_] expects; it has another; the
    expected shape is missing, or is no shape. *)
Definition matches (idx : nat) : Prop :=
  exists proto input,
    expected_shapes !! idx = Some proto /\ ctx_inputs !! idx = Some input
    /\ TensorShape_of proto = Some (shape input).

Definition differs (idx : nat) : Prop :=
  exists proto input expected_shape,
    expected_shapes !! idx = Some proto /\ ctx_inputs !! idx = Some input
    /\ TensorShape_of proto = Some expected_shape /\ shape input <> expected_shape.

Definition no_shape (idx : nat) : Prop :=
  (idx < length ctx_inputs)%nat
  /\ match expected_shapes !! idx with
     | Some proto => TensorShape_of proto = None
     | None => True
     end.

Definition check_shape (idx : nat) : M (list Tensor) unit :=
  proto ← at_index expected_shapes idx;
  expected_shape ← make_shape proto;
  input ← at_index ctx_inputs idx;
  if negb (bool_decide (shape input = expected_shape))
  then return_ dynamic_batch_size
  else ret tt.

Definition push_input (idx : nat) : M (list Tensor) unit :=
  input ← at_index ctx_inputs idx;
  modify (fun inputs => inputs ++ [input]).

Definition check_dtype (tensor : Tensor) : M (list Tensor) unit :=
  if negb (DataTypeCanUseMemcpy (TensorUtil.dtype tensor))
  then return_ (unsupported_input tensor)
  else ret tt.

Definition supported (tensor : Tensor) : Prop :=
  DataTypeCanUseMemcpy (TensorUtil.dtype tensor) = true.

Lemma check_shape_run idx inputs w :
  (idx < length ctx_inputs)%nat ->
  (matches idx /\ check_shape idx inputs w = (Val tt, inputs, w))
  \/ (differs idx /\ check_shape idx inputs w = (Return dynamic_batch_size, inputs, w))
  \/ (no_shape idx /\ check_shape idx inputs w = (Undefined, inputs, w)).
Proof.
  intros Hidx. destruct (lookup_lt_is_Some_2 _ _ Hidx) as [input Hinput].
  unfold check_shape, matches, differs, no_shape, at_index, make_shape.
  rewrite Hinput.
  destruct (expected_shapes !! idx) as [proto|]; [|right; right; by repeat split].
  unfold mbind, M_bind, bind, ret, undefined, return_. cbn.
  destruct (TensorShape_of proto) as [expected_shape|] eqn:Hshape;
    [|right; right; by repeat split].
  destruct (decide (shape input = expected_shape)) as [<-|Hne].
  - left. rewrite bool_decide_eq_true_2 by done. split; [|done]. by exists proto, input.
  - right. left. rewrite bool_decide_eq_false_2 by done. split; [|done].
    by exists proto, input, expected_shape.
Qed.

Lemma matches_not_differs idx : matches idx -> differs idx -> False.
Proof.
  intros (proto & input & H1 & H2 & H3) (proto' & input' & es & H1' & H2' & H3' & Hne).
  congruence.
Qed.

Lemma matches_has_shape idx : matches idx -> no_shape idx -> False.
Proof.
  intros (proto & input & H1 & H2 & H3) [_ Hno]. rewrite H1 in Hno. congruence.
Qed.

Lemma differs_has_shape idx : differs idx -> no_shape idx -> False.
Proof.
  intros (proto & input & es & H1 & H2 & H3 & _) [_ Hno]. rewrite H1 in Hno. congruence.
Qed.

Lemma check_shapes_run : forall n start inputs w,
  (start + n <= length ctx_inputs)%nat ->
  let run := for_each (seq start n) check_shape inputs w in
  run.2 = w /\ run.1.2 = inputs
  /\ ((run.1.1 = Val tt /\ forall idx, (start <= idx < start + n)%nat -> matches idx)
      \/ exists idx,
           (start <= idx < start + n)%nat
           /\ (forall j, (start <= j < idx)%nat -> matches j)
           /\ ((run.1.1 = Return dynamic_batch_size /\ differs idx)
               \/ (run.1.1 = Undefined /\ no_shape idx))).
Proof.
  induction n as [|n IH]; intros start inputs w Hlen run.
  { subst run. cbn. split; [done|]. split; [done|]. left. split; [done|]. lia. }
  assert (Hrun : run = match check_shape start inputs w with
                       | (Val _, st, w') => for_each (seq (S start) n) check_shape st w'
                       | (Return s, st, w') => (Return s, st, w')
                       | (Undefined, st, w') => (Undefined, st, w')
                       end).
  { subst run. cbn [seq for_each]. unfold mbind at 1, M_bind at 1, bind at 1.
    by destruct (check_shape start inputs w) as [[[[]| |] st] w']. }
  clearbody run. subst run.
  destruct (check_shape_run start inputs w ltac:(lia)) as [[H ->]|[[H ->]|[H ->]]].
  - destruct (IH (S start) inputs w ltac:(lia)) as (Hw & Hst & Hcases).
    split; [done|]. split; [done|].
    destruct Hcases as [[Hval Hall]|(idx & Hidx & Hbefore & Hwhat)].
    + left. split; [done|]. intros idx Hidx.
      destruct (decide (idx = start)) as [->|]; [done|]. apply Hall. lia.
    + right. exists idx. split; [lia|]. split; [|done]. intros j Hj.
      destruct (decide (j = start)) as [->|]; [done|]. apply Hbefore. lia.
  - cbn. split; [done|]. split; [done|]. right. exists start. split; [lia|].
    split; [lia|]. by left.
  - cbn. split; [done|]. split; [done|]. right. exists start. split; [lia|].
    split; [lia|]. by right.
Qed.

Lemma push_inputs_run : forall n start inputs w,
  (start + n <= length ctx_inputs)%nat ->
  for_each (seq start n) push_input inputs w
  = (Val tt, inputs ++ take n (drop start ctx_inputs), w).
Proof.
  induction n as [|n IH]; intros start inputs w Hlen.
  { cbn. by rewrite take_0, app_nil_r. }
  destruct (lookup_lt_is_Some_2 ctx_inputs start ltac:(lia)) as [input Hinput].
  assert (Hpush : push_input start inputs w = (Val tt, inputs ++ [input], w)).
  { unfold push_input, at_index. by rewrite Hinput. }
  cbn [seq for_each]. unfold mbind at 1, M_bind at 1, bind at 1. rewrite Hpush.
  rewrite IH by lia. rewrite (drop_S _ _ _ Hinput). cbn [firstn].
  by rewrite <- app_assoc.
Qed.

Lemma check_dtypes_run : forall (tensors inputs : list Tensor) w,
  for_each tensors check_dtype inputs w
  = (match List.find (fun tensor => negb (DataTypeCanUseMemcpy (TensorUtil.dtype tensor)))
             tensors with
     | Some tensor => Return (unsupported_input tensor)
     | None => Val tt
     end, inputs, w).
Proof.
  induction tensors as [|tensor tensors IH]; intros inputs w; [done|].
  cbn [for_each List.find]. unfold mbind at 1, M_bind at 1, bind at 1.
  unfold check_dtype at 1.
  destruct (DataTypeCanUseMemcpy (TensorUtil.dtype tensor)); cbn; [apply IH | done].
Qed.

Lemma find_unsupported (tensors : list Tensor) :
  List.find (fun tensor => negb (DataTypeCanUseMemcpy (TensorUtil.dtype tensor))) tensors = None
  <-> Forall supported tensors.
Proof.
  unfold supported. induction tensors as [|tensor tensors IH]; cbn.
  - split; [by intros; apply Forall_nil | done].
  - destruct (DataTypeCanUseMemcpy (TensorUtil.dtype tensor)) eqn:Hd; cbn.
    + rewrite IH. split; [intros; by apply Forall_cons | by intros [_ ?]%Forall_cons].
    + split; [done|]. intros [? _]%Forall_cons. congruence.
Qed.

Lemma SetupInputs_unfold node_def :
  SetupInputs info_ ctx_inputs node_def
  = fn (
      (if negb (length ctx_inputs
                =? length (ExecutableInfo.lv_type (ExecutableInfo.input_dtypes info_)))%nat
       then return_ (invalid_number_of_inputs (length ctx_inputs) node_def
                       (length (ExecutableInfo.lv_type (ExecutableInfo.input_dtypes info_))))
       else ret tt);;
      for_each (seq 0 (length ctx_inputs)) check_shape;;
      for_each (seq 0 (length ctx_inputs)) push_input;;
      inputs ← get;
      for_each inputs check_dtype;;
      ret OK).
Proof. reflexivity. Qed.

(** X24.  [SetupInputs] makes no call.  It returns OK exactly when [ctx]
    has as many inputs as [info_] has input data types, each input has the
    shape [info_] expects at its index, and every tensor of [inputs], the
    ones it held and the inputs of [ctx] appended in their order, has a data
    type that can use memcpy.  A wrong number of inputs is refused first; a
    shape that differs is refused as an unimplemented dynamic batch size,
    whatever the data types are, and in both cases [inputs] is not written.
    An unsupported data type is refused last, for the first such tensor,
    after [inputs] has been filled.  The function leaves what the language
    defines only where [info_] has no shape for an input. *)
Theorem SetupInputs_cases node_def inputs w :
  let run := SetupInputs info_ ctx_inputs node_def inputs w in
  let num_inputs := length ctx_inputs in
  let expected_num_inputs :=
    length (ExecutableInfo.lv_type (ExecutableInfo.input_dtypes info_)) in
  let unsupported :=
    List.find (fun tensor => negb (DataTypeCanUseMemcpy (TensorUtil.dtype tensor)))
      (inputs ++ ctx_inputs) in
  run.2 = w
  /\ (run.1.1 = Val OK <->
        num_inputs = expected_num_inputs
        /\ (forall idx, (idx < num_inputs)%nat -> matches idx)
        /\ Forall supported (inputs ++ ctx_inputs))
  /\ (run.1.1 = Val OK -> run.1.2 = inputs ++ ctx_inputs)
  /\ (num_inputs <> expected_num_inputs ->
        run = (Val (invalid_number_of_inputs num_inputs node_def expected_num_inputs),
               inputs, w))
  /\ (num_inputs = expected_num_inputs ->
        forall idx, differs idx -> (forall j, (j < idx)%nat -> matches j) ->
        run = (Val dynamic_batch_size, inputs, w))
  /\ (num_inputs = expected_num_inputs ->
        (forall idx, (idx < num_inputs)%nat -> matches idx) ->
        forall tensor, unsupported = Some tensor ->
        run = (Val (unsupported_input tensor), inputs ++ ctx_inputs, w))
  /\ (run.1.1 = Undefined ->
        num_inputs = expected_num_inputs
        /\ exists idx, no_shape idx /\ forall j, (j < idx)%nat -> matches j).
Proof.
  intros run num_inputs expected_num_inputs unsupported.
  subst run. rewrite SetupInputs_unfold. fold num_inputs expected_num_inputs.
  unfold unsupported_input, dynamic_batch_size. rewrite fn_bind_cases.
  destruct (Nat.eqb_spec num_inputs expected_num_inputs) as [Hnum|Hnum]; cbn [negb].
  2: { cbn. unfold invalid_number_of_inputs.
       split; [done|]. split; [split; [done | by intros [? _]]|].
       split; [done|]. split; [done|]. split; [done|]. split; [done|]. done. }
  cbn [ret]. cbv beta iota. rewrite fn_bind_cases.
  destruct (check_shapes_run num_inputs 0 inputs w ltac:(lia)) as (Hw & Hst & Hcases).
  destruct (for_each (seq 0 num_inputs) check_shape inputs w) as [[r st] w'].
  cbn [fst snd] in *. subst st w'.
  destruct Hcases as [[-> Hall]|(idx & Hidx & Hbefore & [[-> Hdiffers]|[-> Hno]])].
  - (* every shape matches *)
    assert (Hall' : forall idx, (idx < num_inputs)%nat -> matches idx)
      by (intros; apply Hall; lia).
    clear Hall. subst num_inputs.
    rewrite fn_bind_cases, push_inputs_run by (cbn; lia). rewrite drop_0, firstn_all.
    rewrite fn_bind_cases. unfold get. cbv beta iota.
    rewrite fn_bind_cases, check_dtypes_run. fold unsupported.
    pose proof (find_unsupported (inputs ++ ctx_inputs)) as Hfind. fold unsupported in Hfind.
    destruct unsupported as [tensor|]; cbn.
    + split; [done|]. split.
      { split; [done|]. intros (_ & _ & Hsup). by apply Hfind in Hsup. }
      split; [done|]. split; [done|]. split.
      { intros _ idx Hd Hb. exfalso. pose proof Hd as (? & ? & ? & ? & Hin & ? & ?).
        apply lookup_lt_Some in Hin.
        apply (matches_not_differs idx); [by apply Hall' | done]. }
      split; [|done]. by intros _ _ ? [= <-].
    + split; [done|]. split.
      { split; [|done]. intros _. split; [done|]. split; [done|]. by apply Hfind. }
      split; [done|]. split; [done|]. split.
      { intros _ idx Hd Hb. exfalso. pose proof Hd as (? & ? & ? & ? & Hin & ? & ?).
        apply lookup_lt_Some in Hin.
        apply (matches_not_differs idx); [by apply Hall' | done]. }
      split; [done|]. done.
  - (* a shape differs *)
    cbn. split; [done|]. split.
    { split; [done|]. intros (_ & Hall & _). exfalso.
      apply (matches_not_differs idx); [apply Hall; lia | done]. }
    split; [done|]. split; [done|]. split; [done|]. split; [|done].
    intros _ Hall. exfalso. apply (matches_not_differs idx); [apply Hall; lia | done].
  - (* a shape is missing *)
    cbn. split; [done|]. split.
    { split; [done|]. intros (_ & Hall & _). exfalso.
      apply (matches_has_shape idx); [apply Hall; lia | done]. }
    split; [done|]. split; [done|]. split.
    { intros _ idx' Hd Hb. exfalso.
      destruct (Nat.lt_trichotomy idx idx') as [Hlt|[<-|Hgt]].
      - apply (matches_has_shape idx); [by apply Hb | done].
      - by apply (differs_has_shape idx).
      - apply (matches_not_differs idx'); [apply Hbefore; lia | done]. }
    split.
    { intros _ Hall. exfalso. apply (matches_has_shape idx); [apply Hall; lia | done]. }
    intros _. split; [done|]. exists idx. split; [done|]. intros j Hj. apply Hbefore. lia.
Qed.

End Inputs.

End Methods.

(** Rows of four elements of two bytes.  Data type 1 is the type of two
    bytes of [TensorUtil.two_byte_type], the only one that can use memcpy
    here; a shape is the list of its sizes, and a fresh tensor is zeroed. *)
Definition row (b0 b1 b2 b3 : Byte.byte) : TensorUtil.Tensor nat :=
  {| TensorUtil.dtype := 1%nat;
     TensorUtil.tensor_data :=
       {| TensorUtil.base := 128;
          TensorUtil.bytes := [b0; Byte.x00; b1; Byte.x00; b2; Byte.x00; b3; Byte.x00] |} |}.

Definition row_shape (t : TensorUtil.Tensor nat) : list Z := [1; TensorUtil.count_two_byte t].

Definition memcpy_type (dt : nat) : bool := (dt =? 1)%nat.

Definition fresh_row (dt : nat) (sizes : list Z) (old : TensorUtil.Tensor nat)
    : Status * TensorUtil.Tensor nat :=
  (OK, {| TensorUtil.dtype := dt;
          TensorUtil.tensor_data :=
            {| TensorUtil.base := 4096;
               TensorUtil.bytes := replicate (2 * Z.to_nat (foldr Z.mul 1 sizes)) Byte.x00 |} |}).

Definition two_rows : ExecutableInfo.NeuronExecutableInfo nat (list Z) :=
  (ExecutableInfo.parse (ExecutableInfo.node [0; 4; 1]) ExecutableInfo.blank_info
     ExecutableInfo.quiet).1.2.

Definition setup_inputs (ctx_inputs : list (TensorUtil.Tensor nat))
    : Res Status * list (TensorUtil.Tensor nat) :=
  (SetupInputs memcpy_type row_shape (fun _ => "<tensor>") Some two_rows ctx_inputs
     (ExecutableInfo.node [0; 4; 1]) [] ExecutableInfo.quiet).1.

Definition indices (l : list Z) : ExecutableInfo.TensorProto nat :=
  {| ExecutableInfo.tp_dtype := 9%nat; ExecutableInfo.tp_dim := [Z.of_nat (length l)];
     ExecutableInfo.int64_val := l; ExecutableInfo.tp_content := [] |}.

Definition maybe_shuffle (input_shuffles : option (list (ExecutableInfo.TensorProto nat)))
    (inputs : list (TensorUtil.Tensor nat)) : Res Status * list (TensorUtil.Tensor nat) :=
  (MaybeShuffle TensorUtil.two_byte_type TensorUtil.count_two_byte row_shape fresh_row
     input_shuffles inputs ExecutableInfo.quiet).1.

(** Two rows for the two inputs of the node. *)
Example setup_two_rows :
  setup_inputs [row Byte.x01 Byte.x02 Byte.x03 Byte.x04; row Byte.x05 Byte.x06 Byte.x07 Byte.x08]
  = (Val OK, [row Byte.x01 Byte.x02 Byte.x03 Byte.x04;
              row Byte.x05 Byte.x06 Byte.x07 Byte.x08]).
Proof. reflexivity. Qed.

(** One row only, and a row of another data type. *)
Example setup_one_row :
  setup_inputs [row Byte.x01 Byte.x02 Byte.x03 Byte.x04]
  = (Val (invalid_number_of_inputs 1 (ExecutableInfo.node [0; 4; 1]) 2), []).
Proof. reflexivity. Qed.

Example setup_other_type :
  let other := {| TensorUtil.dtype := 7%nat;
                  TensorUtil.tensor_data :=
                    TensorUtil.tensor_data (row Byte.x05 Byte.x06 Byte.x07 Byte.x08) |} in
  setup_inputs [row Byte.x01 Byte.x02 Byte.x03 Byte.x04; other]
  = (Val (unsupported_input (fun _ => "<tensor>") other),
     [row Byte.x01 Byte.x02 Byte.x03 Byte.x04; other]).
Proof. reflexivity. Qed.

(** A first input of another data type and a second one of another shape:
    the shape is what is reported, and [inputs] is left empty. *)
Example setup_other_shape :
  let other := {| TensorUtil.dtype := 7%nat;
                  TensorUtil.tensor_data :=
                    TensorUtil.tensor_data (row Byte.x05 Byte.x06 Byte.x07 Byte.x08) |} in
  let short := {| TensorUtil.dtype := 1%nat;
                  TensorUtil.tensor_data :=
                    {| TensorUtil.base := 256; TensorUtil.bytes := [Byte.x01; Byte.x00] |} |} in
  setup_inputs [other; short] = (Val dynamic_batch_size, []).
Proof. reflexivity. Qed.

(** The first row turned around, the second left alone: its shuffle has no
    index. *)
Example shuffle_first_row :
  maybe_shuffle (Some [indices [3; 2; 1; 0]; indices []])
    [row Byte.x01 Byte.x02 Byte.x03 Byte.x04; row Byte.x05 Byte.x06 Byte.x07 Byte.x08]
  = (Val OK,
     [TensorUtil.Build_Tensor nat 1%nat
        {| TensorUtil.base := 4096;
           TensorUtil.bytes := [Byte.x04; Byte.x00; Byte.x03; Byte.x00;
                                Byte.x02; Byte.x00; Byte.x01; Byte.x00] |};
      row Byte.x05 Byte.x06 Byte.x07 Byte.x08]).
Proof. reflexivity. Qed.

(** More shuffles than inputs: one with no index is passed over, one with
    indices finds no input. *)
Example shuffle_without_input :
  maybe_shuffle (Some [indices []; indices []]) [row Byte.x01 Byte.x02 Byte.x03 Byte.x04]
  = (Val OK, [row Byte.x01 Byte.x02 Byte.x03 Byte.x04])
  /\ maybe_shuffle (Some [indices []; indices [0]]) [row Byte.x01 Byte.x02 Byte.x03 Byte.x04]
     = (Undefined, [row Byte.x01 Byte.x02 Byte.x03 Byte.x04]).
Proof. split; reflexivity. Qed.

(** Fewer indices than elements: [tensor_shuffle] reads past the last one,
    and the input is by then the fresh tensor. *)
Example shuffle_short_of_indices :
  (maybe_shuffle (Some [indices [3; 2]]) [row Byte.x01 Byte.x02 Byte.x03 Byte.x04]).1
  = Undefined.
Proof. reflexivity. Qed.

End NeuronFunction.

(** ** NeuronDevice *)
Module NeuronDevice.
Import Nrt.

Record NeuronDevice : Type := {
  nrtd_address_ : string;
  stub_ : option Stub;
  num_cores_ : Z;
  eg_id_ : Z;
  create_eg_done_ : bool;
  running_nn_id_ : Z;
  nn_id_set_ : gset Z
}.

Definition set_nrtd_address_ (a : string) (d : NeuronDevice) : NeuronDevice :=
  {| nrtd_address_ := a; stub_ := stub_ d; num_cores_ := num_cores_ d;
     eg_id_ := eg_id_ d; create_eg_done_ := create_eg_done_ d;
     running_nn_id_ := running_nn_id_ d; nn_id_set_ := nn_id_set_ d |}.
Definition set_stub_ (stub : option Stub) (d : NeuronDevice) : NeuronDevice :=
  {| nrtd_address_ := nrtd_address_ d; stub_ := stub; num_cores_ := num_cores_ d;
     eg_id_ := eg_id_ d; create_eg_done_ := create_eg_done_ d;
     running_nn_id_ := running_nn_id_ d; nn_id_set_ := nn_id_set_ d |}.
Definition set_num_cores_ (n : Z) (d : NeuronDevice) : NeuronDevice :=
  {| nrtd_address_ := nrtd_address_ d; stub_ := stub_ d; num_cores_ := n;
     eg_id_ := eg_id_ d; create_eg_done_ := create_eg_done_ d;
     running_nn_id_ := running_nn_id_ d; nn_id_set_ := nn_id_set_ d |}.
Definition set_eg_id_ (id : Z) (d : NeuronDevice) : NeuronDevice :=
  {| nrtd_address_ := nrtd_address_ d; stub_ := stub_ d; num_cores_ := num_cores_ d;
     eg_id_ := id; create_eg_done_ := create_eg_done_ d;
     running_nn_id_ := running_nn_id_ d; nn_id_set_ := nn_id_set_ d |}.
Definition set_create_eg_done_ (b : bool) (d : NeuronDevice) : NeuronDevice :=
  {| nrtd_address_ := nrtd_address_ d; stub_ := stub_ d; num_cores_ := num_cores_ d;
     eg_id_ := eg_id_ d; create_eg_done_ := b;
     running_nn_id_ := running_nn_id_ d; nn_id_set_ := nn_id_set_ d |}.
Definition set_running_nn_id_ (nn_id : Z) (d : NeuronDevice) : NeuronDevice :=
  {| nrtd_address_ := nrtd_address_ d; stub_ := stub_ d; num_cores_ := num_cores_ d;
     eg_id_ := eg_id_ d; create_eg_done_ := create_eg_done_ d;
     running_nn_id_ := nn_id; nn_id_set_ := nn_id_set_ d |}.
Definition set_nn_id_set_ (ids : gset Z) (d : NeuronDevice) : NeuronDevice :=
  {| nrtd_address_ := nrtd_address_ d; stub_ := stub_ d; num_cores_ := num_cores_ d;
     eg_id_ := eg_id_ d; create_eg_done_ := create_eg_done_ d;
     running_nn_id_ := running_nn_id_ d; nn_id_set_ := ids |}.

(** The fields of a [SharedMemoryManager] that [infer] reads. *)
Abbreviation SharedMemoryManager := SharedMemoryManager.SharedMemoryManager.

Section Methods.
(** Constants of [neuron_clib.h] and [nerr.pb.h], which are not part of the
    sources; what follows holds whatever their values. *)
Variable NERR_OK : Z.
Variable NERR_INFER_COMPLETED_WITH_NUM_ERR : Z.
Variable NRT_INVALID_NN_ID : Z.
Variable EXEC_MAX_CHUNK_SIZE : Z.
Context {Tensor : Type}.
Variable tensor_data : Tensor -> list byte.
Variable tensor_memcpy : Tensor -> list byte -> Status * Tensor.

Definition is_busy (d : NeuronDevice) : bool :=
  negb (running_nn_id_ d =? NRT_INVALID_NN_ID).

Definition running (d : NeuronDevice) (nn_id : Z) : bool :=
  (running_nn_id_ d =? nn_id) && negb (NRT_INVALID_NN_ID =? running_nn_id_ d).

Definition nn_get_current_running (d : NeuronDevice) : Z := running_nn_id_ d.

Definition set_running (nn_id : Z) : M NeuronDevice unit :=
  modify (set_running_nn_id_ nn_id).

Definition num_executable (d : NeuronDevice) : nat := size (nn_id_set_ d).

Definition unavailable_message (nrtd_address_ : string) : string :=
  let message := " is unavailable. Is neuron-rtd running?" in
  let unix_prefix := "unix:" in
  let start := String.index 0 unix_prefix nrtd_address_ in
  let message :=
    if bool_decide (start = Some 0%nat)
    then message +:+ " Is socket "
           +:+ String.substring (String.length unix_prefix)
                 (String.length nrtd_address_ - String.length unix_prefix) nrtd_address_
           +:+ " writable?"
    else message in
  "grpc server " +:+ nrtd_address_ +:+ message.

Definition initialize (nrtd_address : string) (num_cores_req : Z)
    : M NeuronDevice Status :=
  fn (
    modify (set_nrtd_address_ nrtd_address);;
    d ← get;
    TF_RETURN_IF_ERROR (init_stub set_stub_ (nrtd_address_ d));;
    let request := if 0 <=? num_cores_req then Some num_cores_req else None in
    d ← get;
    response ← NRT_GRPC (stub_ d) (create_eg request);
    (if negb (grpc_ok response) && (grpc_UNAVAILABLE =? grpc_code response)
     then return_ (Error UNAVAILABLE (unavailable_message (nrtd_address_ d)))
     else ret tt);;
    NRT_CHECK_RETURN NERR_OK "create_eg" response;;
    modify (set_num_cores_ (r_nc_count response));;
    modify (set_eg_id_ (r_h_eg response));;
    modify (set_create_eg_done_ true);;
    modify (set_running_nn_id_ NRT_INVALID_NN_ID);;
    ret OK).

(** The output parameter [*nn_id] is written last, after the set. *)
Definition load (executable : list byte) (timeout ninfer : Z)
    : M NeuronDevice (Status * option Z) :=
  fn_out (
    d ← get;
    response ← load_stream_body NERR_OK EXEC_MAX_CHUNK_SIZE (stub_ d) (eg_id_ d)
                 executable timeout ninfer;
    modify (fun d => set_nn_id_set_ ({[ r_h_nn response ]} ∪ nn_id_set_ d) d);;
    ret (r_h_nn response)).

Definition unload (nn_id : Z) : M NeuronDevice unit :=
  modify (fun d => set_nn_id_set_ (nn_id_set_ d ∖ {[ nn_id ]}) d);;
  (* stop *)
  d ← get;
  (if running d nn_id then
     response ← NRT_GRPC (stub_ d) (stop nn_id);
     NRT_CHECK_LOG NERR_OK "stop" response;;
     set_running NRT_INVALID_NN_ID
   else ret tt);;
  (* unload *)
  d ← get;
  if negb (NRT_INVALID_NN_ID =? nn_id) then
    response ← NRT_GRPC (stub_ d) (Nrt.unload nn_id);
    NRT_CHECK_LOG NERR_OK "unload" response
  else ret tt.

Definition start_model (nn_id : Z) : M NeuronDevice Status :=
  fn (
    d ← get;
    (if negb (create_eg_done_ d)
     then return_ (Error INTERNAL "neuron_device is not initialized")
     else ret tt);;
    (if negb (running d nn_id) && is_busy d then
       (* if nn_id is not running, stop the current running model *)
       response ← NRT_GRPC (stub_ d) (stop (nn_get_current_running d));
       NRT_CHECK_RETURN NERR_OK "stop" response;;
       set_running NRT_INVALID_NN_ID
     else ret tt);;
    d ← get;
    (if negb (is_busy d) then
       (* if no model is running, start nn_id *)
       response ← NRT_GRPC (stub_ d) (start nn_id);
       NRT_CHECK_RETURN NERR_OK "start" response;;
       set_running nn_id
     else ret tt);;
    ret OK).

(** The state of [infer] and [infer_wait] is the device and the tensors that
    [output_tensors] points to; [timestamps_given] and [profile_given] say
    that the pointers are not null. *)
Definition on_device {A} (m : M NeuronDevice A) : M (NeuronDevice * list Tensor) A :=
  zoom (fun st => Some (fst st)) (fun d st => (d, snd st)) m.

Definition on_outputs {A} (m : M (list Tensor) A) : M (NeuronDevice * list Tensor) A :=
  zoom (fun st => Some (snd st)) (fun ts st => (fst st, ts)) m.

(** [infer], in the three parts its call to the daemon divides it in: the
    request it builds, the call, and what it does with the response. *)
Definition infer_build_request (nn_id : Z) (input_names output_names : list string)
    (input_tensors : list Tensor) (shm : SharedMemoryManager)
    : M (NeuronDevice * list Tensor) infer_request :=
  ifmap ← add_ifmap tensor_data (SharedMemoryManager.enabled_ shm)
            (SharedMemoryManager.input_names_ shm)
            (SharedMemoryManager.input_ptrs_ shm)
            (SharedMemoryManager.input_sizes_ shm) input_names input_tensors;
  shm_ofmap ←
    (if SharedMemoryManager.enabled_ shm
     then add_shm_ofmap (SharedMemoryManager.output_names_ shm) output_names
     else ret []);
  ret {| h_nn := nn_id; ifmap := ifmap; shm_ofmap := shm_ofmap |}.

(** After the check: the outputs are taken from the mapped buffers or from
    the response and copied to the output tensors. *)
Definition infer_deliver (output_names : list string) (shm : SharedMemoryManager)
    (response : reply) : M (NeuronDevice * list Tensor) Status :=
  response ←
    (if SharedMemoryManager.enabled_ shm
     then add_response_ofmap (SharedMemoryManager.output_ptrs_ shm)
            (SharedMemoryManager.output_sizes_ shm) output_names response
     else ret response);
  TF_RETURN_IF_ERROR
    (on_outputs (copy_output_tensors tensor_memcpy response output_names));;
  ret OK.

Definition infer_response (profile_given : bool) (output_names : list string)
    (shm : SharedMemoryManager) (response : reply)
    : M (NeuronDevice * list Tensor) Status :=
  (* ignore inf/nan errors *)
  let response := ignore_num_err NERR_OK NERR_INFER_COMPLETED_WITH_NUM_ERR response in
  enabled ← profile_enabled_ profile_given;
  (if enabled : bool then perform stop_session;; ret tt else ret tt);;
  NRT_CHECK_RETURN NERR_OK "infer" response;;
  infer_deliver output_names shm response.

Definition infer_call (timestamps_given profile_given : bool) (request : infer_request)
    (output_names : list string) (shm : SharedMemoryManager)
    : M (NeuronDevice * list Tensor) Status :=
  (* infer *)
  mark timestamps_given mark_above_nrtd_infer;;
  st ← get;
  response ← NRT_GRPC (stub_ (fst st)) (Nrt.infer request);
  mark timestamps_given mark_below_nrtd_infer;;
  infer_response profile_given output_names shm response.

Definition infer (timestamps_given profile_given : bool) (nn_id : Z)
    (input_names output_names : list string)
    (input_tensors : list Tensor) (shm : SharedMemoryManager)
    : M (NeuronDevice * list Tensor) Status :=
  fn (
    TF_RETURN_IF_ERROR (on_device (start_model nn_id));;
    enabled ← profile_enabled_ profile_given;
    (if enabled : bool
     then st ← get; perform (start_session (nrtd_address_ (fst st)) nn_id);; ret tt
     else ret tt);;
    request ← infer_build_request nn_id input_names output_names input_tensors shm;
    infer_call timestamps_given profile_given request output_names shm).

Definition infer_post_unsafe (timestamps_given : bool) (nn_id : Z)
    (input_names : list string) (input_tensors : list Tensor)
    : M NeuronDevice (Status * option Z) :=
  fn_out (
    TF_RETURN_IF_ERROR (start_model nn_id);;
    ifmap ← add_ifmap_inline tensor_data input_names input_tensors;
    let request := {| h_nn := nn_id; ifmap := ifmap; shm_ofmap := [] |} in
    (* infer *)
    (if timestamps_given then mark timestamps_given mark_above_nrtd_infer else ret tt);;
    d ← get;
    response ← NRT_GRPC (stub_ d) (Nrt.infer_post request);
    NRT_CHECK_RETURN NERR_OK "infer_post" response;;
    ret (r_cookie response)).

(** The lock and the semaphore slot order callers; one caller at a time is
    what the model runs. *)
Definition infer_post (timestamps_given : bool) (nn_id : Z) (input_names : list string)
    (input_tensors : list Tensor) : M NeuronDevice (Status * option Z) :=
  infer_post_unsafe timestamps_given nn_id input_names input_tensors.

Definition infer_wait_deliver (output_names : list string) (response : reply)
    : M (NeuronDevice * list Tensor) Status :=
  TF_RETURN_IF_ERROR
    (on_outputs (copy_output_tensors tensor_memcpy response output_names));;
  ret OK.

Definition infer_wait_response (output_names : list string) (response : reply)
    : M (NeuronDevice * list Tensor) Status :=
  (* ignore inf/nan errors *)
  let response := ignore_num_err NERR_OK NERR_INFER_COMPLETED_WITH_NUM_ERR response in
  NRT_CHECK_RETURN NERR_OK "infer_wait" response;;
  infer_wait_deliver output_names response.

Definition infer_wait (timestamps_given : bool) (cookie : Z) (output_names : list string)
    : M (NeuronDevice * list Tensor) Status :=
  fn (
    (* infer_wait *)
    st ← get;
    response ← NRT_GRPC (stub_ (fst st)) (Nrt.infer_wait cookie);
    (if timestamps_given then mark timestamps_given mark_below_nrtd_infer else ret tt);;
    infer_wait_response output_names response).

(** [for (uint32_t nn_id : nn_id_set_)]: a [std::set] is walked in
    increasing order. *)
Definition clear : M NeuronDevice unit :=
  d ← get;
  for_each (merge_sort Z.le (elements (nn_id_set_ d))) (fun nn_id =>
    (* stop *)
    d ← get;
    (if running d nn_id then
       response ← NRT_GRPC (stub_ d) (stop nn_id);
       NRT_CHECK_LOG NERR_OK "stop" response;;
       set_running NRT_INVALID_NN_ID
     else ret tt);;
    (* unload *)
    response ← NRT_GRPC (stub_ d) (Nrt.unload nn_id);
    NRT_CHECK_LOG NERR_OK "unload" response);;
  modify (set_nn_id_set_ ∅);;
  d ← get;
  if create_eg_done_ d then
    (* destroy_eg *)
    response ← NRT_GRPC (stub_ d) (destroy_eg (eg_id_ d));
    NRT_CHECK_LOG NERR_OK "destroy_eg" response;;
    modify (set_create_eg_done_ false)
  else ret tt.

(** *** start_model *)

(** The group was created: [initialize] went through. *)
Definition created (d : NeuronDevice) : Prop :=
  create_eg_done_ d = true /\ is_Some (stub_ d).

Lemma running_is_busy d nn_id : running d nn_id = true -> is_busy d = true.
Proof.
  unfold running, is_busy. intros [_ H]%andb_true_iff.
  by rewrite Z.eqb_sym.
Qed.

Ltac exec :=
  cbv beta iota zeta delta
    [mbind mret M_bind M_ret bind ret fn fn_out return_ undefined get put modify
     TF_RETURN_IF_ERROR NRT_GRPC NRT_CHECK_RETURN NRT_CHECK_LOG zoom
     set_running nn_get_current_running on_device on_outputs].

(** The model asked for is the one running: nothing is sent. *)
Lemma start_model_running nn_id d w :
  created d -> running d nn_id = true ->
  start_model nn_id d w = (Val OK, d, w).
Proof.
  intros [Hc [stub Hs]] Hr. unfold start_model. exec.
  rewrite Hc. simpl. rewrite Hr. simpl. rewrite (running_is_busy _ _ Hr). reflexivity.
Qed.

(** No model is running: one start. *)
Lemma start_model_idle nn_id d w :
  created d -> is_busy d = false ->
  start_model nn_id d w =
    if nrt_failed NERR_OK (answer w [] (start nn_id))
    then (Val (Error INTERNAL (nrt_error_message "start" (answer w [] (start nn_id)))),
          d, extend w [start nn_id])
    else (Val OK, set_running_nn_id_ nn_id d, extend w [start nn_id]).
Proof.
  intros [Hc [stub Hs]] Hb. unfold start_model. exec.
  rewrite Hc. simpl. rewrite Hb, andb_false_r. simpl. rewrite Hb, Hs. simpl.
  unfold answer, extend. rewrite app_nil_r.
  destruct (nrt_failed NERR_OK (oracle w (calls w) (start nn_id))); reflexivity.
Qed.

(** Another model is running: one stop, and one start if the stop went
    through. *)
Lemma start_model_switch nn_id d w :
  created d -> running d nn_id = false -> is_busy d = true ->
  let cur := running_nn_id_ d in
  start_model nn_id d w =
    if nrt_failed NERR_OK (answer w [] (stop cur))
    then (Val (Error INTERNAL (nrt_error_message "stop" (answer w [] (stop cur)))),
          d, extend w [stop cur])
    else if nrt_failed NERR_OK (answer w [stop cur] (start nn_id))
    then (Val (Error INTERNAL
                 (nrt_error_message "start" (answer w [stop cur] (start nn_id)))),
          set_running_nn_id_ NRT_INVALID_NN_ID d, extend w [stop cur; start nn_id])
    else (Val OK, set_running_nn_id_ nn_id (set_running_nn_id_ NRT_INVALID_NN_ID d),
          extend w [stop cur; start nn_id]).
Proof.
  intros [Hc [stub Hs]] Hr Hb cur. unfold start_model. exec.
  rewrite Hc. simpl. rewrite Hr, Hb, Hs. simpl. fold cur.
  unfold answer, extend. rewrite app_nil_r.
  destruct (nrt_failed NERR_OK (oracle w (calls w) (stop cur))); [reflexivity|].
  unfold is_busy at 1. simpl. rewrite Z.eqb_refl. simpl. rewrite Hs. simpl.
  replace ((calls w ++ [stop cur]) ++ [start nn_id])
    with (calls w ++ [stop cur; start nn_id]) by (by rewrite <- app_assoc).
  destruct (nrt_failed NERR_OK (oracle w (calls w ++ [stop cur]) (start nn_id)));
    reflexivity.
Qed.

(** *** infer after start_model *)

(** Neither a start nor a stop. *)
Definition quiet (c : call) : Prop := is_start c = false /\ is_stop c = false.

Lemma count_quiet made :
  Forall quiet made -> count is_start made = 0%nat /\ count is_stop made = 0%nat.
Proof.
  induction 1 as [|c made [H1 H2] _ [IH1 IH2]]; [done|].
  unfold count in *. simpl. by rewrite H1, H2.
Qed.

Lemma shm_access_quiet c : is_shm_access c -> quiet c.
Proof. by destruct c. Qed.

(** What [infer] does once [start_model] has returned OK. *)
Definition infer_rest (timestamps_given profile_given : bool) (nn_id : Z)
    (input_names output_names : list string)
    (input_tensors : list Tensor) (shm : SharedMemoryManager)
    : M (NeuronDevice * list Tensor) Status :=
  enabled ← profile_enabled_ profile_given;
  (if enabled : bool
   then st ← get; perform (start_session (nrtd_address_ (fst st)) nn_id);; ret tt
   else ret tt);;
  request ← infer_build_request nn_id input_names output_names input_tensors shm;
  infer_call timestamps_given profile_given request output_names shm.

Lemma emits_infer_rest timestamps_given profile_given nn_id input_names output_names
    input_tensors shm :
  emits quiet (fn (infer_rest timestamps_given profile_given nn_id input_names
      output_names input_tensors shm)).
Proof.
  unfold infer_rest, infer_build_request, infer_call, infer_response, infer_deliver,
    on_outputs, mark, profile_enabled_.
  emits_auto.
  - eapply emits_weaken; [apply shm_access_quiet | apply emits_add_ifmap].
  - eapply emits_weaken; [apply shm_access_quiet | apply emits_add_shm_ofmap].
  - eapply emits_weaken; [apply shm_access_quiet | apply emits_add_response_ofmap].
  - apply emits_copy_output_tensors.
Qed.

Lemma keeps_infer_rest timestamps_given profile_given nn_id input_names output_names
    input_tensors shm :
  keeps fst (fn (infer_rest timestamps_given profile_given nn_id input_names output_names
      input_tensors shm)).
Proof.
  unfold infer_rest, infer_build_request, infer_call, infer_response, infer_deliver,
    on_outputs, mark, profile_enabled_.
  keeps_auto.
  - apply keeps_add_ifmap.
  - apply keeps_add_shm_ofmap.
  - apply keeps_add_response_ofmap.
Qed.

Lemma infer_unfold timestamps_given profile_given nn_id input_names output_names
    input_tensors shm d outs w :
  infer timestamps_given profile_given nn_id input_names output_names input_tensors shm
      (d, outs) w =
    match start_model nn_id d w with
    | (Val s, d', w') =>
        if ok s
        then fn (infer_rest timestamps_given profile_given nn_id input_names output_names
            input_tensors shm) (d', outs) w'
        else (Val s, (d', outs), w')
    | (Return s, d', w') => (Val s, (d', outs), w')
    | (Undefined, d', w') => (Undefined, (d', outs), w')
    end.
Proof.
  unfold infer. rewrite fn_first. unfold on_device, zoom. simpl.
  by destruct (start_model nn_id d w) as [[[s | s |] d'] w'].
Qed.

(** [infer] for the model that is running sends neither start nor stop. *)
Lemma infer_same_model timestamps_given profile_given nn_id input_names output_names
    input_tensors shm d outs w :
  created d -> running d nn_id = true ->
  exists made,
    calls (infer timestamps_given profile_given nn_id input_names output_names
        input_tensors shm (d, outs) w).2
      = calls w ++ made
    /\ count is_start made = 0%nat /\ count is_stop made = 0%nat.
Proof.
  intros Hc Hr. rewrite infer_unfold, start_model_running by done. simpl.
  destruct (emits_infer_rest timestamps_given profile_given nn_id input_names
      output_names input_tensors shm (d, outs) w)
    as (made & Hcalls & _ & Hq).
  exists made. split; [done|]. by apply count_quiet.
Qed.

(** [infer] for another model than the one that is running sends one stop,
    and one start if the stop went through. *)
Lemma infer_other_model timestamps_given profile_given nn_id input_names output_names
    input_tensors shm d outs w :
  created d -> running d nn_id = false -> is_busy d = true ->
  exists made,
    calls (infer timestamps_given profile_given nn_id input_names output_names
        input_tensors shm (d, outs) w).2
      = calls w ++ made
    /\ count is_stop made = 1%nat
    /\ count is_start made
       = if nrt_failed NERR_OK (answer w [] (stop (running_nn_id_ d))) then 0%nat else
           1%nat.
Proof.
  intros Hc Hr Hb. rewrite infer_unfold, start_model_switch by done. simpl.
  destruct (nrt_failed NERR_OK (answer w [] (stop (running_nn_id_ d)))).
  { simpl. by exists [stop (running_nn_id_ d)]. }
  destruct (nrt_failed NERR_OK (answer w [stop (running_nn_id_ d)] (start nn_id))).
  { simpl. by exists [stop (running_nn_id_ d); start nn_id]. }
  simpl.
  match goal with |- context [fn ?rest ?st ?w'] =>
    destruct (emits_infer_rest timestamps_given profile_given nn_id input_names
        output_names input_tensors shm st w')
      as (made & Hcalls & _ & Hq)
  end.
  exists ([stop (running_nn_id_ d); start nn_id] ++ made).
  rewrite Hcalls. unfold extend. simpl. rewrite <- app_assoc. split; [done|].
  destruct (count_quiet _ Hq) as [H1 H2].
  unfold count in *. simpl. by rewrite H1, H2.
Qed.

(** An [infer] that returns OK leaves its model running. *)
Lemma infer_ok_running timestamps_given profile_given nn_id input_names output_names
    input_tensors shm d outs w :
  created d -> nn_id <> NRT_INVALID_NN_ID ->
  (infer timestamps_given profile_given nn_id input_names output_names input_tensors shm
      (d, outs) w).1.1 = Val OK ->
  let d' := (infer timestamps_given profile_given nn_id input_names output_names
      input_tensors shm (d, outs) w).1.2.1 in
  created d' /\ running d' nn_id = true.
Proof.
  intros Hc Hvalid. rewrite infer_unfold.
  assert (Hrun : forall d0 : NeuronDevice, running_nn_id_ d0 = nn_id -> running d0 nn_id
      = true).
  { intros d0 H0. unfold running. rewrite H0, Z.eqb_refl. simpl.
    apply negb_true_iff, Z.eqb_neq. done. }
  assert (Hrest : forall d0 w0,
            (fn (infer_rest timestamps_given profile_given nn_id input_names output_names
                input_tensors shm) (d0, outs) w0).1.2.1
            = d0).
  { intros. apply (keeps_infer_rest timestamps_given profile_given nn_id input_names
      output_names input_tensors shm). }
  destruct (running d nn_id) eqn:Hr.
  { rewrite start_model_running by done. simpl. intros _. by rewrite Hrest. }
  destruct (is_busy d) eqn:Hb.
  - rewrite start_model_switch by done.
    destruct (nrt_failed NERR_OK (answer w [] (stop (running_nn_id_ d)))); [done|].
    destruct (nrt_failed NERR_OK (answer w [stop (running_nn_id_ d)] (start nn_id)));
      [done|].
    simpl. intros _. rewrite Hrest. split; [apply Hc | by apply Hrun].
  - rewrite start_model_idle by done.
    destruct (nrt_failed NERR_OK (answer w [] (start nn_id))); [done|].
    simpl. intros _. rewrite Hrest. split; [apply Hc | by apply Hrun].
Qed.

(** The calls a run has added to the log. *)
Definition made_by (w w' : World) : list call := drop (length (calls w)) (calls w').

(** C1 as the specification words it: a call sends at most one stop and at
    most one start; with another model running it sends one stop and clears
    the running id, and then, no model running, sends one start and records
    [nn_id]; with [nn_id] running it sends nothing. *)
Definition start_model_as_specified (nn_id : Z) (d : NeuronDevice) (w : World) : Prop :=
  let '(_, d', w') := start_model nn_id d w in
  let made := made_by w w' in
  (count is_stop made <= 1)%nat /\ (count is_start made <= 1)%nat
  /\ (is_busy d = true -> running d nn_id = false ->
        count is_stop made = 1%nat /\ count is_start made = 1%nat
        /\ running_nn_id_ d' = nn_id)
  /\ (is_busy d = false ->
        count is_stop made = 0%nat /\ count is_start made = 1%nat
        /\ running_nn_id_ d' = nn_id)
  /\ (running d nn_id = true -> made = []).

(** C1, amended.  On a group that was created, [start_model nn_id] returns,
    having sent at most one stop and at most one start:
    - with [nn_id] running it sends nothing and changes nothing;
    - with another model running it sends one stop for that model; when the
      stop fails it returns the error, sends no start and leaves the running
      id as it was; when the stop succeeds it clears the running id and sends
      one start for [nn_id], which is recorded as running when the start
      succeeds, while a failed start leaves no model recorded;
    - with no model running it sends one start for [nn_id], recorded as
      running when the start succeeds.
    Consequently, after an [infer m1] that returned OK for a valid [m1], an
    [infer m1] sends neither start nor stop, and an [infer m2] for another
    model sends exactly one stop, and exactly one start unless that stop
    fails. *)
Theorem start_model_rpcs nn_id d w :
  created d ->
  let cur := running_nn_id_ d in
  (exists st d' made,
     start_model nn_id d w = (Val st, d', extend w made)
     /\ (count is_stop made <= 1)%nat /\ (count is_start made <= 1)%nat
     /\ (running d nn_id = true -> made = [] /\ d' = d /\ st = OK)
     /\ (is_busy d = true -> running d nn_id = false ->
           if nrt_failed NERR_OK (answer w [] (stop cur))
           then made = [stop cur] /\ d' = d /\ st <> OK
           else made = [stop cur; start nn_id]
                /\ if nrt_failed NERR_OK (answer w [stop cur] (start nn_id))
                   then running_nn_id_ d' = NRT_INVALID_NN_ID /\ st <> OK
                   else running_nn_id_ d' = nn_id /\ st = OK)
     /\ (is_busy d = false ->
           made = [start nn_id]
           /\ if nrt_failed NERR_OK (answer w [] (start nn_id))
              then d' = d /\ st <> OK
              else running_nn_id_ d' = nn_id /\ st = OK))
  /\ (forall m2 timestamps_given profile_given input_names output_names input_tensors
             shm outs
             timestamps_given' profile_given' input_names' output_names' input_tensors'
             shm' outs',
        nn_id <> NRT_INVALID_NN_ID ->
        let first := infer timestamps_given profile_given nn_id input_names
                       output_names input_tensors shm (d, outs) w in
        first.1.1 = Val OK ->
        let d1 := first.1.2.1 in
        let w1 := first.2 in
        (exists made,
           calls (infer timestamps_given' profile_given' nn_id input_names'
                    output_names' input_tensors' shm' (d1, outs') w1).2
             = calls w1 ++ made
           /\ count is_start made = 0%nat /\ count is_stop made = 0%nat)
        /\ (m2 <> nn_id ->
            exists made,
              calls (infer timestamps_given' profile_given' m2 input_names'
                       output_names' input_tensors' shm' (d1, outs') w1).2
                = calls w1 ++ made
              /\ count is_stop made = 1%nat
              /\ count is_start made
                 = if nrt_failed NERR_OK (answer w1 [] (stop nn_id))
                   then 0%nat else 1%nat)).
Proof.
  intros Hc cur. split.
  - destruct (running d nn_id) eqn:Hr; [|destruct (is_busy d) eqn:Hb].
    + exists OK, d, []. rewrite start_model_running, extend_nil by done.
      rewrite (running_is_busy _ _ Hr).
      repeat split; intros; try done; unfold count; simpl; lia.
    + rewrite start_model_switch by done. fold cur.
      destruct (nrt_failed NERR_OK (answer w [] (stop cur))) eqn:Hstop.
      { eexists _, _, _. split; [reflexivity|]. rewrite ?Hstop.
        repeat split; intros; try done; unfold count; simpl; lia. }
      destruct (nrt_failed NERR_OK (answer w [stop cur] (start nn_id))) eqn:Hstart.
      { eexists _, _, _. split; [reflexivity|]. rewrite ?Hstop, ?Hstart.
        repeat split; intros; try done; unfold count; simpl; lia. }
      eexists _, _, _. split; [reflexivity|]. rewrite ?Hstop, ?Hstart.
      repeat split; intros; try done; unfold count; simpl; lia.
    + rewrite start_model_idle by done.
      destruct (nrt_failed NERR_OK (answer w [] (start nn_id))) eqn:Hstart.
      { eexists _, _, _. split; [reflexivity|].
        repeat split; intros; try done; unfold count; simpl; lia. }
      eexists _, _, _. split; [reflexivity|].
      repeat split; intros; try done; unfold count; simpl; lia.
  - intros m2 timestamps_given profile_given input_names output_names input_tensors
           shm outs timestamps_given' profile_given' input_names' output_names'
           input_tensors' shm' outs' Hvalid first Hok d1 w1.
    destruct (infer_ok_running timestamps_given profile_given nn_id input_names
        output_names input_tensors shm d outs w
                Hc Hvalid Hok) as [Hc1 Hr1].
    fold first in Hc1, Hr1. fold d1 in Hc1, Hr1.
    assert (Hcur : running_nn_id_ d1 = nn_id).
    { unfold running in Hr1. apply andb_true_iff in Hr1 as [H _]. by apply Z.eqb_eq in H. }
    split.
    + by apply infer_same_model.
    + intros Hne.
      pose proof (infer_other_model timestamps_given' profile_given' m2 input_names'
          output_names' input_tensors' shm'
                    d1 outs' w1 Hc1) as Hother.
      rewrite Hcur in Hother. apply Hother; [|by eapply running_is_busy].
      unfold running. rewrite Hcur. apply andb_false_iff. left.
      apply Z.eqb_neq. congruence.
Qed.

(** *** initialize *)

(** The request [initialize] sends for [num_cores_req] cores. *)
Definition create_eg_for (num_cores_req : Z) : call :=
  create_eg (if 0 <=? num_cores_req then Some num_cores_req else None).

(** [initialize] always returns.  It makes a channel, a stub and the
    create_eg call, in this order, and stops at the first that fails; when it
    returns OK all three were made and the group is created, with no model
    running; when it fails the group is not marked as created by it. *)
Lemma initialize_cases nrtd_address num_cores_req d w :
  exists st d' made,
    initialize nrtd_address num_cores_req d w = (Val st, d', extend w made)
    /\ (made = [CreateCustomChannel nrtd_address]
        \/ made = [CreateCustomChannel nrtd_address; NewStub]
        \/ made = [CreateCustomChannel nrtd_address; NewStub; create_eg_for num_cores_req])
    /\ (st = OK ->
          made = [CreateCustomChannel nrtd_address; NewStub; create_eg_for num_cores_req]
          /\ created d' /\ running_nn_id_ d' = NRT_INVALID_NN_ID
          /\ nn_id_set_ d' = nn_id_set_ d)
    /\ (st <> OK -> create_eg_done_ d' = create_eg_done_ d).
Proof.
  unfold initialize, init_stub, create_eg_for.
  cbv beta iota zeta delta
    [mbind mret M_bind M_ret bind ret fn return_ get modify TF_RETURN_IF_ERROR
     NRT_CHECK_RETURN perform]. simpl.
  destruct (r_ok (oracle w (calls w) (CreateCustomChannel nrtd_address))); simpl.
  2: { eexists _, _, [CreateCustomChannel nrtd_address].
       split; [reflexivity|]. split; [by left|]. by split. }
  destruct (r_ok (oracle w (calls w ++ [CreateCustomChannel nrtd_address]) NewStub)); simpl.
  2: { eexists _, _, [CreateCustomChannel nrtd_address; NewStub].
       split; [unfold extend; simpl; by rewrite <- app_assoc|].
       split; [right; by left|]. by split. }
  set (request := create_eg (if 0 <=? num_cores_req then Some num_cores_req else None)).
  set (response := oracle w _ request).
  assert (Hcalls : ((calls w ++ [CreateCustomChannel nrtd_address]) ++ [NewStub]) ++ [request]
                   = calls w ++ [CreateCustomChannel nrtd_address; NewStub; request])
    by (by rewrite <- !app_assoc).
  rewrite Hcalls.
  destruct (negb (grpc_ok response) && _); simpl.
  { eexists _, _, [CreateCustomChannel nrtd_address; NewStub; request].
    split; [reflexivity|]. split; [right; by right|]. by split. }
  destruct (nrt_failed NERR_OK response); simpl.
  { eexists _, _, [CreateCustomChannel nrtd_address; NewStub; request].
    split; [reflexivity|]. split; [right; by right|]. by split. }
  eexists _, _, [CreateCustomChannel nrtd_address; NewStub; request].
  split; [reflexivity|]. split; [right; by right|]. split; [|done].
  intros _. split; [done|]. split; [|done]. split; [done | by eexists].
Qed.

(** X25.  [NeuronDevice::initialize] is [RuntimeGRPC::initialize] followed,
    when that returns OK, by [RuntimeGRPC::create_eg]: from the same world
    the two make the same calls and return the same status, and once the
    stub is made they hold the same stub.  When they return OK the device is
    marked as created with no model running, and its group id and number of
    cores are the ones [create_eg] writes out; when they fail these four
    fields of the device are as they were, and where no stub was made each
    keeps the stub it had (no channel) or both have none (no stub).  The
    address is recorded in every case, and the set of loaded models is never
    touched. *)
Theorem initialize_agrees nrtd_address num_cores_req d (r : RuntimeGRPC.RuntimeGRPC) w :
  let run := initialize nrtd_address num_cores_req d w in
  let made := RuntimeGRPC.initialize nrtd_address r w in
  let unchanged :=
    (eg_id_ run.1.2, num_cores_ run.1.2, create_eg_done_ run.1.2, running_nn_id_ run.1.2)
    = (eg_id_ d, num_cores_ d, create_eg_done_ d, running_nn_id_ d) in
  nrtd_address_ run.1.2 = nrtd_address
  /\ RuntimeGRPC.nrtd_address_ made.1.2 = nrtd_address
  /\ nn_id_set_ run.1.2 = nn_id_set_ d
  /\ match made.1.1 with
     | Val OK =>
         let asked := RuntimeGRPC.create_eg NERR_OK num_cores_req made.1.2 made.2 in
         run.2 = asked.2 /\ stub_ run.1.2 = RuntimeGRPC.stub_ asked.1.2
         /\ match asked.1.1 with
            | Val (OK, Some (eg_id, num_cores)) =>
                run.1.1 = Val OK
                /\ (eg_id_ run.1.2, num_cores_ run.1.2, create_eg_done_ run.1.2,
                    running_nn_id_ run.1.2)
                   = (eg_id, num_cores, true, NRT_INVALID_NN_ID)
            | Val (s, written) =>
                run.1.1 = Val s /\ s <> OK /\ written = None /\ unchanged
            | _ => False
            end
     | Val s =>
         run.1.1 = Val s /\ run.2 = made.2 /\ unchanged
         /\ ((stub_ run.1.2, RuntimeGRPC.stub_ made.1.2) = (stub_ d, RuntimeGRPC.stub_ r)
             \/ (stub_ run.1.2, RuntimeGRPC.stub_ made.1.2) = (None, None))
     | _ => False
     end.
Proof.
  unfold initialize, RuntimeGRPC.initialize, RuntimeGRPC.create_eg, init_stub,
    unavailable_message, RuntimeGRPC.unavailable_message.
  cbv beta iota zeta delta
    [mbind mret M_bind M_ret bind ret fn fn_out return_ get modify TF_RETURN_IF_ERROR
     NRT_CHECK_RETURN perform NRT_GRPC]. simpl.
  destruct (r_ok (oracle w (calls w) (CreateCustomChannel nrtd_address))); simpl.
  2: { repeat split; by left. }
  destruct (r_ok (oracle w (calls w ++ [CreateCustomChannel nrtd_address]) NewStub)); simpl.
  2: { repeat split; by right. }
  set (request := create_eg (if 0 <=? num_cores_req then Some num_cores_req else None)).
  set (response := oracle w _ request).
  destruct (negb (grpc_ok response) && _); simpl; [done|].
  destruct (nrt_failed NERR_OK response); simpl; done.
Qed.

(** *** load *)

(** C3.  With a stub and a positive chunk size, [load] (of [NeuronDevice] and
    of [RuntimeGRPC] alike) opens the stream and writes, in this order and
    each at most once: the execution-group handle, the executable's byte
    count, the model parameters, and the executable cut in chunks, which are
    not empty, are at most [EXEC_MAX_CHUNK_SIZE] long and put together give
    the executable.  The first write that fails ends the load at once: it
    returns the broken-stream internal error, writes no model id and leaves
    the group as it was.  When every write succeeds the stream is closed; a
    close that fails has the same three effects, and so has a response that
    does not pass the check.  Only a load that goes through adds the model id
    to the loaded set and writes it to the output parameter. *)
Theorem load_stream_order executable timeout ninfer d (r : RuntimeGRPC.RuntimeGRPC)
    eg_id w :
  is_Some (stub_ d) -> is_Some (RuntimeGRPC.stub_ r) -> 0 < EXEC_MAX_CHUNK_SIZE ->
  let pieces := chunks EXEC_MAX_CHUNK_SIZE (S (length executable)) executable 0 in
  let messages_of eg_id :=
    [h_eg eg_id; neff_size (Z.of_nat (length executable)); model_params timeout ninfer]
    ++ map neff_chunk pieces in
  (concat pieces = executable
   /\ Forall (fun chunk => 0 < Z.of_nat (length chunk) <= EXEC_MAX_CHUNK_SIZE) pieces)
  /\ (let '(l, all) :=
        written (oracle w) (calls w ++ [load_stream]) (messages_of (eg_id_ d)) in
      let stream := [load_stream] ++ map Write l in
      l = take (length l) (messages_of (eg_id_ d))
      /\ if all then
           l = messages_of (eg_id_ d)
           /\ if r_ok (answer w stream WritesDone) then
                let response := answer w (stream ++ [WritesDone]) Finish in
                if nrt_failed NERR_OK response then
                  load executable timeout ninfer d w
                  = (Val (Error INTERNAL (nrt_error_message "load" response), None), d,
                     extend w (stream ++ [WritesDone; Finish]))
                else
                  load executable timeout ninfer d w
                  = (Val (OK, Some (r_h_nn response)),
                     set_nn_id_set_ ({[ r_h_nn response ]} ∪ nn_id_set_ d) d,
                     extend w (stream ++ [WritesDone; Finish]))
              else
                load executable timeout ninfer d w
                = (Val (broken_stream, None), d, extend w (stream ++ [WritesDone]))
         else
           load executable timeout ninfer d w
           = (Val (broken_stream, None), d, extend w stream))
  /\ (let '(l, all) :=
        written (oracle w) (calls w ++ [load_stream]) (messages_of eg_id) in
      let stream := [load_stream] ++ map Write l in
      l = take (length l) (messages_of eg_id)
      /\ if all then
           l = messages_of eg_id
           /\ if r_ok (answer w stream WritesDone) then
                let response := answer w (stream ++ [WritesDone]) Finish in
                if nrt_failed NERR_OK response then
                  RuntimeGRPC.load NERR_OK EXEC_MAX_CHUNK_SIZE eg_id executable timeout
                    ninfer r w
                  = (Val (Error INTERNAL (nrt_error_message "load" response), None), r,
                     extend w (stream ++ [WritesDone; Finish]))
                else
                  RuntimeGRPC.load NERR_OK EXEC_MAX_CHUNK_SIZE eg_id executable timeout
                    ninfer r w
                  = (Val (OK, Some (r_h_nn response)), r,
                     extend w (stream ++ [WritesDone; Finish]))
              else
                RuntimeGRPC.load NERR_OK EXEC_MAX_CHUNK_SIZE eg_id executable timeout
                  ninfer r w
                = (Val (broken_stream, None), r, extend w (stream ++ [WritesDone]))
         else
           RuntimeGRPC.load NERR_OK EXEC_MAX_CHUNK_SIZE eg_id executable timeout ninfer r w
           = (Val (broken_stream, None), r, extend w stream)).
Proof.
  intros [stub Hs] [stub' Hs'] Hpos pieces messages_of. split; [|split].
  - split.
    + unfold pieces. rewrite chunks_concat by lia. done.
    + apply chunks_size; [done | lia].
  - pose proof (load_stream_body_run NERR_OK EXEC_MAX_CHUNK_SIZE Hpos stub (eg_id_ d)
                  executable timeout ninfer d w) as Hrun.
    pose proof (written_prefix (oracle w) (messages_of (eg_id_ d))
                  (calls w ++ [load_stream])) as (Hpre & Hall & _).
    unfold load_messages in Hrun. fold pieces in Hrun. fold (messages_of (eg_id_ d)) in Hrun.
    destruct (written (oracle w) (calls w ++ [load_stream]) (messages_of (eg_id_ d)))
      as [l all].
    simpl in Hpre, Hall. split; [exact Hpre|].
    unfold load, fn_out, mbind, M_bind, bind, get. rewrite Hs.
    destruct all.
    + split; [by apply Hall|].
      destruct (r_ok (answer w ([load_stream] ++ map Write l) WritesDone)).
      * cbv zeta in Hrun. cbv zeta.
        destruct (nrt_failed NERR_OK _); by rewrite Hrun.
      * by rewrite Hrun.
    + by rewrite Hrun.
  - pose proof (load_stream_body_run NERR_OK EXEC_MAX_CHUNK_SIZE Hpos stub' eg_id
                  executable timeout ninfer r w) as Hrun.
    pose proof (written_prefix (oracle w) (messages_of eg_id)
                  (calls w ++ [load_stream])) as (Hpre & Hall & _).
    unfold load_messages in Hrun. fold pieces in Hrun. fold (messages_of eg_id) in Hrun.
    destruct (written (oracle w) (calls w ++ [load_stream]) (messages_of eg_id))
      as [l all].
    simpl in Hpre, Hall. split; [exact Hpre|].
    unfold RuntimeGRPC.load, fn_out, mbind, M_bind, bind, get. rewrite Hs'.
    destruct all.
    + split; [by apply Hall|].
      destruct (r_ok (answer w ([load_stream] ++ map Write l) WritesDone)).
      * cbv zeta in Hrun. cbv zeta.
        destruct (nrt_failed NERR_OK _); by rewrite Hrun.
      * by rewrite Hrun.
    + by rewrite Hrun.
Qed.

(** *** The run of an inference *)

(** The writes of the input tensors to the mapped buffers, in the order of
    the names. *)
Definition shm_writes (ptrs : list Z) (input_names : list string)
    (input_tensors : list Tensor) : list call :=
  take (length input_names) (zip_with shm_write ptrs (tensor_data <$> input_tensors)).

(** The request that [infer] builds, and the writes it makes on the way:
    with shared memory the entries carry the paths of the buffers, without
    it the bytes of the tensors. *)
Definition request_of (enabled : bool) (in_paths out_paths : list string) (nn_id : Z)
    (input_names output_names : list string) (input_tensors : list Tensor)
    : infer_request :=
  if enabled then
    {| h_nn := nn_id; ifmap := zip_with shm_entry input_names in_paths;
       shm_ofmap := zip_with shm_entry output_names out_paths |}
  else
    {| h_nn := nn_id; ifmap := zip_with (inline_entry tensor_data) input_names input_tensors;
       shm_ofmap := [] |}.

Definition writes_of (enabled : bool) (ptrs : list Z) (input_names : list string)
    (input_tensors : list Tensor) : list call :=
  if enabled then shm_writes ptrs input_names input_tensors else [].

(** There is a tensor for each input name and, with shared memory, a path
    for each name and a mapping that each input tensor fits. *)
Definition request_defined (enabled : bool) (in_paths out_paths : list string)
    (ptrs sizes : list Z) (input_names output_names : list string)
    (input_tensors : list Tensor) : Prop :=
  (length input_names <= length input_tensors)%nat
  /\ (enabled = true ->
        (length input_names <= length in_paths)%nat
        /\ (length output_names <= length out_paths)%nat
        /\ forall idx, (idx < length input_names)%nat ->
             fits_at tensor_data ptrs sizes input_tensors idx = true).

(** The response whose outputs are copied: with shared memory the mapped
    output buffers are read and appended to it. *)
Definition delivered (enabled : bool) (out_ptrs out_sizes : list Z)
    (output_names : list string) (response : reply) (w : World) : reply :=
  if enabled
  then set_ofmap (r_ofmap response ++ mapped_ofmap w [] output_names out_ptrs out_sizes)
         response
  else response.

Definition reads_of (enabled : bool) (out_ptrs out_sizes : list Z)
    (output_names : list string) : list call :=
  if enabled then shm_reads output_names out_ptrs out_sizes else [].

Definition response_defined (enabled : bool) (out_ptrs out_sizes : list Z)
    (output_names : list string) : Prop :=
  enabled = true ->
  forall idx, (idx < length output_names)%nat -> reads_at out_ptrs out_sizes idx = true.

(** The session of the profiler that [infer] opens and closes when the
    profiler is enabled, as it is after the calls [made]. *)
Definition session (w : World) (made : list call) (c : call) : list call :=
  if r_ok (answer w made profile_enabled) then [c] else [].

(** The marks on the timestamps of a function that tests the pointer. *)
Definition marked (timestamps_given : bool) (c : call) : list call :=
  if timestamps_given then [c] else [].

Lemma build_request_run nn_id input_names output_names input_tensors shm
    (st : NeuronDevice * list Tensor) w :
  request_defined (SharedMemoryManager.enabled_ shm) (SharedMemoryManager.input_names_ shm)
    (SharedMemoryManager.output_names_ shm) (SharedMemoryManager.input_ptrs_ shm)
    (SharedMemoryManager.input_sizes_ shm) input_names output_names input_tensors ->
  infer_build_request nn_id input_names output_names input_tensors shm st w
  = (Val (request_of (SharedMemoryManager.enabled_ shm)
            (SharedMemoryManager.input_names_ shm) (SharedMemoryManager.output_names_ shm)
            nn_id input_names output_names input_tensors),
     st,
     extend w (writes_of (SharedMemoryManager.enabled_ shm)
                 (SharedMemoryManager.input_ptrs_ shm) input_names input_tensors)).
Proof.
  intros [Htensors Hshm]. unfold infer_build_request, request_of, writes_of.
  destruct (SharedMemoryManager.enabled_ shm).
  - destruct (Hshm eq_refl) as (Hin & Hout & Hfits).
    erewrite bind_val; [|by apply add_ifmap_shm_run]. cbv beta.
    erewrite bind_val; [|by apply add_shm_ofmap_run]. done.
  - erewrite bind_val;
      [|rewrite add_ifmap_plain_run, (proj2 (Nat.leb_le _ _) Htensors); reflexivity].
    cbv beta. erewrite bind_val; [|reflexivity]. by rewrite extend_nil.
Qed.

Lemma client_build_request_run nn_id input_names output_names input_tensors
    (shm : RuntimeGRPC.SharedMemory) (st : RuntimeGRPC.RuntimeGRPC * list Tensor) w :
  request_defined (RuntimeGRPC.enabled_ shm) (RuntimeGRPC.input_paths_ shm)
    (RuntimeGRPC.output_paths_ shm) (RuntimeGRPC.input_ptrs_ shm)
    (RuntimeGRPC.input_sizes_ shm) input_names output_names input_tensors ->
  RuntimeGRPC.infer_build_request tensor_data nn_id input_names output_names input_tensors
    shm st w
  = (Val (request_of (RuntimeGRPC.enabled_ shm) (RuntimeGRPC.input_paths_ shm)
            (RuntimeGRPC.output_paths_ shm) nn_id input_names output_names input_tensors),
     st,
     extend w (writes_of (RuntimeGRPC.enabled_ shm) (RuntimeGRPC.input_ptrs_ shm)
                 input_names input_tensors)).
Proof.
  intros [Htensors Hshm]. unfold RuntimeGRPC.infer_build_request, request_of, writes_of.
  destruct (RuntimeGRPC.enabled_ shm).
  - destruct (Hshm eq_refl) as (Hin & Hout & Hfits).
    erewrite bind_val; [|by apply add_ifmap_shm_run]. cbv beta.
    erewrite bind_val; [|by apply add_shm_ofmap_run]. done.
  - erewrite bind_val;
      [|rewrite add_ifmap_plain_run, (proj2 (Nat.leb_le _ _) Htensors); reflexivity].
    cbv beta. erewrite bind_val; [|reflexivity]. by rewrite extend_nil.
Qed.

(** The end of a call that delivers [response]: the status of the copy of
    its outputs, with the tensors the copy leaves. *)
Definition copy_outcome {D} (d : D) (response : reply) (output_names : list string)
    (outs : list Tensor) (w : World) : Res Status * (D * list Tensor) * World :=
  let copy := copy_output_tensors tensor_memcpy response output_names outs w in
  (copy.1.1, (d, copy.1.2), copy.2).

Lemma copy_last {D} response output_names
    (st : D * list Tensor) w :
  fn (TF_RETURN_IF_ERROR
        (zoom (fun st => Some (snd st)) (fun ts st => (fst st, ts))
           (copy_output_tensors tensor_memcpy response output_names));;
      ret OK) st w
  = copy_outcome (fst st) response output_names (snd st) w.
Proof.
  unfold copy_outcome. cbv zeta.
  unfold fn at 1, TF_RETURN_IF_ERROR, zoom, mbind, M_bind, bind, ret, return_.
  pose proof (copy_output_tensors_returns tensor_memcpy response output_names (snd st) w)
    as Hreturns.
  destruct (copy_output_tensors tensor_memcpy response output_names (snd st) w)
    as [[[s|s|] outs'] w']; cbn in *; [by destruct s | by destruct (Hreturns s) | done].
Qed.

(** A call delivers [response] when it ends as the copy of its outputs does;
    then, when every output name has an entry in the response and every copy
    succeeds, it returns OK without a further call, and each output tensor
    is the copy of its entry. *)
Definition delivers {D} (run : Res Status * (D * list Tensor) * World) (d : D)
    (response : reply) (output_names : list string) (outs : list Tensor) (w : World)
    : Prop :=
  run = copy_outcome d response output_names outs w
  /\ ((forall idx, (idx < length output_names)%nat ->
         exists copied,
           copy_of tensor_memcpy response output_names outs idx = Some (OK, copied)) ->
      run.1.1 = Val OK /\ fst run.1.2 = d /\ run.2 = w
      /\ forall idx, (idx < length output_names)%nat ->
           snd run.1.2 !! idx
           = snd <$> copy_of tensor_memcpy response output_names outs idx).

Lemma copy_outcome_delivers {D} (d : D) response output_names outs w :
  delivers (copy_outcome d response output_names outs w) d response output_names outs w.
Proof.
  split; [reflexivity|]. intros Hcopies.
  destruct (copy_output_tensors_all tensor_memcpy response output_names outs w Hcopies)
    as (Hstatus & Hworld & Htensors).
  unfold copy_outcome. by cbv zeta.
Qed.

Lemma profile_enabled_run {St} (st : St) w :
  profile_enabled_ true st w = (Val (r_ok (answer w [] profile_enabled)), st, w).
Proof. unfold profile_enabled_, observe, mbind, M_bind, bind, ret. by rewrite answer_nil. Qed.

Lemma mark_run {St} c (st : St) w : mark true c st w = (Val tt, st, extend w [c]).
Proof. unfold mark. by erewrite bind_val; [|apply perform_extend]. Qed.

Lemma guarded_mark_run {St} (timestamps_given : bool) c (st : St) w :
  (if timestamps_given then mark timestamps_given c else ret tt : M St unit) st w
  = (Val tt, st, extend w (marked timestamps_given c)).
Proof.
  unfold marked. destruct timestamps_given; [apply mark_run | by rewrite extend_nil].
Qed.

Lemma session_extend w made after c :
  session (extend w made) after c = session w (made ++ after) c.
Proof. unfold session. by rewrite answer_extend. Qed.

Lemma start_session_run nn_id d (outs : list Tensor) w :
  (if r_ok (answer w [] profile_enabled) : bool
   then st ← get; perform (start_session (nrtd_address_ (fst st)) nn_id);; ret tt
   else ret tt) (d, outs) w
  = (Val tt, (d, outs), extend w (session w [] (start_session (nrtd_address_ d) nn_id))).
Proof.
  unfold session. destruct (r_ok (answer w [] profile_enabled)).
  - erewrite bind_val; [|reflexivity]. simpl.
    by erewrite bind_val; [|apply perform_extend].
  - by rewrite extend_nil.
Qed.

Lemma stop_session_run {St} (st : St) w :
  (if r_ok (answer w [] profile_enabled) : bool then perform stop_session;; ret tt
   else ret tt) st w
  = (Val tt, st, extend w (session w [] stop_session)).
Proof.
  unfold session. destruct (r_ok (answer w [] profile_enabled)).
  - by erewrite bind_val; [|apply perform_extend].
  - by rewrite extend_nil.
Qed.

(** [NeuronDevice::infer] up to the response: the session of the profiler,
    the writes of the inputs, the mark, the call, the mark. *)
Lemma infer_rest_run nn_id input_names output_names input_tensors shm
    d outs w :
  is_Some (stub_ d) ->
  request_defined (SharedMemoryManager.enabled_ shm) (SharedMemoryManager.input_names_ shm)
    (SharedMemoryManager.output_names_ shm) (SharedMemoryManager.input_ptrs_ shm)
    (SharedMemoryManager.input_sizes_ shm) input_names output_names input_tensors ->
  let request := request_of (SharedMemoryManager.enabled_ shm)
                   (SharedMemoryManager.input_names_ shm)
                   (SharedMemoryManager.output_names_ shm)
                   nn_id input_names output_names input_tensors in
  let before := session w [] (start_session (nrtd_address_ d) nn_id)
                ++ writes_of (SharedMemoryManager.enabled_ shm)
                     (SharedMemoryManager.input_ptrs_ shm) input_names input_tensors
                ++ [mark_above_nrtd_infer] in
  fn (infer_rest true true nn_id input_names output_names input_tensors shm) (d, outs) w
  = fn (infer_response true output_names shm (answer w before (Nrt.infer request)))
      (d, outs) (extend w (before ++ [Nrt.infer request; mark_below_nrtd_infer])).
Proof.
  intros [stub Hs] Hrequest. cbv zeta. unfold infer_rest.
  erewrite fn_bind_val; [|apply profile_enabled_run].
  erewrite fn_bind_val; [|apply start_session_run].
  erewrite fn_bind_val; [|by apply build_request_run].
  unfold infer_call.
  erewrite fn_bind_val; [|apply mark_run].
  erewrite fn_bind_val; [|reflexivity]. simpl. rewrite Hs.
  erewrite fn_bind_val; [|apply perform_extend].
  erewrite fn_bind_val; [|apply mark_run].
  rewrite ?extend_extend, ?answer_extend, <- ?app_assoc, ?app_nil_r.
  reflexivity.
Qed.

(** A completed response: the session of the profiler is closed, the check
    passes and the outputs of the response, with the OK code, are copied. *)
Lemma infer_response_completed output_names shm response d outs w :
  completed NERR_OK NERR_INFER_COMPLETED_WITH_NUM_ERR response ->
  response_defined (SharedMemoryManager.enabled_ shm) (SharedMemoryManager.output_ptrs_ shm)
    (SharedMemoryManager.output_sizes_ shm) output_names ->
  let w1 := extend w (session w [] stop_session) in
  fn (infer_response true output_names shm response) (d, outs) w
  = copy_outcome d
      (delivered (SharedMemoryManager.enabled_ shm) (SharedMemoryManager.output_ptrs_ shm)
         (SharedMemoryManager.output_sizes_ shm) output_names
         (set_code NERR_OK response) w1)
      output_names outs
      (extend w1 (reads_of (SharedMemoryManager.enabled_ shm)
                    (SharedMemoryManager.output_ptrs_ shm)
                    (SharedMemoryManager.output_sizes_ shm) output_names)).
Proof.
  intros Hdone Hresponse. cbv zeta.
  destruct (ignore_num_err_completed _ _ _ Hdone) as [Hremap Hcheck].
  unfold infer_response. rewrite Hremap.
  erewrite fn_bind_val; [|apply profile_enabled_run].
  erewrite fn_bind_val; [|apply stop_session_run].
  unfold NRT_CHECK_RETURN. rewrite Hcheck.
  erewrite fn_bind_val; [|reflexivity].
  unfold infer_deliver, delivered, reads_of, response_defined in *.
  destruct (SharedMemoryManager.enabled_ shm).
  - erewrite fn_bind_val; [|apply add_response_ofmap_run; exact (Hresponse eq_refl)].
    unfold on_outputs. by rewrite copy_last.
  - erewrite fn_bind_val; [|reflexivity].
    unfold on_outputs. by rewrite copy_last, extend_nil.
Qed.

(** The same of [RuntimeGRPC::infer], which has no profiler, tests the
    pointers to the timestamps and to the output tensors, and is not
    preceded by [start_model]. *)
Lemma client_infer_run output_tensors_given timestamps_given nn_id input_names
    output_names input_tensors (shm : RuntimeGRPC.SharedMemory)
    (r : RuntimeGRPC.RuntimeGRPC) outs w :
  is_Some (RuntimeGRPC.stub_ r) ->
  request_defined (RuntimeGRPC.enabled_ shm) (RuntimeGRPC.input_paths_ shm)
    (RuntimeGRPC.output_paths_ shm) (RuntimeGRPC.input_ptrs_ shm)
    (RuntimeGRPC.input_sizes_ shm) input_names output_names input_tensors ->
  let request := request_of (RuntimeGRPC.enabled_ shm) (RuntimeGRPC.input_paths_ shm)
                   (RuntimeGRPC.output_paths_ shm)
                   nn_id input_names output_names input_tensors in
  let before := writes_of (RuntimeGRPC.enabled_ shm) (RuntimeGRPC.input_ptrs_ shm)
                  input_names input_tensors
                ++ marked timestamps_given mark_above_nrtd_infer in
  RuntimeGRPC.infer NERR_OK NERR_INFER_COMPLETED_WITH_NUM_ERR tensor_data tensor_memcpy
    output_tensors_given timestamps_given nn_id input_names output_names input_tensors
    shm (r, outs) w
  = fn (RuntimeGRPC.infer_response NERR_OK NERR_INFER_COMPLETED_WITH_NUM_ERR tensor_memcpy
          output_tensors_given output_names shm (answer w before (Nrt.infer request)))
      (r, outs)
      (extend w (before ++ [Nrt.infer request]
                 ++ marked timestamps_given mark_below_nrtd_infer)).
Proof.
  intros [stub Hs] Hrequest. cbv zeta. unfold RuntimeGRPC.infer.
  erewrite fn_bind_val; [|by apply client_build_request_run].
  unfold RuntimeGRPC.infer_call.
  erewrite fn_bind_val; [|apply guarded_mark_run].
  erewrite fn_bind_val; [|reflexivity]. simpl. rewrite Hs.
  erewrite fn_bind_val; [|apply perform_extend].
  erewrite fn_bind_val; [|apply guarded_mark_run].
  rewrite ?extend_extend, ?answer_extend, <- ?app_assoc, ?app_nil_r.
  reflexivity.
Qed.

Lemma client_response_completed output_tensors_given output_names
    (shm : RuntimeGRPC.SharedMemory) response (r : RuntimeGRPC.RuntimeGRPC) outs w :
  completed NERR_OK NERR_INFER_COMPLETED_WITH_NUM_ERR response ->
  response_defined (RuntimeGRPC.enabled_ shm) (RuntimeGRPC.output_ptrs_ shm)
    (RuntimeGRPC.output_sizes_ shm) output_names ->
  let w1 := extend w (reads_of (RuntimeGRPC.enabled_ shm) (RuntimeGRPC.output_ptrs_ shm)
                        (RuntimeGRPC.output_sizes_ shm) output_names) in
  fn (RuntimeGRPC.infer_response NERR_OK NERR_INFER_COMPLETED_WITH_NUM_ERR tensor_memcpy
        output_tensors_given output_names shm response) (r, outs) w
  = if output_tensors_given
    then copy_outcome r
           (delivered (RuntimeGRPC.enabled_ shm) (RuntimeGRPC.output_ptrs_ shm)
              (RuntimeGRPC.output_sizes_ shm) output_names (set_code NERR_OK response) w)
           output_names outs w1
    else (Val OK, (r, outs), w1).
Proof.
  intros Hdone Hresponse. cbv zeta.
  destruct (ignore_num_err_completed _ _ _ Hdone) as [Hremap Hcheck].
  unfold RuntimeGRPC.infer_response. rewrite Hremap.
  unfold NRT_CHECK_RETURN. rewrite Hcheck.
  erewrite fn_bind_val; [|reflexivity].
  unfold RuntimeGRPC.infer_deliver, delivered, reads_of, response_defined in *.
  destruct (RuntimeGRPC.enabled_ shm).
  - erewrite fn_bind_val; [|apply add_response_ofmap_run; exact (Hresponse eq_refl)].
    destruct output_tensors_given.
    + unfold RuntimeGRPC.on_outputs. by rewrite copy_last.
    + reflexivity.
  - erewrite fn_bind_val; [|reflexivity]. rewrite extend_nil.
    destruct output_tensors_given.
    + unfold RuntimeGRPC.on_outputs. by rewrite copy_last.
    + reflexivity.
Qed.

(** [infer_wait] of the two clients on a completed response. *)
Lemma infer_wait_completed timestamps_given cookie output_names d outs w :
  is_Some (stub_ d) ->
  completed NERR_OK NERR_INFER_COMPLETED_WITH_NUM_ERR (answer w [] (Nrt.infer_wait cookie)) ->
  infer_wait timestamps_given cookie output_names (d, outs) w
  = copy_outcome d (set_code NERR_OK (answer w [] (Nrt.infer_wait cookie)))
      output_names outs
      (extend w (Nrt.infer_wait cookie :: marked timestamps_given mark_below_nrtd_infer)).
Proof.
  intros [stub Hs] Hdone.
  destruct (ignore_num_err_completed _ _ _ Hdone) as [Hremap Hcheck].
  unfold infer_wait.
  erewrite fn_bind_val; [|reflexivity]. simpl. rewrite Hs.
  erewrite fn_bind_val; [|apply perform_extend].
  erewrite fn_bind_val; [|apply guarded_mark_run].
  unfold infer_wait_response. rewrite Hremap.
  unfold NRT_CHECK_RETURN. rewrite Hcheck.
  erewrite fn_bind_val; [|reflexivity].
  unfold infer_wait_deliver, on_outputs. by rewrite copy_last, extend_extend.
Qed.

Lemma client_infer_wait_completed timestamps_given cookie output_names
    (r : RuntimeGRPC.RuntimeGRPC) outs w :
  is_Some (RuntimeGRPC.stub_ r) ->
  completed NERR_OK NERR_INFER_COMPLETED_WITH_NUM_ERR (answer w [] (Nrt.infer_wait cookie)) ->
  RuntimeGRPC.infer_wait NERR_OK NERR_INFER_COMPLETED_WITH_NUM_ERR tensor_memcpy
    timestamps_given cookie output_names (r, outs) w
  = copy_outcome r (set_code NERR_OK (answer w [] (Nrt.infer_wait cookie)))
      output_names outs
      (extend w (Nrt.infer_wait cookie :: marked timestamps_given mark_below_nrtd_infer)).
Proof.
  intros [stub Hs] Hdone.
  destruct (ignore_num_err_completed _ _ _ Hdone) as [Hremap Hcheck].
  unfold RuntimeGRPC.infer_wait.
  erewrite fn_bind_val; [|reflexivity]. simpl. rewrite Hs.
  erewrite fn_bind_val; [|apply perform_extend].
  erewrite fn_bind_val; [|apply guarded_mark_run].
  unfold RuntimeGRPC.infer_wait_response. rewrite Hremap.
  unfold NRT_CHECK_RETURN. rewrite Hcheck.
  erewrite fn_bind_val; [|reflexivity].
  unfold RuntimeGRPC.infer_wait_deliver, RuntimeGRPC.on_outputs.
  by rewrite copy_last, extend_extend.
Qed.

(** *** Numeric errors *)

(** C4.  On each of the four paths that yield outputs ([infer] and
    [infer_wait] of [NeuronDevice] and of [RuntimeGRPC]), when the transport
    of the call succeeds and the daemon's status code is "completed with
    numeric error" or OK, the check passes and the call delivers the
    response with the OK code (with shared memory, that response and the
    mapped output buffers): it ends as [copy_output_tensors] on it does, so
    that it returns OK and each output tensor is the copy of its entry when
    every output name has an entry and every copy succeeds.  The response
    enters the result only with its code set to OK, so the result is the
    same whichever of the two codes the daemon sent, and for the OK code it
    is the response as sent.  [NeuronDevice::infer] is taken after a
    [start_model] that returned OK, with the timestamps and the profiler
    given; [RuntimeGRPC::infer] copies only when the output tensors are
    given, and returns OK when they are not. *)
Theorem numeric_error_is_success nn_id cookie input_names output_names input_tensors
    shm d outs output_tensors_given timestamps_given
    (shm' : RuntimeGRPC.SharedMemory) (client : RuntimeGRPC.RuntimeGRPC) outs' w :
  let completed := completed NERR_OK NERR_INFER_COMPLETED_WITH_NUM_ERR in
  (forall d0 w0,
     start_model nn_id d w = (Val OK, d0, w0) ->
     is_Some (stub_ d0) ->
     let enabled := SharedMemoryManager.enabled_ shm in
     request_defined enabled (SharedMemoryManager.input_names_ shm)
       (SharedMemoryManager.output_names_ shm) (SharedMemoryManager.input_ptrs_ shm)
       (SharedMemoryManager.input_sizes_ shm) input_names output_names input_tensors ->
     response_defined enabled (SharedMemoryManager.output_ptrs_ shm)
       (SharedMemoryManager.output_sizes_ shm) output_names ->
     let request := request_of enabled (SharedMemoryManager.input_names_ shm)
                      (SharedMemoryManager.output_names_ shm)
                      nn_id input_names output_names input_tensors in
     let before := session w0 [] (start_session (nrtd_address_ d0) nn_id)
                   ++ writes_of enabled (SharedMemoryManager.input_ptrs_ shm)
                        input_names input_tensors
                   ++ [mark_above_nrtd_infer] in
     let response := answer w0 before (Nrt.infer request) in
     let called := before ++ [Nrt.infer request; mark_below_nrtd_infer] in
     let w1 := extend w0 (called ++ session w0 called stop_session) in
     completed response ->
     delivers
       (infer true true nn_id input_names output_names input_tensors shm (d, outs) w)
       d0
       (delivered enabled (SharedMemoryManager.output_ptrs_ shm)
          (SharedMemoryManager.output_sizes_ shm) output_names
          (set_code NERR_OK response) w1)
       output_names outs
       (extend w1 (reads_of enabled (SharedMemoryManager.output_ptrs_ shm)
                     (SharedMemoryManager.output_sizes_ shm) output_names)))
  /\ (is_Some (RuntimeGRPC.stub_ client) ->
      let enabled := RuntimeGRPC.enabled_ shm' in
      request_defined enabled (RuntimeGRPC.input_paths_ shm')
        (RuntimeGRPC.output_paths_ shm') (RuntimeGRPC.input_ptrs_ shm')
        (RuntimeGRPC.input_sizes_ shm') input_names output_names input_tensors ->
      response_defined enabled (RuntimeGRPC.output_ptrs_ shm')
        (RuntimeGRPC.output_sizes_ shm') output_names ->
      let request := request_of enabled (RuntimeGRPC.input_paths_ shm')
                       (RuntimeGRPC.output_paths_ shm')
                       nn_id input_names output_names input_tensors in
      let before := writes_of enabled (RuntimeGRPC.input_ptrs_ shm')
                      input_names input_tensors
                    ++ marked timestamps_given mark_above_nrtd_infer in
      let response := answer w before (Nrt.infer request) in
      let w1 := extend w (before ++ [Nrt.infer request]
                          ++ marked timestamps_given mark_below_nrtd_infer) in
      let w2 := extend w1 (reads_of enabled (RuntimeGRPC.output_ptrs_ shm')
                             (RuntimeGRPC.output_sizes_ shm') output_names) in
      let run := RuntimeGRPC.infer NERR_OK NERR_INFER_COMPLETED_WITH_NUM_ERR tensor_data
                   tensor_memcpy output_tensors_given timestamps_given nn_id
                   input_names output_names input_tensors shm' (client, outs') w in
      completed response ->
      if output_tensors_given
      then delivers run client
             (delivered enabled (RuntimeGRPC.output_ptrs_ shm')
                (RuntimeGRPC.output_sizes_ shm') output_names
                (set_code NERR_OK response) w1)
             output_names outs' w2
      else run = (Val OK, (client, outs'), w2))
  /\ (is_Some (stub_ d) ->
      completed (answer w [] (Nrt.infer_wait cookie)) ->
      delivers (infer_wait timestamps_given cookie output_names (d, outs) w) d
        (set_code NERR_OK (answer w [] (Nrt.infer_wait cookie))) output_names outs
        (extend w (Nrt.infer_wait cookie
                   :: marked timestamps_given mark_below_nrtd_infer)))
  /\ (is_Some (RuntimeGRPC.stub_ client) ->
      completed (answer w [] (Nrt.infer_wait cookie)) ->
      delivers
        (RuntimeGRPC.infer_wait NERR_OK NERR_INFER_COMPLETED_WITH_NUM_ERR tensor_memcpy
           timestamps_given cookie output_names (client, outs') w)
        client
        (set_code NERR_OK (answer w [] (Nrt.infer_wait cookie))) output_names outs'
        (extend w (Nrt.infer_wait cookie
                   :: marked timestamps_given mark_below_nrtd_infer)))
  /\ (forall response, status_code_ response = NERR_OK ->
        set_code NERR_OK response = response).
Proof.
  cbv zeta. split; [|split; [|split; [|split]]].
  - intros d0 w0 Hstart Hs Hrequest Hresponse Hdone.
    rewrite infer_unfold, Hstart. simpl.
    rewrite infer_rest_run by done.
    rewrite infer_response_completed by done.
    rewrite ?session_extend, ?extend_extend, ?app_nil_r, <- ?app_assoc.
    apply copy_outcome_delivers.
  - intros Hs Hrequest Hresponse Hdone.
    rewrite client_infer_run by done.
    rewrite client_response_completed by done.
    rewrite ?extend_extend, <- ?app_assoc.
    destruct output_tensors_given; [apply copy_outcome_delivers | reflexivity].
  - intros Hs Hdone. rewrite infer_wait_completed by done.
    apply copy_outcome_delivers.
  - intros Hs Hdone. rewrite client_infer_wait_completed by done.
    apply copy_outcome_delivers.
  - intros [] Hcode. unfold set_code. simpl in *. by rewrite Hcode.
Qed.

(** *** unload *)

(** What a call that is only checked with [NRT_CHECK_LOG] writes to the log:
    one line when it fails. *)
Definition failure_line (fn_name : string) (response : reply) : list string :=
  if nrt_failed NERR_OK response then [nrt_error_message fn_name response] else [].

Lemma NRT_CHECK_LOG_line {St} fn_name response (st : St) w :
  NRT_CHECK_LOG NERR_OK fn_name response st w
  = (Val tt, st, advance w [] (failure_line fn_name response)).
Proof.
  unfold NRT_CHECK_LOG, failure_line.
  destruct (nrt_failed NERR_OK response).
  - unfold LOG, advance. by rewrite app_nil_r.
  - by rewrite advance_nil.
Qed.

(** X1.  On a device that has a stub, [unload nn_id] always runs to its end.
    It takes [nn_id] out of the set of loaded models, sends a stop for it when
    it is the model running, which leaves no model recorded as running, and
    then an unload, unless [nn_id] is the invalid id.  A call that fails
    writes one line to the log and changes nothing else.  The other fields of
    the device are as they were. *)
Theorem unload_effects nn_id d w :
  is_Some (stub_ d) ->
  let stops := if running d nn_id then [stop nn_id] else [] in
  let unloads := if NRT_INVALID_NN_ID =? nn_id then [] else [Nrt.unload nn_id] in
  let lines :=
    (if running d nn_id then failure_line "stop" (answer w [] (stop nn_id)) else [])
    ++ (if NRT_INVALID_NN_ID =? nn_id then []
        else failure_line "unload" (answer w stops (Nrt.unload nn_id))) in
  exists d',
    unload nn_id d w = (Val tt, d', advance w (stops ++ unloads) lines)
    /\ nn_id_set_ d' = nn_id_set_ d ∖ {[ nn_id ]}
    /\ running d' nn_id = false
    /\ running_nn_id_ d'
       = (if running d nn_id then NRT_INVALID_NN_ID else running_nn_id_ d)
    /\ (stub_ d', eg_id_ d', create_eg_done_ d', num_cores_ d', nrtd_address_ d')
       = (stub_ d, eg_id_ d, create_eg_done_ d, num_cores_ d, nrtd_address_ d).
Proof.
  intros [stub Hs]. cbv zeta. unfold unload.
  cbv beta iota zeta delta
    [mbind mret M_bind M_ret bind ret get modify NRT_GRPC set_running]. simpl.
  change (running (set_nn_id_set_ (nn_id_set_ d ∖ {[nn_id]}) d) nn_id)
    with (running d nn_id).
  assert (Hstopped : forall d0 : NeuronDevice,
            running (set_running_nn_id_ NRT_INVALID_NN_ID d0) nn_id = false).
  { intros d0. unfold running. simpl. rewrite Z.eqb_refl. apply andb_false_r. }
  destruct (running d nn_id) eqn:Hr; rewrite ?Hs; simpl.
  - rewrite NRT_CHECK_LOG_line. simpl.
    destruct (Z.eqb_spec NRT_INVALID_NN_ID nn_id) as [Hinv|Hinv]; simpl.
    + eexists. split; [f_equal; same_world|].
      split; [reflexivity|]. split; [apply Hstopped|]. simpl; by rewrite ?Hs.
    + rewrite ?Hs. simpl. rewrite NRT_CHECK_LOG_line. simpl.
      eexists. split; [f_equal; same_world|].
      split; [reflexivity|]. split; [apply Hstopped|]. simpl; by rewrite ?Hs.
  - destruct (Z.eqb_spec NRT_INVALID_NN_ID nn_id) as [Hinv|Hinv]; simpl.
    + eexists. split; [f_equal; same_world|].
      split; [reflexivity|]. split; [exact Hr|]. simpl; by rewrite ?Hs.
    + rewrite ?Hs. simpl. rewrite NRT_CHECK_LOG_line. simpl.
      eexists. split; [f_equal; same_world|].
      split; [reflexivity|]. split; [exact Hr|]. simpl; by rewrite ?Hs.
Qed.

(** *** clear *)

(** One turn of the loop of [clear]. *)
Definition clear_turn (nn_id : Z) : M NeuronDevice unit :=
  d ← get;
  (if running d nn_id then
     response ← NRT_GRPC (stub_ d) (stop nn_id);
     NRT_CHECK_LOG NERR_OK "stop" response;;
     set_running NRT_INVALID_NN_ID
   else ret tt);;
  response ← NRT_GRPC (stub_ d) (Nrt.unload nn_id);
  NRT_CHECK_LOG NERR_OK "unload" response.

(** The calls of a turn for the model [nn_id] on the device [d]. *)
Definition turn_calls (d : NeuronDevice) (nn_id : Z) : list call :=
  (if running d nn_id then [stop nn_id] else []) ++ [Nrt.unload nn_id].

Definition is_unload (c : call) : bool :=
  match c with Nrt.unload _ => true | _ => false end.

Definition is_destroy_eg (c : call) : bool :=
  match c with destroy_eg _ => true | _ => false end.

Lemma clear_turn_run nn_id d w :
  is_Some (stub_ d) ->
  exists lines,
    clear_turn nn_id d w
    = (Val tt, (if running d nn_id then set_running_nn_id_ NRT_INVALID_NN_ID d else d),
       advance w (turn_calls d nn_id) lines)
    /\ (length lines <= length (turn_calls d nn_id))%nat.
Proof.
  intros [stub Hs]. unfold clear_turn, turn_calls.
  exists ((if running d nn_id then failure_line "stop" (answer w [] (stop nn_id)) else [])
          ++ failure_line "unload"
               (answer w (if running d nn_id then [stop nn_id] else []) (Nrt.unload nn_id))).
  cbv beta iota zeta delta
    [mbind mret M_bind M_ret bind ret get modify NRT_GRPC set_running].
  destruct (running d nn_id); rewrite ?Hs; simpl.
  - rewrite NRT_CHECK_LOG_line. simpl. rewrite NRT_CHECK_LOG_line. simpl.
    split; [f_equal; same_world|].
    unfold failure_line. repeat (destruct (nrt_failed _ _)); simpl; lia.
  - rewrite NRT_CHECK_LOG_line. simpl.
    split; [f_equal; same_world|].
    unfold failure_line. repeat (destruct (nrt_failed _ _)); simpl; lia.
Qed.

(** The loop on a device on which none of the models is running. *)
Lemma clear_loop_idle ids : forall d w,
  is_Some (stub_ d) -> (forall x, x ∈ ids -> running d x = false) ->
  exists lines,
    for_each ids clear_turn d w = (Val tt, d, advance w (map Nrt.unload ids) lines)
    /\ (length lines <= length ids)%nat.
Proof.
  induction ids as [|id ids IH]; intros d w Hs Hidle.
  - exists []. simpl. by rewrite advance_nil.
  - destruct (clear_turn_run id d w Hs) as (lines1 & Hturn & Hlen1).
    unfold turn_calls in *. rewrite (Hidle id) in * by set_solver.
    destruct (IH d (advance w ([] ++ [Nrt.unload id]) lines1) Hs) as (lines & Hloop & Hlen).
    { intros x Hx. apply Hidle. set_solver. }
    exists (lines1 ++ lines). simpl. unfold mbind, M_bind, bind. rewrite Hturn, Hloop.
    rewrite advance_advance. simpl in *. split; [done|].
    rewrite length_app. lia.
Qed.

Lemma running_unique d nn_id x :
  running d nn_id = true -> x <> nn_id -> running d x = false.
Proof.
  unfold running. intros [Heq _]%andb_true_iff Hne.
  apply Z.eqb_eq in Heq. apply andb_false_iff. left. apply Z.eqb_neq. congruence.
Qed.

Lemma running_stopped d x :
  running (set_running_nn_id_ NRT_INVALID_NN_ID d) x = false.
Proof. unfold running. simpl. rewrite Z.eqb_refl. apply andb_false_r. Qed.

(** The loop over models that are all different: the model that is running,
    if it is among them, is stopped on its turn, and every model is
    unloaded. *)
Lemma clear_loop ids : NoDup ids -> forall d w,
  is_Some (stub_ d) ->
  exists lines,
    for_each ids clear_turn d w
    = (Val tt,
       (if existsb (running d) ids then set_running_nn_id_ NRT_INVALID_NN_ID d else d),
       advance w (flat_map (turn_calls d) ids) lines)
    /\ (length lines <= length (flat_map (turn_calls d) ids))%nat
    /\ (count is_stop (flat_map (turn_calls d) ids) <= 1)%nat
    /\ count is_unload (flat_map (turn_calls d) ids) = length ids
    /\ count is_destroy_eg (flat_map (turn_calls d) ids) = 0%nat.
Proof.
  induction 1 as [|id ids Hnotin Hnodup IH]; intros d w Hs.
  - exists []. simpl. rewrite advance_nil. unfold count. simpl. repeat split; lia.
  - destruct (clear_turn_run id d w Hs) as (lines1 & Hturn & Hlen1).
    simpl. unfold mbind, M_bind, bind. rewrite Hturn.
    destruct (running d id) eqn:Hr; simpl.
    + assert (Hrest : forall x, x ∈ ids -> running d x = false).
      { intros x Hx. apply (running_unique d id); [done|]. intros ->. done. }
      assert (Hcalls : flat_map (turn_calls d) ids = map Nrt.unload ids).
      { clear -Hrest. induction ids as [|x ids IHids]; [done|]. simpl.
        unfold turn_calls at 1. rewrite Hrest by set_solver. simpl.
        rewrite IHids; [done|]. intros y Hy. apply Hrest. set_solver. }
      destruct (clear_loop_idle ids (set_running_nn_id_ NRT_INVALID_NN_ID d)
                  (advance w (turn_calls d id) lines1)) as (lines & Hloop & Hlen).
      { done. }
      { intros x _. apply running_stopped. }
      rewrite Hloop, advance_advance, Hcalls.
      exists (lines1 ++ lines). split; [done|].
      unfold turn_calls in *. rewrite Hr in *. simpl in *.
      rewrite length_app, !length_map.
      assert (Hcount : forall p, (forall x, p (Nrt.unload x) = false) ->
                count p (map Nrt.unload ids) = 0%nat).
      { intros p Hp. unfold count. clear -Hp.
        induction ids as [|x ids IHids]; [done|]. simpl. by rewrite Hp. }
      assert (Hunloads : count is_unload (map Nrt.unload ids) = length ids).
      { unfold count. clear. induction ids as [|x ids IHids]; [done|]. simpl.
        by rewrite IHids. }
      unfold count in *. simpl.
      rewrite (Hcount is_stop), (Hcount is_destroy_eg), Hunloads by done.
      repeat split; lia.
    + destruct (IH d (advance w (turn_calls d id) lines1) Hs)
        as (lines & Hloop & Hlen & Hstop & Hunload & Hdestroy).
      rewrite Hloop, advance_advance.
      exists (lines1 ++ lines). split; [done|].
      assert (Hone : turn_calls d id = [Nrt.unload id])
        by (unfold turn_calls; by rewrite Hr).
      rewrite Hone in *. simpl in *.
      rewrite length_app. unfold count in *. simpl.
      repeat split; lia.
Qed.

(** A device with no model loaded and no group has nothing to clear. *)
Lemma clear_cleared d w :
  nn_id_set_ d = ∅ -> create_eg_done_ d = false -> clear d w = (Val tt, d, w).
Proof.
  destruct d as [a s n e c r ids]. simpl. intros -> ->. unfold clear.
  cbv beta iota zeta delta [mbind mret M_bind M_ret bind ret get modify]. simpl.
  by rewrite elements_empty.
Qed.

(** The calls of [clear] on the device [d]. *)
Definition clear_calls (d : NeuronDevice) : list call :=
  flat_map (turn_calls d) (merge_sort Z.le (elements (nn_id_set_ d)))
  ++ (if create_eg_done_ d then [destroy_eg (eg_id_ d)] else []).

(** [clear] on a device with a stub runs to its end and leaves nothing
    loaded and no group. *)
Lemma clear_run d w :
  is_Some (stub_ d) ->
  exists d' lines,
    clear d w = (Val tt, d', advance w (clear_calls d) lines)
    /\ nn_id_set_ d' = ∅ /\ create_eg_done_ d' = false /\ stub_ d' = stub_ d.
Proof.
  intros Hs. unfold clear_calls.
  set (ids := merge_sort Z.le (elements (nn_id_set_ d))).
  assert (Hnodup : NoDup ids).
  { unfold ids. rewrite merge_sort_Permutation. apply NoDup_elements. }
  destruct (clear_loop ids Hnodup d w Hs) as (lines & Hloop & _).
  set (d1 := if existsb (running d) ids
             then set_running_nn_id_ NRT_INVALID_NN_ID d else d) in *.
  assert (Hd1 : (stub_ d1, eg_id_ d1, create_eg_done_ d1)
                = (stub_ d, eg_id_ d, create_eg_done_ d)).
  { unfold d1. by destruct (existsb (running d) ids). }
  injection Hd1 as Hstub Heg Hcreated.
  destruct Hs as [stub Hs].
  unfold clear.
  change (for_each ?l _) with (for_each l clear_turn).
  erewrite bind_val; [|reflexivity].
  erewrite bind_val; [|exact Hloop].
  erewrite bind_val; [|reflexivity].
  erewrite bind_val; [|reflexivity].
  simpl. rewrite Hcreated.
  destruct (create_eg_done_ d) eqn:Hc.
  - cbv beta iota zeta delta [mbind mret M_bind M_ret bind ret get modify NRT_GRPC].
    simpl. rewrite Hstub, Hs. simpl. rewrite NRT_CHECK_LOG_line, Heg. simpl.
    eexists _, (lines ++ failure_line "destroy_eg"
                  (answer w (flat_map (turn_calls d) ids) (destroy_eg (eg_id_ d)))).
    split; [f_equal; same_world|]. simpl. by rewrite Hstub, Hs.
  - eexists _, lines. rewrite app_nil_r. split; [reflexivity|]. simpl.
    by rewrite Hcreated, Hstub.
Qed.
(** X2.  On a device that has a stub, [clear] always runs to its end.  It
    goes through the loaded models in increasing order of their ids and
    unloads each one, after a stop for the one that is recorded as running;
    then it destroys the group, if one was created.  So it sends one unload
    for each loaded model, at most one stop and at most one destroy_eg; a call
    that fails writes a line to the log and stops nothing.  Afterwards no
    model is loaded and the group is not created, and no model is recorded as
    running if the one that was is among the loaded ones.  A second [clear]
    sends nothing and changes nothing. *)
Theorem clear_effects d w :
  is_Some (stub_ d) ->
  let ids := merge_sort Z.le (elements (nn_id_set_ d)) in
  let made :=
    flat_map (turn_calls d) ids
    ++ (if create_eg_done_ d then [destroy_eg (eg_id_ d)] else []) in
  Sorted Z.le ids /\ (forall x, x ∈ ids <-> x ∈ nn_id_set_ d)
  /\ exists d' lines,
       clear d w = (Val tt, d', advance w made lines)
       /\ (length lines <= length made)%nat
       /\ (count is_stop made <= 1)%nat
       /\ count is_unload made = size (nn_id_set_ d)
       /\ count is_destroy_eg made = (if create_eg_done_ d then 1%nat else 0%nat)
       /\ nn_id_set_ d' = ∅ /\ create_eg_done_ d' = false
       /\ running_nn_id_ d'
          = (if existsb (running d) ids then NRT_INVALID_NN_ID else running_nn_id_ d)
       /\ (running_nn_id_ d ∈ nn_id_set_ d -> is_busy d' = false)
       /\ (stub_ d', eg_id_ d', num_cores_ d', nrtd_address_ d')
          = (stub_ d, eg_id_ d, num_cores_ d, nrtd_address_ d)
       /\ forall w', clear d' w' = (Val tt, d', w').
Proof.
  intros Hs ids made.
  assert (Hperm : ids ≡ₚ elements (nn_id_set_ d)) by apply merge_sort_Permutation.
  assert (Hnodup : NoDup ids) by (rewrite Hperm; apply NoDup_elements).
  split; [apply Sorted_merge_sort, _|].
  split; [intros x; by rewrite Hperm, elem_of_elements|].
  destruct (clear_loop ids Hnodup d w Hs)
    as (lines & Hloop & Hlen & Hstop & Hunload & Hdestroy).
  set (d1 := if existsb (running d) ids
             then set_running_nn_id_ NRT_INVALID_NN_ID d else d) in *.
  assert (Hd1 : (stub_ d1, eg_id_ d1, num_cores_ d1, nrtd_address_ d1, create_eg_done_ d1)
                = (stub_ d, eg_id_ d, num_cores_ d, nrtd_address_ d, create_eg_done_ d)).
  { unfold d1. by destruct (existsb (running d) ids). }
  injection Hd1 as Hstub Heg Hcores Haddr Hcreated.
  assert (Hrunning : running_nn_id_ d1
            = (if existsb (running d) ids then NRT_INVALID_NN_ID else running_nn_id_ d)).
  { unfold d1. by destruct (existsb (running d) ids). }
  assert (Hbusy : running_nn_id_ d ∈ nn_id_set_ d -> is_busy d1 = false).
  { intros Hin. unfold is_busy. rewrite Hrunning.
    destruct (existsb (running d) ids) eqn:Hex; [by rewrite Z.eqb_refl|].
    destruct (Z.eqb_spec (running_nn_id_ d) NRT_INVALID_NN_ID) as [|Hne]; [done|].
    exfalso. assert (Hrun : running d (running_nn_id_ d) = true).
    { unfold running. rewrite Z.eqb_refl. simpl.
      apply negb_true_iff, Z.eqb_neq. congruence. }
    assert (Hex' : existsb (running d) ids = true).
    { apply existsb_exists. exists (running_nn_id_ d). split; [|done].
      apply list_elem_of_In. rewrite Hperm. by apply elem_of_elements. }
    congruence. }
  assert (Hsize : length ids = size (nn_id_set_ d)).
  { by rewrite Hperm. }
  destruct Hs as [stub Hs].
  assert (Hrun : clear d w
            = (if create_eg_done_ d
               then (Val tt, set_create_eg_done_ false (set_nn_id_set_ ∅ d1),
                     advance w made
                       (lines ++ failure_line "destroy_eg"
                                   (answer w (flat_map (turn_calls d) ids)
                                      (destroy_eg (eg_id_ d)))))
               else (Val tt, set_nn_id_set_ ∅ d1, advance w made lines))).
  { unfold clear.
    change (for_each ?l _) with (for_each l clear_turn).
    erewrite bind_val; [|reflexivity].
    erewrite bind_val; [|exact Hloop].
    erewrite bind_val; [|reflexivity].
    erewrite bind_val; [|reflexivity].
    simpl. rewrite Hcreated. unfold made.
    destruct (create_eg_done_ d).
    - cbv beta iota zeta delta [mbind mret M_bind M_ret bind ret get modify NRT_GRPC].
      simpl. rewrite Hstub, Hs. simpl. rewrite NRT_CHECK_LOG_line, Heg. simpl.
      f_equal. same_world.
    - rewrite app_nil_r. reflexivity. }
  rewrite Hrun. unfold made in *. clear Hrun.
  destruct (create_eg_done_ d) eqn:Hc.
  - eexists _, _. split; [reflexivity|].
    rewrite !count_app, !length_app, Hunload, Hdestroy, Hsize.
    unfold failure_line, count. simpl.
    split; [destruct (nrt_failed _ _); simpl; lia|].
    split; [unfold count in Hstop; lia|].
    split; [lia|]. split; [lia|].
    split; [done|]. split; [done|]. split; [exact Hrunning|].
    split; [exact Hbusy|]. split; [simpl; congruence|].
    intros w'. by apply clear_cleared.
  - eexists _, _. split; [reflexivity|].
    rewrite !count_app, !length_app, Hunload, Hdestroy, Hsize.
    unfold count. simpl.
    split; [lia|].
    split; [unfold count in Hstop; lia|].
    split; [lia|]. split; [lia|].
    split; [done|]. split; [simpl; congruence|]. split; [exact Hrunning|].
    split; [exact Hbusy|]. split; [simpl; congruence|].
    intros w'. apply clear_cleared; [done | simpl; congruence].
Qed.

(** *** A device that is not initialized *)



(** *** load and unload *)

Lemma unload_nn_id_set nn_id d w :
  nn_id_set_ (unload nn_id d w).1.2 = nn_id_set_ d ∖ {[ nn_id ]}.
Proof.
  unfold unload.
  match goal with |- context [modify ?f ≫= ?k] =>
    change ((modify f ≫= k) d w) with (k tt (f d) w);
    assert (Hrest : keeps nn_id_set_ (k tt)) by (unfold set_running; keeps_auto)
  end.
  by rewrite Hrest.
Qed.

(** X4.  A [load] that returns OK has added the id it writes out to the set
    of loaded models and changed nothing else of the device; [unload] of that
    id takes it out again.  When the id was not loaded before, the number of
    loaded models goes up by one and comes back to what it was; when it was
    (the daemon gave an id a second time), [load] leaves the number as it is
    and one [unload] makes the model count as unloaded. *)
Theorem load_then_unload executable timeout ninfer d w nn_id d1 w1 :
  is_Some (stub_ d) -> 0 < EXEC_MAX_CHUNK_SIZE ->
  load executable timeout ninfer d w = (Val (OK, Some nn_id), d1, w1) ->
  let d2 := (unload nn_id d1 w1).1.2 in
  d1 = set_nn_id_set_ ({[ nn_id ]} ∪ nn_id_set_ d) d
  /\ nn_id_set_ d2 = nn_id_set_ d ∖ {[ nn_id ]}
  /\ (nn_id ∉ nn_id_set_ d ->
        num_executable d1 = S (num_executable d)
        /\ nn_id_set_ d2 = nn_id_set_ d /\ num_executable d2 = num_executable d)
  /\ (nn_id ∈ nn_id_set_ d ->
        num_executable d1 = num_executable d
        /\ S (num_executable d2) = num_executable d).
Proof.
  intros [stub Hs] Hpos Hload d2.
  assert (Hd1 : d1 = set_nn_id_set_ ({[ nn_id ]} ∪ nn_id_set_ d) d).
  { pose proof (load_stream_body_run NERR_OK EXEC_MAX_CHUNK_SIZE Hpos stub (eg_id_ d)
                  executable timeout ninfer d w) as Hrun.
    unfold load, fn_out, mbind, M_bind, bind, get in Hload. rewrite Hs in Hload.
    cbv zeta in Hrun.
    destruct (written (oracle w) _ _) as [l all].
    destruct all; [|by rewrite Hrun in Hload].
    destruct (r_ok _); [|by rewrite Hrun in Hload].
    destruct (nrt_failed _ _); rewrite Hrun in Hload; [done|].
    simpl in Hload. by injection Hload as <- <- _. }
  assert (Hd2 : nn_id_set_ d2 = nn_id_set_ d ∖ {[ nn_id ]}).
  { unfold d2. rewrite unload_nn_id_set, Hd1. simpl.
    apply set_eq. intros x.
    rewrite !elem_of_difference, elem_of_union, elem_of_singleton. tauto. }
  split; [exact Hd1|]. split; [exact Hd2|]. unfold num_executable.
  rewrite Hd2, Hd1. simpl. split; intros Hin.
  - assert (Hdisj : ({[ nn_id ]} : gset Z) ## nn_id_set_ d)
      by (by apply disjoint_singleton_l).
    assert (Hsame : nn_id_set_ d ∖ {[ nn_id ]} = nn_id_set_ d)
      by (by apply difference_disjoint_L, disjoint_singleton_r).
    split; [|split].
    + rewrite (size_union _ _ Hdisj). by rewrite size_singleton.
    + exact Hsame.
    + by rewrite Hsame.
  - split.
    + f_equal. apply subseteq_union_1_L. by apply singleton_subseteq_l.
    + transitivity (size (({[ nn_id ]} : gset Z) ∪ (nn_id_set_ d ∖ {[ nn_id ]}))).
      { assert (Hdisj : ({[ nn_id ]} : gset Z) ## nn_id_set_ d ∖ {[ nn_id ]}).
        { apply disjoint_singleton_l. rewrite elem_of_difference, elem_of_singleton.
          tauto. }
        rewrite (size_union _ _ Hdisj). by rewrite size_singleton. }
      f_equal. apply set_eq. intros x. rewrite elem_of_union, elem_of_difference.
      rewrite elem_of_singleton.
      destruct (decide (x = nn_id)) as [->|Hne]; intuition auto.
Qed.

(** *** The request of an inference *)

(** X8.  [infer] for the model that is running, given the timestamps and
    the profiler, and with a request that is defined (an input tensor for
    each input name and, with shared memory, a path for each name and a
    mapped buffer that each input tensor fits), sends one infer call.  Before
    it come only the start of the profiler's session, when the profiler is
    enabled, the writes to shared memory and the mark on the timestamps;
    after it the second mark.  Without shared memory the request carries,
    for each input name in order, the bytes of the tensor at the same index,
    and no output entry.  With shared memory the bytes of each input tensor
    are first written to the buffer at the same index, and the request
    carries the paths of the input buffers and, for each output name, the
    path of the output buffer at the same index.  What follows is decided by
    the answer to that call.  No call is sent, and the behaviour is
    undefined: with fewer input tensors than input names and no shared
    memory; with shared memory, at the first input tensor that has no mapped
    buffer or does not fit its size, after the writes of the tensors before
    it; without timestamps, after the writes; and without a profiler at
    once. *)
Theorem infer_sends_request nn_id input_names output_names input_tensors shm d outs w :
  created d -> running d nn_id = true ->
  let enabled := SharedMemoryManager.enabled_ shm in
  let paths := SharedMemoryManager.input_names_ shm in
  let ptrs := SharedMemoryManager.input_ptrs_ shm in
  let sizes := SharedMemoryManager.input_sizes_ shm in
  let out_paths := SharedMemoryManager.output_names_ shm in
  let started := session w [] (start_session (nrtd_address_ d) nn_id) in
  let defined :=
    request_defined enabled paths out_paths ptrs sizes input_names output_names
      input_tensors in
  let writes := writes_of enabled ptrs input_names input_tensors in
  let run timestamps_given profile_given :=
    infer timestamps_given profile_given nn_id input_names output_names input_tensors
      shm (d, outs) w in
  (defined ->
     let request :=
       if enabled then
         {| h_nn := nn_id;
            ifmap := zip_with shm_entry input_names paths;
            shm_ofmap := zip_with shm_entry output_names out_paths |}
       else
         {| h_nn := nn_id;
            ifmap := zip_with (inline_entry tensor_data) input_names input_tensors;
            shm_ofmap := [] |} in
     let before := started ++ writes ++ [mark_above_nrtd_infer] in
     run true true
     = fn (infer_response true output_names shm (answer w before (Nrt.infer request)))
         (d, outs) (extend w (before ++ [Nrt.infer request; mark_below_nrtd_infer])))
  /\ (enabled = false ->
        (length input_tensors < length input_names)%nat ->
        run true true = (Undefined, (d, outs), extend w started))
  /\ (enabled = true ->
        (length input_names <= length paths)%nat ->
        forall first,
          (first < length input_names)%nat ->
          (forall idx, (idx < first)%nat ->
             fits_at tensor_data ptrs sizes input_tensors idx = true) ->
          fits_at tensor_data ptrs sizes input_tensors first = false ->
          run true true
          = (Undefined, (d, outs),
             extend w (started
                       ++ take first (zip_with shm_write ptrs
                                        (tensor_data <$> input_tensors)))))
  /\ (defined -> run false true = (Undefined, (d, outs), extend w (started ++ writes)))
  /\ (forall timestamps_given, run timestamps_given false = (Undefined, (d, outs), w)).
Proof.
  intros Hc Hr. cbv beta zeta.
  rewrite !infer_unfold, !start_model_running by done. simpl.
  split; [|split; [|split; [|split]]].
  - intros Hdefined. rewrite infer_rest_run by (done || apply Hc).
    unfold request_of. by destruct (SharedMemoryManager.enabled_ shm).
  - intros Hshm Hlen. unfold infer_rest.
    erewrite fn_bind_val; [|apply profile_enabled_run].
    erewrite fn_bind_val; [|apply start_session_run].
    rewrite fn_bind_cases. unfold infer_build_request. rewrite Hshm.
    unfold mbind at 1, M_bind at 1, bind at 1.
    rewrite add_ifmap_plain_run.
    by destruct (Nat.leb_spec (length input_names) (length input_tensors)); [lia|].
  - intros Hshm Hpaths first Hfirst Hfits Hover. unfold infer_rest.
    erewrite fn_bind_val; [|apply profile_enabled_run].
    erewrite fn_bind_val; [|apply start_session_run].
    rewrite fn_bind_cases. unfold infer_build_request. rewrite Hshm.
    unfold mbind at 1, M_bind at 1, bind at 1.
    rewrite (add_ifmap_shm_overflow _ _ _ _ _ _ first) by done.
    by rewrite extend_extend.
  - intros Hdefined. unfold infer_rest.
    erewrite fn_bind_val; [|apply profile_enabled_run].
    erewrite fn_bind_val; [|apply start_session_run].
    erewrite fn_bind_val; [|by apply build_request_run].
    by rewrite extend_extend.
  - intros timestamps_given. by rewrite infer_unfold, start_model_running.
Qed.

(** *** The two clients of the daemon *)

(** The [SharedMemory] with the buffers of a [SharedMemoryManager]. *)
Definition as_shared_memory (shm : SharedMemoryManager) : RuntimeGRPC.SharedMemory :=
  {| RuntimeGRPC.enabled_ := SharedMemoryManager.enabled_ shm;
     RuntimeGRPC.input_paths_ := SharedMemoryManager.input_names_ shm;
     RuntimeGRPC.input_ptrs_ := SharedMemoryManager.input_ptrs_ shm;
     RuntimeGRPC.input_sizes_ := SharedMemoryManager.input_sizes_ shm;
     RuntimeGRPC.output_paths_ := SharedMemoryManager.output_names_ shm;
     RuntimeGRPC.output_ptrs_ := SharedMemoryManager.output_ptrs_ shm;
     RuntimeGRPC.output_sizes_ := SharedMemoryManager.output_sizes_ shm |}.

(** A device and a [RuntimeGRPC] with the same stub, alone and beside the
    same output tensors. *)
Definition same_stub (d : NeuronDevice) (r : RuntimeGRPC.RuntimeGRPC) : Prop :=
  stub_ d = RuntimeGRPC.stub_ r.

Definition same_stub_and_outputs (st1 : NeuronDevice * list Tensor)
    (st2 : RuntimeGRPC.RuntimeGRPC * list Tensor) : Prop :=
  same_stub (fst st1) (fst st2) /\ snd st1 = snd st2.

Lemma alike_add_ifmap {St1 St2} (R : St1 -> St2 -> Prop) enabled paths ptrs sizes
    input_names input_tensors :
  alike R (add_ifmap tensor_data enabled paths ptrs sizes input_names input_tensors)
          (add_ifmap tensor_data enabled paths ptrs sizes input_names input_tensors).
Proof. unfold add_ifmap, memcpy_to_shm. alike_auto. Qed.


Lemma alike_add_shm_ofmap {St1 St2} (R : St1 -> St2 -> Prop) paths output_names :
  alike R (add_shm_ofmap paths output_names) (add_shm_ofmap paths output_names).
Proof. unfold add_shm_ofmap. alike_auto. Qed.

Lemma alike_add_response_ofmap {St1 St2} (R : St1 -> St2 -> Prop) ptrs sizes
    output_names response :
  alike R (add_response_ofmap ptrs sizes output_names response)
          (add_response_ofmap ptrs sizes output_names response).
Proof. unfold add_response_ofmap, read_from_shm. alike_auto. Qed.

(** A call through the stubs of the two. *)
Lemma alike_call {St1 St2 A} (R : St1 -> St2 -> Prop) (stub1 : St1 -> option Stub)
    (stub2 : St2 -> option Stub) c (k1 : reply -> M St1 A) (k2 : reply -> M St2 A) :
  (forall st1 st2, R st1 st2 -> stub1 st1 = stub2 st2) ->
  (forall response, alike R (k1 response) (k2 response)) ->
  alike R (st ← get; response ← NRT_GRPC (stub1 st) c; k1 response)
          (st ← get; response ← NRT_GRPC (stub2 st) c; k2 response).
Proof.
  intros Hstub Hk st1 st2 w HR. specialize (Hstub _ _ HR).
  change ((st ← get; response ← NRT_GRPC (stub1 st) c; k1 response) st1 w)
    with ((response ← NRT_GRPC (stub1 st1) c; k1 response) st1 w).
  change ((st ← get; response ← NRT_GRPC (stub2 st) c; k2 response) st2 w)
    with ((response ← NRT_GRPC (stub2 st2) c; k2 response) st2 w).
  rewrite Hstub. destruct (stub2 st2) as [stub|]; [|done].
  unfold NRT_GRPC. apply (alike_bind _ _ _ _ _ (alike_perform _ c) Hk _ _ _ HR).
Qed.

Lemma alike_copy_output_tensors response output_names :
  alike same_stub_and_outputs
    (on_outputs (copy_output_tensors tensor_memcpy response output_names))
    (RuntimeGRPC.on_outputs (copy_output_tensors tensor_memcpy response output_names)).
Proof.
  unfold on_outputs, RuntimeGRPC.on_outputs. apply alike_zoom.
  - by intros st1 st2 [_ ->].
  - intros st1 st2 t [Hstub _]. by split.
Qed.

(** The same result, the same world and the same output tensors. *)
Definition same_outcome {A St1 St2} (run1 : Res A * (St1 * list Tensor) * World)
    (run2 : Res A * (St2 * list Tensor) * World) : Prop :=
  run1.1.1 = run2.1.1 /\ run1.2 = run2.2 /\ snd run1.1.2 = snd run2.1.2.

(** The profiler is not enabled, now and after any further calls. *)
Definition profiler_off (w : World) : Prop :=
  forall made, r_ok (answer w made profile_enabled) = false.

Lemma profiler_off_later w w' made :
  calls w' = calls w ++ made -> oracle w' = oracle w ->
  profiler_off w -> profiler_off w'.
Proof.
  intros Hcalls Horacle Hoff after. specialize (Hoff (made ++ after)).
  unfold answer in *. by rewrite Hcalls, Horacle, <- app_assoc.
Qed.

Lemma profiler_off_extend w made : profiler_off w -> profiler_off (extend w made).
Proof. by apply (profiler_off_later w _ made). Qed.

Lemma alike_mark {St1 St2} (R : St1 -> St2 -> Prop) timestamps_given c :
  alike R (mark timestamps_given c) (mark timestamps_given c).
Proof. unfold mark. alike_auto. Qed.

Lemma emits_build_request nn_id input_names output_names input_tensors shm :
  emits is_shm_access
    (infer_build_request nn_id input_names output_names input_tensors shm).
Proof.
  unfold infer_build_request. emits_auto.
  - apply emits_add_ifmap.
  - apply emits_add_shm_ofmap.
Qed.

Lemma alike_build_request nn_id input_names output_names input_tensors shm :
  alike same_stub_and_outputs
    (infer_build_request nn_id input_names output_names input_tensors shm)
    (RuntimeGRPC.infer_build_request tensor_data nn_id input_names output_names
       input_tensors (as_shared_memory shm)).
Proof.
  unfold infer_build_request, RuntimeGRPC.infer_build_request. simpl.
  alike_auto; try apply alike_add_ifmap; apply alike_add_shm_ofmap.
Qed.

(** With the profiler off, what the two [infer] do with a response. *)
Lemma same_infer_response output_names shm response st1 st2 w :
  same_stub_and_outputs st1 st2 -> profiler_off w ->
  same_outcome
    (fn (infer_response true output_names shm response) st1 w)
    (fn (RuntimeGRPC.infer_response NERR_OK NERR_INFER_COMPLETED_WITH_NUM_ERR
           tensor_memcpy true output_names (as_shared_memory shm) response) st2 w).
Proof.
  intros HR Hoff. unfold infer_response.
  erewrite fn_bind_val; [|apply profile_enabled_run]. rewrite (Hoff []).
  erewrite fn_bind_val; [|reflexivity].
  assert (Halike : alike same_stub_and_outputs
            (fn (NRT_CHECK_RETURN NERR_OK "infer"
                   (ignore_num_err NERR_OK NERR_INFER_COMPLETED_WITH_NUM_ERR response);;
                 infer_deliver output_names shm
                   (ignore_num_err NERR_OK NERR_INFER_COMPLETED_WITH_NUM_ERR response)))
            (fn (RuntimeGRPC.infer_response NERR_OK NERR_INFER_COMPLETED_WITH_NUM_ERR
                   tensor_memcpy true output_names (as_shared_memory shm) response))).
  { unfold RuntimeGRPC.infer_response, infer_deliver, RuntimeGRPC.infer_deliver. simpl.
    alike_auto; try apply alike_add_response_ofmap; apply alike_copy_output_tensors. }
  destruct (Halike _ _ w HR) as (Hres & Hw & _ & Houts). by repeat split.
Qed.

(** The call of the two, with the timestamps given. *)
Lemma infer_call_run profile_given request output_names shm d outs w :
  fn (infer_call true profile_given request output_names shm) (d, outs) w
  = match stub_ d with
    | Some _ =>
        fn (infer_response profile_given output_names shm
              (answer w [mark_above_nrtd_infer] (Nrt.infer request))) (d, outs)
          (extend w [mark_above_nrtd_infer; Nrt.infer request; mark_below_nrtd_infer])
    | None => (Undefined, (d, outs), extend w [mark_above_nrtd_infer])
    end.
Proof.
  unfold infer_call.
  erewrite fn_bind_val; [|apply mark_run].
  erewrite fn_bind_val; [|reflexivity]. simpl.
  destruct (stub_ d) as [stub|]; [|reflexivity].
  erewrite fn_bind_val; [|apply perform_extend].
  erewrite fn_bind_val; [|apply mark_run].
  by rewrite ?extend_extend, ?answer_extend.
Qed.

Lemma client_infer_call_run output_tensors_given request output_names
    (shm : RuntimeGRPC.SharedMemory) (r : RuntimeGRPC.RuntimeGRPC) outs w :
  fn (RuntimeGRPC.infer_call NERR_OK NERR_INFER_COMPLETED_WITH_NUM_ERR tensor_memcpy
        output_tensors_given true request output_names shm) (r, outs) w
  = match RuntimeGRPC.stub_ r with
    | Some _ =>
        fn (RuntimeGRPC.infer_response NERR_OK NERR_INFER_COMPLETED_WITH_NUM_ERR
              tensor_memcpy output_tensors_given output_names shm
              (answer w [mark_above_nrtd_infer] (Nrt.infer request))) (r, outs)
          (extend w [mark_above_nrtd_infer; Nrt.infer request; mark_below_nrtd_infer])
    | None => (Undefined, (r, outs), extend w [mark_above_nrtd_infer])
    end.
Proof.
  unfold RuntimeGRPC.infer_call.
  erewrite fn_bind_val; [|apply mark_run].
  erewrite fn_bind_val; [|reflexivity]. simpl.
  destruct (RuntimeGRPC.stub_ r) as [stub|]; [|reflexivity].
  erewrite fn_bind_val; [|apply perform_extend].
  erewrite fn_bind_val; [|apply mark_run].
  by rewrite ?extend_extend, ?answer_extend.
Qed.

(** With the profiler off and the timestamps given, the call of the two. *)
Lemma same_infer_call request output_names shm st1 st2 w :
  same_stub_and_outputs st1 st2 -> profiler_off w ->
  same_outcome
    (fn (infer_call true true request output_names shm) st1 w)
    (fn (RuntimeGRPC.infer_call NERR_OK NERR_INFER_COMPLETED_WITH_NUM_ERR tensor_memcpy
           true true request output_names (as_shared_memory shm)) st2 w).
Proof.
  intros HR Hoff. destruct st1 as [d1 outs1], st2 as [r2 outs2].
  pose proof HR as [Hstub Houts]. simpl in Hstub, Houts. unfold same_stub in Hstub.
  rewrite infer_call_run, client_infer_call_run, Hstub.
  destruct (RuntimeGRPC.stub_ r2) as [stub|]; [|done].
  by apply same_infer_response; [|apply profiler_off_extend].
Qed.

(** The calls on the profiler, which [RuntimeGRPC::infer] never makes and
    [NeuronDevice::infer] starts with when the profiler is enabled. *)
Definition is_session (c : call) : bool :=
  match c with start_session _ _ | stop_session => true | _ => false end.

Lemma shm_access_no_session c : is_shm_access c -> is_session c = false.
Proof. by destruct c. Qed.

Lemma emits_client_infer output_tensors_given timestamps_given nn_id input_names
    output_names input_tensors (shm : RuntimeGRPC.SharedMemory) :
  emits (fun c => is_session c = false)
    (RuntimeGRPC.infer NERR_OK NERR_INFER_COMPLETED_WITH_NUM_ERR tensor_data
       tensor_memcpy output_tensors_given timestamps_given nn_id input_names
       output_names input_tensors shm).
Proof.
  unfold RuntimeGRPC.infer, RuntimeGRPC.infer_build_request, RuntimeGRPC.infer_call,
    RuntimeGRPC.infer_response, RuntimeGRPC.infer_deliver, RuntimeGRPC.on_outputs, mark.
  emits_auto;
    first [ apply emits_copy_output_tensors
          | eapply emits_weaken;
              [apply shm_access_no_session
              |first [apply emits_add_ifmap | apply emits_add_shm_ofmap
                     | apply emits_add_response_ofmap]] ].
Qed.

Lemma infer_opens_session timestamps_given nn_id input_names output_names input_tensors
    shm d outs w :
  created d -> running d nn_id = true ->
  r_ok (answer w [] profile_enabled) = true ->
  exists made,
    calls (infer timestamps_given true nn_id input_names output_names input_tensors shm
             (d, outs) w).2
    = calls w ++ start_session (nrtd_address_ d) nn_id :: made.
Proof.
  intros Hcreated Hrunning Hon.
  rewrite infer_unfold, start_model_running by done. cbn [ok].
  unfold infer_rest.
  erewrite fn_bind_val; [|apply profile_enabled_run].
  erewrite fn_bind_val; [|apply start_session_run].
  unfold session. rewrite Hon.
  match goal with |- context [fn ?rest ?st ?w'] =>
    assert (Hemits : emits (fun _ => True) (fn rest))
  end.
  { unfold infer_build_request, infer_call, infer_response, infer_deliver, on_outputs,
      mark, profile_enabled_.
    emits_auto;
      first [ apply emits_copy_output_tensors
            | eapply emits_weaken;
                [done
                |first [apply emits_add_ifmap | apply emits_add_shm_ofmap
                       | apply emits_add_response_ofmap]] ]. }
  destruct (Hemits (d, outs) (extend w [start_session (nrtd_address_ d) nn_id]))
    as (made & Hcalls & _).
  exists made. rewrite Hcalls. simpl. by rewrite <- app_assoc.
Qed.

(** X21.  Where the two clients do the same with the daemon.  From a device
    and a [RuntimeGRPC] that hold the same stub, with the same output tensors
    and the same buffers, in the same world: [infer_wait] of the one and of
    the other, with or without timestamps, return the same status, make the
    same calls and leave the same output tensors.  So do the two [infer]
    (the one of [RuntimeGRPC] given output tensors) when the device has its
    group created and the model running, so that its [start_model] has
    nothing to send, the timestamps are given, and the profiler is given and
    not enabled.  They differ otherwise: without timestamps
    [NeuronDevice::infer] with a defined request is undefined once the
    inputs are written, where [RuntimeGRPC::infer] tests the pointer and
    goes on to the call; and with the profiler enabled [NeuronDevice::infer]
    starts with the start of a session, a call on the profiler that
    [RuntimeGRPC::infer] never makes. *)
Theorem clients_agree nn_id cookie input_names output_names input_tensors shm d r outs w :
  same_stub d r ->
  (forall timestamps_given,
     same_outcome (infer_wait timestamps_given cookie output_names (d, outs) w)
       (RuntimeGRPC.infer_wait NERR_OK NERR_INFER_COMPLETED_WITH_NUM_ERR tensor_memcpy
          timestamps_given cookie output_names (r, outs) w))
  /\ (created d -> running d nn_id = true -> profiler_off w ->
        same_outcome
          (infer true true nn_id input_names output_names input_tensors shm (d, outs) w)
          (RuntimeGRPC.infer NERR_OK NERR_INFER_COMPLETED_WITH_NUM_ERR tensor_data
             tensor_memcpy true true nn_id input_names output_names input_tensors
             (as_shared_memory shm) (r, outs) w))
  /\ (created d -> running d nn_id = true -> profiler_off w ->
      request_defined (SharedMemoryManager.enabled_ shm)
        (SharedMemoryManager.input_names_ shm) (SharedMemoryManager.output_names_ shm)
        (SharedMemoryManager.input_ptrs_ shm) (SharedMemoryManager.input_sizes_ shm)
        input_names output_names input_tensors ->
      let writes := writes_of (SharedMemoryManager.enabled_ shm)
                      (SharedMemoryManager.input_ptrs_ shm) input_names input_tensors in
      let request := request_of (SharedMemoryManager.enabled_ shm)
                       (SharedMemoryManager.input_names_ shm)
                       (SharedMemoryManager.output_names_ shm)
                       nn_id input_names output_names input_tensors in
      infer false true nn_id input_names output_names input_tensors shm (d, outs) w
      = (Undefined, (d, outs), extend w writes)
      /\ RuntimeGRPC.infer NERR_OK NERR_INFER_COMPLETED_WITH_NUM_ERR tensor_data
           tensor_memcpy true false nn_id input_names output_names input_tensors
           (as_shared_memory shm) (r, outs) w
         = fn (RuntimeGRPC.infer_response NERR_OK NERR_INFER_COMPLETED_WITH_NUM_ERR
                 tensor_memcpy true output_names (as_shared_memory shm)
                 (answer w writes (Nrt.infer request)))
             (r, outs) (extend w (writes ++ [Nrt.infer request])))
  /\ (created d -> running d nn_id = true ->
      r_ok (answer w [] profile_enabled) = true ->
      forall output_tensors_given timestamps_given,
        (exists made,
           calls (infer timestamps_given true nn_id input_names output_names
                    input_tensors shm (d, outs) w).2
           = calls w ++ start_session (nrtd_address_ d) nn_id :: made)
        /\ exists made,
             calls (RuntimeGRPC.infer NERR_OK NERR_INFER_COMPLETED_WITH_NUM_ERR
                      tensor_data tensor_memcpy output_tensors_given timestamps_given
                      nn_id input_names output_names input_tensors
                      (as_shared_memory shm) (r, outs) w).2
             = calls w ++ made
             /\ Forall (fun c => is_session c = false) made).
Proof.
  intros Hstub.
  assert (HR : same_stub_and_outputs (d, outs) (r, outs)) by done.
  split; [|split; [|split]]; cycle 3.
  { intros Hcreated Hrunning Hon output_tensors_given timestamps_given. split.
    - by apply infer_opens_session.
    - destruct (emits_client_infer output_tensors_given timestamps_given nn_id
                  input_names output_names input_tensors (as_shared_memory shm)
                  (r, outs) w) as (made & Hcalls & _ & Hmade).
      by exists made. }
  - intros timestamps_given.
    assert (Halike : alike same_stub_and_outputs
              (infer_wait timestamps_given cookie output_names)
              (RuntimeGRPC.infer_wait NERR_OK NERR_INFER_COMPLETED_WITH_NUM_ERR
                 tensor_memcpy timestamps_given cookie output_names)).
    { unfold infer_wait, RuntimeGRPC.infer_wait.
      apply alike_fn, (alike_call _ (fun st => stub_ (fst st))
                         (fun st => RuntimeGRPC.stub_ (fst st))); [by intros ? ? []|].
      intros response.
      unfold infer_wait_response, RuntimeGRPC.infer_wait_response,
        infer_wait_deliver, RuntimeGRPC.infer_wait_deliver.
      alike_auto; try apply alike_mark. apply alike_copy_output_tensors. }
    destruct (Halike _ _ w HR) as (Hres & Hw & _ & Houts). by repeat split.
  - intros Hcreated Hrunning Hoff.
    rewrite infer_unfold, start_model_running by done. cbn [ok].
    unfold infer_rest, RuntimeGRPC.infer.
    erewrite fn_bind_val; [|apply profile_enabled_run]. rewrite (Hoff []).
    erewrite fn_bind_val; [|reflexivity].
    rewrite !fn_bind_cases.
    destruct (alike_build_request nn_id input_names output_names input_tensors shm
                _ _ w HR) as (Hres & Hw & HR').
    destruct (emits_build_request nn_id input_names output_names input_tensors shm
                (d, outs) w) as (made & Hcalls & Horacle & _).
    destruct (infer_build_request nn_id input_names output_names input_tensors shm
                (d, outs) w) as [[built1 st1] w1].
    destruct (RuntimeGRPC.infer_build_request tensor_data nn_id input_names output_names
                input_tensors (as_shared_memory shm) (r, outs) w) as [[built2 st2] w2].
    simpl in *. subst built2 w2.
    destruct built1 as [request | s |].
    + apply same_infer_call; [done|]. by apply (profiler_off_later w _ made).
    + by destruct HR'.
    + by destruct HR'.
  - intros Hcreated Hrunning Hoff Hdefined. cbv zeta. split.
    + rewrite infer_unfold, start_model_running by done. cbn [ok].
      unfold infer_rest.
      erewrite fn_bind_val; [|apply profile_enabled_run]. rewrite (Hoff []).
      erewrite fn_bind_val; [|reflexivity].
      by erewrite fn_bind_val; [|by apply build_request_run].
    + destruct Hcreated as [_ Hs]. rewrite Hstub in Hs.
      rewrite client_infer_run by done. simpl. by rewrite app_nil_r.
Qed.



End Methods.

(** A created group with model 5 running, and a daemon that refuses every
    stop. *)
Definition group_running_5 : NeuronDevice :=
  {| nrtd_address_ := "unix:/run/neuron.sock";
     stub_ := Some "unix:/run/neuron.sock";
     num_cores_ := 4; eg_id_ := 1; create_eg_done_ := true;
     running_nn_id_ := 5; nn_id_set_ := ∅ |}.

Definition refuses_stop : World :=
  fresh_world (fun _ c => match c with stop _ => plain_reply 0 1 | _ => plain_reply 0 0 end).

(** With the stop refused, [start_model 7] sends the stop, returns the error
    and leaves model 5 recorded as running: the running id is not cleared and
    no start is sent. *)
Lemma start_model_stop_refused :
  ~ start_model_as_specified 0 0 7 group_running_5 refuses_stop.
Proof.
  unfold start_model_as_specified. vm_compute.
  intros (_ & _ & H & _). destruct (H eq_refl eq_refl) as (_ & H1 & _). discriminate H1.
Qed.

(** The scenario of the specification: the write of the third chunk fails.
    Five bytes in chunks of two; the load stops at the third chunk, returns
    the internal error, writes no model id and leaves the group as it was. *)
Definition is_chunk_write (c : call) : bool :=
  match c with Write (neff_chunk _) => true | _ => false end.

Definition third_chunk_fails : World :=
  fresh_world (fun history c =>
    if is_chunk_write c && (count is_chunk_write history =? 2)%nat
    then failed_reply
    else plain_reply 0 0).

Definition five_bytes : list byte := [Byte.x01; Byte.x02; Byte.x03; Byte.x04; Byte.x05].

Example load_third_chunk_fails :
  load 0 2 five_bytes 10 4 group_running_5 third_chunk_fails
  = (Val (broken_stream, None), group_running_5,
     extend third_chunk_fails
       [load_stream; Write (h_eg 1); Write (neff_size 5); Write (model_params 10 4);
        Write (neff_chunk [Byte.x01; Byte.x02]);
        Write (neff_chunk [Byte.x03; Byte.x04]);
        Write (neff_chunk [Byte.x05])]).
Proof. reflexivity. Qed.

(** The same load when every call succeeds: the daemon's model id is added
    to the loaded set and written out. *)
Example load_goes_through :
  let w := fresh_world (fun _ c =>
             match c with
             | Finish => {| r_ok := true; r_int := 0; r_str := ""; r_bytes := [];
                            grpc_code := 0; status_code_ := 0; r_h_eg := 0;
                            r_nc_count := 0; r_h_nn := 7; r_cookie := 0; r_ofmap := [] |}
             | _ => plain_reply 0 0
             end) in
  (load 0 2 five_bytes 10 4 group_running_5 w).1.1 = Val (OK, Some 7)
  /\ nn_id_set_ (load 0 2 five_bytes 10 4 group_running_5 w).1.2 = {[ 7 ]} ∪ ∅
  /\ calls (load 0 2 five_bytes 10 4 group_running_5 w).2
     = [load_stream; Write (h_eg 1); Write (neff_size 5); Write (model_params 10 4);
        Write (neff_chunk [Byte.x01; Byte.x02]);
        Write (neff_chunk [Byte.x03; Byte.x04]);
        Write (neff_chunk [Byte.x05]); WritesDone; Finish].
Proof. repeat split. Qed.

Lemma load_stream_order_witness :
  let pieces := chunks 2 (S (length five_bytes)) five_bytes 0 in
  concat pieces = five_bytes
  /\ Forall (fun chunk => 0 < Z.of_nat (length chunk) <= 2) pieces.
Proof.
  apply (load_stream_order 0 2 five_bytes 10 4 group_running_5
           {| RuntimeGRPC.nrtd_address_ := "unix:/run/neuron.sock";
              RuntimeGRPC.stub_ := Some "unix:/run/neuron.sock" |}
           1 third_chunk_fails).
  - by eexists.
  - by eexists.
  - lia.
Defined.

(** A daemon that answers every inference with one output and the status
    code [code]; tensors are their bytes, and copying replaces them.  With
    1003 for "completed with numeric error" the wait succeeds and the output
    is copied, as with the OK code 0; with another code it fails. *)
Definition answers_with (code : Z) : World :=
  fresh_world (fun _ c =>
    match c with
    | Nrt.infer _ | Nrt.infer_wait _ =>
        {| r_ok := true; r_int := 0; r_str := ""; r_bytes := [];
           grpc_code := 0; status_code_ := code; r_h_eg := 0;
           r_nc_count := 0; r_h_nn := 0; r_cookie := 0;
           r_ofmap := [ {| name := "out"; data := buf [Byte.x2a] |} ] |}
    | _ => plain_reply 0 0
    end).

Definition replace_bytes (tensor raw : list byte) : Status * list byte := (OK, raw).

Example infer_wait_numeric_error :
  let run code := infer_wait 0 1003 replace_bytes true 9 ["out"]
                    (group_running_5, [[Byte.x00]]) (answers_with code) in
  (run 1003).1 = (Val OK, (group_running_5, [[Byte.x2a]]))
  /\ (run 0).1 = (run 1003).1
  /\ (run 2).1.1 = Val (Error INTERNAL
                         "nrt::infer_wait failed with grpc status code 0, nrt status code 2")
  /\ (run 2).1.2 = (group_running_5, [[Byte.x00]]).
Proof. repeat split. Qed.

(** The same of [infer] through shared memory, with the profiler enabled:
    the session is closed in each case, before the check. *)
Example infer_numeric_error :
  let run code := infer 0 1003 0 (fun t : list byte => t) replace_bytes true true
                    5 ["in"] ["out"] [[Byte.x01]] SharedMemoryManager.one_in_one_out
                    (group_running_5, [[Byte.x00]]) (answers_with code) in
  let request := {| h_nn := 5; ifmap := [shm_entry "in" "/in"];
                    shm_ofmap := [shm_entry "out" "/out"] |} in
  let called := [start_session "unix:/run/neuron.sock" 5; shm_write 4096 [Byte.x01];
                 mark_above_nrtd_infer; Nrt.infer request; mark_below_nrtd_infer;
                 stop_session] in
  (run 1003).1 = (Val OK, (group_running_5, [[Byte.x2a]]))
  /\ calls (run 1003).2 = called ++ [shm_read 8192 16]
  /\ (run 0).1 = (run 1003).1
  /\ (run 2).1.1 = Val (Error INTERNAL
                         "nrt::infer failed with grpc status code 0, nrt status code 2")
  /\ (run 2).1.2 = (group_running_5, [[Byte.x00]])
  /\ calls (run 2).2 = called.
Proof. repeat split. Qed.

Lemma numeric_error_is_success_witness :
  let request := {| h_nn := 5; ifmap := [shm_entry "in" "/in"];
                    shm_ofmap := [shm_entry "out" "/out"] |} in
  infer 0 1003 0 (fun t : list byte => t) replace_bytes true true
    5 ["in"] ["out"] [[Byte.x01]] SharedMemoryManager.one_in_one_out
    (group_running_5, [[Byte.x00]]) (answers_with 1003)
  = (Val OK, (group_running_5, [[Byte.x2a]]),
     extend (answers_with 1003)
       [start_session "unix:/run/neuron.sock" 5; shm_write 4096 [Byte.x01];
        mark_above_nrtd_infer; Nrt.infer request; mark_below_nrtd_infer;
        stop_session; shm_read 8192 16])
  /\ infer_wait 0 1003 replace_bytes true 9 ["out"] (group_running_5, [[Byte.x00]])
       (answers_with 1003)
     = (Val OK, (group_running_5, [[Byte.x2a]]),
        extend (answers_with 1003) [Nrt.infer_wait 9; mark_below_nrtd_infer]).
Proof.
  destruct (numeric_error_is_success 0 1003 0 (fun t : list byte => t) replace_bytes
              5 9 ["in"] ["out"] [[Byte.x01]] SharedMemoryManager.one_in_one_out
              group_running_5 [[Byte.x00]] true true
              (as_shared_memory SharedMemoryManager.one_in_one_out)
              {| RuntimeGRPC.nrtd_address_ := "unix:/run/neuron.sock";
                 RuntimeGRPC.stub_ := Some "unix:/run/neuron.sock" |}
              [[Byte.x00]] (answers_with 1003))
    as (Hinfer & _ & Hwait & _).
  split.
  - destruct (Hinfer group_running_5 (answers_with 1003)) as [-> _].
    + reflexivity.
    + by eexists.
    + split; [simpl; lia|]. intros _. split; [simpl; lia|]. split; [simpl; lia|].
      intros [|idx] Hidx; [reflexivity | simpl in Hidx; lia].
    + intros _ [|idx] Hidx; [reflexivity | simpl in Hidx; lia].
    + split; [reflexivity | by left].
    + reflexivity.
  - destruct Hwait as [-> _].
    + by eexists.
    + split; [reflexivity | by left].
    + reflexivity.
Defined.

Lemma start_model_rpcs_witness :
  exists st d' made,
    start_model 0 0 7 group_running_5 refuses_stop
      = (Val st, d', extend refuses_stop made)
    /\ (count is_stop made <= 1)%nat /\ (count is_start made <= 1)%nat.
Proof.
  destruct (start_model_rpcs 0 0 0 (fun _ : unit => []) (fun t _ => (OK, t))
              7 group_running_5 refuses_stop)
    as [(st & d' & made & Hrun & Hstop & Hstart & _) _].
  - split; [reflexivity | by eexists].
  - exists st, d', made. auto.
Defined.

(** A group with the models 5 and 7 loaded, model 5 running, and a daemon
    that answers every call with success. *)
Definition group_loaded_5_7 : NeuronDevice :=
  set_nn_id_set_ {[ 5; 7 ]} group_running_5.

Definition agrees : World := fresh_world (fun _ _ => plain_reply 0 0).

(** [unload 5] stops the model and unloads it; [unload 7] only unloads. *)
Example unload_running_and_idle :
  calls (unload 0 0 5 group_loaded_5_7 agrees).2 = [stop 5; Nrt.unload 5]
  /\ calls (unload 0 0 7 group_loaded_5_7 agrees).2 = [Nrt.unload 7]
  /\ running_nn_id_ (unload 0 0 5 group_loaded_5_7 agrees).1.2 = 0
  /\ running_nn_id_ (unload 0 0 7 group_loaded_5_7 agrees).1.2 = 5.
Proof. vm_compute. repeat split. Qed.

Lemma unload_effects_witness :
  exists d', (unload 0 0 5 group_loaded_5_7 refuses_stop).1.2 = d'
             /\ running 0 d' 5 = false
             /\ nn_id_set_ d' = nn_id_set_ group_loaded_5_7 ∖ {[ 5 ]}.
Proof.
  destruct (unload_effects 0 0 5 group_loaded_5_7 refuses_stop)
    as (d' & Hrun & Hset & Hr & _); [by eexists|].
  exists d'. by rewrite Hrun.
Defined.

(** [clear] on the same group: the stop and the unload of model 5, the
    unload of model 7, and the group destroyed. *)
Example clear_two_models :
  calls (clear 0 0 group_loaded_5_7 agrees).2
  = [stop 5; Nrt.unload 5; Nrt.unload 7; destroy_eg 1]
  /\ create_eg_done_ (clear 0 0 group_loaded_5_7 agrees).1.2 = false
  /\ running_nn_id_ (clear 0 0 group_loaded_5_7 agrees).1.2 = 0.
Proof. vm_compute. repeat split. Qed.

Lemma clear_effects_witness :
  exists d', (clear 0 0 group_loaded_5_7 refuses_stop).1.2 = d'
             /\ nn_id_set_ d' = ∅ /\ create_eg_done_ d' = false
             /\ forall w', clear 0 0 d' w' = (Val tt, d', w').
Proof.
  destruct (clear_effects 0 0 group_loaded_5_7 refuses_stop)
    as (_ & _ & d' & lines & Hrun & _ & _ & _ & _ & Hset & Hdone & _ & _ & _ & Hagain);
    [by eexists|].
  exists d'. by rewrite Hrun.
Defined.


(** The daemon gives the id 7 to the model it loads. *)
Definition loads_as_7 : World :=
  fresh_world (fun _ c =>
    match c with
    | Finish => {| r_ok := true; r_int := 0; r_str := ""; r_bytes := [];
                   grpc_code := 0; status_code_ := 0; r_h_eg := 0;
                   r_nc_count := 0; r_h_nn := 7; r_cookie := 0; r_ofmap := [] |}
    | _ => plain_reply 0 0
    end).

Lemma load_then_unload_witness :
  let '(_, d1, w1) := load 0 2 five_bytes 10 4 group_running_5 loads_as_7 in
  nn_id_set_ (unload 0 0 7 d1 w1).1.2 = nn_id_set_ group_running_5 ∖ {[ 7 ]}.
Proof.
  destruct (load 0 2 five_bytes 10 4 group_running_5 loads_as_7) as [[r d1] w1] eqn:Hload.
  assert (Hr : r = Val (OK, Some 7)).
  { assert (Hv : (load 0 2 five_bytes 10 4 group_running_5 loads_as_7).1.1 = Val (OK, Some 7))
      by reflexivity.
    by rewrite Hload in Hv. }
  subst r.
  destruct (load_then_unload 0 0 2 five_bytes 10 4 group_running_5 loads_as_7 7 d1 w1)
    as (_ & Hset & _).
  - by eexists.
  - lia.
  - exact Hload.
  - exact Hset.
Defined.

(** An inference for the running model 5 without shared memory: the start
    of the session of the profiler, the mark and the call, with the bytes of
    the input inline. *)
Lemma infer_sends_request_witness :
  let shm := SharedMemoryManager.set_enabled_ false SharedMemoryManager.one_in_one_out in
  let request := {| h_nn := 5;
                    ifmap := [ {| name := "in"; data := buf [Byte.x01] |} ];
                    shm_ofmap := [] |} in
  let before := [start_session "unix:/run/neuron.sock" 5; mark_above_nrtd_infer] in
  infer 0 1003 0 (fun t : list byte => t) replace_bytes true true
    5 ["in"] ["out"] [[Byte.x01]] shm (group_running_5, [[Byte.x00]]) (answers_with 0)
  = fn (infer_response 0 1003 replace_bytes true ["out"] shm
          (answer (answers_with 0) before (Nrt.infer request)))
      (group_running_5, [[Byte.x00]])
      (extend (answers_with 0) (before ++ [Nrt.infer request; mark_below_nrtd_infer])).
Proof.
  destruct (infer_sends_request 0 1003 0 (fun t : list byte => t) replace_bytes
              5 ["in"] ["out"] [[Byte.x01]]
              (SharedMemoryManager.set_enabled_ false SharedMemoryManager.one_in_one_out)
              group_running_5 [[Byte.x00]] (answers_with 0)) as [Hsent _].
  - split; [reflexivity | by eexists].
  - reflexivity.
  - apply Hsent. split; [simpl; lia | discriminate].
Defined.

(** A tensor of nine bytes does not fit the mapping of eight: nothing is
    sent but the start of the session. *)
Example infer_overflow :
  infer 0 1003 0 (fun t : list byte => t) replace_bytes true true
    5 ["in"] ["out"] [replicate 9 Byte.x01] SharedMemoryManager.one_in_one_out
    (group_running_5, [[Byte.x00]]) (answers_with 0)
  = (Undefined, (group_running_5, [[Byte.x00]]),
     extend (answers_with 0) [start_session "unix:/run/neuron.sock" 5]).
Proof. reflexivity. Qed.

(** The [RuntimeGRPC] with the stub of the group, and the same daemon with
    the profiler not enabled. *)
Definition client_of (d : NeuronDevice) : RuntimeGRPC.RuntimeGRPC :=
  {| RuntimeGRPC.nrtd_address_ := "unix:/run/neuron.sock"; RuntimeGRPC.stub_ := stub_ d |}.

Definition unprofiled (code : Z) : World :=
  fresh_world (fun made c =>
    match c with
    | profile_enabled => failed_reply
    | _ => oracle (answers_with code) made c
    end).

Lemma clients_agree_witness :
  same_outcome
    (infer 0 1003 0 (fun t : list byte => t) replace_bytes true true
       5 ["in"] ["out"] [[Byte.x01]] SharedMemoryManager.one_in_one_out
       (group_running_5, [[Byte.x00]]) (unprofiled 0))
    (RuntimeGRPC.infer 0 1003 (fun t : list byte => t) replace_bytes true true
       5 ["in"] ["out"] [[Byte.x01]] (as_shared_memory SharedMemoryManager.one_in_one_out)
       (client_of group_running_5, [[Byte.x00]]) (unprofiled 0)).
Proof.
  destruct (clients_agree 0 1003 0 (fun t : list byte => t) replace_bytes 5 3 ["in"]
              ["out"] [[Byte.x01]] SharedMemoryManager.one_in_one_out group_running_5
              (client_of group_running_5) [[Byte.x00]] (unprofiled 0))
    as (_ & Hinfer & _); [reflexivity|].
  apply Hinfer; [split; [reflexivity | by eexists] | reflexivity |].
  intros made. reflexivity.
Defined.

(** Where the two differ.  With the profiler enabled the device opens and
    closes a session around the calls that the [RuntimeGRPC] makes; without
    timestamps the device is undefined where the [RuntimeGRPC] returns. *)
Example clients_differ :
  let request := {| h_nn := 5; ifmap := [shm_entry "in" "/in"];
                    shm_ofmap := [shm_entry "out" "/out"] |} in
  let device timestamps_given w :=
    infer 0 1003 0 (fun t : list byte => t) replace_bytes timestamps_given true
      5 ["in"] ["out"] [[Byte.x01]] SharedMemoryManager.one_in_one_out
      (group_running_5, [[Byte.x00]]) w in
  let client timestamps_given w :=
    RuntimeGRPC.infer 0 1003 (fun t : list byte => t) replace_bytes true timestamps_given
      5 ["in"] ["out"] [[Byte.x01]] (as_shared_memory SharedMemoryManager.one_in_one_out)
      (client_of group_running_5, [[Byte.x00]]) w in
  calls (client true (answers_with 0)).2
  = [shm_write 4096 [Byte.x01]; mark_above_nrtd_infer; Nrt.infer request;
     mark_below_nrtd_infer; shm_read 8192 16]
  /\ calls (device true (answers_with 0)).2
     = [start_session "unix:/run/neuron.sock" 5; shm_write 4096 [Byte.x01];
        mark_above_nrtd_infer; Nrt.infer request; mark_below_nrtd_infer;
        stop_session; shm_read 8192 16]
  /\ (device false (unprofiled 0)).1.1 = Undefined
  /\ (client false (unprofiled 0)).1 = (Val OK, (client_of group_running_5, [[Byte.x2a]]))
  /\ calls (client false (unprofiled 0)).2
     = [shm_write 4096 [Byte.x01]; Nrt.infer request; shm_read 8192 16].
Proof. repeat split. Qed.


(** With a response that carries the output, the wait of the [RuntimeGRPC]
    leaves its byte in the output tensor. *)
Example clients_wait_3 :
  snd (RuntimeGRPC.infer_wait 0 1003 replace_bytes true 3 ["out"]
         (client_of group_running_5, [[Byte.x00]]) (answers_with 0)).1.2
  = [[Byte.x2a]].
Proof. reflexivity. Qed.

End NeuronDevice.

(** ** NeuronDeviceManager *)
Module NeuronDeviceManager.
Import Nrt.

Abbreviation NeuronDevice := NeuronDevice.NeuronDevice.

Record NeuronDeviceManager : Type := {
  nrtd_address_ : string;
  stub_ : option Stub;
  device_array_ : list NeuronDevice;
  num_devices_ : nat;
  device_index_ : nat;
  ready_ : bool;
  path_set_ : bool
}.

Definition set_nrtd_address_ (a : string) (m : NeuronDeviceManager) : NeuronDeviceManager :=
  {| nrtd_address_ := a; stub_ := stub_ m; device_array_ := device_array_ m;
     num_devices_ := num_devices_ m; device_index_ := device_index_ m;
     ready_ := ready_ m; path_set_ := path_set_ m |}.
Definition set_stub_ (stub : option Stub) (m : NeuronDeviceManager) : NeuronDeviceManager :=
  {| nrtd_address_ := nrtd_address_ m; stub_ := stub; device_array_ := device_array_ m;
     num_devices_ := num_devices_ m; device_index_ := device_index_ m;
     ready_ := ready_ m; path_set_ := path_set_ m |}.
Definition set_device_array_ (a : list NeuronDevice) (m : NeuronDeviceManager)
    : NeuronDeviceManager :=
  {| nrtd_address_ := nrtd_address_ m; stub_ := stub_ m; device_array_ := a;
     num_devices_ := num_devices_ m; device_index_ := device_index_ m;
     ready_ := ready_ m; path_set_ := path_set_ m |}.
Definition set_num_devices_ (n : nat) (m : NeuronDeviceManager) : NeuronDeviceManager :=
  {| nrtd_address_ := nrtd_address_ m; stub_ := stub_ m; device_array_ := device_array_ m;
     num_devices_ := n; device_index_ := device_index_ m;
     ready_ := ready_ m; path_set_ := path_set_ m |}.
Definition set_device_index_ (n : nat) (m : NeuronDeviceManager) : NeuronDeviceManager :=
  {| nrtd_address_ := nrtd_address_ m; stub_ := stub_ m; device_array_ := device_array_ m;
     num_devices_ := num_devices_ m; device_index_ := n;
     ready_ := ready_ m; path_set_ := path_set_ m |}.
Definition set_ready_ (b : bool) (m : NeuronDeviceManager) : NeuronDeviceManager :=
  {| nrtd_address_ := nrtd_address_ m; stub_ := stub_ m; device_array_ := device_array_ m;
     num_devices_ := num_devices_ m; device_index_ := device_index_ m;
     ready_ := b; path_set_ := path_set_ m |}.
Definition set_path_set_ (b : bool) (m : NeuronDeviceManager) : NeuronDeviceManager :=
  {| nrtd_address_ := nrtd_address_ m; stub_ := stub_ m; device_array_ := device_array_ m;
     num_devices_ := num_devices_ m; device_index_ := device_index_ m;
     ready_ := ready_ m; path_set_ := b |}.

(** [device_array_[idx].method(...)] *)
Definition device_array_at {A} (idx : nat) (method : M NeuronDevice A)
    : M NeuronDeviceManager A :=
  zoom (fun m => device_array_ m !! idx)
       (fun d m => set_device_array_ (<[idx := d]> (device_array_ m)) m)
       method.

(** *** Strings of the C++ library *)

(** [data.find(pattern, pos)] *)
Definition find (data pattern : string) (pos : nat) : option nat :=
  String.index pos pattern data.

(** [data.replace(pos, len, "")] *)
Definition erase (data : string) (pos len : nat) : string :=
  String.substring 0 pos data
    +:+ String.substring (pos + len) (String.length data - (pos + len)) data.

Definition isspace (c : ascii) : bool :=
  let n := nat_of_ascii c in
  (n =? 32)%nat || ((9 <=? n)%nat && (n <=? 13)%nat).

Fixpoint skip_spaces (s : string) : string :=
  match s with
  | String c s' => if isspace c then skip_spaces s' else s
  | EmptyString => s
  end.

Definition digit (c : ascii) : option Z :=
  let n := nat_of_ascii c in
  if (48 <=? n)%nat && (n <=? 57)%nat then Some (Z.of_nat n - 48) else None.

(** The digits at the head of [s], as a number; [acc] is [None] until one
    digit has been read. *)
Fixpoint read_digits (s : string) (acc : option Z) : option Z :=
  match s with
  | String c s' =>
      match digit c with
      | Some d => read_digits s' (Some (10 * default 0 acc + d))
      | None => acc
      end
  | EmptyString => acc
  end.

(** [std::stoi(str)]: blanks, a sign, digits, and whatever follows ignored;
    [None] stands for [std::invalid_argument] (no digit) and
    [std::out_of_range] (not an [int]). *)
Definition stoi (str : string) : option Z :=
  let s := skip_spaces str in
  let '(negative, s) :=
    match s with
    | String "-" s' => (true, s')
    | String "+" s' => (false, s')
    | _ => (false, s)
    end in
  match read_digits s None with
  | None => None
  | Some v =>
      let v := if negative then - v else v in
      if (- 2 ^ 31 <=? v) && (v <=? 2 ^ 31 - 1) then Some v else None
  end.

Definition stoi_no_throw (str : string) : Z := default (-1) (stoi str).

(** [std::getline(stream, substr, delim)] on a stream that is [good()]: the
    characters up to the delimiter, which is taken and dropped, or up to the
    end, which sets [eofbit].  The stream afterwards is what is left to read,
    or [None] once it is not [good()] any more. *)
Fixpoint getline (rest : string) (delim : ascii) : string * option string :=
  match rest with
  | EmptyString => (EmptyString, None)
  | String c rest' =>
      if bool_decide (c = delim) then (EmptyString, Some rest')
      else let '(substr, after) := getline rest' delim in (String c substr, after)
  end.

Section Methods.
(** Constants of [neuron_clib.h] and [nerr.pb.h], which are not part of the
    sources; what follows holds whatever their values. *)
Variable NERR_OK : Z.
Variable NRT_INVALID_NN_ID : Z.
Variable MAX_NUM_CORES : nat.
Variable MIN_NUM_CORES : Z.
Variable DEFAULT_NUM_CORES : Z.

(** [size_t pos = data.find(pattern, pos);] reads [pos] in its own
    initialiser, before it has a value.  What the read yields is not fixed by
    the language: [indeterminate_pos data pattern idx] is what it yields in
    turn [idx] of the loop of [remove_pattern(data, pattern)]. *)
Variable indeterminate_pos : string -> string -> nat -> nat.

Fixpoint remove_pattern_loop (garbage : nat -> nat) (turns idx : nat)
    (data pattern : string) : string :=
  match turns with
  | O => data
  | S turns' =>
      match find data pattern (garbage idx) with
      | None => data
      | Some pos =>
          remove_pattern_loop garbage turns' (S idx)
            (erase data pos (String.length pattern)) pattern
      end
  end.

Definition remove_pattern (data pattern : string) : string :=
  let string_length := String.length data in
  remove_pattern_loop (indeterminate_pos data pattern) string_length 0 data pattern.

(** The loop of [initialize] over the comma-separated list: the vector it
    leaves, and whether it took the branch that warns and clears. *)
Fixpoint parse_group_sizes (turns : nat) (stream : option string)
    (num_cores_req_vector : list Z) : list Z * bool :=
  match turns with
  | O => (num_cores_req_vector, false)
  | S turns' =>
      match stream with
      | None => (num_cores_req_vector, false)
      | Some rest =>
          let '(substr, stream') := getline rest "," in
          if bool_decide (substr = "") then
            parse_group_sizes turns' stream' num_cores_req_vector
          else
            let num_cores_req := stoi_no_throw substr in
            if (num_cores_req <? 0) || (num_cores_req >? 64) then ([], true)
            else parse_group_sizes turns' stream' (num_cores_req_vector ++ [num_cores_req])
      end
  end.

Definition no_group : Status :=
  Error INTERNAL "No NeuronCore Group can be initialized.".

(** The loop of [init_devices], from index [idx] on. *)
Fixpoint init_devices_loop (num_cores_req_vector : list Z) (idx : nat) (status : Status)
    : M NeuronDeviceManager Status :=
  match num_cores_req_vector with
  | [] => ret status
  | num_cores_req :: rest =>
      m ← get;
      status ← device_array_at idx
                 (NeuronDevice.initialize NERR_OK NRT_INVALID_NN_ID
                    (nrtd_address_ m) num_cores_req);
      if negb (ok status) then
        LOG ("Cannot initialize NeuronCore Group with " +:+ to_string num_cores_req
               +:+ " cores; stopping initialization.");;
        ret status
      else
        modify (fun m => set_num_devices_ (S (num_devices_ m)) m);;
        init_devices_loop rest (S idx) status
  end.

Definition init_devices (num_cores_req_vector : list Z) : M NeuronDeviceManager Status :=
  fn (
    status ← init_devices_loop num_cores_req_vector 0 no_group;
    m ← get;
    (if (0 =? num_devices_ m)%nat then return_ status else ret tt);;
    ret OK).

(** [for (int num_cores = opt_device_size; num_cores >= MIN_NUM_CORES;
    --num_cores)]; [fuel] is the number of turns allowed. *)
Fixpoint search_largest (fuel : nat) (num_cores : Z) (status : Status)
    : M NeuronDeviceManager Status :=
  if MIN_NUM_CORES <=? num_cores then
    match fuel with
    | O => undefined
    | S fuel' =>
        m ← get;
        status ← device_array_at 0
                   (NeuronDevice.initialize NERR_OK NRT_INVALID_NN_ID
                      (nrtd_address_ m) num_cores);
        if ok status then
          modify (set_num_devices_ 1);;
          return_ status
        else search_largest fuel' (num_cores - 1) status
    end
  else ret status.

Definition init_default_device (opt_device_size : Z) : M NeuronDeviceManager Status :=
  fn (
    if (opt_device_size <? 0) || (opt_device_size >? 64) then
      (* device size looks wrong -- just get the largest ncg possible *)
      m ← get;
      status ← device_array_at 0
                 (NeuronDevice.initialize NERR_OK NRT_INVALID_NN_ID
                    (nrtd_address_ m) DEFAULT_NUM_CORES);
      modify (set_num_devices_ (if ok status then 1 else 0));;
      return_ status
    else
      (* get one full Inferentia by default *)
      (if opt_device_size =? 1 then
         TF_RETURN_IF_ERROR (init_devices [1; 1; 1; 1])
       else if opt_device_size =? 2 then
         TF_RETURN_IF_ERROR (init_devices [2; 2])
       else
         (* search for the largest possible ncg ... sorry *)
         status ← search_largest (Z.to_nat (opt_device_size - MIN_NUM_CORES + 1))
                    opt_device_size no_group;
         modify (set_num_devices_ 0);;
         return_ status);;
      ret OK).

Definition initialize (opt_device_size : Z) : M NeuronDeviceManager Status :=
  fn (
    m ← get;
    (if negb (path_set_ m) then
       (* append /opt/aws/neuron/bin to PATH *)
       env_path ← env_get "PATH" "";
       setenv "PATH" (env_path +:+ ":/opt/aws/neuron/bin");;
       modify (set_path_set_ true)
     else ret tt);;
    (* stub *)
    nrtd_address ← env_get "NEURON_RTD_ADDRESS" "unix:/run/neuron.sock";
    modify (set_nrtd_address_ nrtd_address);;
    TF_RETURN_IF_ERROR (init_stub set_stub_ nrtd_address);;
    (* get number of neuron cores from comma-separated list of integers *)
    neuron_device_sizes_raw ← env_get "NEURONCORE_GROUP_SIZES" "";
    (if bool_decide (neuron_device_sizes_raw = "") then
       TF_RETURN_IF_ERROR (init_default_device opt_device_size)
     else
       (* remove [ and ] *)
       let neuron_device_sizes := remove_pattern neuron_device_sizes_raw "[" in
       let neuron_device_sizes := remove_pattern neuron_device_sizes "]" in
       let '(num_cores_req_vector, ill_formatted) :=
         parse_group_sizes MAX_NUM_CORES (Some neuron_device_sizes) [] in
       (if ill_formatted then
          LOG ("NEURONCORE_GROUP_SIZES=" +:+ neuron_device_sizes_raw
                 +:+ " looks ill-formatted. Falling back to initializing"
                 +:+ " a default NeuronCore Group.")
        else ret tt);;
       if bool_decide (num_cores_req_vector = []) then
         TF_RETURN_IF_ERROR (init_default_device opt_device_size)
       else
         TF_RETURN_IF_ERROR (init_devices num_cores_req_vector));;
    modify (set_ready_ true);;
    ret OK).

Definition clear : M NeuronDeviceManager unit :=
  m ← get;
  for_range (num_devices_ m) (fun idx =>
    device_array_at idx (NeuronDevice.clear NERR_OK NRT_INVALID_NN_ID));;
  modify (set_num_devices_ 0);;
  modify (set_device_index_ 0);;
  modify (set_ready_ false).

Definition clear_if_empty : M NeuronDeviceManager Status :=
  fn (
    m ← get;
    let empty :=
      forallb (fun idx =>
                 match device_array_ m !! idx with
                 | Some d => (0 =? NeuronDevice.num_executable d)%nat
                 | None => true
                 end) (seq 0 (num_devices_ m)) in
    (if empty then clear else ret tt);;
    ret OK).

(** [*device = &device_array_[device_index_]]: the device handed out is named
    by its index. *)
Definition apply_for_device (opt_device_size : Z) : M NeuronDeviceManager (Status * option nat) :=
  fn_out (
    m ← get;
    (if negb (ready_ m) then TF_RETURN_IF_ERROR (initialize opt_device_size) else ret tt);;
    m ← get;
    let device := device_index_ m in
    modify (set_device_index_ (S (device_index_ m)));;
    m ← get;
    (if (num_devices_ m <=? device_index_ m)%nat
     then modify (set_device_index_ 0)
     else ret tt);;
    ret device).

(** *** init_devices *)

(** An attempt to create a group starts with the channel of the device; the
    number of attempts among the calls [made] is the number of channels. *)
Definition is_channel (c : call) : bool :=
  match c with CreateCustomChannel _ => true | _ => false end.

(** The core counts asked of the daemon, in the order of the calls. *)
Definition requested (made : list call) : list (option Z) :=
  omap (fun c => match c with create_eg nc_count => Some nc_count | _ => None end) made.

(** What [create_eg] is asked for [num_cores_req] cores. *)
Definition request_for (num_cores_req : Z) : option Z :=
  if 0 <=? num_cores_req then Some num_cores_req else None.

(** One attempt: [device_array_[idx].initialize(nrtd_address_, num_cores_req)]. *)
Definition attempt (idx : nat) (num_cores_req : Z) : M NeuronDeviceManager Status :=
  m ← get;
  device_array_at idx
    (NeuronDevice.initialize NERR_OK NRT_INVALID_NN_ID (nrtd_address_ m) num_cores_req).

(** The fields of the pool an attempt does not touch. *)
Definition same_pool (m m' : NeuronDeviceManager) : Prop :=
  nrtd_address_ m' = nrtd_address_ m /\ stub_ m' = stub_ m
  /\ device_index_ m' = device_index_ m /\ ready_ m' = ready_ m
  /\ path_set_ m' = path_set_ m
  /\ length (device_array_ m') = length (device_array_ m).

Lemma same_pool_refl m : same_pool m m.
Proof. by repeat split. Qed.

Lemma same_pool_trans m1 m2 m3 : same_pool m1 m2 -> same_pool m2 m3 -> same_pool m1 m3.
Proof.
  intros (? & ? & ? & ? & ? & ?) (? & ? & ? & ? & ? & ?).
  repeat split; congruence.
Qed.

(** An attempt always returns; it makes one channel and at most one create_eg
    call, for the count asked; it touches the slot [idx] alone, and leaves a
    created group there when it returns OK. *)
Lemma attempt_cases idx num_cores_req m w :
  (idx < length (device_array_ m))%nat ->
  exists st d' made,
    attempt idx num_cores_req m w
      = (Val st, set_device_array_ (<[idx := d']> (device_array_ m)) m, extend w made)
    /\ count is_channel made = 1%nat
    /\ (requested made = [] \/ requested made = [request_for num_cores_req])
    /\ (st = OK ->
          requested made = [request_for num_cores_req] /\ NeuronDevice.created d').
Proof.
  intros Hidx. destruct (lookup_lt_is_Some_2 _ _ Hidx) as [d Hd].
  destruct (NeuronDevice.initialize_cases NERR_OK NRT_INVALID_NN_ID
              (nrtd_address_ m) num_cores_req d w)
    as (st & d' & made & Hrun & Hmade & Hok & _).
  exists st, d', made. split.
  { unfold attempt, device_array_at, zoom, mbind, M_bind, bind, get.
    by rewrite Hd, Hrun. }
  unfold NeuronDevice.create_eg_for in *.
  split; [|split].
  - by destruct Hmade as [-> | [-> | ->]].
  - destruct Hmade as [-> | [-> | ->]]; [by left | by left | by right].
  - intros Hst. destruct (Hok Hst) as (-> & Hcreated & _). by split.
Qed.

Lemma count_extend_app p a b : count p (a ++ b) = (count p a + count p b)%nat.
Proof. apply count_app. Qed.

Lemma requested_app a b : requested (a ++ b) = requested a ++ requested b.
Proof. unfold requested. apply omap_app. Qed.

(** The loop of [init_devices] from slot [idx] on: [k] attempts succeed, one
    after the other, and the next one, if there is one, fails and ends the
    loop. *)
Lemma init_devices_loop_run plan : forall idx status m w,
  (idx + length plan <= length (device_array_ m))%nat ->
  exists k st m' w' made,
    init_devices_loop plan idx status m w = (Val st, m', w')
    /\ calls w' = calls w ++ made /\ oracle w' = oracle w
    /\ (k <= length plan)%nat
    /\ num_devices_ m' = (num_devices_ m + k)%nat
    /\ same_pool m m'
    /\ (forall i, (i < idx)%nat -> device_array_ m' !! i = device_array_ m !! i)
    /\ (forall i, (idx <= i < idx + k)%nat ->
          exists d, device_array_ m' !! i = Some d /\ NeuronDevice.created d)
    /\ count is_channel made = (if (k <? length plan)%nat then S k else k)
    /\ (exists extra,
          requested made = map request_for (take k plan) ++ extra
          /\ (extra = [] \/ exists n, plan !! k = Some n /\ extra = [request_for n]))
    /\ (k = length plan -> st = match plan with [] => status | _ => OK end)
    /\ ((k < length plan)%nat -> st <> OK)
    /\ (k = 0%nat -> forall n, plan !! 0%nat = Some n ->
          (attempt idx n m w).1.1 = Val st).
Proof.
  induction plan as [|n rest IH]; intros idx status m w Hlen.
  - exists 0%nat, status, m, w, []. simpl.
    rewrite app_nil_r, Nat.add_0_r.
    repeat split; auto using same_pool_refl; try lia; try done.
    exists []. split; [done | by left].
  - simpl in Hlen.
    destruct (attempt_cases idx n m w ltac:(lia)) as (st1 & d1 & made1 & Hrun & Hch & Hreq & Hok).
    set (m1 := set_device_array_ (<[idx := d1]> (device_array_ m)) m) in *.
    assert (Hbody : init_devices_loop (n :: rest) idx status m w
              = (if negb (ok st1) then
                   (Val st1, m1,
                    advance (extend w made1) []
                      ["Cannot initialize NeuronCore Group with " +:+ to_string n
                         +:+ " cores; stopping initialization."])
                 else init_devices_loop rest (S idx) st1
                        (set_num_devices_ (S (num_devices_ m1)) m1) (extend w made1))).
    { simpl. unfold attempt in Hrun.
      unfold mbind, M_bind, bind, get in *. rewrite Hrun.
      destruct (ok st1); simpl; [done|].
      unfold LOG, ret, advance, extend. simpl. by rewrite app_nil_r. }
    rewrite Hbody. clear Hbody.
    assert (Hpool1 : same_pool m m1).
    { unfold m1. repeat split. simpl. by rewrite length_insert. }
    destruct st1 as [|code msg]; simpl.
    + destruct (Hok eq_refl) as [Hreq1 Hcreated].
      destruct (IH (S idx) OK (set_num_devices_ (S (num_devices_ m1)) m1) (extend w made1))
        as (k & st & m' & w' & made & Hloop & Hcalls & Horacle & Hk & Hnum & Hpool
            & Hbefore & Hslots & Hchan & (extra & Hrequested & Hextra) & Hall & Hfail & _).
      { simpl. rewrite length_insert. lia. }
      exists (S k), st, m', w', (made1 ++ made).
      split; [exact Hloop|].
      split; [rewrite Hcalls; unfold extend; simpl; by rewrite app_assoc|].
      split; [by rewrite Horacle|].
      split; [simpl; lia|].
      split; [rewrite Hnum; simpl; lia|].
      split; [eapply same_pool_trans; [exact Hpool1|]; exact Hpool|].
      split.
      { intros i Hi. rewrite Hbefore by lia. simpl.
        by rewrite list_lookup_insert_ne by lia. }
      split.
      { intros i Hi. destruct (decide (i = idx)) as [->|Hne].
        - exists d1. split; [|done]. rewrite Hbefore by lia. simpl.
          by rewrite list_lookup_insert_eq by lia.
        - apply Hslots. lia. }
      split.
      { rewrite count_extend_app, Hch, Hchan. simpl.
        replace (S k <? S (length rest))%nat with (k <? length rest)%nat by done.
        by destruct (k <? length rest)%nat. }
      split.
      { exists extra. split; [|done].
        rewrite requested_app, Hreq1, Hrequested. done. }
      split.
      { intros Hfull. rewrite Hall by (simpl in Hfull; lia). by destruct rest. }
      split; [intros Hlt; apply Hfail; simpl in Hlt; lia|].
      intros Hzero. lia.
    + eexists 0%nat, (Error code msg), m1, _, made1.
      split; [reflexivity|].
      split; [simpl; by rewrite app_nil_r|].
      split; [done|].
      split; [lia|].
      split; [simpl; lia|].
      split; [exact Hpool1|].
      split.
      { intros i Hi. simpl. by rewrite list_lookup_insert_ne by lia. }
      split; [intros i Hi; lia|].
      split; [exact Hch|].
      split.
      { destruct Hreq as [Hreq|Hreq].
        - exists []. split; [done | by left].
        - exists [request_for n]. split; [done|]. right. by exists n. }
      split; [simpl; intros; lia|].
      split; [done|].
      intros _ n' Hn'. simpl in Hn'. injection Hn' as <-. by rewrite Hrun.
Qed.

(** The pool and the world before attempt [i] of the plan that starts at
    slot [idx], when the attempts before it have returned OK: each of them
    has been made in turn, and the number of groups stepped after it. *)
Fixpoint before_attempt (plan : list Z) (idx i : nat) (m : NeuronDeviceManager)
    (w : World) : NeuronDeviceManager * World :=
  match i, plan with
  | S i', n :: rest =>
      let made := attempt idx n m w in
      before_attempt rest (S idx) i'
        (set_num_devices_ (S (num_devices_ made.1.2)) made.1.2) made.2
  | _, _ => (m, w)
  end.

(** The line the loop writes when an attempt fails. *)
Definition stopping_line (num_cores_req : Z) : string :=
  "Cannot initialize NeuronCore Group with " +:+ to_string num_cores_req
    +:+ " cores; stopping initialization.".

(** The loop of [init_devices], attempt by attempt: [k] is the index of the
    first attempt that does not return OK, or the length of the plan. *)
Lemma init_devices_loop_trace plan : forall idx status m w,
  (idx + length plan <= length (device_array_ m))%nat ->
  exists k,
    (k <= length plan)%nat
    /\ (forall i n, (i < k)%nat -> plan !! i = Some n ->
          (attempt (idx + i) n (before_attempt plan idx i m w).1
             (before_attempt plan idx i m w).2).1.1 = Val OK)
    /\ num_devices_ (before_attempt plan idx k m w).1 = (num_devices_ m + k)%nat
    /\ (k = length plan ->
          init_devices_loop plan idx status m w
          = (Val (match plan with [] => status | _ => OK end),
             (before_attempt plan idx k m w).1, (before_attempt plan idx k m w).2))
    /\ (forall n, plan !! k = Some n ->
          let made := attempt (idx + k) n (before_attempt plan idx k m w).1
                        (before_attempt plan idx k m w).2 in
          exists failure,
            made.1.1 = Val failure /\ failure <> OK
            /\ num_devices_ made.1.2 = (num_devices_ m + k)%nat
            /\ init_devices_loop plan idx status m w
               = (Val failure, made.1.2, advance made.2 [] [stopping_line n])).
Proof.
  induction plan as [|n rest IH]; intros idx status m w Hlen.
  - exists 0%nat. cbn. rewrite Nat.add_0_r. repeat split; try done; intros; lia.
  - cbn [length] in Hlen.
    destruct (attempt_cases idx n m w ltac:(lia)) as (st1 & d1 & made1 & Hrun & _).
    set (m1 := set_device_array_ (<[idx := d1]> (device_array_ m)) m) in *.
    assert (Hbody : init_devices_loop (n :: rest) idx status m w
              = (if negb (ok st1) then
                   (Val st1, m1, advance (extend w made1) [] [stopping_line n])
                 else init_devices_loop rest (S idx) st1
                        (set_num_devices_ (S (num_devices_ m1)) m1) (extend w made1))).
    { cbn [init_devices_loop]. unfold attempt in Hrun.
      unfold mbind, M_bind, bind, get in *. rewrite Hrun.
      destruct (ok st1); cbn; [done|].
      unfold LOG, ret, advance, extend, stopping_line. cbn. by rewrite app_nil_r. }
    destruct st1 as [|code msg].
    + destruct (IH (S idx) OK (set_num_devices_ (S (num_devices_ m1)) m1) (extend w made1))
        as (k & Hk & Hok & Hnum & Hall & Hfail).
      { cbn. rewrite length_insert. lia. }
      assert (Hbefore : forall i,
                before_attempt (n :: rest) idx (S i) m w
                = before_attempt rest (S idx) i
                    (set_num_devices_ (S (num_devices_ m1)) m1) (extend w made1)).
      { intros i. cbn [before_attempt]. by rewrite Hrun. }
      exists (S k). split; [cbn; lia|]. split.
      { intros [|i] n' Hi Hn'.
        - injection Hn' as <-. cbn [before_attempt fst snd]. rewrite Nat.add_0_r.
          by rewrite Hrun.
        - rewrite Hbefore. replace (idx + S i)%nat with (S idx + i)%nat by lia.
          apply Hok; [lia | done]. }
      split; [rewrite Hbefore, Hnum; cbn; lia|].
      split.
      { intros Hfull. rewrite Hbody, Hbefore. cbn [ok negb].
        rewrite Hall by (cbn in Hfull; lia). by destruct rest. }
      intros n' Hn'. cbn in Hn'. rewrite Hbefore.
      replace (idx + S k)%nat with (S idx + k)%nat by lia.
      destruct (Hfail n' Hn') as (failure & Hr & Hne & Hnum' & Hloop).
      exists failure. split; [done|]. split; [done|].
      split; [rewrite Hnum'; cbn; lia|].
      by rewrite Hbody.
    + exists 0%nat. split; [lia|]. split; [intros; lia|].
      split; [cbn; lia|]. split; [done|].
      intros n' [= <-]. cbn [before_attempt fst snd]. rewrite Nat.add_0_r, Hrun.
      exists (Error code msg). split; [done|]. split; [done|].
      split; [cbn; lia|]. by rewrite Hbody.
Qed.

(** C5.  On a pool with no active group and room for the plan,
    [init_devices] returns, with [k] active groups, where:
    the attempts are made in the order of the plan (the core counts asked of
    the daemon are those of the plan, in order); the first [k] attempts, each
    made after the ones before it, return OK, and their groups are created
    and stay in slots [0 .. k-1]; when [k] is less than the length of the
    plan, attempt [k] does not return OK and is the last attempt made
    ([k + 1] attempts in all, none for the rest of the plan); the result is
    OK if and only if [k >= 1]; and when [k = 0] the result is the error of
    the one attempt that was made (the error "No NeuronCore Group can be
    initialized." for an empty plan). *)
Theorem init_devices_plan plan m w :
  num_devices_ m = 0%nat ->
  (length plan <= length (device_array_ m))%nat ->
  exists k st m' w' made,
    init_devices plan m w = (Val st, m', w')
    /\ calls w' = calls w ++ made
    /\ num_devices_ m' = k /\ (k <= length plan)%nat
    /\ same_pool m m'
    /\ (forall i, (i < k)%nat ->
          exists d, device_array_ m' !! i = Some d /\ NeuronDevice.created d)
    /\ count is_channel made = (if (k <? length plan)%nat then S k else k)
    /\ (exists extra,
          requested made = map request_for (take k plan) ++ extra
          /\ (extra = [] \/ exists n, plan !! k = Some n /\ extra = [request_for n]))
    /\ (st = OK <-> (0 < k)%nat)
    /\ (k = 0%nat -> forall n, plan !! 0%nat = Some n -> (attempt 0 n m w).1.1 = Val st)
    /\ (k = 0%nat -> plan = [] -> st = no_group)
    /\ (forall i n, (i < k)%nat -> plan !! i = Some n ->
          (attempt i n (before_attempt plan 0 i m w).1
             (before_attempt plan 0 i m w).2).1.1 = Val OK)
    /\ (forall n, plan !! k = Some n ->
          exists failure,
            (attempt k n (before_attempt plan 0 k m w).1
               (before_attempt plan 0 k m w).2).1.1 = Val failure
            /\ failure <> OK /\ (k = 0%nat -> st = failure)).
Proof.
  intros Hzero Hlen.
  destruct (init_devices_loop_run plan 0 no_group m w ltac:(simpl; lia))
    as (k & st & m' & w' & made & Hloop & Hcalls & Horacle & Hk & Hnum & Hpool
        & _ & Hslots & Hchan & Hrequested & Hall & Hfail & Hfirst).
  rewrite Hzero in Hnum. simpl in Hnum.
  destruct (init_devices_loop_trace plan 0 no_group m w ltac:(simpl; lia))
    as (k' & Hk' & Hsucceed & Hnum' & Hfull & Hstops).
  rewrite Hzero in Hnum'. cbn [Nat.add] in Hnum', Hsucceed, Hstops.
  assert (Hsame : k' = k).
  { destruct (decide (k' = length plan)) as [Hend|Hmore].
    - rewrite (Hfull Hend) in Hloop. injection Hloop as _ <- _. congruence.
    - destruct (lookup_lt_is_Some_2 plan k' ltac:(lia)) as [n Hn].
      destruct (Hstops n Hn) as (failure & _ & _ & Hnum'' & Hrun).
      rewrite Hrun in Hloop. injection Hloop as _ <- _.
      rewrite Hzero in Hnum''. cbn in Hnum''. congruence. }
  subst k'.
  exists k, (if (0 =? k)%nat then st else OK), m', w', made.
  split.
  { unfold init_devices, fn, mbind, M_bind, bind, get, return_, ret.
    rewrite Hloop, Hnum. by destruct (0 =? k)%nat. }
  split; [done|]. split; [done|]. split; [done|]. split; [done|].
  split; [intros i Hi; apply Hslots; lia|].
  split; [done|]. split; [done|].
  split.
  { destruct k as [|k]; simpl; [|split; [lia | done]].
    split; [|lia]. intros ->. exfalso.
    destruct plan as [|n rest]; [by specialize (Hall eq_refl)|].
    apply Hfail; [simpl; lia | done]. }
  split.
  { intros ->. simpl. by apply Hfirst. }
  split.
  { intros -> ->. simpl. by apply Hall. }
  split; [exact Hsucceed|].
  intros n Hn. destruct (Hstops n Hn) as (failure & Hmade & Hne & _ & Hrun).
  exists failure. split; [done|]. split; [done|].
  intros ->. cbn. rewrite Hrun in Hloop. by injection Hloop as <- _ _.
Qed.

(** *** apply_for_device *)

(** [N] calls of [apply_for_device] in a row: what each returns. *)
Fixpoint handed_out (N : nat) (opt_device_size : Z) (m : NeuronDeviceManager) (w : World)
    : list (Res (Status * option nat)) :=
  match N with
  | O => []
  | S N' =>
      let '(r, m', w') := apply_for_device opt_device_size m w in
      r :: handed_out N' opt_device_size m' w'
  end.

(** How many times the group [g] is among the groups handed out. *)
Definition times (g : nat) (groups : list nat) : nat :=
  length (List.filter (Nat.eqb g) groups).

(** On a pool that is ready, a call hands out the group under the cursor,
    moves the cursor to the next group or back to 0 after the last one, and
    does nothing else. *)
Lemma apply_for_device_ready opt_device_size m w :
  ready_ m = true ->
  apply_for_device opt_device_size m w
  = (Val (OK, Some (device_index_ m)),
     set_device_index_
       (if (num_devices_ m <=? S (device_index_ m))%nat then 0%nat
        else S (device_index_ m)) m,
     w).
Proof.
  intros Hready. unfold apply_for_device, fn_out, mbind, M_bind, bind, get, modify, ret.
  rewrite Hready. simpl.
  by destruct (num_devices_ m <=? S (device_index_ m))%nat.
Qed.

Lemma succ_div_mod N M :
  (0 < M)%nat ->
  (S N mod M = S (N mod M) /\ S N / M = N / M /\ S (N mod M) < M)%nat
  \/ (S N mod M = 0 /\ S N / M = S (N / M) /\ S (N mod M) = M)%nat.
Proof.
  intros HM.
  pose proof (Nat.div_mod_eq N M) as Hdm.
  pose proof (Nat.mod_upper_bound N M ltac:(lia)) as Hub.
  destruct (decide (S (N mod M) < M)%nat) as [Hlt|Hge].
  - left.
    assert (Hq : (S N / M = N / M)%nat)
      by (symmetry; apply (Nat.div_unique _ _ _ (S (N mod M))); lia).
    assert (Hr : (S N mod M = S (N mod M))%nat)
      by (symmetry; apply (Nat.mod_unique _ _ (N / M)); lia).
    lia.
  - right.
    assert (Hq : (S N / M = S (N / M))%nat)
      by (symmetry; apply (Nat.div_unique _ _ _ 0%nat); lia).
    assert (Hr : (S N mod M = 0)%nat)
      by (symmetry; apply (Nat.mod_unique _ _ (S (N / M))); lia).
    lia.
Qed.

(** Among the first [N] numbers, those that are [g] modulo [M]. *)
Lemma times_round_robin g M N :
  (g < M)%nat ->
  times g (map (fun k => k mod M)%nat (seq 0 N))
  = (N / M + (if (g <? N mod M)%nat then 1 else 0))%nat.
Proof.
  intros Hg. unfold times. induction N as [|N IH].
  - simpl. rewrite Nat.Div0.div_0_l, Nat.Div0.mod_0_l. done.
  - rewrite seq_S, map_app, List.filter_app, length_app, IH. simpl.
    destruct (succ_div_mod N M ltac:(lia)) as [(Hr & Hq & Hlt) | (Hr & Hq & Heq)];
      rewrite Hr, Hq.
    + destruct (Nat.eqb_spec g (N mod M)) as [->|Hne]; simpl.
      * rewrite Nat.ltb_irrefl. rewrite (proj2 (Nat.ltb_lt _ _)) by lia. lia.
      * destruct (Nat.ltb_spec g (N mod M)), (Nat.ltb_spec g (S (N mod M))); lia.
    + destruct (Nat.eqb_spec g (N mod M)) as [->|Hne]; simpl.
      * rewrite Nat.ltb_irrefl. simpl. lia.
      * destruct (Nat.ltb_spec g (N mod M)); simpl; lia.
Qed.

Lemma handed_out_from N opt_device_size : forall m w,
  ready_ m = true -> (device_index_ m < num_devices_ m)%nat ->
  handed_out N opt_device_size m w
  = map (fun k => Val (OK, Some ((device_index_ m + k) mod num_devices_ m)%nat)) (seq 0 N).
Proof.
  induction N as [|N IH]; intros m w Hready Hidx; [done|].
  simpl. rewrite apply_for_device_ready by done.
  rewrite Nat.add_0_r, Nat.mod_small by done. f_equal.
  rewrite IH; simpl; [|done|by destruct (Nat.leb_spec (num_devices_ m) (S (device_index_ m))); lia].
  rewrite <- seq_shift, map_map. apply map_ext. intros k. do 3 f_equal.
  destruct (Nat.leb_spec (num_devices_ m) (S (device_index_ m))) as [Hwrap|Hnext].
  - assert (Hlast : S (device_index_ m) = num_devices_ m) by lia.
    replace (device_index_ m + S k)%nat with (k + 1 * num_devices_ m)%nat by lia.
    by rewrite Nat.Div0.mod_add.
  - f_equal. lia.
Qed.

(** C6.  On a pool that is ready with [M >= 1] active groups and the cursor
    at 0, as [initialize] leaves it, [N] calls of [apply_for_device] in a row
    all return OK and hand out the groups [0, 1, ..., M-1, 0, 1, ...]: call
    [k] hands out group [k mod M].  Each group is handed out [N / M] times,
    and once more when it is below [N mod M], so [N / M] rounded down or up;
    and a call that hands out the last group puts the cursor back to 0. *)
Theorem round_robin N opt_device_size m w :
  ready_ m = true -> (0 < num_devices_ m)%nat -> device_index_ m = 0%nat ->
  let M := num_devices_ m in
  handed_out N opt_device_size m w
    = map (fun k => Val (OK, Some (k mod M)%nat)) (seq 0 N)
  /\ (forall g, (g < M)%nat ->
        let handed := times g (map (fun k => k mod M)%nat (seq 0 N)) in
        handed = (N / M + (if (g <? N mod M)%nat then 1 else 0))%nat
        /\ (N / M <= handed <= (N + M - 1) / M)%nat)
  /\ (forall m0 w0, ready_ m0 = true -> S (device_index_ m0) = num_devices_ m0 ->
        device_index_ (apply_for_device opt_device_size m0 w0).1.2 = 0%nat).
Proof.
  intros Hready HM Hidx M. split; [|split].
  - rewrite handed_out_from by (done || lia). by rewrite Hidx.
  - intros g Hg handed. unfold handed. rewrite times_round_robin by done.
    split; [done|]. split; [lia|].
    pose proof (Nat.div_mod_eq N M) as Hdm.
    pose proof (Nat.mod_upper_bound N M ltac:(lia)) as Hub.
    destruct (Nat.ltb_spec g (N mod M)) as [Hlt|Hge]; [|rewrite Nat.add_0_r; apply Nat.Div0.div_le_mono; lia].
    apply Nat.div_le_lower_bound; [lia|]. nia.
  - intros m0 w0 Hready0 Hlast. rewrite apply_for_device_ready by done. simpl.
    by rewrite Hlast, Nat.leb_refl.
Qed.

(** *** init_default_device *)

(** The sizes the search goes through: from [num_cores] down to
    [MIN_NUM_CORES], one by one. *)
Definition sizes_down (num_cores : Z) : list Z :=
  map (fun i => num_cores - Z.of_nat i) (seq 0 (Z.to_nat (num_cores - MIN_NUM_CORES + 1))).

(** A search through [sizes], from the pool [m] and the world [w]: [trace]
    has, for each attempt made, its status and the pool and the world it
    leaves.  The attempts are made on slot 0, for the sizes in order, each
    from where the one before left, and an attempt is followed by another one
    only when it failed. *)
Fixpoint searched (sizes : list Z) (m : NeuronDeviceManager) (w : World)
    (trace : list (Status * NeuronDeviceManager * World)) {struct trace} : Prop :=
  match trace with
  | [] => True
  | (st, m', w') :: trace' =>
      match sizes with
      | [] => False
      | num_cores :: sizes' =>
          attempt 0 num_cores m w = (Val st, m', w')
          /\ (trace' <> [] -> st <> OK)
          /\ searched sizes' m' w' trace'
      end
  end.

(** What the search would be as a binary search between [MIN_NUM_CORES] and
    [opt_device_size]: one that halves the range at each attempt makes at most
    this many attempts. *)
Definition binary_search_tries (opt_device_size : Z) : nat :=
  Z.to_nat (Z.log2_up (opt_device_size - MIN_NUM_CORES + 1) + 1).

Definition search_as_specified (opt_device_size : Z) (m : NeuronDeviceManager) (w : World)
    : Prop :=
  let made := drop (length (calls w)) (calls (init_default_device opt_device_size m w).2) in
  (count is_channel made <= binary_search_tries opt_device_size)%nat.

Lemma sizes_down_cons num_cores :
  MIN_NUM_CORES <= num_cores ->
  sizes_down num_cores = num_cores :: sizes_down (num_cores - 1).
Proof.
  intros Hmin. unfold sizes_down.
  replace (Z.to_nat (num_cores - MIN_NUM_CORES + 1))
    with (S (Z.to_nat (num_cores - 1 - MIN_NUM_CORES + 1))) by lia.
  simpl. f_equal; [lia|].
  rewrite <- seq_shift, map_map. apply map_ext. intros i. lia.
Qed.

Lemma sizes_down_nil num_cores :
  num_cores < MIN_NUM_CORES -> sizes_down num_cores = [].
Proof.
  intros Hmin. unfold sizes_down.
  by replace (Z.to_nat (num_cores - MIN_NUM_CORES + 1)) with 0%nat by lia.
Qed.

Lemma fn_no_return {St} (body : M St Status) st w s st' w' :
  fn body st w <> (Return s, st', w').
Proof. unfold fn. by destruct (body st w) as [[[?|?|] ?] ?]. Qed.

(** A function whose last statement is the call of another one, under
    [TF_RETURN_IF_ERROR], returns what the other returns. *)
Lemma fn_call_last {St} (body : M St Status) st w :
  fn (TF_RETURN_IF_ERROR (fn body);; ret OK) st w = fn body st w.
Proof.
  rewrite fn_first.
  destruct (fn body st w) as [[[s|s|] st'] w'] eqn:Hcall.
  - by destruct s.
  - by apply fn_no_return in Hcall.
  - done.
Qed.

(** The loop of the search: it makes its attempts on the sizes from
    [num_cores] down, stops at the first that returns OK, which ends the
    function with one active group, and otherwise goes through all the sizes
    and leaves the status of the last attempt. *)
Lemma search_largest_run fuel : forall num_cores status m w,
  (Z.to_nat (num_cores - MIN_NUM_CORES + 1) <= fuel)%nat ->
  (0 < length (device_array_ m))%nat ->
  exists trace st m' w' made,
    searched (sizes_down num_cores) m w trace
    /\ default (status, m, w) (last trace) = (st, m', w')
    /\ w' = extend w made /\ count is_channel made = length trace
    /\ same_pool m m' /\ num_devices_ m' = num_devices_ m
    /\ ((st = OK /\ search_largest fuel num_cores status m w
                    = (Return OK, set_num_devices_ 1 m', w')
         /\ exists d n before,
              device_array_ m' !! 0%nat = Some d /\ NeuronDevice.created d
              /\ sizes_down num_cores !! (length trace - 1)%nat = Some n
              /\ requested made = before ++ [request_for n])
        \/ (length trace = length (sizes_down num_cores)
            /\ (status <> OK -> st <> OK)
            /\ search_largest fuel num_cores status m w = (Val st, m', w'))).
Proof.
  induction fuel as [|fuel IH]; intros num_cores status m w Hfuel Hlen.
  - exists [], status, m, w, []. rewrite extend_nil.
    rewrite sizes_down_nil by lia.
    repeat split; auto using same_pool_refl. right.
    repeat split; auto. simpl.
    by destruct (Z.leb_spec MIN_NUM_CORES num_cores); [lia|].
  - destruct (Z.leb_spec MIN_NUM_CORES num_cores) as [Hmin|Hmin].
    2: { exists [], status, m, w, []. rewrite extend_nil.
         rewrite sizes_down_nil by lia.
         repeat split; auto using same_pool_refl. right.
         repeat split; auto. simpl.
         by destruct (Z.leb_spec MIN_NUM_CORES num_cores); [lia|]. }
    rewrite sizes_down_cons by done.
    destruct (attempt_cases 0 num_cores m w Hlen)
      as (st1 & d1 & made1 & Hrun & Hch & Hreq & Hok).
    set (m1 := set_device_array_ (<[0%nat := d1]> (device_array_ m)) m) in *.
    assert (Hpool1 : same_pool m m1).
    { unfold m1. repeat split. simpl. by rewrite length_insert. }
    assert (Hbody : search_largest (S fuel) num_cores status m w
              = (if ok st1 then (Return OK, set_num_devices_ 1 m1, extend w made1)
                 else search_largest fuel (num_cores - 1) st1 m1 (extend w made1))).
    { simpl. destruct (Z.leb_spec MIN_NUM_CORES num_cores); [|lia].
      unfold attempt in Hrun. unfold mbind, M_bind, bind, get in *. rewrite Hrun.
      by destruct st1. }
    rewrite Hbody. clear Hbody.
    destruct st1 as [|code msg]; simpl.
    + destruct (Hok eq_refl) as [Hreq1 Hcreated].
      exists [(OK, m1, extend w made1)], OK, m1, (extend w made1), made1.
      split; [split; [exact Hrun | split; [intros Hne; by destruct Hne | exact I]]|].
      repeat split; auto; try apply Hpool1. left.
      repeat split; auto.
      exists d1, num_cores, []. simpl.
      rewrite list_lookup_insert_eq by done.
      split; [done|]. split; [done|]. by split.
    + destruct (IH (num_cores - 1) (Error code msg) m1 (extend w made1))
        as (trace & st & m' & w' & made & Hsearched & Hlast & Hw' & Hcount & Hpool & Hnum
            & Hend).
      { lia. }
      { unfold m1. simpl. rewrite length_insert. lia. }
      exists ((Error code msg, m1, extend w made1) :: trace), st, m', w', (made1 ++ made).
      split; [split; [exact Hrun | split; [done | exact Hsearched]]|].
      split.
      { rewrite last_cons. destruct (last trace) as [t|]; simpl in *; done. }
      split; [by rewrite Hw', extend_extend|].
      split; [rewrite count_extend_app, Hch, Hcount; simpl; lia|].
      split; [eapply same_pool_trans; [exact Hpool1 | exact Hpool]|].
      split; [by rewrite Hnum|].
      destruct Hend as [(-> & Hrun' & d & n & before & Hd & Hcreated & Hn & Hrequested)
                       |(Hall & Hst & Hrun')].
      * left. split; [done|]. split; [exact Hrun'|].
        exists d, n, (requested made1 ++ before).
        split; [done|]. split; [done|]. split.
        -- destruct trace as [|t trace]; [|simpl in *; by rewrite Nat.sub_0_r in *].
           simpl in Hlast. discriminate Hlast.
        -- by rewrite requested_app, Hrequested, app_assoc.
      * right. split; [simpl; by rewrite Hall|]. split; [|exact Hrun'].
        intros _. by apply Hst.
Qed.

(** C8, amended.  For a budget [opt_device_size] in [0, 64] and a pool with a slot 0:
    a budget of 1 runs the plan [1; 1; 1; 1] and a budget of 2 the plan
    [2; 2], through [init_devices] and with its result.  Any other budget
    makes attempts on slot 0 for the sizes [opt_device_size],
    [opt_device_size - 1], ... down to [MIN_NUM_CORES], one by one in this
    order, each attempt after a failed one, and stops at the first that
    returns OK: the result is then OK, with one active group, created in slot
    0 and asked for with the size of that attempt.  When no attempt returns
    OK every size has been tried, no group is active, and the result is the
    error of the last attempt (the error "No NeuronCore Group can be
    initialized." when there was no size to try). *)
Theorem default_plan opt_device_size m w :
  0 <= opt_device_size <= 64 ->
  (0 < length (device_array_ m))%nat ->
  (opt_device_size = 1 ->
     init_default_device opt_device_size m w = init_devices [1; 1; 1; 1] m w)
  /\ (opt_device_size = 2 ->
        init_default_device opt_device_size m w = init_devices [2; 2] m w)
  /\ (opt_device_size <> 1 -> opt_device_size <> 2 ->
        exists trace st m' w' made,
          searched (sizes_down opt_device_size) m w trace
          /\ default (no_group, m, w) (last trace) = (st, m', w')
          /\ w' = extend w made /\ count is_channel made = length trace
          /\ init_default_device opt_device_size m w
             = (Val st, set_num_devices_ (if ok st then 1%nat else 0%nat) m', w')
          /\ (st = OK ->
                exists d n before,
                  device_array_ m' !! 0%nat = Some d /\ NeuronDevice.created d
                  /\ sizes_down opt_device_size !! (length trace - 1)%nat = Some n
                  /\ requested made = before ++ [request_for n])
          /\ (st <> OK -> length trace = length (sizes_down opt_device_size))).
Proof.
  intros Hrange Hlen. split; [|split].
  - intros ->. unfold init_default_device. simpl. apply fn_call_last.
  - intros ->. unfold init_default_device. simpl. apply fn_call_last.
  - intros H1 H2.
    destruct (search_largest_run (Z.to_nat (opt_device_size - MIN_NUM_CORES + 1))
                opt_device_size no_group m w ltac:(lia) Hlen)
      as (trace & st & m' & w' & made & Hsearched & Hlast & Hw' & Hcount & _ & _ & Hend).
    exists trace, st, m', w', made.
    do 4 (split; [done|]).
    assert (Hbranch : (opt_device_size <? 0) || (opt_device_size >? 64) = false).
    { apply orb_false_iff. split; [apply Z.ltb_ge; lia|].
      rewrite Z.gtb_ltb. apply Z.ltb_ge. lia. }
    unfold init_default_device. rewrite Hbranch.
    destruct (Z.eqb_spec opt_device_size 1) as [|_]; [done|].
    destruct (Z.eqb_spec opt_device_size 2) as [|_]; [done|].
    unfold fn, mbind, M_bind, bind, modify, return_.
    destruct Hend as [(-> & Hrun & Hgroup) | (Hall & Hst & Hrun)]; rewrite Hrun.
    + split; [done|]. split; [done|]. intros Hne. by destruct Hne.
    + assert (Hfailed : ok st = false).
      { destruct st; [|done]. by destruct Hst. }
      rewrite Hfailed. split; [done|]. split; [|done].
      intros ->. discriminate Hfailed.
Qed.

(** *** initialize: the sizing list *)

(** What [initialize] makes of a sizing list [raw] that is not empty: the
    vector its loop leaves and whether it warned, and the plan it then runs,
    [None] for the default plan. *)
Definition sizing_list (raw : string) : list Z * bool :=
  parse_group_sizes MAX_NUM_CORES
    (Some (remove_pattern (remove_pattern raw "[") "]")) [].

Definition resolved_plan (raw : string) : option (list Z) :=
  let '(num_cores_req_vector, _) := sizing_list raw in
  if bool_decide (num_cores_req_vector = []) then None else Some num_cores_req_vector.

(** The substrings the loop reads with [getline]. *)
Fixpoint fields_read (turns : nat) (stream : option string) : list string :=
  match turns, stream with
  | S turns', Some rest =>
      let '(substr, stream') := getline rest "," in
      substr :: fields_read turns' stream'
  | _, _ => []
  end.

(** The sizing list in the words of the specification: the brackets are
    taken out, the rest is split on commas, and the counts are those of the
    entries that are not empty, when each parses to an integer in [0, 64];
    [None] stands for the default plan. *)
Fixpoint strip_brackets (s : string) : string :=
  match s with
  | EmptyString => EmptyString
  | String c s' =>
      if bool_decide (c = "["%char) || bool_decide (c = "]"%char)
      then strip_brackets s' else String c (strip_brackets s')
  end.

Fixpoint split_on (delim : ascii) (s : string) : list string :=
  match s with
  | EmptyString => [EmptyString]
  | String c s' =>
      if bool_decide (c = delim) then EmptyString :: split_on delim s'
      else match split_on delim s' with
           | field :: fields => String c field :: fields
           | [] => [String c EmptyString]
           end
  end.

Definition not_empty (entry : string) : bool := negb (bool_decide (entry = "")).

Definition valid_entry (entry : string) : bool :=
  (0 <=? stoi_no_throw entry) && (stoi_no_throw entry <=? 64).

Definition sizing_list_as_specified (raw : string) : option (list Z) :=
  let entries := List.filter not_empty (split_on "," (strip_brackets raw)) in
  if forallb valid_entry entries then Some (map stoi_no_throw entries) else None.

(** The entries [initialize] reads of a list without brackets: the first
    [MAX_NUM_CORES] fields between commas, the empty ones left out. *)
Definition entries_read (raw : string) : list string :=
  List.filter not_empty (take MAX_NUM_CORES (split_on "," raw)).

(** The pool and the world once [initialize] has set [PATH] and made its
    stub for the address [addr]. *)
Definition with_path (m : NeuronDeviceManager) (w : World) : World :=
  if path_set_ m then w
  else {| oracle := oracle w; calls := calls w; logged := logged w;
          environ := <["PATH" := default "" (environ w !! "PATH") +:+ ":/opt/aws/neuron/bin"]>
                       (environ w) |}.

Definition with_stub (addr : string) (m : NeuronDeviceManager) : NeuronDeviceManager :=
  set_stub_ (Some addr)
    (set_nrtd_address_ addr (if path_set_ m then m else set_path_set_ true m)).

Definition ill_formatted_line (raw : string) : string :=
  "NEURONCORE_GROUP_SIZES=" +:+ raw
    +:+ " looks ill-formatted. Falling back to initializing"
    +:+ " a default NeuronCore Group.".

Lemma index_none_any data : forall pattern pos,
  String.index 0 pattern data = None -> String.index pos pattern data = None.
Proof.
  induction data as [|b data IH]; intros pattern pos Hnone.
  - destruct pos; [done|]. by destruct pattern.
  - destruct pos as [|pos]; [done|].
    change (String.index 0 pattern (String b data))
      with (if String.prefix pattern (String b data) then Some 0%nat
            else match String.index 0 pattern data with
                 | Some n => Some (S n)
                 | None => None
                 end) in Hnone.
    simpl. destruct (String.prefix pattern (String b data)); [done|].
    destruct (String.index 0 pattern data) eqn:Hrest; [done|].
    by rewrite (IH pattern pos Hrest).
Qed.

(** A pattern that does not occur is not found whatever the position the
    search starts from, so the string is returned as it is. *)
Lemma remove_pattern_absent data pattern :
  find data pattern 0 = None -> remove_pattern data pattern = data.
Proof.
  intros Hnone. unfold remove_pattern.
  destruct (String.length data); [done|]. simpl.
  unfold find in *. by rewrite index_none_any.
Qed.

Lemma fields_read_split s : forall turns,
  fields_read turns (Some s) = take turns (split_on "," s).
Proof.
  induction s as [|c s IH]; intros [|turns]; try done.
  - simpl. by destruct turns.
  - simpl. destruct (bool_decide (c = ","%char)).
    + by rewrite IH.
    + specialize (IH (S turns)). simpl in IH.
      destruct (getline s ",") as [substr stream'].
      destruct (split_on "," s) as [|field fields]; [done|].
      simpl in IH. injection IH as -> Hrest. simpl. by rewrite Hrest.
Qed.

Lemma valid_entry_test entry :
  (stoi_no_throw entry <? 0) || (stoi_no_throw entry >? 64) = negb (valid_entry entry).
Proof.
  unfold valid_entry. rewrite Z.gtb_ltb.
  destruct (Z.ltb_spec (stoi_no_throw entry) 0), (Z.leb_spec 0 (stoi_no_throw entry)),
    (Z.ltb_spec 64 (stoi_no_throw entry)), (Z.leb_spec (stoi_no_throw entry) 64);
    simpl; try done; lia.
Qed.

(** The loop over the list: the vector gets the values of the entries that
    are not empty, in order, unless one of them is not valid, which empties
    it and warns. *)
Lemma parse_group_sizes_fields turns : forall stream num_cores_req_vector,
  let entries := List.filter not_empty (fields_read turns stream) in
  parse_group_sizes turns stream num_cores_req_vector
  = if forallb valid_entry entries
    then (num_cores_req_vector ++ map stoi_no_throw entries, false)
    else ([], true).
Proof.
  induction turns as [|turns IH]; intros stream vec; simpl.
  { by rewrite app_nil_r. }
  destruct stream as [rest|]; simpl; [|by rewrite app_nil_r].
  destruct (getline rest ",") as [substr stream']. simpl.
  replace (not_empty substr) with (negb (bool_decide (substr = EmptyString))) by done.
  destruct (bool_decide (substr = EmptyString)); simpl; [apply IH|].
  rewrite valid_entry_test.
  destruct (valid_entry substr); simpl; [|done].
  rewrite IH. simpl. by rewrite <- app_assoc.
Qed.

Lemma oracle_with_path m w : oracle (with_path m w) = oracle w.
Proof. unfold with_path. by destruct (path_set_ m). Qed.

Lemma calls_with_path m w : calls (with_path m w) = calls w.
Proof. unfold with_path. by destruct (path_set_ m). Qed.

Lemma environ_with_path m w (key : string) :
  key <> "PATH" -> environ (with_path m w) !! key = environ w !! key.
Proof.
  intros Hkey. unfold with_path. destruct (path_set_ m); [done|]. simpl.
  by rewrite lookup_insert_ne.
Qed.

(** [TF_RETURN_IF_ERROR(init_stub(&stub_, addr))] when the channel and the
    stub are made. *)
Lemma init_stub_made {St} (set_stub : option Stub -> St -> St) addr (st : St) w :
  r_ok (oracle w (calls w) (CreateCustomChannel addr)) = true ->
  r_ok (oracle w (calls w ++ [CreateCustomChannel addr]) NewStub) = true ->
  TF_RETURN_IF_ERROR (init_stub set_stub addr) st w
  = (Val tt, set_stub (Some addr) st, extend w [CreateCustomChannel addr; NewStub]).
Proof.
  intros Hchannel Hstub.
  unfold TF_RETURN_IF_ERROR, init_stub, fn, mbind, M_bind, bind, perform, modify,
    return_, ret, extend.
  rewrite Hchannel. simpl. rewrite Hstub. simpl. by rewrite <- app_assoc.
Qed.

Lemma sizing_list_entries raw :
  find raw "[" 0 = None -> find raw "]" 0 = None ->
  sizing_list raw
  = if forallb valid_entry (entries_read raw)
    then (map stoi_no_throw (entries_read raw), false)
    else ([], true).
Proof.
  intros Hopen Hclose. unfold sizing_list, entries_read.
  rewrite (remove_pattern_absent raw "[") by done.
  rewrite (remove_pattern_absent raw "]") by done.
  by rewrite parse_group_sizes_fields, fields_read_split.
Qed.

(** C7, amended.  For a sizing list that is not empty and has no bracket in it, and
    once the channel and the stub are made: the entries are the first
    [MAX_NUM_CORES] fields between commas that are not empty (what comes after
    is not read); the counts of the entries are used, through [init_devices],
    if and only if there is at least one entry and each entry parses to an
    integer in [0, 64]; otherwise the default plan is run, with a warning in
    the log when an entry was not valid. *)
Theorem sizing_list_resolved raw opt_device_size m w :
  raw <> EmptyString ->
  find raw "[" 0 = None -> find raw "]" 0 = None ->
  environ w !! "NEURONCORE_GROUP_SIZES" = Some raw ->
  let addr := default "unix:/run/neuron.sock" (environ w !! "NEURON_RTD_ADDRESS") in
  r_ok (oracle w (calls w) (CreateCustomChannel addr)) = true ->
  r_ok (oracle w (calls w ++ [CreateCustomChannel addr]) NewStub) = true ->
  let entries := entries_read raw in
  let usable := forallb valid_entry entries && negb (bool_decide (entries = [])) in
  (forall vec,
     resolved_plan raw = Some vec <-> usable = true /\ vec = map stoi_no_throw entries)
  /\ (resolved_plan raw = None <-> usable = false)
  /\ initialize opt_device_size m w
     = fn (TF_RETURN_IF_ERROR
             (if usable then init_devices (map stoi_no_throw entries)
              else init_default_device opt_device_size);;
           modify (set_ready_ true);; ret OK)
          (with_stub addr m)
          (advance (with_path m w) [CreateCustomChannel addr; NewStub]
             (if forallb valid_entry entries then [] else [ill_formatted_line raw])).
Proof.
  intros Hraw Hopen Hclose Henv addr Hchannel Hstub entries usable.
  pose proof (sizing_list_entries raw Hopen Hclose) as Hlist.
  fold entries in Hlist.
  split; [|split].
  - intros vec. unfold resolved_plan. rewrite Hlist. unfold usable.
    destruct (forallb valid_entry entries); simpl.
    + destruct entries as [|entry entries']; simpl.
      * split; [done | by intros [? _]].
      * split; [intros [= <-]; by split | by intros [_ ->]].
    + split; [done | by intros [? _]].
  - unfold resolved_plan. rewrite Hlist. unfold usable.
    destruct (forallb valid_entry entries); simpl; [|done].
    by destruct entries.
  - unfold initialize.
    rewrite (fn_bind_val get _ m w m m w eq_refl).
    rewrite (fn_bind_val _ _ m w tt (if path_set_ m then m else set_path_set_ true m)
               (with_path m w))
      by (unfold with_path; by destruct (path_set_ m)).
    rewrite (fn_bind_val (env_get _ _) _ _ _ addr _ _)
      by (unfold env_get; by rewrite environ_with_path).
    erewrite (fn_bind_val (modify _)) by reflexivity.
    erewrite (fn_bind_val (TF_RETURN_IF_ERROR _))
      by (apply init_stub_made; by rewrite oracle_with_path, calls_with_path).
    rewrite (fn_bind_val (env_get _ _) _ _ _ raw _ _)
      by (unfold env_get; simpl; by rewrite environ_with_path, Henv).
    rewrite bool_decide_eq_false_2 by done.
    change (parse_group_sizes MAX_NUM_CORES
              (Some (remove_pattern (remove_pattern raw "[") "]")) [])
      with (sizing_list raw).
    rewrite Hlist. unfold usable, with_stub.
    destruct (forallb valid_entry entries).
    + replace (advance (with_path m w) [CreateCustomChannel addr; NewStub] [])
        with (extend (with_path m w) [CreateCustomChannel addr; NewStub])
        by (unfold advance, extend; by rewrite app_nil_r).
      by destruct entries.
    + reflexivity.
Qed.

(** *** clear and clear_if_empty *)

(** The active groups are slots of the array, and each has its stub. *)
Definition active_with_stub (m : NeuronDeviceManager) : Prop :=
  (num_devices_ m <= length (device_array_ m))%nat
  /\ forall idx d, (idx < num_devices_ m)%nat -> device_array_ m !! idx = Some d ->
       is_Some (NeuronDevice.stub_ d).

(** A device with no model and no group. *)
Definition cleared (d : NeuronDevice) : Prop :=
  NeuronDevice.nn_id_set_ d = ∅ /\ NeuronDevice.create_eg_done_ d = false.

(** [device_array_[idx].clear()] for [k] slots from slot [i] on. *)
Lemma clear_slots k : forall i m w,
  (i + k <= length (device_array_ m))%nat ->
  (forall idx d, (i <= idx < i + k)%nat -> device_array_ m !! idx = Some d ->
     is_Some (NeuronDevice.stub_ d)) ->
  exists array lines,
    for_each (seq i k)
      (fun idx => device_array_at idx (NeuronDevice.clear NERR_OK NRT_INVALID_NN_ID)) m w
    = (Val tt, set_device_array_ array m,
       advance w
         (flat_map (NeuronDevice.clear_calls NRT_INVALID_NN_ID)
            (take k (drop i (device_array_ m)))) lines)
    /\ length array = length (device_array_ m)
    /\ (forall idx d', (i <= idx < i + k)%nat -> array !! idx = Some d' -> cleared d')
    /\ (forall idx, ~ (i <= idx < i + k)%nat -> array !! idx = device_array_ m !! idx).
Proof.
  induction k as [|k IH]; intros i m w Hlen Hstub.
  - exists (device_array_ m), []. simpl. rewrite advance_nil.
    split; [by destruct m|]. split; [done|]. split; [lia | done].
  - destruct (lookup_lt_is_Some_2 (device_array_ m) i ltac:(lia)) as [d Hd].
    destruct (NeuronDevice.clear_run NERR_OK NRT_INVALID_NN_ID d w) as (d' & lines1 & Hrun & Hset & Hdone & _).
    { apply (Hstub i); [lia | done]. }
    set (m1 := set_device_array_ (<[i := d']> (device_array_ m)) m).
    destruct (IH (S i) m1 (advance w (NeuronDevice.clear_calls NRT_INVALID_NN_ID d) lines1))
      as (array & lines2 & Hloop & Hlength & Hcleared & Hsame).
    { simpl. rewrite length_insert. lia. }
    { intros idx x Hidx Hx. simpl in Hx. rewrite list_lookup_insert_ne in Hx by lia.
      apply (Hstub idx); [lia | done]. }
    exists array, (lines1 ++ lines2).
    split.
    { cbn [seq for_each]. unfold mbind at 1, M_bind at 1, bind at 1.
      unfold device_array_at at 1, zoom. rewrite Hd, Hrun. fold m1.
      rewrite Hloop, advance_advance. simpl.
      rewrite drop_insert_lt by lia.
      by rewrite (drop_S _ _ _ Hd). }
    simpl in Hlength. rewrite length_insert in Hlength.
    split; [done|]. split.
    + intros idx x Hidx Hx. destruct (decide (idx = i)) as [-> | Hne].
      * rewrite Hsame in Hx by lia. simpl in Hx.
        rewrite list_lookup_insert_eq in Hx by lia. injection Hx as <-. by split.
      * apply (Hcleared idx); [lia | done].
    + intros idx Hidx. rewrite Hsame by lia. simpl.
      by rewrite list_lookup_insert_ne by lia.
Qed.

(** The pool after [clear]: no active group, the cursor at 0, not ready. *)
Definition reset (array : list NeuronDevice) (m : NeuronDeviceManager)
    : NeuronDeviceManager :=
  set_ready_ false (set_device_index_ 0 (set_num_devices_ 0 (set_device_array_ array m))).

Lemma clear_pool_run m w :
  active_with_stub m ->
  exists array lines,
    clear m w
    = (Val tt, reset array m,
       advance w
         (flat_map (NeuronDevice.clear_calls NRT_INVALID_NN_ID)
            (take (num_devices_ m) (device_array_ m))) lines)
    /\ length array = length (device_array_ m)
    /\ (forall idx d', (idx < num_devices_ m)%nat -> array !! idx = Some d' -> cleared d')
    /\ (forall idx, (num_devices_ m <= idx)%nat -> array !! idx = device_array_ m !! idx).
Proof.
  intros [Hlen Hstub].
  destruct (clear_slots (num_devices_ m) 0 m w) as (array & lines & Hloop & Hlength & Hc & Hs).
  { simpl. lia. }
  { intros idx d Hidx. apply Hstub. lia. }
  exists array, lines. split.
  { unfold clear, for_range.
    erewrite bind_val; [|reflexivity].
    erewrite bind_val; [|exact Hloop].
    by rewrite drop_0. }
  split; [done|]. split.
  - intros idx d' Hidx. apply Hc. lia.
  - intros idx Hidx. apply Hs. lia.
Qed.

(** X13.  [clear], on a pool whose active groups are slots of the array and
    have their stubs, runs to its end whatever the daemon answers.  It clears
    the active groups in the order of their slots, each with the calls of its
    own [clear], and no other: afterwards each of them has no model loaded
    and no group, the slots past them are as they were, no group is active,
    the cursor is at 0 and the pool is not ready.  A second [clear] makes no
    call and changes nothing. *)
Theorem clear_resets m w :
  active_with_stub m ->
  exists m' lines,
    clear m w
    = (Val tt, m',
       advance w
         (flat_map (NeuronDevice.clear_calls NRT_INVALID_NN_ID)
            (take (num_devices_ m) (device_array_ m))) lines)
    /\ (num_devices_ m', device_index_ m', ready_ m') = (0%nat, 0%nat, false)
    /\ (nrtd_address_ m', stub_ m', path_set_ m') = (nrtd_address_ m, stub_ m, path_set_ m)
    /\ length (device_array_ m') = length (device_array_ m)
    /\ (forall idx d', (idx < num_devices_ m)%nat -> device_array_ m' !! idx = Some d' ->
          cleared d')
    /\ (forall idx, (num_devices_ m <= idx)%nat ->
          device_array_ m' !! idx = device_array_ m !! idx)
    /\ (forall w', clear m' w' = (Val tt, m', w')).
Proof.
  intros Hactive.
  destruct (clear_pool_run m w Hactive) as (array & lines & Hrun & Hlength & Hc & Hs).
  exists (reset array m), lines.
  split; [done|]. split; [done|]. split; [done|]. split; [done|].
  split; [done|]. split; [done|].
  intros w'. reflexivity.
Qed.

(** Whether a model is loaded on one of the active groups. *)
Definition some_loaded (m : NeuronDeviceManager) : Prop :=
  exists idx d, (idx < num_devices_ m)%nat /\ device_array_ m !! idx = Some d
                /\ NeuronDevice.num_executable d <> 0%nat.

(** The groups to destroy among the devices [l]. *)
Definition groups_of (l : list NeuronDevice) : list call :=
  omap (fun d => if NeuronDevice.create_eg_done_ d
                 then Some (destroy_eg (NeuronDevice.eg_id_ d)) else None) l.

Lemma clear_calls_unloaded (l : list NeuronDevice) :
  Forall (fun d => NeuronDevice.num_executable d = 0%nat) l ->
  flat_map (NeuronDevice.clear_calls NRT_INVALID_NN_ID) l = groups_of l.
Proof.
  induction 1 as [|d l Hd _ IH]; [done|].
  cbn [flat_map]. rewrite IH. unfold groups_of. cbn [omap list_omap].
  unfold NeuronDevice.num_executable in Hd.
  apply size_empty_inv in Hd. apply leibniz_equiv in Hd.
  unfold NeuronDevice.clear_calls. rewrite Hd, elements_empty.
  by destruct (NeuronDevice.create_eg_done_ d).
Qed.

(** X14.  [clear_if_empty] returns OK in every case.  When a model is loaded
    on one of the active groups it makes no call and changes nothing.  When
    none is, it clears the pool: the only calls are the [destroy_eg] of the
    active groups that were created, in the order of their slots, and the
    pool is left with no active group, the cursor at 0 and not ready. *)
Theorem clear_if_empty_cases m w :
  active_with_stub m ->
  (some_loaded m -> clear_if_empty m w = (Val OK, m, w))
  /\ (~ some_loaded m ->
        exists m' lines,
          clear_if_empty m w
          = (Val OK, m',
             advance w (groups_of (take (num_devices_ m) (device_array_ m))) lines)
          /\ (num_devices_ m', device_index_ m', ready_ m') = (0%nat, 0%nat, false)
          /\ (forall idx d', (idx < num_devices_ m)%nat ->
                device_array_ m' !! idx = Some d' -> cleared d')).
Proof.
  intros Hactive.
  pose (empty := forallb (fun idx =>
                   match device_array_ m !! idx with
                   | Some d => (0 =? NeuronDevice.num_executable d)%nat
                   | None => true
                   end) (seq 0 (num_devices_ m))).
  assert (Hunfold : clear_if_empty m w
                    = fn ((if empty then clear else ret tt);; ret OK) m w) by reflexivity.
  rewrite Hunfold. clear Hunfold.
  assert (Hempty : empty = true <-> ~ some_loaded m).
  { unfold empty. rewrite forallb_forall. split.
    - intros Hall (idx & d & Hidx & Hd & Hne).
      specialize (Hall idx). rewrite Hd in Hall.
      rewrite Nat.eqb_eq in Hall. apply Hne. symmetry. apply Hall.
      apply in_seq. lia.
    - intros Hnone idx Hidx%in_seq.
      destruct (device_array_ m !! idx) as [d|] eqn:Hd; [|done].
      apply Nat.eqb_eq. destruct (NeuronDevice.num_executable d) eqn:Hn; [done|].
      exfalso. apply Hnone. exists idx, d. split; [lia|]. split; [done|]. lia. }
  split.
  - intros Hloaded. destruct empty.
    + exfalso. by apply Hempty.
    + reflexivity.
  - intros Hnone. apply Hempty in Hnone as Htrue.
    destruct (clear_pool_run m w Hactive) as (array & lines & Hrun & Hlength & Hc & Hs).
    exists (reset array m), lines.
    split; [|by split].
    rewrite Htrue.
    erewrite fn_bind_val; [|exact Hrun].
    rewrite clear_calls_unloaded; [done|].
    apply Forall_forall. intros d Hd.
    apply list_elem_of_lookup_1 in Hd as [idx Hd].
    apply lookup_take_Some in Hd as [Hd Hidx].
    destruct (NeuronDevice.num_executable d) eqn:Hn; [done|].
    exfalso. apply Hnone. exists idx, d. split; [done|]. split; [done|]. lia.
Qed.

(** *** initialize, and apply_for_device on a pool that is not ready *)

Lemma keeps_device_array_at {A T} (f : NeuronDeviceManager -> T) idx
    (method : M NeuronDevice A) :
  (forall a m, f (set_device_array_ a m) = f m) -> keeps f (device_array_at idx method).
Proof. intros H. unfold device_array_at. apply keeps_zoom. intros d m. apply H. Qed.

Lemma keeps_init_devices_loop {T} (f : NeuronDeviceManager -> T) plan :
  (forall a m, f (set_device_array_ a m) = f m) ->
  (forall n m, f (set_num_devices_ n m) = f m) ->
  forall idx status, keeps f (init_devices_loop plan idx status).
Proof.
  intros Ha Hn. induction plan as [|n plan IH]; intros idx status; simpl.
  - apply keeps_ret.
  - apply keeps_bind; [apply keeps_get|]. intros m.
    apply keeps_bind; [by apply keeps_device_array_at|]. intros st.
    destruct (negb (ok st)).
    + keeps_auto.
    + apply keeps_bind; [apply keeps_modify; intros; apply Hn|]. intros _. apply IH.
Qed.

Lemma keeps_init_devices {T} (f : NeuronDeviceManager -> T) plan :
  (forall a m, f (set_device_array_ a m) = f m) ->
  (forall n m, f (set_num_devices_ n m) = f m) ->
  keeps f (init_devices plan).
Proof.
  intros Ha Hn. unfold init_devices. apply keeps_fn.
  apply keeps_bind; [by apply keeps_init_devices_loop|]. intros status. keeps_auto.
Qed.

Lemma keeps_search_largest {T} (f : NeuronDeviceManager -> T) fuel :
  (forall a m, f (set_device_array_ a m) = f m) ->
  (forall n m, f (set_num_devices_ n m) = f m) ->
  forall num_cores status, keeps f (search_largest fuel num_cores status).
Proof.
  intros Ha Hn. induction fuel as [|fuel IH]; intros num_cores status;
    cbn [search_largest]; destruct (MIN_NUM_CORES <=? num_cores);
    try apply keeps_ret; try apply keeps_undefined.
  apply keeps_bind; [apply keeps_get|]. intros m.
  apply keeps_bind; [by apply keeps_device_array_at|]. intros st.
  destruct (ok st); [|apply IH].
  apply keeps_bind; [apply keeps_modify; intros; apply Hn|]. intros _. apply keeps_return.
Qed.

Lemma keeps_init_default_device {T} (f : NeuronDeviceManager -> T) opt_device_size :
  (forall a m, f (set_device_array_ a m) = f m) ->
  (forall n m, f (set_num_devices_ n m) = f m) ->
  keeps f (init_default_device opt_device_size).
Proof.
  intros Ha Hn. unfold init_default_device. apply keeps_fn.
  destruct ((opt_device_size <? 0) || (opt_device_size >? 64)).
  - apply keeps_bind; [apply keeps_get|]. intros m.
    apply keeps_bind; [by apply keeps_device_array_at|]. intros st.
    apply keeps_bind; [apply keeps_modify; intros; apply Hn|]. intros _. apply keeps_return.
  - apply keeps_bind; [|intros _; apply keeps_ret].
    destruct (opt_device_size =? 1);
      [apply keeps_TF_RETURN_IF_ERROR; by apply keeps_init_devices|].
    destruct (opt_device_size =? 2);
      [apply keeps_TF_RETURN_IF_ERROR; by apply keeps_init_devices|].
    apply keeps_bind; [by apply keeps_search_largest|]. intros st.
    apply keeps_bind; [apply keeps_modify; intros; apply Hn|]. intros _. apply keeps_return.
Qed.

Lemma keeps_init_stub {St T} (f : St -> T) (set_stub : option Stub -> St -> St) addr :
  (forall stub st, f (set_stub stub st) = f st) -> keeps f (init_stub set_stub addr).
Proof. intros H. unfold init_stub. keeps_auto. Qed.

(** An attempt does not leave the function that makes it. *)
Lemma attempt_no_return idx addr num_cores_req m w s m' w' :
  device_array_at idx (NeuronDevice.initialize NERR_OK NRT_INVALID_NN_ID addr num_cores_req)
    m w <> (Return s, m', w').
Proof.
  unfold device_array_at, zoom. destruct (device_array_ m !! idx) as [d|]; [|done].
  destruct (NeuronDevice.initialize _ _ _ _ d w) as [[[st|st|] d'] w1] eqn:Hrun; try done.
  unfold NeuronDevice.initialize in Hrun. by apply fn_no_return in Hrun.
Qed.

(** The loop of [init_devices] never takes a group away, and its status is
    OK only when it has added one. *)
Lemma init_devices_loop_counts plan : forall idx status m w,
  match init_devices_loop plan idx status m w with
  | (Val s, m', _) =>
      (num_devices_ m <= num_devices_ m')%nat
      /\ (ok s = true -> ok status = true \/ (num_devices_ m < num_devices_ m')%nat)
  | (Return _, _, _) => False
  | (Undefined, _, _) => True
  end.
Proof.
  induction plan as [|n plan IH]; intros idx status m w.
  - simpl. split; [lia | by left].
  - cbn [init_devices_loop]. erewrite bind_val; [|reflexivity].
    pose proof (keeps_device_array_at num_devices_ idx
                  (NeuronDevice.initialize NERR_OK NRT_INVALID_NN_ID (nrtd_address_ m) n)
                  (fun _ _ => eq_refl) m w) as Hkeeps.
    unfold mbind at 1, M_bind at 1, bind at 1.
    destruct (device_array_at idx _ m w) as [[[st|st|] m1] w1] eqn:Hattempt;
      simpl in Hkeeps.
    + destruct (ok st) eqn:Hok; cbn [negb].
      * erewrite bind_val; [|reflexivity].
        specialize (IH (S idx) st (set_num_devices_ (S (num_devices_ m1)) m1) w1).
        destruct (init_devices_loop plan (S idx) st _ w1) as [[[s|s|] m'] w']; [|done|done].
        simpl in IH. destruct IH as [Hle Hs]. split; [lia|]. intros _. right. lia.
      * erewrite bind_val; [|reflexivity]. cbn [ret].
        split; [lia|]. intros Hst. congruence.
    + by apply attempt_no_return in Hattempt.
    + done.
Qed.

(** What the functions that set the groups up have in common: the cursor
    and the readiness are left alone, and an OK result comes with an active
    group. *)
Definition sets_up (setup : M NeuronDeviceManager Status) : Prop :=
  forall m w,
    match setup m w with
    | (Val s, m', _) =>
        ready_ m' = ready_ m /\ device_index_ m' = device_index_ m
        /\ (ok s = true -> s = OK /\ (0 < num_devices_ m')%nat)
    | (Return _, _, _) => False
    | (Undefined, _, _) => True
    end.

Lemma init_devices_sets_up plan : sets_up (init_devices plan).
Proof.
  intros m w.
  pose proof (keeps_init_devices ready_ plan (fun _ _ => eq_refl) (fun _ _ => eq_refl) m w)
    as Hready.
  pose proof (keeps_init_devices device_index_ plan (fun _ _ => eq_refl) (fun _ _ => eq_refl)
                m w) as Hindex.
  revert Hready Hindex. unfold init_devices, fn.
  unfold mbind, M_bind, bind.
  pose proof (init_devices_loop_counts plan 0 no_group m w) as Hloop.
  destruct (init_devices_loop plan 0 no_group m w) as [[[s|s|] m'] w']; [|done|done].
  destruct Hloop as [Hle Hs]. unfold get. cbv beta iota.
  destruct (0 =? num_devices_ m')%nat eqn:Hz; cbn; intros Hready Hindex.
  - split; [done|]. split; [done|]. intros Hok.
    destruct (Hs Hok) as [Hno | Hlt]; [done|].
    split; [by destruct s | lia].
  - split; [done|]. split; [done|]. intros _. apply Nat.eqb_neq in Hz. split; [done | lia].
Qed.

Lemma search_largest_counts fuel : forall num_cores status m w,
  match search_largest fuel num_cores status m w with
  | (Val s, _, _) => ok s = true -> ok status = true
  | (Return s, m', _) => ok s = true /\ num_devices_ m' = 1%nat
  | (Undefined, _, _) => True
  end.
Proof.
  induction fuel as [|fuel IH]; intros num_cores status m w;
    cbn [search_largest]; destruct (MIN_NUM_CORES <=? num_cores); try done; try (by cbn).
  erewrite bind_val; [|reflexivity].
  unfold mbind at 1, M_bind at 1, bind at 1.
  destruct (device_array_at 0 _ m w) as [[[st|st|] m1] w1] eqn:Hattempt.
  - destruct (ok st) eqn:Hok.
    + erewrite bind_val; [|reflexivity]. by cbn.
    + specialize (IH (num_cores - 1) st m1 w1).
      destruct (search_largest fuel (num_cores - 1) st m1 w1) as [[[s|s|] m'] w'];
        [|done|done].
      intros Hs. apply IH in Hs. congruence.
  - by apply attempt_no_return in Hattempt.
  - done.
Qed.

Lemma init_default_device_sets_up opt_device_size :
  sets_up (init_default_device opt_device_size).
Proof.
  intros m w.
  pose proof (keeps_init_default_device ready_ opt_device_size
                (fun _ _ => eq_refl) (fun _ _ => eq_refl) m w) as Hready.
  pose proof (keeps_init_default_device device_index_ opt_device_size
                (fun _ _ => eq_refl) (fun _ _ => eq_refl) m w) as Hindex.
  revert Hready Hindex. unfold init_default_device.
  destruct ((opt_device_size <? 0) || (opt_device_size >? 64)).
  - erewrite fn_bind_val; [|reflexivity].
    unfold fn, mbind, M_bind, bind.
    destruct (device_array_at 0 _ m w) as [[[st|st|] m1] w1] eqn:Hattempt.
    + cbn. intros Hready Hindex. split; [done|]. split; [done|].
      intros Hok. rewrite Hok. split; [by destruct st | lia].
    + by apply attempt_no_return in Hattempt.
    + done.
  - destruct (opt_device_size =? 1).
    { rewrite fn_first. pose proof (init_devices_sets_up [1; 1; 1; 1] m w) as Hsets.
      destruct (init_devices [1; 1; 1; 1] m w) as [[[s|s|] m'] w']; [|done|done].
      destruct Hsets as (_ & _ & Hs). destruct (ok s) eqn:Hok; cbn.
      - intros Hready Hindex. split; [done|]. split; [done|]. intros _.
        split; [done|]. by apply Hs.
      - intros Hready Hindex. split; [done|]. split; [done|]. intros Hs'. congruence. }
    destruct (opt_device_size =? 2).
    { rewrite fn_first. pose proof (init_devices_sets_up [2; 2] m w) as Hsets.
      destruct (init_devices [2; 2] m w) as [[[s|s|] m'] w']; [|done|done].
      destruct Hsets as (_ & _ & Hs). destruct (ok s) eqn:Hok; cbn.
      - intros Hready Hindex. split; [done|]. split; [done|]. intros _.
        split; [done|]. by apply Hs.
      - intros Hready Hindex. split; [done|]. split; [done|]. intros Hs'. congruence. }
    rewrite bind_assoc_fn.
    pose proof (search_largest_counts
                  (Z.to_nat (opt_device_size - MIN_NUM_CORES + 1)) opt_device_size
                  no_group m w) as Hsearch.
    unfold fn, mbind, M_bind, bind.
    destruct (search_largest _ opt_device_size no_group m w) as [[[s|s|] m'] w'].
    + cbn. intros Hready Hindex. split; [done|]. split; [done|].
      intros Hok. by apply Hsearch in Hok.
    + cbn. intros Hready Hindex. split; [done|]. split; [done|].
      intros _. destruct Hsearch as [Hok ->]. split; [by destruct s | lia].
    + done.
Qed.

(** [initialize] sets the pool ready when it returns OK, with an active
    group, and leaves the readiness alone otherwise; it never moves the
    cursor. *)
Lemma initialize_settles opt_device_size m w :
  match initialize opt_device_size m w with
  | (Val s, m', _) =>
      device_index_ m' = device_index_ m
      /\ (ok s = true -> s = OK /\ ready_ m' = true /\ (0 < num_devices_ m')%nat)
      /\ (ok s = false -> ready_ m' = ready_ m)
  | (Return _, _, _) => False
  | (Undefined, _, _) => True
  end.
Proof.
  unfold initialize.
  erewrite fn_bind_val; [|reflexivity].
  match goal with |- context [fn (?a ≫= ?k) ?st ?w0] =>
    assert (Hpath : exists ma wa, a st w0 = (Val tt, ma, wa)
                      /\ ready_ ma = ready_ st /\ device_index_ ma = device_index_ st)
      by (destruct (path_set_ m); eexists _, _; (split; [reflexivity | done]))
  end.
  destruct Hpath as (ma & wa & Hpath & Hra & Hia).
  erewrite fn_bind_val; [|exact Hpath].
  erewrite fn_bind_val; [|reflexivity].
  erewrite fn_bind_val; [|reflexivity].
  rewrite fn_first.
  match goal with |- context [init_stub set_stub_ ?addr ?st ?w0] =>
    pose proof (keeps_init_stub ready_ set_stub_ addr (fun _ _ => eq_refl) st w0) as Hrs;
    pose proof (keeps_init_stub device_index_ set_stub_ addr (fun _ _ => eq_refl) st w0)
      as His;
    destruct (init_stub set_stub_ addr st w0) as [[[s0|s0|] mb] wb] eqn:Hstub
  end; simpl in Hrs, His.
  2:{ unfold init_stub in Hstub. by apply fn_no_return in Hstub. }
  2:{ done. }
  destruct (ok s0) eqn:Hs0.
  2:{ split; [congruence|]. split; [congruence|]. intros _. congruence. }
  erewrite fn_bind_val; [|reflexivity].
  match goal with |- context [fn (?a ≫= ?k) ?st ?w0] =>
    assert (Hsetup : exists setup wc,
              sets_up setup
              /\ fn (a ≫= k) st w0 = fn (TF_RETURN_IF_ERROR setup ≫= k) st wc)
  end.
  { destruct (bool_decide _).
    - eexists _, _. split; [apply init_default_device_sets_up | reflexivity].
    - cbv zeta. destruct (parse_group_sizes _ _ _) as [num_cores_req_vector ill_formatted].
      rewrite bind_assoc_fn.
      destruct ill_formatted; (erewrite fn_bind_val; [|reflexivity]);
        destruct (bool_decide _); eexists _, _;
        (split; [|reflexivity]);
        (apply init_default_device_sets_up || apply init_devices_sets_up). }
  destruct Hsetup as (setup & wc & Hsetup & ->).
  rewrite fn_first. specialize (Hsetup mb wc).
  destruct (setup mb wc) as [[[s|s|] m'] w']; [|done|done].
  destruct Hsetup as (Hr & Hi & Hs).
  destruct (ok s) eqn:Hok.
  - destruct (Hs eq_refl) as [-> Hpos].
    change (fn (modify (set_ready_ true) ≫= λ _ : (), ret OK) m' w')
      with (Val OK, set_ready_ true m', w').
    cbn. split; [congruence|]. split; [done | intros [=]].
  - split; [congruence|]. split; [intros Hs'; congruence | intros _; congruence].
Qed.

(** X15.  When [initialize] returns, the pool is ready exactly when the
    result is OK, and then at least one group is active; with an error the
    readiness is what it was.  The cursor is where it was in both cases. *)
Theorem initialize_ready opt_device_size m w s m' w' :
  initialize opt_device_size m w = (Val s, m', w') ->
  device_index_ m' = device_index_ m
  /\ (s = OK \/ ok s = false)
  /\ (s = OK -> ready_ m' = true /\ (0 < num_devices_ m')%nat)
  /\ (s <> OK -> ready_ m' = ready_ m).
Proof.
  intros Hrun. pose proof (initialize_settles opt_device_size m w) as H.
  rewrite Hrun in H. destruct H as (Hindex & Hok & Herr).
  split; [done|]. destruct s as [|code msg].
  - split; [by left|]. split; [intros _; by apply Hok | done].
  - split; [by right|]. split; [done | intros _; by apply Herr].
Qed.

(** X16.  [apply_for_device] on a pool that is not ready runs [initialize]
    first.  When that fails, [apply_for_device] returns the same error,
    hands out no group and leaves the pool as [initialize] left it, not
    ready, so that the next call tries again.  When it succeeds the pool is
    ready, the group under the cursor is handed out and the cursor moves on;
    with the cursor at 0 the group handed out is an active one. *)
Theorem apply_for_device_not_ready opt_device_size m w s m1 w1 :
  ready_ m = false ->
  initialize opt_device_size m w = (Val s, m1, w1) ->
  (s <> OK ->
     apply_for_device opt_device_size m w = (Val (s, None), m1, w1)
     /\ ready_ m1 = false)
  /\ (s = OK ->
        apply_for_device opt_device_size m w
        = (Val (OK, Some (device_index_ m)),
           set_device_index_
             (if (num_devices_ m1 <=? S (device_index_ m))%nat then 0%nat
              else S (device_index_ m)) m1,
           w1)
        /\ ready_ m1 = true
        /\ (device_index_ m = 0%nat -> (device_index_ m < num_devices_ m1)%nat)).
Proof.
  intros Hready Hrun. pose proof (initialize_settles opt_device_size m w) as H.
  rewrite Hrun in H. destruct H as (Hindex & Hok & Herr).
  assert (Hunfold : apply_for_device opt_device_size m w
            = fn_out (TF_RETURN_IF_ERROR (initialize opt_device_size);;
                      m ← get;
                      let device := device_index_ m in
                      modify (set_device_index_ (S (device_index_ m)));;
                      m ← get;
                      (if (num_devices_ m <=? device_index_ m)%nat
                       then modify (set_device_index_ 0)
                       else ret tt);;
                      ret device) m w).
  { unfold apply_for_device, fn_out, mbind, M_bind, bind, get. by rewrite Hready. }
  rewrite Hunfold. unfold fn_out, TF_RETURN_IF_ERROR.
  rewrite bind_assoc. erewrite bind_val; [|exact Hrun]. cbv beta.
  destruct s as [|code msg].
  - split; [done|]. intros _. destruct (Hok eq_refl) as (_ & Hr & Hpos).
    split.
    { unfold mbind, M_bind, bind, get, modify, ret. cbn. rewrite Hindex.
      by destruct (num_devices_ m1 <=? S (device_index_ m))%nat. }
    split; [done|]. intros ->. done.
  - split; [|done]. intros _. split; [reflexivity|]. rewrite Herr by done. done.
Qed.

End Methods.

(** A pool of four devices that were never initialized, and a daemon that
    creates one group and refuses the next ones. *)
Definition blank_device : NeuronDevice :=
  {| NeuronDevice.nrtd_address_ := ""; NeuronDevice.stub_ := None;
     NeuronDevice.num_cores_ := 0; NeuronDevice.eg_id_ := 0;
     NeuronDevice.create_eg_done_ := false; NeuronDevice.running_nn_id_ := 0;
     NeuronDevice.nn_id_set_ := ∅ |}.

Definition blank_pool : NeuronDeviceManager :=
  {| nrtd_address_ := "unix:/run/neuron.sock"; stub_ := Some "unix:/run/neuron.sock";
     device_array_ := replicate 4 blank_device;
     num_devices_ := 0; device_index_ := 0; ready_ := false; path_set_ := false |}.

Definition is_create_eg (c : call) : bool :=
  match c with create_eg _ => true | _ => false end.

(** The daemon creates [groups] groups and refuses the ones after. *)
Definition creates (groups : nat) : World :=
  fresh_world (fun history c =>
    if is_create_eg c && (groups <=? count is_create_eg history)%nat
    then failed_reply
    else plain_reply 0 0).

(** The scenario of the specification: the plan [2, 2] with the second
    creation failing leaves one active group, and the result is OK. *)
Example init_devices_2_2_second_fails :
  let '(st, m', w') := init_devices 0 0 [2; 2] blank_pool (creates 1) in
  st = Val OK /\ num_devices_ m' = 1%nat
  /\ requested (calls w') = [Some 2; Some 2]
  /\ NeuronDevice.create_eg_done_ <$> device_array_ m' = [true; false; false; false].
Proof. vm_compute. repeat split. Qed.

(** With no creation succeeding the first attempt is the only one, and its
    error is the result. *)
Example init_devices_2_2_none :
  let '(st, m', w') := init_devices 0 0 [2; 2] blank_pool (creates 0) in
  st = Val (Error INTERNAL
              "nrt::create_eg failed with grpc status code 2, nrt status code 1")
  /\ num_devices_ m' = 0%nat /\ requested (calls w') = [Some 2].
Proof. vm_compute. repeat split. Qed.

(** The scenario again, from the theorem alone: the first attempt returns
    OK and the second does not, so one group is active and the result is
    OK. *)
Lemma init_devices_plan_witness :
  exists m' w',
    init_devices 0 0 [2; 2] blank_pool (creates 1) = (Val OK, m', w')
    /\ num_devices_ m' = 1%nat.
Proof.
  destruct (init_devices_plan 0 0 [2; 2] blank_pool (creates 1))
    as (k & st & m' & w' & made & Hrun & _ & Hk & Hle & _ & _ & _ & _ & Hok & _ & _
        & Hsucceed & Hstops).
  - reflexivity.
  - simpl. lia.
  - assert (Hone : k = 1%nat).
    { destruct k as [|[|[|k]]]; [| done | |simpl in Hle; lia].
      - destruct (Hstops 2 eq_refl) as (failure & Hmade & Hne & _).
        vm_compute in Hmade. congruence.
      - specialize (Hsucceed 1%nat 2 ltac:(lia) eq_refl).
        vm_compute in Hsucceed. discriminate Hsucceed. }
    subst k. exists m', w'. split; [|done].
    rewrite Hrun. f_equal. f_equal. f_equal. apply Hok. lia.
Defined.

(** A pool that is ready with three active groups. *)
Definition ready_pool : NeuronDeviceManager :=
  set_ready_ true (set_num_devices_ 3 blank_pool).

(** Seven calls in a row: the groups 0 1 2 0 1 2 0. *)
Example apply_for_device_seven_calls :
  handed_out 0 0 64 1 1 (fun _ _ _ => 0%nat) 7 0 ready_pool (creates 0)
  = (fun g => Val (OK, Some g)) <$> [0; 1; 2; 0; 1; 2; 0]%nat.
Proof. vm_compute. reflexivity. Qed.

Lemma round_robin_witness :
  handed_out 0 0 64 1 1 (fun _ _ _ => 0%nat) 7 0 ready_pool (creates 0)
  = map (fun k => Val (OK, Some (k mod 3)%nat)) (seq 0 7).
Proof.
  apply (round_robin 0 0 64 1 1 (fun _ _ _ => 0%nat) 7 0 ready_pool (creates 0));
    [reflexivity | simpl; lia | reflexivity].
Defined.

(** A daemon with [cores] cores free: it creates a group of at most that many
    cores and refuses a larger one. *)
Definition fits (cores : Z) : World :=
  fresh_world (fun history c =>
    match c with
    | create_eg (Some n) => if cores <? n then failed_reply else plain_reply 0 0
    | _ => plain_reply 0 0
    end).

(** A budget of 8 on a daemon that creates no group: with the least size 1
    the search asks for 8, 7, 6, 5, 4, 3, 2 and 1 cores, each size in turn,
    and returns the error of the last attempt. *)
Example init_default_device_8_none :
  let '(st, m', w') := init_default_device 0 0 1 1 8 blank_pool (creates 0) in
  st = Val (Error INTERNAL
              "nrt::create_eg failed with grpc status code 2, nrt status code 1")
  /\ num_devices_ m' = 0%nat
  /\ requested (calls w')
     = [Some 8; Some 7; Some 6; Some 5; Some 4; Some 3; Some 2; Some 1].
Proof. vm_compute. repeat split. Qed.

(** A budget of 5 with 3 cores free: 5 and 4 are refused, 3 is kept. *)
Example init_default_device_5_fits_3 :
  let '(st, m', w') := init_default_device 0 0 1 1 5 blank_pool (fits 3) in
  st = Val OK /\ num_devices_ m' = 1%nat
  /\ requested (calls w') = [Some 5; Some 4; Some 3]
  /\ NeuronDevice.create_eg_done_ <$> device_array_ m' = [true; false; false; false].
Proof. vm_compute. repeat split. Qed.

(** The search is not a binary search: for the budget 8 and the least size 1
    a binary search makes at most 4 attempts, and the search makes 8. *)
Lemma search_is_not_binary :
  ~ search_as_specified 0 0 1 1 8 blank_pool (creates 0).
Proof.
  unfold search_as_specified. intros Htries. vm_compute in Htries. lia.
Qed.

Lemma default_plan_witness :
  exists trace m' w',
    searched 0 0 (sizes_down 1 5) blank_pool (fits 3) trace
    /\ length trace = 3%nat
    /\ init_default_device 0 0 1 1 5 blank_pool (fits 3)
       = (Val OK, set_num_devices_ 1 m', w').
Proof.
  destruct (default_plan 0 0 1 1 5 blank_pool (fits 3)) as (_ & _ & Hsearch).
  - lia.
  - simpl. lia.
  - destruct Hsearch
      as (trace & st & m' & w' & made & Hsearched & _ & Hw' & Hcount & Hrun & _);
      [lia | lia |].
    assert (Hfacts :
      (init_default_device 0 0 1 1 5 blank_pool (fits 3)).1.1 = Val OK
      /\ count is_channel (calls (init_default_device 0 0 1 1 5 blank_pool (fits 3)).2)
         = 3%nat)
      by (vm_compute; split; reflexivity).
    rewrite Hrun in Hfacts. destruct Hfacts as [Hst Htries].
    injection Hst as ->. subst w'. unfold extend in Htries. simpl in Htries.
    exists trace, m', (extend (fits 3) made).
    split; [exact Hsearched|]. split; [congruence | exact Hrun].
Defined.

(** A process with [NEURONCORE_GROUP_SIZES] set to [raw], and a daemon that
    creates [groups] groups. *)
Definition configured (raw : string) (groups : nat) : World :=
  {| oracle := oracle (creates groups); calls := []; logged := [];
     environ := {["NEURONCORE_GROUP_SIZES" := raw]} |}.

(** The list without brackets: four groups of one core. *)
Example initialize_1_1_1_1 :
  let '(st, m', w') :=
    initialize 0 0 64 1 1 (fun _ _ _ => 0%nat) 4 blank_pool (configured "1,1,1,1" 4) in
  st = Val OK /\ num_devices_ m' = 4%nat /\ ready_ m' = true
  /\ requested (calls w') = [Some 1; Some 1; Some 1; Some 1].
Proof. vm_compute. repeat split. Qed.

(** The list in brackets.  When each read of [pos] before it has a value
    yields 0 the brackets are taken out and the groups are the same four. *)
Example initialize_bracketed_from_0 :
  let '(st, m', w') :=
    initialize 0 0 64 1 1 (fun _ _ _ => 0%nat) 4 blank_pool (configured "[1,1,1,1]" 4) in
  st = Val OK /\ num_devices_ m' = 4%nat /\ ready_ m' = true
  /\ requested (calls w') = [Some 1; Some 1; Some 1; Some 1].
Proof. vm_compute. repeat split. Qed.

(** When the read yields 1 the search for the opening bracket starts after
    it: the bracket stays, the first entry does not parse, and the default
    plan is run, here the search from 4 cores down. *)
Example initialize_bracketed_from_1 :
  let '(st, m', w') :=
    initialize 0 0 64 1 1 (fun _ _ _ => 1%nat) 4 blank_pool (configured "[1,1,1,1]" 4) in
  st = Val OK /\ num_devices_ m' = 1%nat /\ ready_ m' = true
  /\ requested (calls w') = [Some 4]
  /\ logged w' = [ill_formatted_line "[1,1,1,1]"].
Proof. vm_compute. repeat split. Qed.

(** A list of commas alone has no entry that is not valid, and is not used:
    the default plan is run. *)
Lemma sizing_list_not_as_specified :
  resolved_plan 64 (fun _ _ _ => 0%nat) "," <> sizing_list_as_specified ",".
Proof. vm_compute. discriminate. Qed.

Example initialize_commas_alone :
  let '(st, m', w') :=
    initialize 0 0 64 1 1 (fun _ _ _ => 0%nat) 4 blank_pool (configured "," 4) in
  st = Val OK /\ num_devices_ m' = 1%nat /\ requested (calls w') = [Some 4]
  /\ logged w' = [].
Proof. vm_compute. repeat split. Qed.

(** What comes after the fields that are read is not looked at: with two
    fields read, the third entry does not parse and the first two are used. *)
Example sizing_list_past_the_limit :
  resolved_plan 2 (fun _ _ _ => 0%nat) "1,1,x" = Some [1; 1]
  /\ sizing_list_as_specified "1,1,x" = None.
Proof. vm_compute. by split. Qed.

(** Six calls on a pool that was never initialized: the first one
    initializes the four groups of the list, and the groups handed out are
    0 1 2 3 0 1. *)
Example apply_for_device_from_scratch :
  handed_out 0 0 64 1 1 (fun _ _ _ => 0%nat) 6 4 blank_pool (configured "1,1,1,1" 4)
  = (fun g => Val (OK, Some g)) <$> [0; 1; 2; 3; 0; 1]%nat.
Proof. vm_compute. reflexivity. Qed.

Lemma sizing_list_resolved_witness :
  resolved_plan 64 (fun _ _ _ => 0%nat) "1,1,1,1" = Some [1; 1; 1; 1].
Proof.
  destruct (sizing_list_resolved 0 0 64 1 1 (fun _ _ _ => 0%nat) "1,1,1,1" 4
              blank_pool (configured "1,1,1,1" 4)) as (Hvec & _ & _).
  - discriminate.
  - reflexivity.
  - reflexivity.
  - vm_compute. reflexivity.
  - reflexivity.
  - reflexivity.
  - apply Hvec. split; vm_compute; reflexivity.
Defined.

(** Two pools that are ready with two active groups, both created: in the
    first the models 5 and 7 are loaded on group 1 and model 5 is running; in
    the second no model is loaded. *)
Definition idle_group (eg_id : Z) : NeuronDevice :=
  {| NeuronDevice.nrtd_address_ := "unix:/run/neuron.sock";
     NeuronDevice.stub_ := Some "unix:/run/neuron.sock";
     NeuronDevice.num_cores_ := 2; NeuronDevice.eg_id_ := eg_id;
     NeuronDevice.create_eg_done_ := true; NeuronDevice.running_nn_id_ := 0;
     NeuronDevice.nn_id_set_ := ∅ |}.

Definition pool_of (groups : list NeuronDevice) : NeuronDeviceManager :=
  {| nrtd_address_ := "unix:/run/neuron.sock"; stub_ := Some "unix:/run/neuron.sock";
     device_array_ := groups ++ [blank_device; blank_device];
     num_devices_ := length groups; device_index_ := 1; ready_ := true; path_set_ := true |}.

Definition pool_with_models : NeuronDeviceManager :=
  pool_of [NeuronDevice.group_loaded_5_7; idle_group 2].

Definition pool_without_models : NeuronDeviceManager :=
  pool_of [idle_group 1; idle_group 2].

Lemma pool_of_two_active d1 d2 :
  is_Some (NeuronDevice.stub_ d1) -> is_Some (NeuronDevice.stub_ d2) ->
  active_with_stub (pool_of [d1; d2]).
Proof.
  intros H1 H2. split; [simpl; lia|].
  intros [|[|idx]] d Hidx Hd; simpl in *; [by injection Hd as <- ..|lia].
Qed.

(** [clear] on the first pool: group 1 stops and unloads its models and is
    destroyed, then group 2 is destroyed. *)
Example clear_two_groups :
  calls (clear 0 0 pool_with_models NeuronDevice.agrees).2
  = [stop 5; Nrt.unload 5; Nrt.unload 7; destroy_eg 1; destroy_eg 2].
Proof. vm_compute. reflexivity. Qed.

Lemma clear_resets_witness :
  exists m',
    (clear 0 0 pool_with_models NeuronDevice.agrees).1 = (Val tt, m')
    /\ (num_devices_ m', device_index_ m', ready_ m') = (0%nat, 0%nat, false)
    /\ forall w', clear 0 0 m' w' = (Val tt, m', w').
Proof.
  destruct (clear_resets 0 0 pool_with_models NeuronDevice.agrees)
    as (m' & lines & Hrun & Hreset & _ & _ & _ & _ & Hagain).
  { apply pool_of_two_active; by eexists. }
  exists m'. by rewrite Hrun.
Defined.

Lemma clear_if_empty_cases_witness :
  clear_if_empty 0 0 pool_with_models NeuronDevice.agrees
  = (Val OK, pool_with_models, NeuronDevice.agrees)
  /\ exists m' lines,
       clear_if_empty 0 0 pool_without_models NeuronDevice.agrees
       = (Val OK, m', advance NeuronDevice.agrees [destroy_eg 1; destroy_eg 2] lines)
       /\ ready_ m' = false.
Proof.
  split.
  - apply (clear_if_empty_cases 0 0 pool_with_models NeuronDevice.agrees).
    + apply pool_of_two_active; by eexists.
    + exists 0%nat, NeuronDevice.group_loaded_5_7.
      split; [simpl; lia|]. split; [reflexivity|]. vm_compute. discriminate.
  - destruct (clear_if_empty_cases 0 0 pool_without_models NeuronDevice.agrees)
      as [_ Hclears].
    { apply pool_of_two_active; by eexists. }
    destruct Hclears as (m' & lines & Hrun & Hreset & _).
    { intros (idx & d & Hidx & Hd & Hne).
      destruct idx as [|[|idx]]; simpl in *; [| |lia];
        injection Hd as <-; by apply Hne. }
    exists m', lines. split; [exact Hrun|]. by injection Hreset.
Defined.

(** A first call when the daemon creates no group: the error of the attempt
    comes back, no group is handed out, and the pool is still not ready. *)
Example apply_for_device_no_group :
  let r := apply_for_device 0 0 64 1 1 (fun _ _ _ => 0%nat) 4 blank_pool
             (configured "1,1,1,1" 0) in
  (exists code msg, r.1.1 = Val (Error code msg, None))
  /\ ready_ r.1.2 = false /\ num_devices_ r.1.2 = 0%nat.
Proof. vm_compute. split; [by eexists _, _ | by split]. Qed.

Lemma initialize_ready_witness :
  let m' := (initialize 0 0 64 1 1 (fun _ _ _ => 0%nat) 4 blank_pool
               (configured "1,1,1,1" 4)).1.2 in
  ready_ m' = true /\ (0 < num_devices_ m')%nat /\ device_index_ m' = 0%nat.
Proof.
  intros m'.
  destruct (initialize_ready 0 0 64 1 1 (fun _ _ _ => 0%nat) 4 blank_pool
              (configured "1,1,1,1" 4) OK m'
              (initialize 0 0 64 1 1 (fun _ _ _ => 0%nat) 4 blank_pool
                 (configured "1,1,1,1" 4)).2)
    as (Hindex & _ & Hok & _); [vm_compute; reflexivity|].
  destruct (Hok eq_refl) as [Hready Hpos]. by repeat split.
Defined.

Lemma apply_for_device_not_ready_witness :
  let failed := initialize 0 0 64 1 1 (fun _ _ _ => 0%nat) 4 blank_pool
                  (configured "1,1,1,1" 0) in
  (exists s, apply_for_device 0 0 64 1 1 (fun _ _ _ => 0%nat) 4 blank_pool
               (configured "1,1,1,1" 0) = (Val (s, None), failed.1.2, failed.2)
             /\ s <> OK)
  /\ ready_ failed.1.2 = false
  /\ (apply_for_device 0 0 64 1 1 (fun _ _ _ => 0%nat) 4 blank_pool
        (configured "1,1,1,1" 4)).1.1 = Val (OK, Some 0%nat).
Proof.
  intros failed.
  assert (Hfailed : exists s, failed = (Val s, failed.1.2, failed.2) /\ s <> OK).
  { vm_compute. eexists. split; [reflexivity | discriminate]. }
  destruct Hfailed as (s & Hfailed & Hs).
  destruct (apply_for_device_not_ready 0 0 64 1 1 (fun _ _ _ => 0%nat) 4 blank_pool
              (configured "1,1,1,1" 0) s failed.1.2 failed.2 eq_refl Hfailed)
    as [Herr _].
  destruct (Herr Hs) as [Hrun Hready].
  split; [by exists s|]. split; [done|].
  destruct (apply_for_device_not_ready 0 0 64 1 1 (fun _ _ _ => 0%nat) 4 blank_pool
              (configured "1,1,1,1" 4) OK
              (initialize 0 0 64 1 1 (fun _ _ _ => 0%nat) 4 blank_pool
                 (configured "1,1,1,1" 4)).1.2
              (initialize 0 0 64 1 1 (fun _ _ _ => 0%nat) 4 blank_pool
                 (configured "1,1,1,1" 4)).2 eq_refl)
    as [_ Hok]; [vm_compute; reflexivity|].
  destruct (Hok eq_refl) as (Hrun' & _). by rewrite Hrun'.
Defined.

End NeuronDeviceManager.
